(* ===== verification/_CoqProject ===== *)
-Q . S2P
Prelude.v
Crc32.v
SparseFormat.v
BackedBlock.v
OutputFile.v
Sparse.v
SparseFacts.v
SparseRead.v
SparseRoundTrip.v
SparseNormal.v
Resparse.v
IOVector.v
LibBase.v
Socket.v
Tcp.v
Udp.v
UdpNet.v
UdpSession.v
AdbIo.v
ShellProtocol.v
AdbPackets.v
AdbEnv.v
AdbSockets.v
AdbMain.v
AdbConn.v
AdbRefine.v
AdbTable.v
AdbSafe.v
AdbScenarios.v
Driver.v
DriverFacts.v
LpFormat.v
LpBuilder.v
LpBuilderFacts.v
LpTable.v
LpExport.v
LpReader.v
LpWriter.v
LpMetadata.v
LpRead.v
LpUpdate.v
LpDevice.v
