(* ===== verification/Prelude.v ===== *)
(** A verification library for the Android platform tools: adb, fastboot, and the
    libraries their core logic lives in.

    * The program

    The package builds two command line programs and their libraries.  fastboot
    flashes partitions of a device in its boot loader: images are turned into
    sparse files (libsparse), cut to the size the device accepts and sent with
    the fastboot protocol (fastboot_driver.cpp) over USB, TCP (tcp.cpp) or UDP
    (udp.cpp); the layout of the partitions inside "super" is a logical partition
    table (liblp).  adb talks to a running device: server and daemon multiplex
    connections over a transport (adb.cpp, transport.cpp), each connection being a
    pair of sockets (sockets.cpp) between a descriptor and the transport; byte
    queues (types.cpp), exact I/O and length-prefixed strings (adb_io.cpp) and the
    packets of the shell service (shell_service_protocol.cpp) carry the traffic.

    * Files and sources

    - Prelude: outcomes and the state monad, machine integers, bytes, lists cut by
      integers, the tactics [zbool], [zcases], [mstep], [mred] and the hint
      databases [mach] and [zlen].
    - libsparse (system/core/libsparse): Crc32 (sparse_crc32.cpp), SparseFormat
      (sparse_format.h), BackedBlock (backed_block.cpp), OutputFile
      (output_file.cpp), Sparse (sparse.cpp), SparseRead (sparse_read.cpp); the
      theorems are in the same files and in SparseFacts (writers),
      SparseRoundTrip (readers, round trip), SparseNormal (plain images) and
      Resparse (splitting).
    - adb (packages/modules/adb): IOVector (types.h, types.cpp), AdbIo
      (adb_io.cpp), ShellProtocol (shell_protocol.h, shell_service_protocol.cpp);
      the connection layer in AdbPackets (packets, features, banner, the fields of
      atransport: adb.cpp, transport.cpp), AdbEnv (transports and descriptors of a
      process; client/auth.cpp, daemon/auth.cpp), AdbSockets (sockets.cpp: the heap
      of asockets) and AdbMain (handle_packet and the event loop, written against
      the class [SocketLayer]); AdbConn (the connection table, the abstract
      instance of [SocketLayer]), AdbRefine (sockets implement the table),
      AdbTable and AdbSafe (the invariant of the table, safety of all events),
      AdbScenarios (concrete sessions).
    - libbase: LibBase (parseint.h and the C functions behind it).
    - fastboot (system/core/fastboot): Socket (socket.cpp), Tcp (tcp.cpp), Udp
      (udp.cpp), UdpNet and UdpSession (the UDP transport over a network that
      loses, repeats and reorders packets), Driver and DriverFacts
      (fastboot_driver.cpp).
    - liblp (system/core/fs_mgr/liblp): LpFormat (metadata_format.h, utility.cpp),
      LpBuilder (builder.cpp), LpReader (reader.cpp), LpWriter (writer.cpp); the
      theorems are in LpBuilderFacts (the allocator), LpTable (resizing, the
      invariant over all operations), LpExport (export and import), LpMetadata
      (serialization), LpRead (what accepted tables guarantee; also the
      constructors of a builder from a device), LpUpdate (flashing and updating)
      and LpDevice (end to end).

    * How code is modelled

    A function that can stop the program (assert, CHECK, an access outside a
    buffer or a vector) returns an [outcome]; a function with state is in [M S].
    Return codes and booleans are values, a null pointer or a failed parse is
    [None].  Integers are [Z] with the width written out where the code computes
    ([u32], [u64], [i64], ...).  Abstract classes are type classes or records of
    operations ([output_file_ops], [SparseFileSource], [Socket], [Transport]), and
    what a client relies on is a class with laws ([Sink], [Source],
    [StreamSocket], [StreamFd]) that the implementations discharge.  System calls,
    zlib, SHA256, clocks, properties and callbacks are parameters.

    Loops that are not structural take fuel.  The theorems say what the code
    computes and conclude [Ret], with the fuel given explicitly or bounded by the
    data (the bytes left, the packets of a message, the attempts allowed), so
    running out of fuel cannot satisfy them; where a loop of the sources does not
    end that is a theorem of its own (for every fuel).

    * What the theorems show

    - libsparse: the block list stays sorted and disjoint; the bytes written are
      exactly the header, chunks and gaps of the file and, when asked for, a CRC
      chunk with the writer's running CRC; reading them back gives the same
      contents, from memory or from a descriptor, unless the CRC is checked and the
      writer's differs from that of the contents (it does not for files without
      gaps and without fills of several blocks); for limits of at least eight
      blocks splitting ends and partitions the image into files that fit, and for
      limits with room for less than a block it does not end; the table-driven CRC
      is the polynomial one; where hole detection fails.
    - adb: [IOVector] refines a queue of bytes, [coalesce() &&] as its last
      operation; strings and shell packets arrive as sent over any fragmentation;
      the shell reader stays in its buffer for any input and fails exactly when the
      stream ends before the bytes it needs.  The sockets of a process implement a table of connections; no
      sequence of packets, polls, clients and failing transports uses a deleted
      object or fails a CHECK, except in the situations of [hazard] (AdbSafe), most
      of which AdbScenarios runs through.
    - fastboot: sockets and TCP messages arrive unchanged; over UDP every
      successful write of a session in step is processed exactly once, losses are
      overcome, initialization brings a session in step and a failed write can put it
      out of step; the driver sends exactly the image of a sparse file, reads
      responses as the protocol says; time-out and size checks that do nothing.
    - liblp: resizing never uses a sector twice and keeps the stored data in place;
      for devices whose size and alignment agree all sequences of the operations
      that change a table keep it well formed; a table survives export,
      flashing and reading, sector for sector; an interrupted update leaves a
      readable copy; whatever is on the device, accepted tables have valid indices;
      the inputs for which allocation, reading and flashing go wrong.

    * Not modelled

    Of adb: smart sockets before their request is complete and the host services
    behind them, registration and selection of transports, their threads, fdevent
    below the poll results, the daemon's services and the client commands, pairing
    and TLS; the command line of fastboot
    and its flashing plans, USB, the device side; liblp's image files and super
    layout builder; libziparchive; utility libraries beyond what the modelled code
    calls; vendored code.  Memory allocation succeeds everywhere; log output is
    ignored.

    * Plan

    Next: the bytes of a connection end to end through both adb processes and its
    flow control; host requests of smart sockets; [Transport] instances that join
    the driver with TCP and UDP; liblp images; file sync. *)

From stdpp Require Export prelude list numbers strings.
From Stdlib Require Export Strings.Byte ZArith Lia.

#[global] Set Default Goal Selector "!".
Open Scope Z_scope.

(** * Outcomes of C and C++ code

    A run of the modelled code either returns a value, stops in a failed
    [assert] / [CHECK] / [LOG(FATAL)] or in an out-of-bounds access that the
    model does not follow any further (both [AssertFail]), or (for a model of a
    loop whose recursion is not structural) exhausts the fuel it was given.
    Theorems that say what the code computes always conclude [Ret _], so neither
    of the other two outcomes can satisfy them. *)
Inductive outcome (A : Type) : Type :=
| Ret (a : A)
| AssertFail
| OutOfFuel.
Arguments Ret {A} a.
Arguments AssertFail {A}.
Arguments OutOfFuel {A}.

#[export] Instance outcome_ret : MRet outcome := fun A a => Ret a.
#[export] Instance outcome_bind : MBind outcome := fun A B f m =>
  match m with
  | Ret a => f a
  | AssertFail => AssertFail
  | OutOfFuel => OutOfFuel
  end.

(** [assert(c)] of the C sources: the run stops when [c] is false. *)
Definition c_assert (c : bool) : outcome unit :=
  if c then Ret tt else AssertFail.

(** State passing with outcomes: the shape of every handler that threads a
    struct through calls. *)
Definition M (S A : Type) : Type := S → outcome (A * S).

#[export] Instance M_ret {S} : MRet (M S) := fun A a s => Ret (a, s).
#[export] Instance M_bind {S} : MBind (M S) := fun A B f m s =>
  match m s with
  | Ret (a, s') => f a s'
  | AssertFail => AssertFail
  | OutOfFuel => OutOfFuel
  end.

Definition get {S} : M S S := fun s => Ret (s, s).
Definition put {S} (s : S) : M S unit := fun _ => Ret (tt, s).
Definition modify {S} (f : S → S) : M S unit := fun s => Ret (tt, f s).
Definition out_of_fuel {S A} : M S A := fun _ => OutOfFuel.
Definition m_assert {S} (c : bool) : M S unit :=
  fun s => if c then Ret (tt, s) else AssertFail.
Definition lift {S A} (o : outcome A) : M S A := fun s =>
  match o with
  | Ret a => Ret (a, s)
  | AssertFail => AssertFail
  | OutOfFuel => OutOfFuel
  end.

(** * Machine integers *)

Definition u8 (z : Z) : Z := z mod 2 ^ 8.
Definition u16 (z : Z) : Z := z mod 2 ^ 16.
Definition u32 (z : Z) : Z := z mod 2 ^ 32.
Definition u64 (z : Z) : Z := z mod 2 ^ 64.

(** Conversion to a signed w-bit type (two's complement). *)
Definition sgn (w z : Z) : Z :=
  let r := z mod 2 ^ w in if r <? 2 ^ (w - 1) then r else r - 2 ^ w.
Definition i32 (z : Z) : Z := sgn 32 z.
Definition i64 (z : Z) : Z := sgn 64 z.

Definition INT_MAX : Z := 2147483647.

(** errno values of Linux used by the sources. *)
Definition EIO : Z := 5.
Definition ENXIO : Z := 6.
Definition EAGAIN : Z := 11.
Definition ENOMEM : Z := 12.
Definition EINVAL : Z := 22.
Definition EOVERFLOW : Z := 75.

(** [DIV_ROUND_UP], [ALIGN] and [ALIGN_DOWN] of sparse_defs.h on values whose
    computation does not wrap. *)
Definition DIV_ROUND_UP (x y : Z) : Z := (x + y - 1) / y.
Definition ALIGN (x y : Z) : Z := y * DIV_ROUND_UP x y.
Definition ALIGN_DOWN (x y : Z) : Z := y * (x / y).

(** * Bytes *)

Definition b2z (b : byte) : Z := Z.of_N (Byte.to_N b).
Definition z2b (z : Z) : byte :=
  match Byte.of_N (Z.to_N (z mod 256)) with Some b => b | None => x00 end.

(** Little-endian fixed-width integers, the layout of every struct the sources
    [memcpy] or [write] on the (little-endian) hosts they are built for. *)
Fixpoint le_bytes (n : nat) (z : Z) : list byte :=
  match n with
  | O => []
  | S n => z2b z :: le_bytes n (z / 256)
  end.

Fixpoint le_val (l : list byte) : Z :=
  match l with
  | [] => 0
  | b :: l => b2z b + 256 * le_val l
  end.

Definition be_bytes (n : nat) (z : Z) : list byte := reverse (le_bytes n z).
Definition be_val (l : list byte) : Z := le_val (reverse l).

(** Lists measured and cut by machine integers. *)
Definition zlen {A} (l : list A) : Z := Z.of_nat (length l).
Definition ztake {A} (n : Z) (l : list A) : list A := take (Z.to_nat n) l.
Definition zdrop {A} (n : Z) (l : list A) : list A := drop (Z.to_nat n) l.
Definition zlookup {A} (l : list A) (k : Z) : option A :=
  if k <? 0 then None else l !! Z.to_nat k.
Definition zeros (n : Z) : list byte := replicate (Z.to_nat n) x00.

#[export] Instance byte_eq_dec : EqDecision byte := Byte.byte_eq_dec.
#[export] Instance byte_inhabited : Inhabited byte := populate x00.

(** * Automation *)

Create HintDb mach discriminated.

(** Turns boolean integer tests of the context and the goal into
    propositions. *)
Ltac zbool :=
  repeat match goal with
  | H : (_ <? _) = true |- _ => apply Z.ltb_lt in H
  | H : (_ <? _) = false |- _ => apply Z.ltb_ge in H
  | H : (_ <=? _) = true |- _ => apply Z.leb_le in H
  | H : (_ <=? _) = false |- _ => apply Z.leb_gt in H
  | H : (_ >? _) = _ |- _ => rewrite Z.gtb_ltb in H
  | H : (_ =? _) = true |- _ => apply Z.eqb_eq in H
  | H : (_ =? _) = false |- _ => apply Z.eqb_neq in H
  | H : _ && _ = true |- _ => apply andb_true_iff in H as [? ?]
  | H : _ || _ = false |- _ => apply orb_false_iff in H as [? ?]
  | H : negb _ = true |- _ => apply negb_true_iff in H
  | H : negb _ = false |- _ => apply negb_false_iff in H
  end.

(** Case analysis on every boolean integer test of the goal. *)
Ltac zcases :=
  repeat match goal with
  | |- context [Z.ltb ?a ?b] => destruct (Z.ltb_spec a b)
  | |- context [Z.leb ?a ?b] => destruct (Z.leb_spec a b)
  | |- context [Z.eqb ?a ?b] => destruct (Z.eqb_spec a b)
  | |- context [Z.gtb ?a ?b] => rewrite (Z.gtb_ltb a b)
  end.

Ltac unfold_mach := unfold u8, u16, u32, u64 in *.

(** Symbolic execution of a monadic model up to the next call that is stuck. *)
Ltac mstep :=
  cbn [mbind mret outcome_bind outcome_ret M_bind M_ret get put modify lift
       m_assert c_assert fst snd].

Ltac mred :=
  cbv beta iota zeta delta
    [mbind mret outcome_bind outcome_ret M_bind M_ret get put modify lift
     m_assert c_assert out_of_fuel negb];
  repeat first
    [ progress change (0 <? 0) with false | progress change (0 =? 0) with true
    | progress change (-1 <? 0) with true | progress change (-1 =? 0) with false ];
  cbv beta iota.

(** * Lemmas on machine integers *)

Lemma u8_small z : 0 ≤ z < 2 ^ 8 → u8 z = z.
Proof. apply Z.mod_small. Qed.
Lemma u16_small z : 0 ≤ z < 2 ^ 16 → u16 z = z.
Proof. apply Z.mod_small. Qed.
Lemma u32_small z : 0 ≤ z < 2 ^ 32 → u32 z = z.
Proof. apply Z.mod_small. Qed.
Lemma u64_small z : 0 ≤ z < 2 ^ 64 → u64 z = z.
Proof. apply Z.mod_small. Qed.

Lemma u32_range z : 0 ≤ u32 z < 2 ^ 32.
Proof. apply Z.mod_pos_bound. lia. Qed.
Lemma u64_range z : 0 ≤ u64 z < 2 ^ 64.
Proof. apply Z.mod_pos_bound. lia. Qed.
Lemma u16_range z : 0 ≤ u16 z < 2 ^ 16.
Proof. apply Z.mod_pos_bound. lia. Qed.

Lemma i32_small z : - 2 ^ 31 ≤ z < 2 ^ 31 → i32 z = z.
Proof.
  intros H. unfold i32, sgn. change (32 - 1) with 31.
  destruct (Z.ltb_spec z 0).
  - assert (z mod 2 ^ 32 = z + 2 ^ 32) as ->.
    { symmetry. apply Z.mod_unique with (-1); lia. }
    destruct (Z.ltb_spec (z + 2 ^ 32) (2 ^ 31)); lia.
  - rewrite Z.mod_small by lia. destruct (Z.ltb_spec z (2 ^ 31)); lia.
Qed.

Lemma i64_small z : - 2 ^ 63 ≤ z < 2 ^ 63 → i64 z = z.
Proof.
  intros H. unfold i64, sgn. change (64 - 1) with 63.
  destruct (Z.ltb_spec z 0).
  - assert (z mod 2 ^ 64 = z + 2 ^ 64) as ->.
    { symmetry. apply Z.mod_unique with (-1); lia. }
    destruct (Z.ltb_spec (z + 2 ^ 64) (2 ^ 63)); lia.
  - rewrite Z.mod_small by lia. destruct (Z.ltb_spec z (2 ^ 63)); lia.
Qed.

Lemma div_round_up_bounds x y :
  0 < y → y * DIV_ROUND_UP x y - y < x ≤ y * DIV_ROUND_UP x y.
Proof.
  intros Hy. unfold DIV_ROUND_UP.
  pose proof (Z.div_mod (x + y - 1) y ltac:(lia)).
  pose proof (Z.mod_pos_bound (x + y - 1) y Hy). lia.
Qed.

Lemma div_round_up_mul n y : 0 < y → DIV_ROUND_UP (n * y) y = n.
Proof.
  intros Hy. unfold DIV_ROUND_UP.
  symmetry. apply Z.div_unique with (y - 1); lia.
Qed.

Lemma div_round_up_one x y : 0 < x ≤ y → DIV_ROUND_UP x y = 1.
Proof.
  intros. unfold DIV_ROUND_UP. symmetry. apply Z.div_unique with (x - 1); lia.
Qed.

Lemma div_round_up_0 y : 0 < y → DIV_ROUND_UP 0 y = 0.
Proof. intros. unfold DIV_ROUND_UP. apply Z.div_small. lia. Qed.

Lemma div_round_up_nonneg x y : 0 ≤ x → 0 < y → 0 ≤ DIV_ROUND_UP x y.
Proof. intros. unfold DIV_ROUND_UP. apply Z.div_pos; lia. Qed.

Lemma div_round_up_pos x y : 0 < x → 0 < y → 0 < DIV_ROUND_UP x y.
Proof.
  intros. pose proof (div_round_up_bounds x y ltac:(lia)). nia.
Qed.

Lemma div_round_up_mono a b y : 0 < y → a ≤ b → DIV_ROUND_UP a y ≤ DIV_ROUND_UP b y.
Proof. intros. unfold DIV_ROUND_UP. apply Z.div_le_mono; lia. Qed.

Lemma div_round_up_le x y n : 0 < y → x ≤ n * y → DIV_ROUND_UP x y ≤ n.
Proof.
  intros Hy Hx. pose proof (div_round_up_bounds x y Hy). nia.
Qed.

Lemma div_round_up_add_mul x n y :
  0 < y → DIV_ROUND_UP (x + n * y) y = DIV_ROUND_UP x y + n.
Proof.
  intros. unfold DIV_ROUND_UP.
  replace (x + n * y + y - 1) with (x + y - 1 + n * y) by lia.
  apply Z.div_add; lia.
Qed.

Lemma align_down_bounds x y : 0 < y → ALIGN_DOWN x y ≤ x < ALIGN_DOWN x y + y.
Proof.
  intros Hy. unfold ALIGN_DOWN.
  pose proof (Z.div_mod x y ltac:(lia)). pose proof (Z.mod_pos_bound x y Hy). lia.
Qed.

(** * Lemmas on bytes *)

Lemma b2z_range b : 0 ≤ b2z b < 256.
Proof.
  unfold b2z. pose proof (Byte.to_N_bounded b). lia.
Qed.

Lemma z2b_b2z b : z2b (b2z b) = b.
Proof.
  unfold z2b. rewrite Z.mod_small by apply b2z_range.
  unfold b2z. rewrite N2Z.id, Byte.of_to_N. done.
Qed.

Lemma b2z_z2b z : b2z (z2b z) = z mod 256.
Proof.
  unfold z2b. pose proof (Z.mod_pos_bound z 256 ltac:(lia)) as Hr.
  destruct (Byte.of_N (Z.to_N (z mod 256))) as [b|] eqn:E.
  - apply Byte.to_of_N in E. unfold b2z. rewrite E. lia.
  - apply Byte.of_N_None_iff in E. lia.
Qed.

Lemma b2z_inj a b : b2z a = b2z b → a = b.
Proof. intros H. rewrite <- (z2b_b2z a), <- (z2b_b2z b). by rewrite H. Qed.

Lemma length_le_bytes n z : length (le_bytes n z) = n.
Proof. revert z. induction n; simpl; auto. Qed.

Lemma le_val_le_bytes n z : le_val (le_bytes n z) = z mod 256 ^ Z.of_nat n.
Proof.
  revert z. induction n as [|n IH]; intros z.
  - simpl. by rewrite Z.mod_1_r.
  - cbn [le_bytes le_val]. rewrite IH, b2z_z2b, Nat2Z.inj_succ, Z.pow_succ_r by lia.
    rewrite Z.rem_mul_r by lia. done.
Qed.

Lemma le_val_range l : 0 ≤ le_val l < 256 ^ zlen l.
Proof.
  unfold zlen. induction l as [|b l IH]; simpl length; [simpl; lia|].
  rewrite Nat2Z.inj_succ, Z.pow_succ_r by lia. simpl.
  pose proof (b2z_range b). nia.
Qed.

Lemma le_bytes_le_val l : le_bytes (length l) (le_val l) = l.
Proof.
  induction l as [|b l IH]; simpl; [done|].
  pose proof (b2z_range b) as Hb. f_equal.
  - unfold z2b. rewrite (Z.mul_comm 256), Z.mod_add by lia.
    fold (z2b (b2z b)). apply z2b_b2z.
  - rewrite (Z.mul_comm 256), Z.div_add, Z.div_small by lia. apply IH.
Qed.

Lemma le_bytes_mod n z : le_bytes n (z mod 256 ^ Z.of_nat n) = le_bytes n z.
Proof.
  rewrite <- (le_bytes_le_val (le_bytes n z)) at 1.
  by rewrite length_le_bytes, le_val_le_bytes.
Qed.

Lemma length_be_bytes n z : length (be_bytes n z) = n.
Proof. unfold be_bytes. by rewrite length_reverse, length_le_bytes. Qed.

Lemma be_val_be_bytes n z : be_val (be_bytes n z) = z mod 256 ^ Z.of_nat n.
Proof. unfold be_val, be_bytes. rewrite reverse_involutive. apply le_val_le_bytes. Qed.

(** * Lemmas on lists cut by integers *)

Lemma zlen_nonneg {A} (l : list A) : 0 ≤ zlen l.
Proof. unfold zlen. lia. Qed.

Lemma zlen_nil {A} : zlen (@nil A) = 0.
Proof. done. Qed.

Lemma zlen_cons {A} (x : A) l : zlen (x :: l) = zlen l + 1.
Proof. unfold zlen. simpl. lia. Qed.

Lemma zlen_app {A} (l1 l2 : list A) : zlen (l1 ++ l2) = zlen l1 + zlen l2.
Proof. unfold zlen. rewrite length_app. lia. Qed.

Lemma zlen_le_bytes n z : zlen (le_bytes n z) = Z.of_nat n.
Proof. unfold zlen. by rewrite length_le_bytes. Qed.

Lemma zlen_zeros n : 0 ≤ n → zlen (zeros n) = n.
Proof. intros. unfold zlen, zeros. rewrite length_replicate. lia. Qed.

Lemma zlen_ztake {A} n (l : list A) : 0 ≤ n ≤ zlen l → zlen (ztake n l) = n.
Proof. unfold zlen, ztake. intros. rewrite length_take. lia. Qed.

Lemma zlen_zdrop {A} n (l : list A) : 0 ≤ n ≤ zlen l → zlen (zdrop n l) = zlen l - n.
Proof. unfold zlen, zdrop. intros. rewrite length_drop. lia. Qed.

Lemma ztake_zdrop {A} n (l : list A) : ztake n l ++ zdrop n l = l.
Proof. apply take_drop. Qed.

Lemma ztake_app_exact {A} n (l1 l2 : list A) : n = zlen l1 → ztake n (l1 ++ l2) = l1.
Proof.
  intros ->. unfold ztake, zlen. rewrite Nat2Z.id. apply take_app_length.
Qed.

Lemma zdrop_app_exact {A} n (l1 l2 : list A) : n = zlen l1 → zdrop n (l1 ++ l2) = l2.
Proof.
  intros ->. unfold zdrop, zlen. rewrite Nat2Z.id. apply drop_app_length.
Qed.

Lemma ztake_all {A} n (l : list A) : zlen l ≤ n → ztake n l = l.
Proof. unfold zlen, ztake. intros. apply take_ge. lia. Qed.

Lemma zdrop_zdrop {A} n m (l : list A) :
  0 ≤ n → 0 ≤ m → zdrop n (zdrop m l) = zdrop (m + n) l.
Proof. intros. unfold zdrop. rewrite drop_drop. f_equal. lia. Qed.

Lemma zdrop_0 {A} (l : list A) : zdrop 0 l = l.
Proof. done. Qed.

Lemma ztake_0 {A} (l : list A) : ztake 0 l = [].
Proof. done. Qed.

Lemma ztake_split {A} a b (l : list A) :
  0 ≤ a → 0 ≤ b → ztake (a + b) l = ztake a l ++ ztake b (zdrop a l).
Proof.
  intros. unfold ztake, zdrop. rewrite Z2Nat.inj_add by lia.
  rewrite take_take_drop. done.
Qed.

Lemma zeros_add a b : 0 ≤ a → 0 ≤ b → zeros (a + b) = zeros a ++ zeros b.
Proof. intros. unfold zeros. rewrite Z2Nat.inj_add by lia. apply replicate_add. Qed.

Lemma zlookup_app_l {A} (l1 l2 : list A) k : k < zlen l1 → zlookup (l1 ++ l2) k = zlookup l1 k.
Proof.
  unfold zlookup, zlen. intros. destruct (Z.ltb_spec k 0); [done|].
  apply lookup_app_l. lia.
Qed.

Lemma zlookup_app_r {A} (l1 l2 : list A) k :
  zlen l1 ≤ k → zlookup (l1 ++ l2) k = zlookup l2 (k - zlen l1).
Proof.
  unfold zlookup, zlen. intros. destruct (Z.ltb_spec k 0); [lia|].
  destruct (Z.ltb_spec (k - Z.of_nat (length l1)) 0); [lia|].
  rewrite lookup_app_r by lia. f_equal. lia.
Qed.

Lemma zlookup_zdrop {A} (l : list A) n k : 0 ≤ n → 0 ≤ k → zlookup (zdrop n l) k = zlookup l (n + k).
Proof.
  unfold zlookup, zdrop. intros. destruct (Z.ltb_spec k 0); [lia|].
  destruct (Z.ltb_spec (n + k) 0); [lia|]. rewrite lookup_drop. f_equal. lia.
Qed.

Lemma zlookup_ztake {A} (l : list A) n k : k < n → zlookup (ztake n l) k = zlookup l k.
Proof.
  unfold zlookup, ztake. intros. destruct (Z.ltb_spec k 0); [done|].
  apply lookup_take_lt. lia.
Qed.

Lemma zlookup_is_Some {A} (l : list A) k : 0 ≤ k < zlen l → is_Some (zlookup l k).
Proof.
  unfold zlookup, zlen. intros. destruct (Z.ltb_spec k 0); [lia|].
  apply lookup_lt_is_Some. lia.
Qed.

Lemma zlookup_zeros n k : 0 ≤ k < n → zlookup (zeros n) k = Some x00.
Proof.
  unfold zlookup, zeros. intros. destruct (Z.ltb_spec k 0); [lia|].
  apply lookup_replicate_2. lia.
Qed.

#[export] Hint Resolve zlen_nonneg b2z_range u32_range u64_range u16_range : mach.
Create Rewrite HintDb zlen.
#[export] Hint Rewrite @zlen_nil @zlen_cons @zlen_app @zlen_le_bytes : zlen.
