(* ===== verification/Crc32.v ===== *)
(** CRC-32 of sparse images: libsparse's table-driven [sparse_crc32]
    (system/core/libsparse/sparse_crc32.cpp), a bit-serial reference
    definition, their equivalence, and what the checksum guarantees to the
    reader of a sparse image: it can be computed piecewise, and it changes
    whenever a single byte of the data changes. *)

From S2P Require Import Prelude.
Open Scope Z_scope.

Definition crc32_tab : list Z :=
  [
   0x00000000; 0x77073096; 0xee0e612c; 0x990951ba; 0x076dc419; 0x706af48f;
   0xe963a535; 0x9e6495a3; 0x0edb8832; 0x79dcb8a4; 0xe0d5e91e; 0x97d2d988;
   0x09b64c2b; 0x7eb17cbd; 0xe7b82d07; 0x90bf1d91; 0x1db71064; 0x6ab020f2;
   0xf3b97148; 0x84be41de; 0x1adad47d; 0x6ddde4eb; 0xf4d4b551; 0x83d385c7;
   0x136c9856; 0x646ba8c0; 0xfd62f97a; 0x8a65c9ec; 0x14015c4f; 0x63066cd9;
   0xfa0f3d63; 0x8d080df5; 0x3b6e20c8; 0x4c69105e; 0xd56041e4; 0xa2677172;
   0x3c03e4d1; 0x4b04d447; 0xd20d85fd; 0xa50ab56b; 0x35b5a8fa; 0x42b2986c;
   0xdbbbc9d6; 0xacbcf940; 0x32d86ce3; 0x45df5c75; 0xdcd60dcf; 0xabd13d59;
   0x26d930ac; 0x51de003a; 0xc8d75180; 0xbfd06116; 0x21b4f4b5; 0x56b3c423;
   0xcfba9599; 0xb8bda50f; 0x2802b89e; 0x5f058808; 0xc60cd9b2; 0xb10be924;
   0x2f6f7c87; 0x58684c11; 0xc1611dab; 0xb6662d3d; 0x76dc4190; 0x01db7106;
   0x98d220bc; 0xefd5102a; 0x71b18589; 0x06b6b51f; 0x9fbfe4a5; 0xe8b8d433;
   0x7807c9a2; 0x0f00f934; 0x9609a88e; 0xe10e9818; 0x7f6a0dbb; 0x086d3d2d;
   0x91646c97; 0xe6635c01; 0x6b6b51f4; 0x1c6c6162; 0x856530d8; 0xf262004e;
   0x6c0695ed; 0x1b01a57b; 0x8208f4c1; 0xf50fc457; 0x65b0d9c6; 0x12b7e950;
   0x8bbeb8ea; 0xfcb9887c; 0x62dd1ddf; 0x15da2d49; 0x8cd37cf3; 0xfbd44c65;
   0x4db26158; 0x3ab551ce; 0xa3bc0074; 0xd4bb30e2; 0x4adfa541; 0x3dd895d7;
   0xa4d1c46d; 0xd3d6f4fb; 0x4369e96a; 0x346ed9fc; 0xad678846; 0xda60b8d0;
   0x44042d73; 0x33031de5; 0xaa0a4c5f; 0xdd0d7cc9; 0x5005713c; 0x270241aa;
   0xbe0b1010; 0xc90c2086; 0x5768b525; 0x206f85b3; 0xb966d409; 0xce61e49f;
   0x5edef90e; 0x29d9c998; 0xb0d09822; 0xc7d7a8b4; 0x59b33d17; 0x2eb40d81;
   0xb7bd5c3b; 0xc0ba6cad; 0xedb88320; 0x9abfb3b6; 0x03b6e20c; 0x74b1d29a;
   0xead54739; 0x9dd277af; 0x04db2615; 0x73dc1683; 0xe3630b12; 0x94643b84;
   0x0d6d6a3e; 0x7a6a5aa8; 0xe40ecf0b; 0x9309ff9d; 0x0a00ae27; 0x7d079eb1;
   0xf00f9344; 0x8708a3d2; 0x1e01f268; 0x6906c2fe; 0xf762575d; 0x806567cb;
   0x196c3671; 0x6e6b06e7; 0xfed41b76; 0x89d32be0; 0x10da7a5a; 0x67dd4acc;
   0xf9b9df6f; 0x8ebeeff9; 0x17b7be43; 0x60b08ed5; 0xd6d6a3e8; 0xa1d1937e;
   0x38d8c2c4; 0x4fdff252; 0xd1bb67f1; 0xa6bc5767; 0x3fb506dd; 0x48b2364b;
   0xd80d2bda; 0xaf0a1b4c; 0x36034af6; 0x41047a60; 0xdf60efc3; 0xa867df55;
   0x316e8eef; 0x4669be79; 0xcb61b38c; 0xbc66831a; 0x256fd2a0; 0x5268e236;
   0xcc0c7795; 0xbb0b4703; 0x220216b9; 0x5505262f; 0xc5ba3bbe; 0xb2bd0b28;
   0x2bb45a92; 0x5cb36a04; 0xc2d7ffa7; 0xb5d0cf31; 0x2cd99e8b; 0x5bdeae1d;
   0x9b64c2b0; 0xec63f226; 0x756aa39c; 0x026d930a; 0x9c0906a9; 0xeb0e363f;
   0x72076785; 0x05005713; 0x95bf4a82; 0xe2b87a14; 0x7bb12bae; 0x0cb61b38;
   0x92d28e9b; 0xe5d5be0d; 0x7cdcefb7; 0x0bdbdf21; 0x86d3d2d4; 0xf1d4e242;
   0x68ddb3f8; 0x1fda836e; 0x81be16cd; 0xf6b9265b; 0x6fb077e1; 0x18b74777;
   0x88085ae6; 0xff0f6a70; 0x66063bca; 0x11010b5c; 0x8f659eff; 0xf862ae69;
   0x616bffd3; 0x166ccf45; 0xa00ae278; 0xd70dd2ee; 0x4e048354; 0x3903b3c2;
   0xa7672661; 0xd06016f7; 0x4969474d; 0x3e6e77db; 0xaed16a4a; 0xd9d65adc;
   0x40df0b66; 0x37d83bf0; 0xa9bcae53; 0xdebb9ec5; 0x47b2cf7f; 0x30b5ffe9;
   0xbdbdf21c; 0xcabac28a; 0x53b39330; 0x24b4a3a6; 0xbad03605; 0xcdd70693;
   0x54de5729; 0x23d967bf; 0xb3667a2e; 0xc4614ab8; 0x5d681b02; 0x2a6f2b94;
   0xb40bbe37; 0xc30c8ea1; 0x5a05df1b; 0x2d02ef8d].

(** The loop body [crc = crc32_tab[(crc ^ *p++) & 0xFF] ^ (crc >> 8)]. *)
Definition crc32_step (crc : Z) (p : byte) : Z :=
  Z.lxor (crc32_tab !!! Z.to_nat (Z.land (Z.lxor crc (b2z p)) 0xFF)) (Z.shiftr crc 8).

Definition sparse_crc32 (crc_in : Z) (buf : list byte) : Z :=
  Z.lxor (foldl crc32_step (Z.lxor crc_in 0xFFFFFFFF) buf) 0xFFFFFFFF.

(** ** Reference: the shift register of the polynomial 0xedb88320 *)

Definition crc_bit (c : Z) : Z :=
  if Z.testbit c 0 then Z.lxor (Z.shiftr c 1) 0xedb88320 else Z.shiftr c 1.

Definition crc_byte_ref (c : Z) (p : byte) : Z := Nat.iter 8 crc_bit (Z.lxor c (b2z p)).

Definition crc32_ref (crc_in : Z) (buf : list byte) : Z :=
  Z.lxor (foldl crc_byte_ref (Z.lxor crc_in 0xFFFFFFFF) buf) 0xFFFFFFFF.

(** ** Lemmas *)

Lemma crc_bit_lxor a b : crc_bit (Z.lxor a b) = Z.lxor (crc_bit a) (crc_bit b).
Proof.
  unfold crc_bit. rewrite Z.lxor_spec, Z.shiftr_lxor.
  destruct (Z.testbit a 0), (Z.testbit b 0); simpl xorb; cbv iota;
    apply Z.bits_inj'; intros n _; rewrite ?Z.lxor_spec;
    repeat match goal with |- context [Z.testbit ?x n] => destruct (Z.testbit x n) end;
    done.
Qed.

Lemma crc_bits_lxor n a b :
  Nat.iter n crc_bit (Z.lxor a b) = Z.lxor (Nat.iter n crc_bit a) (Nat.iter n crc_bit b).
Proof. induction n as [|n IH]; simpl; [done|]. by rewrite IH, crc_bit_lxor. Qed.

Lemma crc_bits_shiftl n x : Nat.iter n crc_bit (Z.shiftl x (Z.of_nat n)) = x.
Proof.
  revert x. induction n as [|n IH]; intros x; [apply Z.shiftl_0_r|].
  rewrite Nat.iter_succ_r. rewrite <- (IH x) at 2. f_equal.
  unfold crc_bit. rewrite Nat2Z.inj_succ.
  rewrite Z.shiftl_spec_low by lia.
  rewrite Z.shiftr_shiftl_l by lia. f_equal. lia.
Qed.

Lemma split_low_byte c : c = Z.lxor (Z.land c 0xFF) (Z.shiftl (Z.shiftr c 8) 8).
Proof.
  apply Z.bits_inj'. intros n Hn.
  rewrite Z.lxor_spec, Z.land_spec, Z.shiftl_spec by lia.
  change 0xFF with (Z.ones 8). rewrite Z.testbit_ones_nonneg by lia.
  destruct (Z.ltb_spec n 8).
  - rewrite (Z.testbit_neg_r _ (n - 8)) by lia. by destruct (Z.testbit c n).
  - rewrite Z.shiftr_spec by lia. replace (n - 8 + 8) with n by lia.
    by destruct (Z.testbit c n).
Qed.

Lemma crc32_tab_ref i :
  0 ≤ i < 256 → crc32_tab !!! Z.to_nat i = Nat.iter 8 crc_bit i.
Proof.
  intros Hi.
  assert (Forall (λ k, crc32_tab !!! k = Nat.iter 8 crc_bit (Z.of_nat k)) (seq 0 256)) as Hall.

  { apply (bool_decide_eq_true_1 _). vm_compute. reflexivity. }
  rewrite Forall_forall in Hall. rewrite Hall.
  - by rewrite Z2Nat.id by lia.
  - apply elem_of_seq. lia.
Qed.

Lemma land_ff_range x : 0 ≤ Z.land x 0xFF < 256.
Proof.
  change 0xFF with (Z.ones 8). rewrite Z.land_ones by lia.
  apply Z.mod_pos_bound. lia.
Qed.

Lemma shiftr_byte b : Z.shiftr (b2z b) 8 = 0.
Proof.
  pose proof (b2z_range b). rewrite Z.shiftr_div_pow2 by lia. apply Z.div_small. lia.
Qed.

Lemma crc32_step_ref c p : crc32_step c p = crc_byte_ref c p.
Proof.
  unfold crc32_step, crc_byte_ref. rewrite crc32_tab_ref by apply land_ff_range.
  rewrite (split_low_byte (Z.lxor c (b2z p))) at 2.
  rewrite crc_bits_lxor. f_equal.
  change 8 with (Z.of_nat 8) at 3. rewrite crc_bits_shiftl.
  by rewrite Z.shiftr_lxor, shiftr_byte, Z.lxor_0_r.
Qed.

Lemma lxor_involutive a b : Z.lxor (Z.lxor a b) b = a.
Proof. by rewrite Z.lxor_assoc, Z.lxor_nilpotent, Z.lxor_0_r. Qed.

Lemma lxor_cancel_l a b c : Z.lxor a b = Z.lxor a c → b = c.
Proof.
  intros H. rewrite <- (lxor_involutive b a), <- (lxor_involutive c a).
  by rewrite (Z.lxor_comm b), (Z.lxor_comm c), H.
Qed.

Lemma sparse_crc32_app c a b :
  sparse_crc32 c (a ++ b) = sparse_crc32 (sparse_crc32 c a) b.
Proof. unfold sparse_crc32. by rewrite foldl_app, lxor_involutive. Qed.

Lemma sparse_crc32_nil c : sparse_crc32 c [] = c.
Proof. apply lxor_involutive. Qed.

(** 32-bit states. *)
Lemma lxor_u32 a b : 0 ≤ a < 2 ^ 32 → 0 ≤ b < 2 ^ 32 → 0 ≤ Z.lxor a b < 2 ^ 32.
Proof.
  intros Ha Hb. assert (0 ≤ Z.lxor a b) by (apply Z.lxor_nonneg; lia). split; [done|].
  destruct (Z.eq_dec (Z.lxor a b) 0) as [->|Hne]; [lia|].
  apply Z.log2_lt_pow2; [lia|].
  eapply Z.le_lt_trans; [apply Z.log2_lxor; lia|].
  apply Z.max_lub_lt.
  - destruct (Z.eq_dec a 0) as [->|]; [done|]. apply Z.log2_lt_pow2; lia.
  - destruct (Z.eq_dec b 0) as [->|]; [done|]. apply Z.log2_lt_pow2; lia.
Qed.

Lemma crc32_tab_range i : 0 ≤ i < 256 → 0 ≤ crc32_tab !!! Z.to_nat i < 2 ^ 32.
Proof.
  intros Hi.
  assert (Forall (λ k, 0 ≤ crc32_tab !!! k < 2 ^ 32) (seq 0 256)) as Hall.
  { apply (bool_decide_eq_true_1 _). vm_compute. reflexivity. }
  rewrite Forall_forall in Hall. apply Hall, elem_of_seq. lia.
Qed.

Lemma shiftr8_range c : 0 ≤ c < 2 ^ 32 → 0 ≤ Z.shiftr c 8 < 2 ^ 24.
Proof.
  intros. rewrite Z.shiftr_div_pow2 by lia. split.
  - apply Z.div_pos; lia.
  - apply Z.div_lt_upper_bound; lia.
Qed.

Lemma crc32_step_range c p : 0 ≤ c < 2 ^ 32 → 0 ≤ crc32_step c p < 2 ^ 32.
Proof.
  intros. apply lxor_u32.
  - apply crc32_tab_range, land_ff_range.
  - pose proof (shiftr8_range c). lia.
Qed.

Lemma crc32_fold_range l c : 0 ≤ c < 2 ^ 32 → 0 ≤ foldl crc32_step c l < 2 ^ 32.
Proof.
  revert c. induction l as [|p l IH]; intros c Hc; simpl; [done|].
  by apply IH, crc32_step_range.
Qed.

Lemma sparse_crc32_range c l : 0 ≤ c < 2 ^ 32 → 0 ≤ sparse_crc32 c l < 2 ^ 32.
Proof.
  intros. apply lxor_u32; [|lia]. apply crc32_fold_range, lxor_u32; lia.
Qed.

(** The top bytes of the table are pairwise different, so the top byte of a new
    state tells which entry was used. *)
Lemma crc32_tab_top_inj i j :
  0 ≤ i < 256 → 0 ≤ j < 256 →
  Z.shiftr (crc32_tab !!! Z.to_nat i) 24 = Z.shiftr (crc32_tab !!! Z.to_nat j) 24 → i = j.
Proof.
  intros Hi Hj Heq.
  assert (NoDup ((λ x, Z.shiftr x 24) <$> crc32_tab)) as Hnd.
  { apply (bool_decide_eq_true_1 _). vm_compute. reflexivity. }
  assert (∀ k, 0 ≤ k < 256 →
    ((λ x, Z.shiftr x 24) <$> crc32_tab) !! Z.to_nat k
    = Some (Z.shiftr (crc32_tab !!! Z.to_nat k) 24)) as Hl.
  { intros k Hk. rewrite list_lookup_fmap.
    rewrite list_lookup_lookup_total_lt; [done|]. change (length crc32_tab) with 256%nat. lia. }
  pose proof (Hl i Hi) as Li. pose proof (Hl j Hj) as Lj. rewrite <- Heq in Lj.
  pose proof (NoDup_lookup _ _ _ _ Hnd Li Lj). lia.
Qed.

Lemma crc32_step_index c p c' p' :
  0 ≤ c < 2 ^ 32 → 0 ≤ c' < 2 ^ 32 → crc32_step c p = crc32_step c' p' →
  Z.land (Z.lxor c (b2z p)) 0xFF = Z.land (Z.lxor c' (b2z p')) 0xFF
  ∧ Z.shiftr c 8 = Z.shiftr c' 8.
Proof.
  intros Hc Hc' H. unfold crc32_step in H.
  assert (Z.land (Z.lxor c (b2z p)) 0xFF = Z.land (Z.lxor c' (b2z p')) 0xFF) as Hi.
  { apply crc32_tab_top_inj; try apply land_ff_range.
    apply (f_equal (λ x, Z.shiftr x 24)) in H. rewrite !Z.shiftr_lxor in H.
    assert (∀ x, 0 ≤ x < 2 ^ 32 → Z.shiftr (Z.shiftr x 8) 24 = 0) as Hz.
    { intros x Hx. pose proof (shiftr8_range x Hx).
      rewrite (Z.shiftr_div_pow2 (Z.shiftr x 8)) by lia. apply Z.div_small. lia. }
    by rewrite !Hz, !Z.lxor_0_r in H. }
  split; [done|]. rewrite Hi in H. by apply lxor_cancel_l in H.
Qed.

Lemma land_ff_byte b : Z.land (b2z b) 0xFF = b2z b.
Proof.
  change 0xFF with (Z.ones 8). rewrite Z.land_ones by lia.
  apply Z.mod_small. apply b2z_range.
Qed.

Lemma land_lxor_ff a b : Z.land (Z.lxor a b) 0xFF = Z.lxor (Z.land a 0xFF) (Z.land b 0xFF).
Proof.
  apply Z.bits_inj'. intros n _. rewrite !Z.lxor_spec, !Z.land_spec, Z.lxor_spec.
  by destruct (Z.testbit a n), (Z.testbit b n), (Z.testbit 0xFF n).
Qed.

Lemma crc32_step_inj_state c c' p :
  0 ≤ c < 2 ^ 32 → 0 ≤ c' < 2 ^ 32 → crc32_step c p = crc32_step c' p → c = c'.
Proof.
  intros Hc Hc' H. destruct (crc32_step_index _ _ _ _ Hc Hc' H) as [Hl Hs].
  rewrite !land_lxor_ff, (Z.lxor_comm (Z.land c _)), (Z.lxor_comm (Z.land c' _)) in Hl.
  apply lxor_cancel_l in Hl.
  rewrite (split_low_byte c), (split_low_byte c'). by rewrite Hl, Hs.
Qed.

Lemma crc32_step_inj_byte c p p' :
  0 ≤ c < 2 ^ 32 → crc32_step c p = crc32_step c p' → p = p'.
Proof.
  intros Hc H. destruct (crc32_step_index _ _ _ _ Hc Hc H) as [Hl _].
  rewrite !land_lxor_ff in Hl. apply lxor_cancel_l in Hl.
  rewrite !land_ff_byte in Hl. by apply b2z_inj.
Qed.

Lemma crc32_fold_inj l c c' :
  0 ≤ c < 2 ^ 32 → 0 ≤ c' < 2 ^ 32 → foldl crc32_step c l = foldl crc32_step c' l → c = c'.
Proof.
  revert c c'. induction l as [|p l IH]; intros c c' Hc Hc' H; [done|]. simpl in H.
  apply IH in H; [|by apply crc32_step_range..]. by apply crc32_step_inj_state in H.
Qed.

(** C28: the table-driven checksum of libsparse computes exactly the CRC-32 of
    the bit-serial shift register with polynomial 0xedb88320, for every start
    value and every buffer. *)
Theorem sparse_crc32_equiv c buf : sparse_crc32 c buf = crc32_ref c buf.
Proof.
  unfold sparse_crc32, crc32_ref. f_equal.
  generalize (Z.lxor c 0xFFFFFFFF). induction buf as [|p l IH]; intros s; [done|].
  simpl. by rewrite crc32_step_ref, IH.
Qed.

(** Corrupting one byte of a buffer, anywhere, always changes the
    checksum the reader compares. *)
Theorem sparse_crc32_detects_byte c pre x y post :
  0 ≤ c < 2 ^ 32 → x ≠ y →
  sparse_crc32 c (pre ++ x :: post) ≠ sparse_crc32 c (pre ++ y :: post).
Proof.
  intros Hc Hne Heq. unfold sparse_crc32 in Heq.
  rewrite (Z.lxor_comm _ 0xFFFFFFFF), (Z.lxor_comm (foldl _ _ (pre ++ y :: post))) in Heq.
  apply lxor_cancel_l in Heq. rewrite !foldl_app in Heq. simpl in Heq.
  assert (0 ≤ foldl crc32_step (Z.lxor c 0xFFFFFFFF) pre < 2 ^ 32) as Hs.
  { apply crc32_fold_range, lxor_u32; lia. }
  apply crc32_fold_inj in Heq; [|by apply crc32_step_range..].
  by apply crc32_step_inj_byte in Heq.
Qed.

Lemma sparse_crc32_detects_byte_witness :
  sparse_crc32 0 ([x61; x62] ++ x63 :: [x64]) ≠ sparse_crc32 0 ([x61; x62] ++ x43 :: [x64]).
Proof.
  apply (sparse_crc32_detects_byte 0 [x61; x62] x63 x43 [x64]); [lia | done].
Defined.
