(* ===== verification/SparseFormat.v ===== *)
(** The on-disk structures of the sparse image format
    (system/core/libsparse/sparse_format.h).  The sources write and read these
    structs with [write(&hdr, sizeof(hdr))] and [memcpy]; both are little-endian
    layouts without padding, so a struct is its fields in order. *)

From S2P Require Import Prelude.
Open Scope Z_scope.

Record sparse_header_t : Type := mk_sparse_header {
  magic : Z;            (* __le32 *)
  major_version : Z;    (* __le16 *)
  minor_version : Z;    (* __le16 *)
  file_hdr_sz : Z;      (* __le16 *)
  chunk_hdr_sz : Z;     (* __le16 *)
  blk_sz : Z;           (* __le32 *)
  total_blks : Z;       (* __le32 *)
  total_chunks : Z;     (* __le32 *)
  image_checksum : Z    (* __le32 *)
}.

Record chunk_header_t : Type := mk_chunk_header {
  chunk_type : Z;       (* __le16 *)
  reserved1 : Z;        (* __le16 *)
  chunk_sz : Z;         (* __le32 *)
  total_sz : Z          (* __le32 *)
}.

Definition SPARSE_HEADER_MAGIC : Z := 0xed26ff3a.
Definition CHUNK_TYPE_RAW : Z := 0xCAC1.
Definition CHUNK_TYPE_FILL : Z := 0xCAC2.
Definition CHUNK_TYPE_DONT_CARE : Z := 0xCAC3.
Definition CHUNK_TYPE_CRC32 : Z := 0xCAC4.

Definition SPARSE_HEADER_MAJOR_VER : Z := 1.
Definition SPARSE_HEADER_MINOR_VER : Z := 0.
Definition SPARSE_HEADER_LEN : Z := 28.
Definition CHUNK_HEADER_LEN : Z := 12.

Ltac unfold_format :=
  unfold SPARSE_HEADER_MAGIC, CHUNK_TYPE_RAW, CHUNK_TYPE_FILL, CHUNK_TYPE_DONT_CARE,
    CHUNK_TYPE_CRC32, SPARSE_HEADER_LEN, CHUNK_HEADER_LEN in *.

(** The bytes of a struct in memory. *)
Definition sparse_header_bytes (h : sparse_header_t) : list byte :=
  le_bytes 4 (magic h) ++ le_bytes 2 (major_version h) ++ le_bytes 2 (minor_version h) ++
  le_bytes 2 (file_hdr_sz h) ++ le_bytes 2 (chunk_hdr_sz h) ++ le_bytes 4 (blk_sz h) ++
  le_bytes 4 (total_blks h) ++ le_bytes 4 (total_chunks h) ++ le_bytes 4 (image_checksum h).

Definition chunk_header_bytes (h : chunk_header_t) : list byte :=
  le_bytes 2 (chunk_type h) ++ le_bytes 2 (reserved1 h) ++
  le_bytes 4 (chunk_sz h) ++ le_bytes 4 (total_sz h).

(** The [n] bytes at offset [o] as an unsigned integer. *)
Definition le_field (o n : nat) (l : list byte) : Z := le_val (take n (drop o l)).

Definition sparse_header_of (l : list byte) : sparse_header_t :=
  mk_sparse_header (le_field 0 4 l) (le_field 4 2 l) (le_field 6 2 l) (le_field 8 2 l)
    (le_field 10 2 l) (le_field 12 4 l) (le_field 16 4 l) (le_field 20 4 l) (le_field 24 4 l).

Definition chunk_header_of (l : list byte) : chunk_header_t :=
  mk_chunk_header (le_field 0 2 l) (le_field 2 2 l) (le_field 4 4 l) (le_field 8 4 l).

(** Field values in the range of their types. *)
Definition sparse_header_ok (h : sparse_header_t) : Prop :=
  0 ≤ magic h < 2 ^ 32 ∧ 0 ≤ major_version h < 2 ^ 16 ∧ 0 ≤ minor_version h < 2 ^ 16 ∧
  0 ≤ file_hdr_sz h < 2 ^ 16 ∧ 0 ≤ chunk_hdr_sz h < 2 ^ 16 ∧ 0 ≤ blk_sz h < 2 ^ 32 ∧
  0 ≤ total_blks h < 2 ^ 32 ∧ 0 ≤ total_chunks h < 2 ^ 32 ∧ 0 ≤ image_checksum h < 2 ^ 32.

Definition chunk_header_ok (h : chunk_header_t) : Prop :=
  0 ≤ chunk_type h < 2 ^ 16 ∧ 0 ≤ reserved1 h < 2 ^ 16 ∧
  0 ≤ chunk_sz h < 2 ^ 32 ∧ 0 ≤ total_sz h < 2 ^ 32.

Lemma zlen_sparse_header_bytes h : zlen (sparse_header_bytes h) = SPARSE_HEADER_LEN.
Proof. unfold sparse_header_bytes. by autorewrite with zlen. Qed.

Lemma zlen_chunk_header_bytes h : zlen (chunk_header_bytes h) = CHUNK_HEADER_LEN.
Proof. unfold chunk_header_bytes. by autorewrite with zlen. Qed.

(** Reading the field at the front, and skipping one in front of it. *)
Lemma le_field_here n z post : le_field 0 n (le_bytes n z ++ post) = z mod 256 ^ Z.of_nat n.
Proof.
  unfold le_field. rewrite drop_0, take_app_length' by by rewrite length_le_bytes.
  apply le_val_le_bytes.
Qed.

Lemma le_field_skip o m n z l :
  (n ≤ o)%nat → le_field o m (le_bytes n z ++ l) = le_field (o - n) m l.
Proof.
  intros. unfold le_field. rewrite drop_app_ge by by rewrite length_le_bytes.
  by rewrite length_le_bytes.
Qed.

Ltac solve_le_field :=
  repeat (rewrite le_field_skip by lia; cbn [Nat.sub]);
  first [rewrite le_field_here | rewrite <- (app_nil_r (le_bytes _ _)), le_field_here];
  apply Z.mod_small; cbn [Z.of_nat Pos.of_succ_nat Pos.succ]; lia.

(** What the reader's [memcpy] recovers from what the writer wrote. *)
Lemma chunk_header_roundtrip h post :
  chunk_header_ok h → chunk_header_of (chunk_header_bytes h ++ post) = h.
Proof.
  destruct h as [a b c d]. unfold chunk_header_ok.
  cbn [chunk_type reserved1 chunk_sz total_sz]. intros (? & ? & ? & ?).
  unfold chunk_header_of, chunk_header_bytes. cbn [chunk_type reserved1 chunk_sz total_sz].
  rewrite <- !app_assoc. f_equal; solve_le_field.
Qed.

Lemma sparse_header_roundtrip h post :
  sparse_header_ok h → sparse_header_of (sparse_header_bytes h ++ post) = h.
Proof.
  destruct h as [a b c d e f g i j]. unfold sparse_header_ok.
  cbn [magic major_version minor_version file_hdr_sz chunk_hdr_sz blk_sz total_blks
       total_chunks image_checksum].
  intros (? & ? & ? & ? & ? & ? & ? & ? & ?).
  unfold sparse_header_of, sparse_header_bytes.
  cbn [magic major_version minor_version file_hdr_sz chunk_hdr_sz blk_sz total_blks
       total_chunks image_checksum].
  rewrite <- !app_assoc. f_equal; solve_le_field.
Qed.
