(* ===== verification/BackedBlock.v ===== *)
(** The block lists of libsparse (system/core/libsparse/backed_block.cpp).

    A sparse file keeps a singly linked list of [backed_block]s sorted by block
    number, plus a [last_used] pointer from which insertion starts when it can.
    The list is modelled as a Rocq list in link order and a [backed_block*] into
    it as the position of the node it points to, so [last_used] is an
    [option nat]; an operation that links or unlinks a node moves the positions
    behind it.  [bb->next] is the next position.  Allocation succeeds.

    The second half of the file gives the list its meaning, a partial map from
    byte offsets of the image to bytes, and shows that every operation preserves
    the list's invariant and changes the meaning exactly as intended. *)

From S2P Require Import Prelude.
From stdpp Require Import sorting.
Open Scope Z_scope.

(** ** Data *)

(** [enum backed_block_type] with the member of the union it selects.  The
    [void*] of a data block is modelled by the bytes from the pointer on. *)
Inductive backing : Type :=
| BACKED_BLOCK_DATA (data : list byte)
| BACKED_BLOCK_FILE (filename : string) (offset : Z)
| BACKED_BLOCK_FD (fd : Z) (offset : Z)
| BACKED_BLOCK_FILL (val : Z).

Record backed_block : Type := mk_bb {
  bb_block : Z;        (* unsigned int *)
  bb_len : Z;          (* uint64_t *)
  bb_type : backing
}.

Record backed_block_list : Type := mk_bbl {
  data_blocks : list backed_block;
  last_used : option nat;
  bbl_block_size : Z   (* unsigned int *)
}.

Definition backed_block_list_new (block_size : Z) : backed_block_list :=
  mk_bbl [] None block_size.

(** ** Operations *)

(** The checks of [merge_bb] after its [assert]: same type, adjacent, and the
    backing of [b] continues that of [a]. *)
Definition bb_mergeable (bs : Z) (a b : backed_block) : bool :=
  (u32 (bb_block a + u32 (bb_len a / bs)) =? bb_block b) &&
  match bb_type a, bb_type b with
  | BACKED_BLOCK_DATA _, BACKED_BLOCK_DATA _ => false
  | BACKED_BLOCK_FILL v, BACKED_BLOCK_FILL v' => v =? v'
  | BACKED_BLOCK_FILE f o, BACKED_BLOCK_FILE f' o' =>
      bool_decide (f = f') && (u64 (o + bb_len a) =? u64 o')
  | BACKED_BLOCK_FD fd o, BACKED_BLOCK_FD fd' o' =>
      (fd =? fd') && (u64 (o + bb_len a) =? u64 o')
  | _, _ => false
  end.

(** [merge_bb(bbl, a, a->next)], [a] being the node at position [i]: both call
    sites pass a node and its successor.  A pointer to the freed node is left
    dangling, represented by [None]. *)
Definition merge_bb (bbl : backed_block_list) (i : nat) : outcome (Z * backed_block_list) :=
  match data_blocks bbl !! i, data_blocks bbl !! S i with
  | Some a, Some b =>
      _ ← c_assert (bb_block a <? bb_block b);
      if bb_mergeable (bbl_block_size bbl) a b then
        let a' := mk_bb (bb_block a) (u64 (bb_len a + bb_len b)) (bb_type a) in
        let used := match last_used bbl with
                    | Some j => if decide (j = S i) then None
                                else if decide (S i < j)%nat then Some (pred j) else Some j
                    | None => None
                    end in
        Ret (0, mk_bbl (take i (data_blocks bbl) ++ a' :: drop (S (S i)) (data_blocks bbl))
                       used (bbl_block_size bbl))
      else Ret (- EINVAL, bbl)
  | _, _ => Ret (- EINVAL, bbl)
  end.

(** [for (; bb->next && bb->next->block < new_bb->block; bb = bb->next);], the
    number of steps taken from the head of the given list. *)
Fixpoint queue_search (l : list backed_block) (blk : Z) : nat :=
  match l with
  | _ :: ((b :: _) as t) => if bb_block b <? blk then S (queue_search t blk) else O
  | _ => O
  end.

(** Where [queue_bb] starts its search: [last_used] if the new block lies behind
    it, the head of the list otherwise. *)
Definition queue_start (bbl : backed_block_list) (blk : Z) : nat :=
  match last_used bbl with
  | Some j => match data_blocks bbl !! j with
              | Some b => if blk >? bb_block b then j else O
              | None => O
              end
  | None => O
  end.

Definition queue_bb (bbl : backed_block_list) (new_bb : backed_block)
    : outcome (Z * backed_block_list) :=
  match data_blocks bbl with
  | [] => Ret (0, mk_bbl [new_bb] (last_used bbl) (bbl_block_size bbl))
  | hd :: _ =>
      if bb_block hd >? bb_block new_bb then
        Ret (0, mk_bbl (new_bb :: data_blocks bbl) (S <$> last_used bbl) (bbl_block_size bbl))
      else
        let start := queue_start bbl (bb_block new_bb) in
        let i := (start + queue_search (drop start (data_blocks bbl)) (bb_block new_bb))%nat in
        let linked := mk_bbl (take (S i) (data_blocks bbl) ++
                              new_bb :: drop (S i) (data_blocks bbl))
                             (Some (S i)) (bbl_block_size bbl) in
        '(_, bbl1) ← merge_bb linked (S i);
        '(r, bbl2) ← merge_bb bbl1 i;
        Ret (0, if r =? 0
                then mk_bbl (data_blocks bbl2) (Some i) (bbl_block_size bbl2)
                else bbl2)
  end.

Definition backed_block_add_fill (bbl : backed_block_list) (fill_val len block : Z)
    : outcome (Z * backed_block_list) :=
  queue_bb bbl (mk_bb block len (BACKED_BLOCK_FILL fill_val)).

Definition backed_block_add_data (bbl : backed_block_list) (data : list byte) (len block : Z)
    : outcome (Z * backed_block_list) :=
  queue_bb bbl (mk_bb block len (BACKED_BLOCK_DATA data)).

Definition backed_block_add_file (bbl : backed_block_list) (filename : string)
    (offset len block : Z) : outcome (Z * backed_block_list) :=
  queue_bb bbl (mk_bb block len (BACKED_BLOCK_FILE filename offset)).

Definition backed_block_add_fd (bbl : backed_block_list) (fd offset len block : Z)
    : outcome (Z * backed_block_list) :=
  queue_bb bbl (mk_bb block len (BACKED_BLOCK_FD fd offset)).

(** The backing of the second half of a split: the [switch] of
    [backed_block_split]. *)
Definition backing_skip (t : backing) (n : Z) : backing :=
  match t with
  | BACKED_BLOCK_DATA d => BACKED_BLOCK_DATA (zdrop n d)
  | BACKED_BLOCK_FILE f o => BACKED_BLOCK_FILE f (i64 (o + n))
  | BACKED_BLOCK_FD fd o => BACKED_BLOCK_FD fd (i64 (o + n))
  | BACKED_BLOCK_FILL v => BACKED_BLOCK_FILL v
  end.

(** [backed_block_split(bbl, bb, max_len)] for the node at position [i]. *)
Definition backed_block_split (bbl : backed_block_list) (i : nat) (max_len : Z)
    : outcome (Z * backed_block_list) :=
  let bs := bbl_block_size bbl in
  match data_blocks bbl !! i with
  | None => AssertFail
  | Some bb =>
      let max_len := ALIGN_DOWN max_len bs in
      if bb_len bb <=? max_len then Ret (0, bbl)
      else
        let new_bb := mk_bb (u32 (bb_block bb + max_len / bs)) (u64 (bb_len bb - max_len))
                            (backing_skip (bb_type bb) max_len) in
        let used := match last_used bbl with
                    | Some j => if decide (i < j)%nat then Some (S j) else Some j
                    | None => None
                    end in
        Ret (0, mk_bbl (take i (data_blocks bbl) ++
                        mk_bb (bb_block bb) max_len (bb_type bb) :: new_bb ::
                        drop (S i) (data_blocks bbl))
                       used bs)
  end.

(** The node of [to] behind which [backed_block_list_move] links the moved
    segment. *)
Fixpoint move_search (l : list backed_block) (blk : Z) : nat :=
  match l with
  | _ :: ((b :: _) as t) => if bb_block b >? blk then O else S (move_search t blk)
  | _ => O
  end.

(** [backed_block_list_move(from, to, start, end)]; a null pointer is [None]. *)
Definition backed_block_list_move (from to : backed_block_list) (start end_ : option nat)
    : backed_block_list * backed_block_list :=
  let l := data_blocks from in
  let start := match start with
               | None => match l with [] => None | _ => Some O end
               | Some s => Some s
               end in
  let end_ := match end_, start with
              | Some e, _ => Some e
              | None, Some s => if decide (s < length l)%nat then Some (pred (length l)) else None
              | None, None => None
              end in
  match start, end_ with
  | Some s, Some e =>
      let seg := take (S e - s) (drop s l) in
      let from' := mk_bbl (take s l ++ drop (S e) l) None (bbl_block_size from) in
      let to' :=
        match data_blocks to with
        | [] => seg
        | lt =>
            let k := move_search lt (match seg with b :: _ => bb_block b | [] => 0 end) in
            take (S k) lt ++ seg ++ drop (S k) lt
        end in
      (from', mk_bbl to' None (bbl_block_size to))
  | _, _ => (from, to)
  end.

(** ** Meaning and invariant *)

(** What the backing refers to: the contents of open files and of named files
    at the time the list is written out. *)
Record backing_env : Type := mk_env {
  env_fd : Z → list byte;
  env_file : string → list byte
}.

(** Byte [k] of a backing. *)
Definition content (env : backing_env) (t : backing) (k : Z) : option byte :=
  match t with
  | BACKED_BLOCK_DATA d => zlookup d k
  | BACKED_BLOCK_FILE f o => zlookup (env_file env f) (o + k)
  | BACKED_BLOCK_FD fd o => zlookup (env_fd env fd) (o + k)
  | BACKED_BLOCK_FILL v => zlookup (le_bytes 4 v) (k mod 4)
  end.

(** Whether image offset [off] lies in the [len] bytes of [bb]. *)
Definition bb_covers (bs : Z) (bb : backed_block) (off : Z) : bool :=
  (bb_block bb * bs <=? off) && (off <? bb_block bb * bs + bb_len bb).

(** The image a list of blocks describes: the byte at each offset, [None] at
    offsets no block covers ("don't care"). *)
Fixpoint blocks_read (env : backing_env) (bs : Z) (l : list backed_block) (off : Z)
    : option byte :=
  match l with
  | [] => None
  | bb :: l =>
      if bb_covers bs bb off then content env (bb_type bb) (off - bb_block bb * bs)
      else blocks_read env bs l off
  end.

(** First block number behind [bb]. *)
Definition bb_end (bs : Z) (bb : backed_block) : Z := bb_block bb + DIV_ROUND_UP (bb_len bb) bs.

(** [a] lies before [b] and does not reach into it. *)
Definition bb_before (bs : Z) (a b : backed_block) : Prop :=
  bb_block a < bb_block b ∧ bb_end bs a ≤ bb_block b.

Definition backing_ok (t : backing) (len : Z) : Prop :=
  match t with
  | BACKED_BLOCK_DATA d => len ≤ zlen d
  | BACKED_BLOCK_FILE _ o | BACKED_BLOCK_FD _ o => 0 ≤ o ∧ o + len < 2 ^ 63
  | BACKED_BLOCK_FILL v => 0 ≤ v < 2 ^ 32
  end.

(** A block whose numbers fit their C types and whose data exists. *)
Definition bb_ok (bs : Z) (bb : backed_block) : Prop :=
  0 ≤ bb_block bb ∧ 0 ≤ bb_len bb ∧ bb_end bs bb < 2 ^ 32 ∧ bb_end bs bb * bs < 2 ^ 63 ∧
  backing_ok (bb_type bb) (bb_len bb).

Definition block_size_ok (bs : Z) : Prop := 0 < bs < 2 ^ 32 ∧ bs mod 4 = 0.

Definition blocks_ok (bs : Z) (l : list backed_block) : Prop :=
  Forall (bb_ok bs) l ∧ StronglySorted (bb_before bs) l.

Definition bbl_ok (bbl : backed_block_list) : Prop :=
  block_size_ok (bbl_block_size bbl) ∧
  blocks_ok (bbl_block_size bbl) (data_blocks bbl) ∧
  match last_used bbl with Some j => (j < length (data_blocks bbl))%nat | None => True end.

(** [new_bb] fits in a gap of the list. *)
Definition bb_fits (bs : Z) (l : list backed_block) (new_bb : backed_block) : Prop :=
  Forall (λ b, bb_before bs b new_bb ∨ bb_before bs new_bb b) l.

(** [merge_bb] on the two blocks at the head of a list, as a pure function. *)
Definition merge_head (bs : Z) (l : list backed_block) : list backed_block :=
  match l with
  | a :: b :: t =>
      if bb_mergeable bs a b
      then mk_bb (bb_block a) (u64 (bb_len a + bb_len b)) (bb_type a) :: t
      else l
  | _ => l
  end.

(** ** Lemmas on single blocks *)

Section blocks.
Context (bs : Z).
Hypothesis Hbs : block_size_ok bs.

Lemma bb_end_ge bb : 0 ≤ bb_len bb → bb_block bb ≤ bb_end bs bb.
Proof.
  destruct Hbs. intros. unfold bb_end.
  pose proof (div_round_up_nonneg (bb_len bb) bs). lia.
Qed.

Lemma bb_before_trans a b c :
  0 ≤ bb_len b → bb_before bs a b → bb_before bs b c → bb_before bs a c.
Proof. intros Hb [? ?] [? ?]. pose proof (bb_end_ge b Hb). split; lia. Qed.

Lemma bb_covers_true bb off :
  bb_covers bs bb off = true ↔ bb_block bb * bs ≤ off < bb_block bb * bs + bb_len bb.
Proof.
  unfold bb_covers. rewrite andb_true_iff, Z.leb_le, Z.ltb_lt. done.
Qed.

Lemma bb_covers_block bb off :
  0 ≤ bb_len bb → bb_covers bs bb off = true →
  bb_block bb * bs ≤ off < bb_end bs bb * bs.
Proof.
  intros Hl Hc%bb_covers_true. destruct Hbs as [? _]. unfold bb_end.
  pose proof (div_round_up_bounds (bb_len bb) bs). nia.
Qed.

Lemma bb_before_disjoint a b off :
  0 ≤ bb_len a → bb_before bs a b →
  bb_covers bs a off = true → bb_covers bs b off = true → False.
Proof.
  intros Hl [_ He] Ha Hb. destruct Hbs as [? _].
  apply bb_covers_block in Ha; [|done]. apply bb_covers_true in Hb. nia.
Qed.

(** What [bb_mergeable] guarantees for adjacent, non-overlapping blocks. *)
Lemma bb_len_bound bb : bb_ok bs bb → bb_block bb * bs + bb_len bb < 2 ^ 63.
Proof.
  intros (? & ? & ? & He & _). destruct Hbs. unfold bb_end in He.
  pose proof (div_round_up_bounds (bb_len bb) bs). nia.
Qed.

Lemma bb_mergeable_spec env a b :
  bb_ok bs a → bb_ok bs b → bb_before bs a b → bb_mergeable bs a b = true →
  bb_len a mod bs = 0 ∧ bb_block b * bs = bb_block a * bs + bb_len a ∧
  (∀ k, bb_len a ≤ k → content env (bb_type a) k = content env (bb_type b) (k - bb_len a)) ∧
  backing_ok (bb_type a) (bb_len a + bb_len b).
Proof.
  intros Ha Hb [Hlt Hend] Hm.
  pose proof (bb_len_bound a Ha). pose proof (bb_len_bound b Hb).
  destruct Ha as (Ha1 & Ha2 & Ha3 & _ & Ha4), Hb as (Hb1 & Hb2 & Hb3 & _ & Hb4).
  destruct Hbs as [Hbs1 Hbs2]. unfold bb_mergeable in Hm.
  apply andb_true_iff in Hm as [Hadj Hty]. zbool.
  unfold bb_end in *.
  pose proof (div_round_up_bounds (bb_len a) bs ltac:(lia)) as Hdr.
  pose proof (Z.div_mod (bb_len a) bs ltac:(lia)) as Hdm.
  pose proof (Z.mod_pos_bound (bb_len a) bs ltac:(lia)) as Hmp.
  assert (0 ≤ bb_len a / bs ≤ DIV_ROUND_UP (bb_len a) bs).
  { split; [apply Z.div_pos; lia|]. apply Z.div_le_mono; lia. }
  assert (0 ≤ DIV_ROUND_UP (bb_len b) bs) by (apply div_round_up_nonneg; lia).
  rewrite (u32_small (bb_len a / bs)) in Hadj by lia.
  rewrite u32_small in Hadj by lia.
  assert (bb_len a mod bs = 0) as Hmod by nia.
  assert (bb_block b * bs = bb_block a * bs + bb_len a) as Hpos by nia.
  split; [done|]. split; [done|].
  destruct (bb_type a) as [d|f o|fd o|v], (bb_type b) as [d'|f' o'|fd' o'|v']; try done.
  - apply andb_true_iff in Hty as [Hf Ho]. apply bool_decide_eq_true_1 in Hf as ->. zbool.
    simpl in *. rewrite !u64_small in Ho by lia. split; [|lia].
    intros k Hk. f_equal. lia.
  - zbool. subst fd'. simpl in *.
    match goal with H : u64 _ = u64 _ |- _ => rewrite !u64_small in H by lia end.
    split; [|lia]. intros k Hk. f_equal. lia.
  - zbool. subst v'. split; [|done]. intros k Hk. simpl. f_equal.
    assert (bb_len a mod 4 = 0) as H4.
    { rewrite Hdm, Hmod, Z.add_0_r, (Z.mul_comm bs), <- Z.mul_mod_idemp_r, Hbs2 by lia.
      by rewrite Z.mul_0_r. }
    rewrite Zminus_mod, H4, Z.sub_0_r. by rewrite Z.mod_mod.
Qed.

Lemma merge_block_ok a b :
  bb_ok bs a → bb_ok bs b → bb_before bs a b → bb_mergeable bs a b = true →
  let m := mk_bb (bb_block a) (u64 (bb_len a + bb_len b)) (bb_type a) in
  bb_ok bs m ∧ bb_end bs m = bb_end bs b ∧ bb_len m = bb_len a + bb_len b.
Proof.
  intros Ha Hb Hab Hm m.
  destruct (bb_mergeable_spec (mk_env (λ _, []) (λ _, [])) a b Ha Hb Hab Hm) as (Hmod & Hpos & _ & Hbk).
  pose proof (bb_len_bound b Hb).
  destruct Ha as (Ha1 & Ha2 & Ha3 & Ha4 & Ha5), Hb as (Hb1 & Hb2 & Hb3 & Hb4 & Hb5).
  destruct Hbs as [Hbs1 Hbs2].
  assert (bb_len m = bb_len a + bb_len b) as Hl by (simpl; apply u64_small; nia).
  assert (bb_end bs m = bb_end bs b) as He.
  { unfold bb_end. rewrite Hl. simpl. apply Z.div_exact in Hmod; [|lia].
    replace (bb_len a + bb_len b) with (bb_len b + bb_len a / bs * bs) by lia.
    rewrite div_round_up_add_mul by lia. nia. }
  split; [|done]. unfold bb_ok. rewrite He, Hl. simpl. split_and!; try lia; done.
Qed.
End blocks.

(** [queue_bb] on the list alone: find the predecessor from the head, link the
    block behind it, merge with the successor, then with the predecessor. *)
Fixpoint queue_link (bs : Z) (new_bb : backed_block) (l : list backed_block)
    : list backed_block :=
  match l with
  | a :: ((b :: _) as t) =>
      if bb_block b <? bb_block new_bb then a :: queue_link bs new_bb t
      else merge_head bs (a :: merge_head bs (new_bb :: t))
  | _ => merge_head bs (l ++ [new_bb])
  end.

Definition queue_ref (bs : Z) (new_bb : backed_block) (l : list backed_block)
    : list backed_block :=
  match l with
  | [] => [new_bb]
  | hd :: _ => if bb_block hd >? bb_block new_bb then new_bb :: l else queue_link bs new_bb l
  end.

(** ** Lemmas on lists of blocks *)

Section lists.
Context (bs : Z).
Hypothesis Hbs : block_size_ok bs.

Lemma blocks_ok_app l1 l2 :
  blocks_ok bs (l1 ++ l2) ↔
  blocks_ok bs l1 ∧ blocks_ok bs l2 ∧ ∀ a b, a ∈ l1 → b ∈ l2 → bb_before bs a b.
Proof.
  unfold blocks_ok. rewrite Forall_app. split.
  - intros [[H1 H2] Hs]. split_and!; try done.
    + by apply StronglySorted_app_1_l in Hs.
    + by apply StronglySorted_app_1_r in Hs.
    + intros a b. by apply StronglySorted_app_1_elem_of.
  - intros ([H1 S1] & [H2 S2] & H). split; [done|]. by apply StronglySorted_app_2.
Qed.

Lemma blocks_ok_cons a l :
  blocks_ok bs (a :: l) ↔
  bb_ok bs a ∧ blocks_ok bs l ∧ ∀ b, b ∈ l → bb_before bs a b.
Proof.
  unfold blocks_ok. rewrite Forall_cons. split.
  - intros [[H1 H2] [S1 S2]%StronglySorted_inv]. rewrite Forall_forall in S2. done.
  - intros (H1 & [H2 S2] & H). split; [done|]. constructor; [done|]. by apply Forall_forall.
Qed.

Lemma blocks_ok_nil : blocks_ok bs [].
Proof. split; constructor. Qed.

Lemma blocks_read_app env l1 l2 off :
  blocks_read env bs (l1 ++ l2) off =
  if existsb (λ b, bb_covers bs b off) l1 then blocks_read env bs l1 off
  else blocks_read env bs l2 off.
Proof.
  induction l1 as [|b l1 IH]; simpl; [done|].
  destruct (bb_covers bs b off); simpl; [done|]. apply IH.
Qed.

Lemma blocks_read_prefix env p l1 l2 off :
  blocks_read env bs l1 off = blocks_read env bs l2 off →
  blocks_read env bs (p ++ l1) off = blocks_read env bs (p ++ l2) off.
Proof. intros H. rewrite !blocks_read_app. by destruct (existsb _ p). Qed.

Lemma merge_head_read env l off :
  blocks_ok bs l → blocks_read env bs (merge_head bs l) off = blocks_read env bs l off.
Proof.
  destruct l as [|a [|b t]]; simpl; try done. intros Hok.
  apply blocks_ok_cons in Hok as (Ha & Hok & Hab).
  apply blocks_ok_cons in Hok as (Hb & _ & _).
  specialize (Hab b ltac:(apply list_elem_of_here)).
  destruct (bb_mergeable bs a b) eqn:Hm; [|done]. simpl.
  destruct (bb_mergeable_spec bs Hbs env a b Ha Hb Hab Hm) as (_ & Hpos & Hc & _).
  destruct (merge_block_ok bs Hbs a b Ha Hb Hab Hm) as (_ & _ & Hl). simpl in Hl.
  assert (0 ≤ bb_len a ∧ 0 ≤ bb_len b) as [? ?] by (destruct Ha as (_&?&_), Hb as (_&?&_); done).
  unfold bb_covers. simpl. rewrite Hl, Hpos.
  zcases; simpl; try lia; try done.
  rewrite Hc by lia. f_equal. lia.
Qed.

Lemma merge_head_elem l x :
  blocks_ok bs l → x ∈ merge_head bs l →
  bb_ok bs x ∧ (∃ a, a ∈ l ∧ bb_block a = bb_block x) ∧ (∃ b, b ∈ l ∧ bb_end bs b = bb_end bs x).
Proof.
  intros Hok Hx. assert (x ∈ l → bb_ok bs x ∧ (∃ a, a ∈ l ∧ bb_block a = bb_block x) ∧
    (∃ b, b ∈ l ∧ bb_end bs b = bb_end bs x)) as Hin.
  { intros Hin. destruct Hok as [Hf _]. rewrite Forall_forall in Hf.
    split; [by apply Hf|]. split; by exists x. }
  destruct l as [|a [|b t]]; simpl in Hx; auto.
  destruct (bb_mergeable bs a b) eqn:Hm; [|auto].
  apply elem_of_cons in Hx as [->|Hx]; [|apply Hin; by do 2 right].
  apply blocks_ok_cons in Hok as (Ha & Hok & Hab).
  apply blocks_ok_cons in Hok as (Hb & _ & _).
  destruct (merge_block_ok bs Hbs a b Ha Hb) as (Hmo & Hend & _); [by apply Hab; left|done|].
  split; [done|]. split.
  - exists a. split; [by left | done].
  - exists b. split; [by right; left | done].
Qed.

Lemma merge_head_ok l : blocks_ok bs l → blocks_ok bs (merge_head bs l).
Proof.
  destruct l as [|a [|b t]]; simpl; try done. intros Hok.
  destruct (bb_mergeable bs a b) eqn:Hm; [|done].
  apply blocks_ok_cons in Hok as (Ha & Hok & Hab).
  apply blocks_ok_cons in Hok as (Hb & Ht & Hbt).
  destruct (merge_block_ok bs Hbs a b Ha Hb) as (Hmo & Hend & _); [by apply Hab; left|done|].
  apply blocks_ok_cons. split_and!; [done..|]. intros z Hz.
  destruct (Hab z ltac:(by right)) as [? ?]. destruct (Hbt z Hz) as [? ?].
  split; simpl; [done|]. by rewrite Hend.
Qed.

(** Replacing the tail of a well-formed list by one whose blocks start and end
    where blocks of the old tail do. *)
Lemma blocks_ok_replace p l l' :
  blocks_ok bs (p ++ l) → blocks_ok bs l' →
  (∀ x, x ∈ l' → ∃ a, a ∈ l ∧ bb_block a = bb_block x) → blocks_ok bs (p ++ l').
Proof.
  intros Hok Hl' Hstart. apply blocks_ok_app in Hok as (Hp & Hl & Hpl).
  apply blocks_ok_app. split_and!; [done..|]. intros a x Ha Hx.
  destruct (Hstart x Hx) as (b & Hb & Heq). destruct (Hpl a b Ha Hb) as [? ?].
  split; by rewrite <- Heq.
Qed.

Lemma merge_head_ok_app p l : blocks_ok bs (p ++ l) → blocks_ok bs (p ++ merge_head bs l).
Proof.
  intros Hok. pose proof Hok as Hok'. apply blocks_ok_app in Hok' as (_ & Hl & _).
  apply blocks_ok_replace with l; [done|by apply merge_head_ok|].
  intros x Hx. by apply (merge_head_elem l x Hl).
Qed.

Lemma merge_head_ends l n :
  blocks_ok bs l → Forall (λ b, bb_end bs b ≤ n) l →
  Forall (λ b, bb_end bs b ≤ n) (merge_head bs l).
Proof.
  intros Hok Hn. rewrite !Forall_forall in *. intros x Hx.
  destruct (merge_head_elem l x Hok Hx) as (_ & _ & b & Hb & <-). by apply Hn.
Qed.

(** ** The search of [queue_bb] *)

Lemma queue_search_split l blk :
  l ≠ [] →
  ∃ p a q, l = p ++ a :: q ∧ length p = queue_search l blk ∧
    Forall (λ b, bb_block b < blk) (tail (p ++ [a])) ∧
    match q with b :: _ => blk ≤ bb_block b | [] => True end.
Proof.
  induction l as [|a l IH]; [done|]. intros _.
  destruct l as [|b t]; simpl.
  { by exists [], a, []. }
  destruct (Z.ltb_spec (bb_block b) blk) as [Hlt|Hge].
  - destruct IH as (p & a' & q & Heq & Hlen & Hf & Hq); [done|].
    exists (a :: p), a', q. split_and!; try done.
    + by rewrite Heq.
    + cbn [length]. by rewrite Hlen.
    + simpl. destruct p as [|b' p]; simpl in *.
      * injection Heq as -> _. by constructor.
      * injection Heq as -> _. by constructor.
  - by exists [], a, (b :: t).
Qed.

Lemma queue_link_app p a q new_bb :
  Forall (λ b, bb_block b < bb_block new_bb) (tail (p ++ [a])) →
  match q with b :: _ => bb_block new_bb ≤ bb_block b | [] => True end →
  queue_link bs new_bb (p ++ a :: q) = p ++ merge_head bs (a :: merge_head bs (new_bb :: q)).
Proof.
  revert a. induction p as [|b p IH]; intros a Hf Hq.
  - simpl. destruct q as [|c q]; [done|].
    destruct (Z.ltb_spec (bb_block c) (bb_block new_bb)); [lia|done].
  - simpl in Hf. rewrite <- !app_comm_cons, <- IH; [|by destruct p; simpl in *; [constructor | inversion Hf]|done].
    simpl. destruct p as [|c p]; simpl in *.
    + inversion Hf; subst.
      destruct (Z.ltb_spec (bb_block a) (bb_block new_bb)); [done|lia].
    + inversion Hf; subst.
      destruct (Z.ltb_spec (bb_block c) (bb_block new_bb)); [done|lia].
Qed.
End lists.

(** ** [queue_bb] against its reference *)

Section queue.
Context (bs : Z).
Hypothesis Hbs : block_size_ok bs.

Definition head_mergeable (l : list backed_block) : bool :=
  match l with a :: b :: _ => bb_mergeable bs a b | _ => false end.

Lemma length_merge_head a l : (0 < length (merge_head bs (a :: l)))%nat.
Proof. destruct l as [|b l]; simpl; [lia|]. destruct (bb_mergeable bs a b); simpl; lia. Qed.

Lemma merge_head_keep l : head_mergeable l = false → merge_head bs l = l.
Proof. destruct l as [|a [|b l]]; simpl; try done. by intros ->. Qed.

Lemma merge_bb_at p l lu :
  match l with a :: b :: _ => bb_block a < bb_block b | _ => True end →
  ∃ lu', merge_bb (mk_bbl (p ++ l) lu bs) (length p) =
    Ret (if head_mergeable l then 0 else - EINVAL, mk_bbl (p ++ merge_head bs l) lu' bs)
    ∧ (lu = Some (length p) → lu' = lu)
    ∧ (head_mergeable l = false → lu' = lu).
Proof.
  intros Hlt. unfold merge_bb. simpl.
  rewrite lookup_app_r, Nat.sub_diag by lia.
  rewrite lookup_app_r by lia. replace (S (length p) - length p)%nat with 1%nat by lia.
  destruct l as [|a [|b t]]; simpl; [by exists lu..|].
  rewrite (proj2 (Z.ltb_lt _ _) Hlt). simpl.
  destruct (bb_mergeable bs a b); [|by exists lu].
  eexists. split; [|split; [|by intros [=]]].
  - rewrite take_app_length. rewrite drop_app_ge by lia.
    replace (S (S (length p)) - length p)%nat with 2%nat by lia. reflexivity.
  - intros ->. rewrite decide_False by lia. by rewrite decide_False by lia.
Qed.

Lemma merge_bb_assert p a b t lu :
  bb_block b ≤ bb_block a →
  merge_bb (mk_bbl (p ++ a :: b :: t) lu bs) (length p) = AssertFail.
Proof.
  intros Hge. unfold merge_bb. simpl.
  rewrite lookup_app_r, Nat.sub_diag by lia.
  rewrite lookup_app_r by lia. replace (S (length p) - length p)%nat with 1%nat by lia.
  simpl. by rewrite (proj2 (Z.ltb_ge _ _) Hge).
Qed.

Lemma queue_pos_split l lu blk hd :
  bbl_ok (mk_bbl l lu bs) → head l = Some hd → bb_block hd ≤ blk →
  let start := queue_start (mk_bbl l lu bs) blk in
  ∃ p a q, l = p ++ a :: q ∧ length p = (start + queue_search (drop start l) blk)%nat ∧
    Forall (λ b, bb_block b < blk) (tail (p ++ [a])) ∧
    match q with b :: _ => blk ≤ bb_block b | [] => True end ∧
    (bb_block a < blk ∨ p = [] ∧ a = hd).
Proof.
  intros (_ & Hok & Hlu) Hhd Hle. simpl in *. unfold queue_start. simpl.
  assert (∃ p a q, l = p ++ a :: q ∧ length p = (0 + queue_search (drop 0 l) blk)%nat ∧
    Forall (λ b, bb_block b < blk) (tail (p ++ [a])) ∧
    match q with b :: _ => blk ≤ bb_block b | [] => True end ∧
    (bb_block a < blk ∨ p = [] ∧ a = hd)) as Hzero.
  { destruct (queue_search_split l blk) as (p & a & q & Heq & Hlen & Hf & Hq).
    { by destruct l. }
    exists p, a, q. split_and!; try done. destruct p as [|b p].
    - right. rewrite Heq in Hhd. by injection Hhd.
    - left. simpl in Hf. apply Forall_app in Hf as [_ Hf]. by inversion Hf. }
  destruct lu as [j|]; [|done]. destruct (l !! j) as [b|] eqn:Hj; [|done].
  rewrite Z.gtb_ltb. destruct (Z.ltb_spec (bb_block b) blk) as [Hlt|]; [|done].
  assert (drop j l = b :: drop (S j) l) as Hdrop by by apply drop_S.
  destruct (queue_search_split (drop j l) blk) as (p & a & q & Heq & Hlen & Hf & Hq);
    [by rewrite Hdrop|].
  exists (take j l ++ p), a, q.
  assert (Forall (λ c, bb_block c < blk) (take j l ++ p ++ [a])) as Hall.
  { apply Forall_app. split.
    - apply Forall_forall. intros c Hc.
      rewrite <- (take_drop j l), Hdrop in Hok. apply blocks_ok_app in Hok as (_ & _ & Hb).
      destruct (Hb c b Hc ltac:(by left)). lia.
    - rewrite Hdrop in Heq. destruct p as [|c p]; simpl in *; injection Heq as ??; subst.
      + by repeat constructor.
      + by constructor. }
  split_and!; try done.
  - by rewrite <- app_assoc, <- Heq, take_drop.
  - rewrite length_app, length_take. lia.
  - rewrite <- app_assoc. destruct (take j l ++ p ++ [a]); simpl; [constructor|].
    by inversion Hall.
  - left. apply Forall_app in Hall as [_ Hall]. apply Forall_app in Hall as [_ Hall].
    by inversion Hall.
Qed.

Lemma queue_bb_ref l lu new_bb :
  bbl_ok (mk_bbl l lu bs) → Forall (λ b, bb_block b ≠ bb_block new_bb) l →
  ∃ lu', queue_bb (mk_bbl l lu bs) new_bb = Ret (0, mk_bbl (queue_ref bs new_bb l) lu' bs)
    ∧ match lu' with Some j => (j < length (queue_ref bs new_bb l))%nat | None => True end.
Proof.
  intros Hok Hne. unfold queue_bb. cbn [data_blocks bbl_block_size last_used].
  destruct l as [|hd t] eqn:El; [exists lu; simpl; split; [done|]; by destruct Hok as (_ & _ & Hlu);
    destruct lu as [j|]; simpl in *; lia|].
  rewrite <- El in *. assert (head l = Some hd) as Hhd by by subst.
  assert (queue_ref bs new_bb l = if bb_block hd >? bb_block new_bb then new_bb :: l
          else queue_link bs new_bb l) as -> by by rewrite El.
  rewrite Z.gtb_ltb. destruct (Z.ltb_spec (bb_block new_bb) (bb_block hd)) as [Hlt|Hge].
  { exists (S <$> lu). split; [done|]. destruct Hok as (_ & _ & Hlu). simpl in *.
    destruct lu; simpl; lia. }
  destruct (queue_pos_split l lu (bb_block new_bb) hd Hok Hhd Hge)
    as (p & a & q & Heq & Hlen & Hf & Hq & Ha).
  rewrite <- Hlen. set (i := length p).
  assert (bb_block a < bb_block new_bb) as Hanew.
  { rewrite Heq in Hne. apply Forall_app in Hne as [_ Hne]. inversion Hne; subst.
    destruct Ha as [?|[_ ->]]; lia. }
  assert (match q with b :: _ => bb_block new_bb < bb_block b | [] => True end) as Hnq.
  { rewrite Heq in Hne. apply Forall_app in Hne as [_ Hne].
    destruct q as [|b q]; [done|]. inversion Hne as [|?? _ Hn]. inversion Hn. lia. }
  rewrite Heq, (queue_link_app bs p a q new_bb Hf Hq).
  assert (take (S i) (p ++ a :: q) = p ++ [a]) as ->.
  { rewrite cons_middle, app_assoc. apply take_app_length'. rewrite length_app. simpl. lia. }
  assert (drop (S i) (p ++ a :: q) = q) as ->.
  { rewrite cons_middle, app_assoc. apply drop_app_length'. rewrite length_app. simpl. lia. }
  assert (S i = length (p ++ [a])) as Hi by (rewrite length_app; simpl; lia). rewrite Hi.
  destruct (merge_bb_at (p ++ [a]) (new_bb :: q) (Some (length (p ++ [a]))))
    as (lu1 & -> & Hlu1 & _); [by destruct q|]. mstep. rewrite (Hlu1 eq_refl).
  rewrite <- app_assoc. cbn [app]. subst i.
  destruct (merge_bb_at p (a :: merge_head bs (new_bb :: q)) (Some (length (p ++ [a]))))
    as (lu2 & -> & _ & Hlu2).
  { destruct q as [|b q]; simpl; [done|]. by destruct (bb_mergeable bs new_bb b). }
  mstep. cbn [data_blocks bbl_block_size].
  destruct (head_mergeable (a :: merge_head bs (new_bb :: q))) eqn:Hm; simpl Z.eqb; cbv iota.
  - exists (Some (length p)). split; [done|]. rewrite length_app.
    pose proof (length_merge_head a (merge_head bs (new_bb :: q))). lia.
  - rewrite (Hlu2 eq_refl). eexists. split; [done|]. rewrite merge_head_keep by done.
    rewrite !length_app. cbn [length].
    pose proof (length_merge_head new_bb q). lia.
Qed.

Lemma queue_ref_cases l new_bb :
  blocks_ok bs l → Forall (λ b, bb_block b ≠ bb_block new_bb) l →
  ∃ p q, l = p ++ q ∧ (∀ b, b ∈ p → bb_block b < bb_block new_bb) ∧
    (∀ b, b ∈ q → bb_block new_bb < bb_block b) ∧
    (p = [] ∧ queue_ref bs new_bb l = new_bb :: q ∨
     ∃ p' a, p = p' ++ [a] ∧
       queue_ref bs new_bb l = p' ++ merge_head bs (a :: merge_head bs (new_bb :: q))).
Proof.
  intros Hok Hne. destruct l as [|hd t] eqn:El; [exists [], []; split_and!; [done|set_solver..|by left]|].
  rewrite <- El in *.
  assert (queue_ref bs new_bb l = if bb_block hd >? bb_block new_bb then new_bb :: l
          else queue_link bs new_bb l) as -> by by rewrite El.
  rewrite Z.gtb_ltb. destruct (Z.ltb_spec (bb_block new_bb) (bb_block hd)) as [Hlt|Hge].
  { exists [], l. split_and!; [done|set_solver| |by left]. intros b Hb. subst l.
    apply blocks_ok_cons in Hok as (_ & _ & Hb'). apply elem_of_cons in Hb as [->|Hb]; [done|].
    destruct (Hb' b Hb). lia. }
  destruct (queue_pos_split l None (bb_block new_bb) hd) as (p & a & q & Heq & _ & Hf & Hq & Ha).
  { split; [done|]. by split. } { by rewrite El. } { done. }
  exists (p ++ [a]), q. rewrite <- app_assoc. simpl.
  assert (bb_block a < bb_block new_bb) as Hanew.
  { rewrite Heq in Hne. apply Forall_app in Hne as [_ Hne]. inversion Hne; subst.
    destruct Ha as [?|[_ ->]]; lia. }
  pose proof Hok as Hok'. rewrite Heq in Hok'. apply blocks_ok_app in Hok' as (_ & Haq & Hp).
  apply blocks_ok_cons in Haq as (_ & Hqok & _).
  split_and!; [done| | |].
  - intros b [Hb|Hb]%elem_of_app.
    + destruct (Hp b a Hb ltac:(by left)). lia.
    + apply list_elem_of_singleton in Hb as ->. done.
  - destruct q as [|c q]; [set_solver|].
    assert (bb_block new_bb < bb_block c).
    { rewrite Heq in Hne. apply Forall_app in Hne as [_ Hne].
      inversion Hne as [|?? _ Hn]. inversion Hn. lia. }
    intros b [->|Hb]%elem_of_cons; [done|].
    apply blocks_ok_cons in Hqok as (_ & _ & Hb'). destruct (Hb' b Hb). lia.
  - right. exists p, a. split; [done|]. rewrite Heq. by apply queue_link_app.
Qed.

Lemma blocks_ok_insert p q new_bb :
  blocks_ok bs (p ++ q) → bb_ok bs new_bb → bb_fits bs (p ++ q) new_bb →
  (∀ b, b ∈ p → bb_block b < bb_block new_bb) →
  (∀ b, b ∈ q → bb_block new_bb < bb_block b) →
  blocks_ok bs (p ++ new_bb :: q).
Proof.
  intros Hok Hnew Hfit Hp Hq. apply blocks_ok_app in Hok as (Hokp & Hokq & Hpq).
  unfold bb_fits in Hfit. rewrite Forall_forall in Hfit.
  assert (∀ b, b ∈ p → bb_before bs b new_bb) as Hbp.
  { intros b Hb. destruct (Hfit b) as [?|[? _]]; [set_solver|done|].
    specialize (Hp b Hb). lia. }
  assert (∀ b, b ∈ q → bb_before bs new_bb b) as Hbq.
  { intros b Hb. destruct (Hfit b) as [[? _]|?]; [set_solver| |done].
    specialize (Hq b Hb). lia. }
  apply blocks_ok_app. split_and!; [done| |].
  - by apply blocks_ok_cons.
  - intros a b Ha [->|Hb]%elem_of_cons; auto.
Qed.

Lemma blocks_read_insert env p q new_bb off :
  blocks_ok bs (p ++ new_bb :: q) →
  blocks_read env bs (p ++ new_bb :: q) off =
  if bb_covers bs new_bb off then content env (bb_type new_bb) (off - bb_block new_bb * bs)
  else blocks_read env bs (p ++ q) off.
Proof.
  intros Hok. rewrite !blocks_read_app. simpl.
  destruct (existsb _ p) eqn:He; [|by destruct (bb_covers bs new_bb off)].
  destruct (bb_covers bs new_bb off) eqn:Hc; [|done]. exfalso.
  apply existsb_exists in He as (b & Hb%list_elem_of_In & Hbc).
  apply blocks_ok_app in Hok as ([Hp _] & _ & Hpq). rewrite Forall_forall in Hp.
  destruct (Hp b Hb) as (_ & Hl & _).
  apply (bb_before_disjoint bs Hbs b new_bb off Hl); auto. apply Hpq; [done|by left].
Qed.

(** Everything a client needs to know about a successful insertion. *)
Record queued (l l' : list backed_block) (new_bb : backed_block) : Prop := {
  queued_ok : blocks_ok bs l';
  queued_read env off : blocks_read env bs l' off =
    if bb_covers bs new_bb off then content env (bb_type new_bb) (off - bb_block new_bb * bs)
    else blocks_read env bs l off;
  queued_elem x : x ∈ l' → (∃ a, a ∈ new_bb :: l ∧ bb_block a = bb_block x) ∧
    (∃ b, b ∈ new_bb :: l ∧ bb_end bs b = bb_end bs x)
}.

Lemma queued_Forall l l' new_bb (P Q : Z → Prop) :
  queued l l' new_bb → P (bb_block new_bb) → Q (bb_end bs new_bb) →
  Forall (λ b, P (bb_block b) ∧ Q (bb_end bs b)) l →
  Forall (λ b, P (bb_block b) ∧ Q (bb_end bs b)) l'.
Proof.
  intros Hq HP HQ Hl. rewrite Forall_forall in *. intros x Hx.
  destruct (queued_elem _ _ _ Hq x Hx) as [(a & Ha & <-) (b & Hb & <-)].
  apply elem_of_cons in Ha as [->|Ha], Hb as [->|Hb]; split; try done; by apply Hl.
Qed.

Lemma queue_ref_queued l new_bb :
  blocks_ok bs l → bb_ok bs new_bb → bb_fits bs l new_bb → queued l (queue_ref bs new_bb l) new_bb.
Proof.
  intros Hok Hnew Hfit.
  destruct (queue_ref_cases l new_bb) as (p & q & -> & Hp & Hq & Hcase); [done| |].
  { eapply Forall_impl; [exact Hfit|]. intros b [[? _]|[? _]]; lia. }
  pose proof (blocks_ok_insert p q new_bb Hok Hnew Hfit Hp Hq) as Hins.
  assert (∀ x, x ∈ p ++ new_bb :: q → x ∈ new_bb :: p ++ q) as Hin by (clear; set_solver).
  destruct Hcase as [[-> ->]|(p' & a & -> & ->)].
  { split; [done| |]; [intros; by apply (blocks_read_insert env [])|].
    intros x Hx. split; by exists x. }
  pose proof (merge_head_ok_app bs Hbs (p' ++ [a]) (new_bb :: q) Hins) as H1.
  rewrite <- app_assoc in H1.
  pose proof (merge_head_ok_app bs Hbs p' _ H1) as H2.
  pose proof Hins as Hnq. apply blocks_ok_app in Hnq as (_ & Hnq & _).
  pose proof H1 as Hanq. apply blocks_ok_app in Hanq as (_ & Hanq & _).
  split; [done| |].
  - intros env off. rewrite <- blocks_read_insert by done.
    rewrite (blocks_read_prefix bs env p' _ ([a] ++ merge_head bs (new_bb :: q)))
      by by apply merge_head_read.
    rewrite app_assoc. apply blocks_read_prefix. by apply merge_head_read.
  - assert (∀ y, y ∈ a :: merge_head bs (new_bb :: q) →
      (∃ c, c ∈ new_bb :: (p' ++ [a]) ++ q ∧ bb_block c = bb_block y) ∧
      (∃ c, c ∈ new_bb :: (p' ++ [a]) ++ q ∧ bb_end bs c = bb_end bs y)) as Hy.
    { intros y [->|Hy]%elem_of_cons; [split; exists a; set_solver|].
      destruct (merge_head_elem bs Hbs _ y Hnq Hy) as (_ & (c & Hc & E) & (d & Hd & F)).
      split; [exists c|exists d]; set_solver. }
    intros x [Hx|Hx]%elem_of_app; [split; exists x; set_solver|].
    destruct (merge_head_elem bs Hbs _ x Hanq Hx) as (_ & (c & Hc & <-) & (d & Hd & <-)).
    split; [by apply Hy in Hc as [? _]|by apply Hy in Hd as [_ ?]].
Qed.
End queue.

(** ** Splitting and moving *)

(** [backed_block_split] on the block alone. *)
Definition split_block (bs max_len : Z) (bb : backed_block) : list backed_block :=
  let n := ALIGN_DOWN max_len bs in
  if bb_len bb <=? n then [bb]
  else [mk_bb (bb_block bb) n (bb_type bb);
        mk_bb (bb_block bb + n / bs) (bb_len bb - n) (backing_skip (bb_type bb) n)].

Section split.
Context (bs : Z).
Hypothesis Hbs : block_size_ok bs.

Lemma backing_skip_content env t n k len :
  backing_ok t len → 0 ≤ n ≤ len → n mod 4 = 0 → 0 ≤ k →
  content env (backing_skip t n) k = content env t (n + k).
Proof.
  intros Hok Hn H4 Hk. destruct t as [d|f o|fd o|v]; simpl in *.
  - apply zlookup_zdrop; lia.
  - rewrite i64_small by lia. f_equal. lia.
  - rewrite i64_small by lia. f_equal. lia.
  - f_equal. by rewrite Z.add_mod, H4, Z.add_0_l, Z.mod_mod by lia.
Qed.

Lemma backing_skip_ok t n len :
  backing_ok t len → 0 ≤ n ≤ len → backing_ok (backing_skip t n) (len - n).
Proof.
  intros Hok Hn. destruct t as [d|f o|fd o|v]; simpl in *; try done.
  - rewrite zlen_zdrop; lia.
  - rewrite i64_small; lia.
  - rewrite i64_small; lia.
Qed.

Lemma backing_ok_le t n len : backing_ok t len → n ≤ len → backing_ok t n.
Proof. intros Hok Hn. destruct t; simpl in *; lia. Qed.

Lemma align_down_facts max_len :
  bs ≤ max_len → let n := ALIGN_DOWN max_len bs in
  bs ≤ n ≤ max_len ∧ n mod 4 = 0 ∧ n = n / bs * bs.
Proof.
  intros Hm n. destruct Hbs as [Hb H4]. pose proof (align_down_bounds max_len bs ltac:(lia)).
  assert (1 ≤ max_len / bs) by (apply Z.div_le_lower_bound; lia).
  assert (n / bs = max_len / bs) as Hd by (unfold n, ALIGN_DOWN; rewrite Z.mul_comm, Z.div_mul; lia).
  split_and!.
  - unfold n, ALIGN_DOWN. nia.
  - unfold n in *. lia.
  - unfold n, ALIGN_DOWN. by rewrite <- Z.mul_mod_idemp_l, H4.
  - rewrite Hd. unfold n, ALIGN_DOWN. lia.
Qed.

Lemma split_block_read env max_len bb l off :
  bb_ok bs bb → bs ≤ max_len →
  blocks_read env bs (split_block bs max_len bb ++ l) off = blocks_read env bs (bb :: l) off.
Proof.
  intros Hok Hm. unfold split_block. destruct (align_down_facts max_len Hm) as (Hn & H4 & Hd).
  set (n := ALIGN_DOWN max_len bs) in *.
  destruct (Z.leb_spec (bb_len bb) n) as [|Hlt]; [done|].
  destruct Hok as (Hb & Hl & He & _ & Hk). simpl. unfold bb_covers. simpl.
  assert ((bb_block bb + n / bs) * bs = bb_block bb * bs + n) as -> by lia.
  destruct Hbs as [Hb0 _]. clear Hd. zcases; simpl; try lia; try done.
  rewrite (backing_skip_content env _ n _ (bb_len bb)) by (done || lia). f_equal. lia.
Qed.

Lemma split_block_ok max_len bb :
  bb_ok bs bb → bs ≤ max_len → blocks_ok bs (split_block bs max_len bb) ∧
  (∀ x, x ∈ split_block bs max_len bb → bb_block bb ≤ bb_block x ∧ bb_end bs x ≤ bb_end bs bb) ∧
  (∀ x, head (split_block bs max_len bb) = Some x → bb_len x ≤ max_len).
Proof.
  intros Hok Hm. unfold split_block. destruct (align_down_facts max_len Hm) as (Hn & H4 & Hd).
  set (n := ALIGN_DOWN max_len bs) in *.
  destruct (Z.leb_spec (bb_len bb) n) as [|Hlt].
  { split_and!; [by apply blocks_ok_cons; split_and!; [|apply blocks_ok_nil|set_solver]| |].
    - intros x ->%list_elem_of_singleton. lia.
    - intros x [= <-]. lia. }
  destruct Hok as (Hb & Hl & He & Heb & Hk). destruct Hbs as [Hbs1 _].
  set (b1 := mk_bb (bb_block bb) n (bb_type bb)).
  set (b2 := mk_bb _ _ _).
  assert (0 ≤ n / bs) by (apply Z.div_pos; lia).
  assert (bb_end bs b1 = bb_block b2) as E1.
  { unfold bb_end. simpl. rewrite Hd at 1. rewrite div_round_up_mul by lia. done. }
  assert (bb_end bs b2 = bb_end bs bb) as E2.
  { unfold bb_end. simpl. replace (bb_len bb) with (bb_len bb - n + n / bs * bs) at 2 by lia.
    rewrite div_round_up_add_mul by lia. lia. }
  pose proof (bb_end_ge bs Hbs b2 ltac:(simpl; lia)).
  assert (bb_ok bs b1) as Ok1.
  { split_and!; simpl; [lia|lia|lia|nia|]. by apply backing_ok_le with (bb_len bb); [|lia]. }
  assert (bb_ok bs b2) as Ok2.
  { split_and!; [simpl; lia|simpl; lia|lia|by rewrite E2|]. simpl. apply backing_skip_ok; [done|lia]. }
  assert (0 < n / bs) by nia.
  split_and!.
  - apply blocks_ok_cons. split_and!; [done|..].
    + apply blocks_ok_cons. split_and!; [done|apply blocks_ok_nil|set_solver].
    + intros b ->%list_elem_of_singleton. split; simpl; [lia|]. rewrite E1. simpl. lia.
  - intros x Hx. rewrite elem_of_cons, list_elem_of_singleton in Hx.
    destruct Hx as [->| ->]; [|rewrite E2; simpl; lia]. rewrite E1. simpl in *. lia.
  - intros x [= <-]. simpl. lia.
Qed.

Lemma backed_block_split_eq bbl p bb q max_len :
  data_blocks bbl = p ++ bb :: q → bbl_block_size bbl = bs → bb_ok bs bb →
  bs ≤ max_len →
  ∃ lu, backed_block_split bbl (length p) max_len =
    Ret (0, mk_bbl (p ++ split_block bs max_len bb ++ q) lu bs) ∧
    (lu = last_used bbl ∨ lu = S <$> last_used bbl) ∧
    (length (split_block bs max_len bb) = 1%nat → lu = last_used bbl).
Proof.
  intros Hl Hb Hok Hm. unfold backed_block_split, split_block. rewrite Hl, Hb.
  rewrite lookup_app_r, Nat.sub_diag by lia. simpl.
  destruct (align_down_facts max_len Hm) as (Hn & _ & Hd).
  destruct Hok as (? & ? & He & ? & ?). unfold bb_end in He.
  destruct (Z.leb_spec (bb_len bb) (ALIGN_DOWN max_len bs)) as [|Hlt].
  { exists (last_used bbl). split_and!; auto. destruct bbl; simpl in *. by subst. }
  eexists. split_and!.
  - rewrite take_app_length. rewrite drop_app_ge by lia.
    replace (S (length p) - length p)%nat with 1%nat by lia. simpl.
    rewrite u32_small.
    + rewrite u64_small; [reflexivity|].
      pose proof (bb_len_bound bs Hbs bb ltac:(done)). destruct Hbs. nia.
    + destruct Hbs. assert (ALIGN_DOWN max_len bs / bs ≤ DIV_ROUND_UP (bb_len bb) bs).
      { apply Z.div_le_mono; lia. }
      assert (0 ≤ ALIGN_DOWN max_len bs / bs) by (apply Z.div_pos; lia). lia.
  - destruct (last_used bbl); simpl; [|by left]. case_decide; auto.
  - simpl. lia.
Qed.
End split.

Lemma merge_head_cons bs b l :
  ∃ b' t, merge_head bs (b :: l) = b' :: t ∧ bb_block b' = bb_block b.
Proof.
  destruct l as [|c l]; simpl; [by eexists _, _|].
  destruct (bb_mergeable bs b c); by eexists _, _.
Qed.

Lemma queue_bb_duplicate bbl new_bb b :
  bbl_ok bbl → b ∈ data_blocks bbl → bb_block b = bb_block new_bb →
  queue_bb bbl new_bb = AssertFail.
Proof.
  destruct bbl as [l lu bs]. intros Hok Hb Heqb. simpl in Hb.
  pose proof Hok as (Hbs & Hbl & _). simpl in Hbs, Hbl.
  destruct l as [|hd t] eqn:El; [set_solver|]. rewrite <- El in *.
  assert (∀ c, c ∈ l → bb_block hd ≤ bb_block c) as Hmin.
  { intros c Hc. rewrite El in Hbl, Hc. apply blocks_ok_cons in Hbl as (_ & _ & Hbl).
    apply elem_of_cons in Hc as [->|Hc]; [lia|]. destruct (Hbl c Hc). lia. }
  unfold queue_bb. cbn [data_blocks bbl_block_size last_used]. rewrite El, <- El.
  rewrite Z.gtb_ltb, (proj2 (Z.ltb_ge _ _)) by (rewrite <- Heqb; auto).
  destruct (queue_pos_split bs l lu (bb_block new_bb) hd Hok) as (p & a & q & Heq & Hlen & Hf & Hq & Ha).
  { by rewrite El. } { rewrite <- Heqb. auto. }
  rewrite <- Hlen.
  assert (take (S (length p)) l = p ++ [a]) as ->.
  { rewrite Heq, cons_middle, app_assoc. apply take_app_length'. rewrite length_app. simpl. lia. }
  assert (drop (S (length p)) l = q) as ->.
  { rewrite Heq, cons_middle, app_assoc. apply drop_app_length'. rewrite length_app. simpl. lia. }
  assert (S (length p) = length (p ++ [a])) as Hi by (rewrite length_app; simpl; lia).
  rewrite Heq in Hbl. apply blocks_ok_app in Hbl as (_ & Haq & Hp).
  apply blocks_ok_cons in Haq as (_ & Hqok & Haq).
  destruct q as [|c q].
  2: destruct (Z.eq_dec (bb_block c) (bb_block new_bb)) as [Hc|Hc].
  2: { rewrite Hi, merge_bb_assert by lia. done. }
  all: assert (b ∈ p ++ [a]) as Hbp by (rewrite Heq, cons_middle, app_assoc in Hb;
    apply elem_of_app in Hb as [?|Hbq]; [done|]; exfalso;
    first [by apply not_elem_of_nil in Hbq | apply elem_of_cons in Hbq as [->|Hbq]; [lia|];
      apply blocks_ok_cons in Hqok as (_ & _ & Hcq); destruct (Hcq b Hbq); lia]).
  all: assert (p = [] ∧ a = b) as [-> ->] by (
    destruct p as [|x p]; simpl in *; [by apply list_elem_of_singleton in Hbp|]; exfalso;
    rewrite Forall_forall in Hf; apply elem_of_cons in Hbp as [->|Hbp];
    [destruct (Hp x a) as [? _]; [by left|by left|];
     specialize (Hf a ltac:(apply elem_of_app; right; by left)); simpl in Hf; lia
    |specialize (Hf b Hbp); simpl in Hf; lia]).
  all: rewrite Hi.
  1: destruct (merge_bb_at bs ([] ++ [b]) [new_bb] (Some (length ([] ++ [b])))) as (lu1 & -> & _); [done|].
  2: destruct (merge_bb_at bs ([] ++ [b]) (new_bb :: c :: q) (Some (length ([] ++ [b])))) as (lu1 & -> & _); [simpl; lia|].
  all: mstep.
  1: destruct (merge_head_cons bs new_bb []) as (b' & t' & -> & Hb').
  2: destruct (merge_head_cons bs new_bb (c :: q)) as (b' & t' & -> & Hb').
  all: pose proof (merge_bb_assert bs [] b b' t' lu1 ltac:(lia)) as Has; simpl in Has |- *; by rewrite Has.
Qed.

(** ** Properties *)

Lemma queue_bb_queued bbl new_bb :
  bbl_ok bbl → bb_ok (bbl_block_size bbl) new_bb →
  bb_fits (bbl_block_size bbl) (data_blocks bbl) new_bb →
  ∃ bbl', queue_bb bbl new_bb = Ret (0, bbl') ∧ bbl_ok bbl' ∧
    bbl_block_size bbl' = bbl_block_size bbl ∧
    queued (bbl_block_size bbl) (data_blocks bbl) (data_blocks bbl') new_bb.
Proof.
  destruct bbl as [l lu bs]. simpl. intros Hok Hnew Hfit.
  pose proof Hok as (Hbs & Hbl & _). simpl in Hbs, Hbl.
  destruct (queue_bb_ref bs l lu new_bb Hok) as (lu' & -> & Hlu').
  { eapply Forall_impl; [exact Hfit|]. intros b [[? _]|[? _]]; lia. }
  pose proof (queue_ref_queued bs Hbs l new_bb Hbl Hnew Hfit) as Hq.
  eexists. split; [reflexivity|]. split; [|done]. split_and!; simpl; [done| |done]. apply Hq.
Qed.

(** C13: inserting a block that fits a gap of a well-formed list succeeds, keeps
    the list well-formed, and changes the image described by the list only
    inside the new block, where it becomes the new block's contents; merging
    with the neighbours is invisible in the image. *)
Theorem queue_bb_correct bbl new_bb :
  bbl_ok bbl → bb_ok (bbl_block_size bbl) new_bb →
  bb_fits (bbl_block_size bbl) (data_blocks bbl) new_bb →
  ∃ bbl', queue_bb bbl new_bb = Ret (0, bbl') ∧ bbl_ok bbl' ∧
    bbl_block_size bbl' = bbl_block_size bbl ∧
    ∀ env off, blocks_read env (bbl_block_size bbl) (data_blocks bbl') off =
      if bb_covers (bbl_block_size bbl) new_bb off
      then content env (bb_type new_bb) (off - bb_block new_bb * bbl_block_size bbl)
      else blocks_read env (bbl_block_size bbl) (data_blocks bbl) off.
Proof.
  intros Hok Hnew Hfit. destruct (queue_bb_queued bbl new_bb Hok Hnew Hfit) as (bbl' & Heq & H1 & H2 & Hq).
  exists bbl'. split_and!; [done..|apply Hq].
Qed.

Lemma queue_bb_correct_witness :
  ∃ bbl', queue_bb (mk_bbl [mk_bb 0 8 (BACKED_BLOCK_FILL 7); mk_bb 5 4 (BACKED_BLOCK_FILL 7)]
                      (Some 0%nat) 4) (mk_bb 2 12 (BACKED_BLOCK_FILL 7)) = Ret (0, bbl') ∧
    bbl_ok bbl' ∧ bbl_block_size bbl' = 4 ∧
    ∀ env off, blocks_read env 4 (data_blocks bbl') off =
      if bb_covers 4 (mk_bb 2 12 (BACKED_BLOCK_FILL 7)) off
      then content env (BACKED_BLOCK_FILL 7) (off - 2 * 4)
      else blocks_read env 4 [mk_bb 0 8 (BACKED_BLOCK_FILL 7); mk_bb 5 4 (BACKED_BLOCK_FILL 7)] off.
Proof.
  apply (queue_bb_correct (mk_bbl _ (Some 0%nat) 4)).
  - split_and!; [done| |simpl; lia]. split; repeat constructor; done.
  - by repeat split.
  - constructor; [left; by split|]. constructor; [right; by split|constructor].
Defined.

(** Starting the search at [last_used] instead of at the head of the list is
    a pure optimisation: the resulting list is the same. *)
Theorem queue_bb_last_used_equiv l lu bs new_bb :
  bbl_ok (mk_bbl l lu bs) → Forall (λ b, bb_block b ≠ bb_block new_bb) l →
  ∃ lu1 lu2 l', queue_bb (mk_bbl l lu bs) new_bb = Ret (0, mk_bbl l' lu1 bs) ∧
                queue_bb (mk_bbl l None bs) new_bb = Ret (0, mk_bbl l' lu2 bs).
Proof.
  intros Hok Hne.
  destruct (queue_bb_ref bs l lu new_bb Hok Hne) as (lu1 & H1 & _).
  destruct (queue_bb_ref bs l None new_bb) as (lu2 & H2 & _).
  { destruct Hok as (? & ? & _). by split_and!. } { done. }
  by exists lu1, lu2, (queue_ref bs new_bb l).
Qed.

Lemma queue_bb_last_used_equiv_witness :
  ∃ lu1 lu2 l',
    queue_bb (mk_bbl [mk_bb 0 8 (BACKED_BLOCK_FILL 7); mk_bb 3 4 (BACKED_BLOCK_FILL 1)]
      (Some 1%nat) 4) (mk_bb 9 4 (BACKED_BLOCK_FILL 7)) = Ret (0, mk_bbl l' lu1 4) ∧
    queue_bb (mk_bbl [mk_bb 0 8 (BACKED_BLOCK_FILL 7); mk_bb 3 4 (BACKED_BLOCK_FILL 1)]
      None 4) (mk_bb 9 4 (BACKED_BLOCK_FILL 7)) = Ret (0, mk_bbl l' lu2 4).
Proof.
  apply (queue_bb_last_used_equiv _ (Some 1%nat)).
  - split_and!; [done| |simpl; lia]. split; repeat constructor; done.
  - repeat constructor; done.
Defined.

(** C30: on a well-formed list [queue_bb] stops in the assertion of [merge_bb]
    exactly when a block with the same number is already queued. *)
Theorem queue_bb_asserts_iff bbl new_bb :
  bbl_ok bbl →
  queue_bb bbl new_bb = AssertFail ↔
  ∃ b, b ∈ data_blocks bbl ∧ bb_block b = bb_block new_bb.
Proof.
  intros Hok. split.
  - intros Hq. destruct (decide (Forall (λ b, bb_block b ≠ bb_block new_bb) (data_blocks bbl)))
      as [Hne|He].
    + destruct bbl as [l lu bs]. destruct (queue_bb_ref bs l lu new_bb Hok Hne) as (lu' & Hq' & _).
      by rewrite Hq' in Hq.
    + apply not_Forall_Exists, Exists_exists in He; [|apply _].
      destruct He as (b & Hb & Hn). exists b. split; [done|]. by destruct (Z.eq_dec (bb_block b) (bb_block new_bb)).
  - intros (b & Hb & Heq). by apply queue_bb_duplicate with b.
Qed.

Lemma queue_bb_asserts_iff_witness :
  queue_bb (mk_bbl [mk_bb 3 4 (BACKED_BLOCK_FILL 7)] None 4) (mk_bb 3 4 (BACKED_BLOCK_FILL 1))
  = AssertFail.
Proof.
  apply queue_bb_asserts_iff.
  - split_and!; [done| |done]. split; repeat constructor; done.
  - exists (mk_bb 3 4 (BACKED_BLOCK_FILL 7)). split; [by left|done].
Defined.

Lemma split_block_ok_app bs p bb q max_len :
  block_size_ok bs → blocks_ok bs (p ++ bb :: q) → bs ≤ max_len →
  blocks_ok bs (p ++ split_block bs max_len bb ++ q).
Proof.
  intros Hbs Hok Hm. apply blocks_ok_app in Hok as (Hp & Hbq & Hpq).
  apply blocks_ok_cons in Hbq as (Hb & Hq & Hbq).
  destruct (split_block_ok bs Hbs max_len bb Hb Hm) as (Hs & Hr & _).
  assert (∀ x, x ∈ split_block bs max_len bb → bb_ok bs x) as Hsx.
  { destruct Hs as [Hs _]. by apply Forall_forall. }
  apply blocks_ok_app. split_and!; [done| |].
  - apply blocks_ok_app. split_and!; [done..|]. intros x y Hx Hy.
    destruct (Hr x Hx), (Hbq y Hy). destruct (Hsx x Hx) as (_ & Hl & _).
    pose proof (bb_end_ge bs Hbs x Hl).
    destruct (decide (bb_block x = bb_block y)); [|split; lia].
    exfalso. assert (bb_end bs bb = bb_block y) by lia.
    unfold split_block in Hx. destruct (Z.leb_spec (bb_len bb) (ALIGN_DOWN max_len bs)) as [|Hlt].
    + apply list_elem_of_singleton in Hx as ->. lia.
    + destruct Hb as (? & ? & _ & _ & _). destruct Hbs as [? _].
      rewrite elem_of_cons, list_elem_of_singleton in Hx. destruct Hx as [->| ->]; simpl in *; [lia|].
      unfold bb_end in *. simpl in *.
      pose proof (div_round_up_pos (bb_len bb - ALIGN_DOWN max_len bs) bs). lia.
  - intros a x Ha [Hx|Hx]%elem_of_app.
    + destruct (Hpq a bb Ha ltac:(by left)), (Hr x Hx). split; lia.
    + apply Hpq; [done|by right].
Qed.

Lemma blocks_read_split env bs p bb q max_len off :
  block_size_ok bs → bb_ok bs bb → bs ≤ max_len →
  blocks_read env bs (p ++ split_block bs max_len bb ++ q) off =
  blocks_read env bs (p ++ bb :: q) off.
Proof. intros. apply blocks_read_prefix. by apply split_block_read. Qed.

(** Splitting a block at [max_len] (at least one block) keeps the list
    well-formed and the image it describes, and leaves at most [max_len] bytes
    in the block that was split. *)
Theorem backed_block_split_correct bbl i bb max_len :
  bbl_ok bbl → data_blocks bbl !! i = Some bb → bbl_block_size bbl ≤ max_len →
  ∃ bbl' bb', backed_block_split bbl i max_len = Ret (0, bbl') ∧ bbl_ok bbl' ∧
    bbl_block_size bbl' = bbl_block_size bbl ∧
    (∀ env off, blocks_read env (bbl_block_size bbl) (data_blocks bbl') off =
                blocks_read env (bbl_block_size bbl) (data_blocks bbl) off) ∧
    data_blocks bbl' !! i = Some bb' ∧ bb_block bb' = bb_block bb ∧ bb_len bb' ≤ max_len.
Proof.
  destruct bbl as [l lu bs]. simpl. intros Hok Hi Hm.
  pose proof Hok as (Hbs & Hbl & Hlu). simpl in Hbs, Hbl, Hlu.
  apply list_elem_of_split_length in Hi as (p & q & -> & ->).
  pose proof Hbl as Hbl'. apply blocks_ok_app in Hbl' as (_ & Hbq & _).
  apply blocks_ok_cons in Hbq as (Hb & _ & _).
  destruct (backed_block_split_eq bs Hbs (mk_bbl (p ++ bb :: q) lu bs) p bb q max_len)
    as (lu' & -> & Hlu' & Hone); [done..|].
  destruct (split_block_ok bs Hbs max_len bb Hb Hm) as (_ & _ & Hhd).
  assert (∃ b1 s, split_block bs max_len bb = b1 :: s ∧ bb_block b1 = bb_block bb)
    as (b1 & s & Es & Eb) by (unfold split_block; destruct (_ <=? _); by eexists _, _).
  eexists _, b1. split; [reflexivity|]. cbn [data_blocks bbl_block_size].
  split_and!; [| done | | | done | apply Hhd; by rewrite Es].
  - split_and!; simpl; [done|by apply split_block_ok_app|].
    assert (match lu' with Some j => (j < length (p ++ split_block bs max_len bb ++ q))%nat
            | None => True end); [|done].
    simpl in *. rewrite !length_app in *. simpl in Hlu. rewrite Es.
    destruct s as [|b2 s]; simpl.
    + rewrite Hone by by rewrite Es. destruct lu; lia.
    + destruct Hlu' as [->| ->]; destruct lu; simpl; lia.
  - intros. by apply blocks_read_split.
  - rewrite lookup_app_r, Nat.sub_diag, Es by lia. done.
Qed.

Lemma backed_block_split_correct_witness :
  ∃ bbl' bb', backed_block_split (mk_bbl [mk_bb 2 40 (BACKED_BLOCK_FD 3 100)] None 4) 0 10
      = Ret (0, bbl') ∧ bbl_ok bbl' ∧ bbl_block_size bbl' = 4 ∧
    (∀ env off, blocks_read env 4 (data_blocks bbl') off =
                blocks_read env 4 [mk_bb 2 40 (BACKED_BLOCK_FD 3 100)] off) ∧
    data_blocks bbl' !! 0%nat = Some bb' ∧ bb_block bb' = 2 ∧ bb_len bb' ≤ 10.
Proof.
  apply (backed_block_split_correct (mk_bbl _ None 4) 0 (mk_bb 2 40 (BACKED_BLOCK_FD 3 100))).
  - split_and!; [done| |done]. split; repeat constructor; done.
  - done.
  - simpl. lia.
Defined.
