(* ===== verification/OutputFile.v ===== *)
(** The writers of libsparse (system/core/libsparse/output_file.cpp).

    An [output_file] has two tables of function pointers: [ops] says how bytes
    reach the destination (a file descriptor, a gzip stream or a caller's
    callback), [sparse_ops] says in which format the image is written (sparse
    chunks, or a plain image).  The first is the record [output_file_ops] over an
    abstract destination state, with one instance per table of the source; the
    second is the [bool] field [of_sparse], on which the [write_*_chunk]
    wrappers dispatch.

    System calls, zlib and the caller's callback are parameters of the sections
    below.  Allocation succeeds, so the error paths of [calloc] are not
    modelled.  [zero_buf] and [fill_buf] (2 MiB each) are represented by the
    prefix of them that is written. *)

From S2P Require Import Prelude Crc32 SparseFormat BackedBlock.
Open Scope Z_scope.

Definition FILL_ZERO_BUFSIZE : Z := 2 * 1024 * 1024.
Definition kMaxMmapSize : Z := 256 * 1024 * 1024.

(** Fuel for a loop that consumes [len] in steps of [sz], the last one
    shorter. *)
Definition loop_fuel (len sz : Z) : nat := S (Z.to_nat (len / sz)).

(** [ALIGN(len, block_size)] in [uint64_t] arithmetic. *)
Definition ALIGN_u64 (x y : Z) : Z := u64 (y * (u64 (x + y - 1) / y)).

(** The first [n] bytes of [fill_buf]. *)
Definition fill_bytes (fill_val n : Z) : list byte :=
  ztake n (concat (replicate (Z.to_nat (n / 4 + 1)) (le_bytes 4 fill_val))).

(** ** [struct output_file_ops] *)

Record output_file_ops (T : Type) : Type := mk_ops {
  op_skip : Z → M T Z;
  op_pad : Z → M T Z;
  op_write : list byte → M T Z
}.
Arguments op_skip {T} _ _.
Arguments op_pad {T} _ _.
Arguments op_write {T} _ _.

(** *** A file descriptor: [file_ops] *)

Section file_ops.
Context {T : Type}.
(** [lseek64(fd, cnt, SEEK_CUR)], [ftruncate64(fd, len)] and [write(fd, data)]:
    the result and, for the last two, [errno]. *)
Context (lseek64_cur : Z → T → Z * T).
Context (ftruncate64 : Z → T → Z * Z * T).
Context (write : list byte → T → Z * Z * T).
Context (EINTR : Z).

Definition file_skip (cnt : Z) : M T Z := fun s =>
  let '(ret, s) := lseek64_cur cnt s in
  Ret (if ret <? 0 then -1 else 0, s).

Definition file_pad (len : Z) : M T Z := fun s =>
  let '(ret, errno, s) := ftruncate64 len s in
  Ret (if ret <? 0 then - errno else 0, s).

Fixpoint file_write_loop (fuel : nat) (data : list byte) : M T Z :=
  if zlen data >? 0 then
    match fuel with
    | O => out_of_fuel
    | S fuel => fun s =>
        let '(ret, errno, s) := write data s in
        if ret <? 0 then
          if errno =? EINTR then file_write_loop fuel data s else Ret (-1, s)
        else file_write_loop fuel (zdrop ret data) s
    end
  else mret 0.

Definition file_ops (fuel : nat) : output_file_ops T :=
  mk_ops T file_skip file_pad (file_write_loop fuel).
End file_ops.

(** *** A gzip stream: [gz_file_ops] *)

Section gz_file_ops.
Context {T : Type}.
(** [gzseek(gz, off, SEEK_CUR)], [gzseek(gz, off, SEEK_SET)], [gztell(gz)] and
    [gzwrite(gz, data, n)]. *)
Context (gzseek_cur gzseek_set : Z → T → Z * T).
Context (gztell : T → Z).
Context (gzwrite : list byte → T → Z * T).

Definition gz_file_skip (cnt : Z) : M T Z := fun s =>
  let '(ret, s) := gzseek_cur cnt s in
  Ret (if ret <? 0 then -1 else 0, s).

Definition gz_file_pad (len : Z) : M T Z := fun s =>
  if gztell s <? 0 then Ret (-1, s)
  else if gztell s >=? len then Ret (0, s)
  else
    let '(ret, s) := gzseek_set (len - 1) s in
    if ret <? 0 then Ret (-1, s)
    else Ret (0, (gzwrite [x00] s).2).

(** [std::min<unsigned int>(len, INT_MAX)] converts [len] to 32 bits first. *)
Fixpoint gz_file_write (fuel : nat) (data : list byte) : M T Z :=
  if zlen data >? 0 then
    match fuel with
    | O => out_of_fuel
    | S fuel => fun s =>
        let '(ret, s) := gzwrite (ztake (Z.min (u32 (zlen data)) INT_MAX) data) s in
        if ret =? 0 then Ret (-1, s)
        else gz_file_write fuel (zdrop ret data) s
    end
  else mret 0.

Definition gz_file_ops (fuel : nat) : output_file_ops T :=
  mk_ops T gz_file_skip gz_file_pad (gz_file_write fuel).
End gz_file_ops.

(** *** A caller's function: [callback_file_ops] *)

Section callback_file_ops.
Context {T : Type}.
(** [write(priv, data, len)]; [data] is a null pointer when bytes are
    skipped. *)
Context (callback : option (list byte) → Z → M T Z).

Fixpoint callback_file_skip_loop (fuel : nat) (off : Z) : M T Z :=
  if off >? 0 then
    match fuel with
    | O => out_of_fuel
    | S fuel =>
        let to_write := Z.min off INT_MAX in
        ret ← callback None to_write;
        if ret <? 0 then mret ret else callback_file_skip_loop fuel (off - to_write)
    end
  else mret 0.

Definition callback_file_skip (off : Z) : M T Z :=
  callback_file_skip_loop (loop_fuel off INT_MAX) off.

Definition callback_file_pad (len : Z) : M T Z := mret (-1).

Definition callback_file_write (data : list byte) : M T Z := callback (Some data) (zlen data).

Definition callback_file_ops : output_file_ops T :=
  mk_ops T callback_file_skip callback_file_pad callback_file_write.
End callback_file_ops.

(** ** [struct output_file] *)

Record output_file (T : Type) : Type := mk_out {
  cur_out_ptr : Z;       (* int64_t *)
  chunk_cnt : Z;         (* unsigned int *)
  of_crc32 : Z;          (* uint32_t *)
  use_crc : bool;
  of_block_size : Z;     (* unsigned int *)
  of_len : Z;            (* int64_t *)
  of_sparse : bool;      (* sparse_ops == &sparse_file_ops *)
  sink : T               (* fd, gz_fd, or priv *)
}.
Arguments mk_out {T} _ _ _ _ _ _ _ _.
Arguments cur_out_ptr {T} _.
Arguments chunk_cnt {T} _.
Arguments of_crc32 {T} _.
Arguments use_crc {T} _.
Arguments of_block_size {T} _.
Arguments of_len {T} _.
Arguments of_sparse {T} _.
Arguments sink {T} _.

Section output_file.
Context {T : Type} (ops : output_file_ops T).
(** [MappedFile::FromFd(fd, offset, length, PROT_READ)]: the mapped bytes. *)
Context (map_fd : Z → Z → Z → option (list byte)).
(** [open(file, O_RDONLY)]: a descriptor, or a negative [errno]. *)
Context (open_file : string → Z).

Abbreviation W := (M (output_file T)).

Definition set_sink (out : output_file T) (s : T) : output_file T :=
  mk_out (cur_out_ptr out) (chunk_cnt out) (of_crc32 out) (use_crc out) (of_block_size out)
         (of_len out) (of_sparse out) s.

(** A call through [out->ops]. *)
Definition on_sink (m : M T Z) : W Z := fun out =>
  match m (sink out) with
  | Ret (r, s) => Ret (r, set_sink out s)
  | AssertFail => AssertFail
  | OutOfFuel => OutOfFuel
  end.
Definition out_write (data : list byte) : W Z := on_sink (op_write ops data).
Definition out_skip (cnt : Z) : W Z := on_sink (op_skip ops cnt).
Definition out_pad (len : Z) : W Z := on_sink (op_pad ops len).

Definition set_crc (c : Z) : W unit := modify (fun out =>
  mk_out (cur_out_ptr out) (chunk_cnt out) c (use_crc out) (of_block_size out)
         (of_len out) (of_sparse out) (sink out)).

(** [out->cur_out_ptr += n; out->chunk_cnt++;] *)
Definition advance (n : Z) : W unit := modify (fun out =>
  mk_out (i64 (cur_out_ptr out + n)) (u32 (chunk_cnt out + 1)) (of_crc32 out) (use_crc out)
         (of_block_size out) (of_len out) (of_sparse out) (sink out)).

(** [write_fd_chunk_range]; [ret] is the variable the callback captures by
    reference. *)
Fixpoint write_fd_chunk_range_loop (fuel : nat) (fd current_offset bytes_written len : Z)
    (callback : list byte → Z → W (bool * Z)) (ret : Z) : W (bool * Z) :=
  if bytes_written <? len then
    match fuel with
    | O => out_of_fuel
    | S fuel =>
        let mmap_size := Z.min kMaxMmapSize (len - bytes_written) in
        match map_fd fd current_offset mmap_size with
        | None => mret (false, ret)
        | Some data =>
            '(ok, ret) ← callback data ret;
            if negb ok then mret (false, ret)
            else write_fd_chunk_range_loop fuel fd (current_offset + mmap_size)
                   (bytes_written + mmap_size) len callback ret
        end
    end
  else mret (true, ret).

Definition write_fd_chunk_range (fd offset len : Z) (callback : list byte → Z → W (bool * Z))
    (ret : Z) : W (bool * Z) :=
  write_fd_chunk_range_loop (loop_fuel len kMaxMmapSize) fd offset 0 len callback ret.

(** [while (len) { write_len = min(len, FILL_ZERO_BUFSIZE); write(zero_buf,
    write_len); ... }] *)
Fixpoint write_zeros_loop (fuel : nat) (len : Z) : W Z :=
  if len =? 0 then mret 0
  else match fuel with
  | O => out_of_fuel
  | S fuel =>
      let write_len := Z.min len FILL_ZERO_BUFSIZE in
      ret ← out_write (zeros write_len);
      if ret <? 0 then mret ret else write_zeros_loop fuel (len - write_len)
  end.

(** The same loop over [sparse_crc32]. *)
Fixpoint crc_zeros_loop (fuel : nat) (len : Z) : W unit :=
  if len =? 0 then mret tt
  else match fuel with
  | O => out_of_fuel
  | S fuel =>
      let write_len := Z.min len FILL_ZERO_BUFSIZE in
      out ← get;
      _ ← set_crc (sparse_crc32 (of_crc32 out) (zeros write_len));
      crc_zeros_loop fuel (len - write_len)
  end.

Definition write_sparse_skip_chunk (skip_len : Z) : W Z :=
  out ← get;
  if negb (skip_len mod of_block_size out =? 0) then mret (-1)
  else
    ret ← out_write (chunk_header_bytes
            (mk_chunk_header CHUNK_TYPE_DONT_CARE 0 (u32 (skip_len / of_block_size out))
               CHUNK_HEADER_LEN));
    if ret <? 0 then mret (-1)
    else _ ← advance skip_len; mret 0.

Definition write_sparse_fill_chunk (len fill_val : Z) : W Z :=
  out ← get;
  let rnd_up_len := ALIGN_u64 len (of_block_size out) in
  ret ← out_write (chunk_header_bytes
          (mk_chunk_header CHUNK_TYPE_FILL 0 (u32 (rnd_up_len / of_block_size out))
             (CHUNK_HEADER_LEN + 4)));
  if ret <? 0 then mret (-1)
  else
    ret ← out_write (le_bytes 4 fill_val);
    if ret <? 0 then mret (-1)
    else
      _ ← (if use_crc out then
             set_crc (Nat.iter (Z.to_nat (of_block_size out / 4))
                        (fun c => sparse_crc32 c (le_bytes 4 fill_val)) (of_crc32 out))
           else mret tt);
      _ ← advance rnd_up_len;
      mret 0.

Definition write_sparse_data_chunk (len : Z) (data : list byte) : W Z :=
  out ← get;
  let rnd_up_len := ALIGN_u64 len (of_block_size out) in
  let zero_len := u64 (rnd_up_len - len) in
  ret ← out_write (chunk_header_bytes
          (mk_chunk_header CHUNK_TYPE_RAW 0 (u32 (rnd_up_len / of_block_size out))
             (u32 (CHUNK_HEADER_LEN + rnd_up_len))));
  if ret <? 0 then mret (-1)
  else
    ret ← out_write (ztake len data);
    if ret <? 0 then mret (-1)
    else
      ret ← write_zeros_loop (loop_fuel zero_len FILL_ZERO_BUFSIZE) zero_len;
      if ret <? 0 then mret ret
      else
        _ ← (if use_crc out then
               _ ← set_crc (sparse_crc32 (of_crc32 out) (ztake len data));
               crc_zeros_loop (loop_fuel zero_len FILL_ZERO_BUFSIZE) zero_len
             else mret tt);
        _ ← advance rnd_up_len;
        mret 0.

(** The lambda of [write_sparse_fd_chunk]. *)
Definition sparse_fd_callback (data : list byte) (ret : Z) : W (bool * Z) :=
  ret ← out_write data;
  if ret <? 0 then mret (false, ret)
  else
    out ← get;
    _ ← (if use_crc out then set_crc (sparse_crc32 (of_crc32 out) data) else mret tt);
    mret (true, ret).

Definition write_sparse_fd_chunk (len fd offset : Z) : W Z :=
  out ← get;
  let rnd_up_len := ALIGN_u64 len (of_block_size out) in
  let zero_len := u64 (rnd_up_len - len) in
  ret ← out_write (chunk_header_bytes
          (mk_chunk_header CHUNK_TYPE_RAW 0 (u32 (rnd_up_len / of_block_size out))
             (u32 (CHUNK_HEADER_LEN + rnd_up_len))));
  if ret <? 0 then mret (-1)
  else
    '(ok, ret) ← write_fd_chunk_range fd offset len sparse_fd_callback ret;
    if negb ok then mret (-1)
    else
      ret ← write_zeros_loop (loop_fuel zero_len FILL_ZERO_BUFSIZE) zero_len;
      if ret <? 0 then mret ret
      else
        _ ← (if use_crc out then
               crc_zeros_loop (loop_fuel zero_len FILL_ZERO_BUFSIZE) zero_len
             else mret tt);
        _ ← advance rnd_up_len;
        mret 0.

(** The result of the second [write] is not stored, so the test behind it looks
    at the first one again. *)
Definition write_sparse_end_chunk : W Z :=
  out ← get;
  if use_crc out then
    ret ← out_write (chunk_header_bytes
            (mk_chunk_header CHUNK_TYPE_CRC32 0 0 (CHUNK_HEADER_LEN + 4)));
    if ret <? 0 then mret ret
    else
      _ ← out_write (le_bytes 4 (of_crc32 out));
      if ret <? 0 then mret ret
      else
        _ ← modify (fun out =>
              mk_out (cur_out_ptr out) (u32 (chunk_cnt out + 1)) (of_crc32 out) (use_crc out)
                     (of_block_size out) (of_len out) (of_sparse out) (sink out));
        mret 0
  else mret 0.

Definition write_normal_data_chunk (len : Z) (data : list byte) : W Z :=
  out ← get;
  let rnd_up_len := ALIGN_u64 len (of_block_size out) in
  ret ← out_write (ztake len data);
  if ret <? 0 then mret ret
  else if rnd_up_len >? len then out_skip (rnd_up_len - len)
  else mret ret.

Fixpoint write_fill_loop (fuel : nat) (len fill_val : Z) : W Z :=
  if len =? 0 then mret 0
  else match fuel with
  | O => out_of_fuel
  | S fuel =>
      let write_len := Z.min len FILL_ZERO_BUFSIZE in
      ret ← out_write (fill_bytes fill_val write_len);
      if ret <? 0 then mret ret else write_fill_loop fuel (len - write_len) fill_val
  end.

Definition write_normal_fill_chunk (len fill_val : Z) : W Z :=
  write_fill_loop (loop_fuel len FILL_ZERO_BUFSIZE) len fill_val.

(** The lambda of [write_normal_fd_chunk]. *)
Definition normal_fd_callback (data : list byte) (ret : Z) : W (bool * Z) :=
  ret ← out_write data;
  mret (ret >=? 0, ret).

(** [ret] starts uninitialised; [uninit] is its indeterminate value, which is
    returned when the first mapping fails or [len] is 0. *)
Definition write_normal_fd_chunk (uninit : Z) (len fd offset : Z) : W Z :=
  out ← get;
  let rnd_up_len := ALIGN_u64 len (of_block_size out) in
  '(ok, ret) ← write_fd_chunk_range fd offset len normal_fd_callback uninit;
  if negb ok then mret ret
  else if rnd_up_len >? len then out_skip (rnd_up_len - len)
  else mret ret.

Definition write_normal_skip_chunk (len : Z) : W Z := out_skip (i64 len).

Definition write_normal_end_chunk : W Z :=
  out ← get; out_pad (of_len out).

(** The indeterminate value [write_normal_fd_chunk] starts from. *)
Context (uninit : Z).

(** ** The dispatch through [sparse_ops] *)

Definition write_data_chunk (len : Z) (data : list byte) : W Z :=
  out ← get;
  if of_sparse out then write_sparse_data_chunk len data else write_normal_data_chunk len data.

Definition write_fill_chunk (len fill_val : Z) : W Z :=
  out ← get;
  if of_sparse out then write_sparse_fill_chunk len fill_val
  else write_normal_fill_chunk len fill_val.

Definition write_fd_chunk (len fd offset : Z) : W Z :=
  out ← get;
  if of_sparse out then write_sparse_fd_chunk len fd offset
  else write_normal_fd_chunk uninit len fd offset.

Definition write_file_chunk (len : Z) (file : string) (offset : Z) : W Z :=
  let file_fd := open_file file in
  if file_fd <? 0 then mret file_fd else write_fd_chunk len file_fd offset.

Definition write_skip_chunk (len : Z) : W Z :=
  out ← get;
  if of_sparse out then write_sparse_skip_chunk len else write_normal_skip_chunk len.

Definition write_end_chunk : W Z :=
  out ← get;
  if of_sparse out then write_sparse_end_chunk else write_normal_end_chunk.

(** [output_file_close]: the end chunk is written and its result ignored. *)
Definition output_file_close : W unit :=
  _ ← write_end_chunk; mret tt.

(** The header [output_file_init] writes. *)
Definition init_header (block_size len chunks : Z) (crc : bool) : sparse_header_t :=
  mk_sparse_header SPARSE_HEADER_MAGIC SPARSE_HEADER_MAJOR_VER SPARSE_HEADER_MINOR_VER
    SPARSE_HEADER_LEN CHUNK_HEADER_LEN block_size (u32 (DIV_ROUND_UP len block_size))
    (if crc then u32 (u32 chunks + 1) else u32 chunks) 0.

(** [output_file_init] on a fresh [output_file] over destination [s]: the
    status and the initialised file. *)
Definition output_file_init (s : T) (block_size len : Z) (sparse : bool) (chunks : Z)
    (crc : bool) : outcome (Z * output_file T) :=
  let out := mk_out 0 0 0 crc block_size len sparse s in
  if sparse then
    '(ret, out) ← out_write (sparse_header_bytes (init_header block_size len chunks crc)) out;
    if ret <? 0 then Ret (ret, out) else Ret (0, out)
  else Ret (0, out).

(** [output_file_open_callback] and [output_file_open_fd]: a null pointer when
    initialisation fails. *)
Definition output_file_open (s : T) (block_size len : Z) (sparse : bool) (chunks : Z)
    (crc : bool) : outcome (option (output_file T) * T) :=
  '(ret, out) ← output_file_init s block_size len sparse chunks crc;
  Ret (if ret <? 0 then None else Some out, sink out).
End output_file.
