(* ===== verification/Sparse.v ===== *)
(** Sparse files and how they are written out
    (system/core/libsparse/sparse.cpp and sparse_file.h): adding blocks,
    counting chunks, writing to a destination, measuring, and splitting a file
    into several that each fit a download ([sparse_file_resparse]).

    This file holds the definitions; SparseFacts.v, Resparse.v and SparseRoundTrip.v
    hold the theorems. *)

From S2P Require Import Prelude Crc32 SparseFormat BackedBlock OutputFile.
Open Scope Z_scope.

Record sparse_file : Type := mk_sparse_file {
  sf_block_size : Z;       (* unsigned int *)
  sf_len : Z;              (* int64_t *)
  sf_verbose : bool;
  sf_bbl : backed_block_list
}.

Definition set_bbl (s : sparse_file) (bbl : backed_block_list) : sparse_file :=
  mk_sparse_file (sf_block_size s) (sf_len s) (sf_verbose s) bbl.

Definition sparse_file_new (block_size len : Z) : sparse_file :=
  mk_sparse_file block_size len false (backed_block_list_new block_size).

Definition on_bbl (s : sparse_file) (m : outcome (Z * backed_block_list))
    : outcome (Z * sparse_file) :=
  '(ret, bbl) ← m; Ret (ret, set_bbl s bbl).

Definition sparse_file_add_data (s : sparse_file) (data : list byte) (len block : Z)
    : outcome (Z * sparse_file) :=
  on_bbl s (backed_block_add_data (sf_bbl s) data len block).

Definition sparse_file_add_fill (s : sparse_file) (fill_val len block : Z)
    : outcome (Z * sparse_file) :=
  on_bbl s (backed_block_add_fill (sf_bbl s) fill_val len block).

Definition sparse_file_add_file (s : sparse_file) (filename : string) (file_offset len block : Z)
    : outcome (Z * sparse_file) :=
  on_bbl s (backed_block_add_file (sf_bbl s) filename file_offset len block).

Definition sparse_file_add_fd (s : sparse_file) (fd file_offset len block : Z)
    : outcome (Z * sparse_file) :=
  on_bbl s (backed_block_add_fd (sf_bbl s) fd file_offset len block).

(** [last_block = backed_block_block(bb) + DIV_ROUND_UP(backed_block_len(bb),
    s->block_size)], computed in 64 bits and stored in an [unsigned int]. *)
Definition next_block (bs : Z) (bb : backed_block) : Z :=
  u32 (bb_block bb + u64 (bb_len bb + bs - 1) / bs).

(** The loop of [sparse_count_chunks]: [last_block] and [chunks] at its end. *)
Fixpoint count_chunks_loop (bs : Z) (l : list backed_block) (last_block chunks : Z) : Z * Z :=
  match l with
  | [] => (last_block, chunks)
  | bb :: l =>
      let chunks := if bb_block bb >? last_block then u32 (chunks + 1) else chunks in
      count_chunks_loop bs l (next_block bs bb) (u32 (chunks + 1))
  end.

Definition sparse_count_chunks (s : sparse_file) : Z :=
  let '(last_block, chunks) :=
    count_chunks_loop (sf_block_size s) (data_blocks (sf_bbl s)) 0 0 in
  if last_block <? DIV_ROUND_UP (sf_len s) (sf_block_size s) then u32 (chunks + 1) else chunks.

Section write.
Context {T : Type} (ops : output_file_ops T).
Context (map_fd : Z → Z → Z → option (list byte)) (open_file : string → Z) (uninit : Z).

Definition sparse_file_write_block (bb : backed_block) : M (output_file T) Z :=
  match bb_type bb with
  | BACKED_BLOCK_DATA data => write_data_chunk ops (bb_len bb) data
  | BACKED_BLOCK_FILE filename offset =>
      write_file_chunk ops map_fd open_file uninit (bb_len bb) filename offset
  | BACKED_BLOCK_FD fd offset => write_fd_chunk ops map_fd uninit (bb_len bb) fd offset
  | BACKED_BLOCK_FILL val => write_fill_chunk ops (bb_len bb) val
  end.

(** The loop of [write_all_blocks]: the status with which it returns early, or
    [last_block] at its end.  The result of [write_skip_chunk] is ignored. *)
Fixpoint write_blocks_loop (bs : Z) (l : list backed_block) (last_block : Z)
    : M (output_file T) (Z + Z) :=
  match l with
  | [] => mret (inr last_block)
  | bb :: l =>
      _ ← (if bb_block bb >? last_block then
             write_skip_chunk ops (u64 (i64 (u32 (bb_block bb - last_block) * bs)))
           else mret 0);
      ret ← sparse_file_write_block bb;
      if negb (ret =? 0) then mret (inl ret)
      else write_blocks_loop bs l (next_block bs bb)
  end.

Definition write_all_blocks (s : sparse_file) : M (output_file T) Z :=
  r ← write_blocks_loop (sf_block_size s) (data_blocks (sf_bbl s)) 0;
  match r with
  | inl ret => mret ret
  | inr last_block =>
      let pad := i64 (sf_len s - i64 (last_block * sf_block_size s)) in
      _ ← m_assert (pad >=? 0);
      _ ← (if pad >? 0 then write_skip_chunk ops pad else mret 0);
      mret 0
  end.

(** [open; write_all_blocks; close], the body shared by [sparse_file_write],
    [sparse_file_callback] and [sparse_file_len]: the status and the final
    destination, or [None] for a failed open. *)
Definition write_image (s : sparse_file) (sparse crc : bool) (dest : T)
    : outcome (option Z * T) :=
  let chunks := sparse_count_chunks s in
  '(o, dest) ← output_file_open ops dest (sf_block_size s) (sf_len s) sparse chunks crc;
  match o with
  | None => Ret (None, dest)
  | Some out =>
      '(ret, out) ← write_all_blocks s out;
      '(_, out) ← output_file_close ops out;
      Ret (Some ret, sink out)
  end.

Definition MAX_BACKED_BLOCK_SIZE : Z := 64 * 2 ^ 20.

(** The first loop of [sparse_file_write], from position [i]. *)
Fixpoint split_all (fuel : nat) (i : nat) (bbl : backed_block_list)
    : outcome (Z * backed_block_list) :=
  match data_blocks bbl !! i with
  | None => Ret (0, bbl)
  | Some _ =>
      match fuel with
      | O => OutOfFuel
      | S fuel =>
          '(ret, bbl) ← backed_block_split bbl i MAX_BACKED_BLOCK_SIZE;
          if negb (ret =? 0) then Ret (ret, bbl) else split_all fuel (S i) bbl
      end
  end.

(** [sparse_file_write] with [ops] the table [output_file_open_fd] chose; the
    file is changed by the splits. *)
Definition sparse_file_write (fuel : nat) (s : sparse_file) (sparse crc : bool) (dest : T)
    : outcome (Z * sparse_file * T) :=
  '(ret, bbl) ← split_all fuel 0 (sf_bbl s);
  let s := set_bbl s bbl in
  if negb (ret =? 0) then Ret (ret, s, dest)
  else
    '(r, dest) ← write_image s sparse crc dest;
    Ret (match r with Some ret => ret | None => - ENOMEM end, s, dest).
End write.

(** [sparse_file_callback]. *)
Definition sparse_file_callback {T} (map_fd : Z → Z → Z → option (list byte))
    (open_file : string → Z) (uninit : Z) (s : sparse_file) (sparse crc : bool)
    (write : option (list byte) → Z → M T Z) (priv : T) : outcome (Z * T) :=
  '(r, priv) ← write_image (callback_file_ops write) map_fd open_file uninit s sparse crc priv;
  Ret (match r with Some ret => ret | None => - ENOMEM end, priv).

(** [struct chunk_data] without the function pointer. *)
Record chunk_data (P : Type) : Type := mk_chunk_data {
  cd_priv : P;
  cd_block : Z;
  cd_nr_blocks : Z
}.
Arguments mk_chunk_data {P} _ _ _.
Arguments cd_priv {P} _.
Arguments cd_block {P} _.
Arguments cd_nr_blocks {P} _.

Section foreach_chunk.
Context {P : Type}.
Context (map_fd : Z → Z → Z → option (list byte)) (open_file : string → Z) (uninit : Z).
(** [write(priv, data, len, block, nr_blocks)] *)
Context (write : option (list byte) → Z → Z → Z → M P Z).

Definition foreach_chunk_write (data : option (list byte)) (len : Z) : M (chunk_data P) Z :=
  fun chk =>
    '(ret, priv) ← write data len (cd_block chk) (cd_nr_blocks chk) (cd_priv chk);
    Ret (ret, mk_chunk_data priv (cd_block chk) (cd_nr_blocks chk)).

Fixpoint foreach_chunk_loop (bs : Z) (l : list backed_block)
    : M (output_file (chunk_data P)) Z :=
  match l with
  | [] => mret 0
  | bb :: l =>
      _ ← modify (fun out => set_sink out (mk_chunk_data (cd_priv (sink out)) (bb_block bb)
                                (u32 (u64 (bb_len bb - 1) / bs + 1))));
      ret ← sparse_file_write_block (callback_file_ops foreach_chunk_write)
              map_fd open_file uninit bb;
      if negb (ret =? 0) then mret ret else foreach_chunk_loop bs l
  end.

(** On an error of a block the file is returned without [output_file_close]. *)
Definition sparse_file_foreach_chunk (s : sparse_file) (sparse crc : bool) (priv : P)
    : outcome (Z * P) :=
  let ops := callback_file_ops foreach_chunk_write in
  let chunks := sparse_count_chunks s in
  '(o, chk) ← output_file_open ops (mk_chunk_data priv 0 0) (sf_block_size s) (sf_len s)
                sparse chunks crc;
  match o with
  | None => Ret (- ENOMEM, cd_priv chk)
  | Some out =>
      '(ret, out) ← foreach_chunk_loop (sf_block_size s) (data_blocks (sf_bbl s)) out;
      if negb (ret =? 0) then Ret (ret, cd_priv (sink out))
      else
        '(_, out) ← output_file_close ops out;
        Ret (ret, cd_priv (sink out))
  end.
End foreach_chunk.

(** [out_counter_write]: the destination is a byte count. *)
Definition out_counter_write (data : option (list byte)) (len : Z) : M Z Z :=
  fun count => Ret (0, i64 (count + len)).

Section measure.
Context (map_fd : Z → Z → Z → option (list byte)) (open_file : string → Z) (uninit : Z).

Definition sparse_file_len (s : sparse_file) (sparse crc : bool) : outcome Z :=
  '(r, count) ← write_image (callback_file_ops out_counter_write) map_fd open_file uninit
                  s sparse crc 0;
  Ret (match r with
       | None => -1
       | Some ret => if ret <? 0 then -1 else count
       end).

(** ** Splitting into files of bounded size *)

(** How the loop of [move_chunks_up_to_len] ends: with [bb] null behind the last
    block, at a block that does not fit ([bb] not null), or with the error of a
    block that cannot be written. *)
Inductive move_end : Type :=
| MoveRest (last_bb : option nat)
| MoveTo (last_bb : option nat) (split_at : option (nat * Z))
| MoveError.

(** [len] is the requested length less the overhead; [i] is the position of the
    head of [l]. *)
Fixpoint move_loop (bs len : Z) (l : list backed_block) (i : nat) (last_bb : option nat)
    (last_block file_len : Z) (out : output_file Z) : outcome (move_end * output_file Z) :=
  match l with
  | [] => Ret (MoveRest last_bb, out)
  | bb :: l =>
      let out := set_sink out (if bb_block bb >? last_block then CHUNK_HEADER_LEN else 0) in
      let last_block := next_block bs bb in
      '(ret, out) ← sparse_file_write_block (callback_file_ops out_counter_write)
                      map_fd open_file uninit bb out;
      if negb (ret =? 0) then Ret (MoveError, out)
      else if file_len + sink out >? len then
        let file_len := file_len + CHUNK_HEADER_LEN in
        if bool_decide (last_bb = None) || (len - file_len >? len / 8) then
          Ret (MoveTo (Some i) (Some (i, u32 (len - file_len))), out)
        else Ret (MoveTo last_bb None, out)
      else move_loop bs len l (S i) (Some i) last_block (file_len + sink out) out
  end.

Definition move_overhead : Z := SPARSE_HEADER_LEN + 2 * CHUNK_HEADER_LEN + 4.

(** [move_chunks_up_to_len]: the status, both files, and whether [*out_bb] is
    non-null. *)
Definition move_chunks_up_to_len (from to : sparse_file) (len : Z)
    : outcome (Z * sparse_file * sparse_file * bool) :=
  let len := u32 (len - move_overhead) in
  let start := match data_blocks (sf_bbl from) with [] => None | _ => Some O end in
  '(o, _) ← output_file_open (callback_file_ops out_counter_write) 0 (sf_block_size to)
              (sf_len to) true 0 false;
  match o with
  | None => Ret (-1, from, to, false)
  | Some out =>
      '(r, _) ← move_loop (sf_block_size to) len (data_blocks (sf_bbl from)) 0 None 0 0 out;
      match r with
      | MoveError => Ret (0, from, to, false)
      | MoveRest last_bb =>
          let '(f, t) := backed_block_list_move (sf_bbl from) (sf_bbl to) start last_bb in
          Ret (0, set_bbl from f, set_bbl to t, false)
      | MoveTo last_bb split_at =>
          f ← match split_at with
              | Some (i, n) => '(_, f) ← backed_block_split (sf_bbl from) i n; Ret f
              | None => Ret (sf_bbl from)
              end;
          let '(f, t) := backed_block_list_move f (sf_bbl to) start last_bb in
          Ret (0, set_bbl from f, set_bbl to t, true)
      end
  end.

(** The [do ... while (bb)] of [sparse_file_resparse]: the count (or -1), the
    input file, the files stored in [out_s], and [tmp]. *)
Fixpoint resparse_loop (fuel : nat) (max_len out_s_count : Z) (in_s tmp : sparse_file)
    (c : Z) (out_s : list sparse_file)
    : outcome (Z * sparse_file * list sparse_file * sparse_file) :=
  match fuel with
  | O => OutOfFuel
  | S fuel =>
      let s := sparse_file_new (sf_block_size in_s) (sf_len in_s) in
      '(ret, in_s, s, more) ← move_chunks_up_to_len in_s s max_len;
      if ret <? 0 then Ret (-1, in_s, [], tmp)
      else
        let '(out_s, tmp) :=
          if c <? out_s_count then (out_s ++ [s], tmp)
          else
            let '(_, t) := backed_block_list_move (sf_bbl s) (sf_bbl tmp) None None in
            (out_s, set_bbl tmp t) in
        let c := c + 1 in
        if (more : bool) then resparse_loop fuel max_len out_s_count in_s tmp c out_s
        else Ret (c, in_s, out_s, tmp)
  end.

(** [sparse_file_resparse(in_s, max_len, out_s, out_s_count)]: the result, the
    input file afterwards, and the files stored in [out_s]. *)
Definition sparse_file_resparse (fuel : nat) (in_s : sparse_file) (max_len out_s_count : Z)
    : outcome (Z * sparse_file * list sparse_file) :=
  let tmp := sparse_file_new (sf_block_size in_s) (sf_len in_s) in
  '(c, in_s, out_s, tmp) ← resparse_loop fuel max_len out_s_count in_s tmp 0 [];
  if c <? 0 then Ret (c, in_s, out_s)
  else
    let '(_, i) := backed_block_list_move (sf_bbl tmp) (sf_bbl in_s) None None in
    Ret (c, set_bbl in_s i, out_s).
End measure.
