(* ===== verification/SparseFacts.v ===== *)
(** What the writers of libsparse emit.

    [Sink] is the promise a destination makes to the writer: in a state that is
    [sink_ok] every write succeeds, appends, and leads to such a state.  Against it the bytes of a sparse image are computed
    exactly: a header followed by one chunk per block, with "don't care" chunks
    in the gaps.  The destinations of the source (a callback that collects or
    counts) discharge the promise. *)

From S2P Require Import Prelude Crc32 SparseFormat BackedBlock OutputFile Sparse.
Open Scope Z_scope.

(** ** The interface between writer and destination *)

Class Sink {T} (ops : output_file_ops T) (emit : T → list byte → T) := {
  sink_ok : T → Prop;
  sink_write d s : sink_ok s → op_write ops d s = Ret (0, emit s d);
  sink_emit_ok d s : sink_ok s → sink_ok (emit s d);
  sink_app s a b : sink_ok s → emit (emit s a) b = emit s (a ++ b)
}.
Arguments sink_ok {T ops emit _} _.
#[export] Hint Resolve sink_emit_ok : core.
(** Destinations that are always ready. *)
#[export] Hint Extern 0 (sink_ok _) => exact I : core.

(** A callback that collects the bytes it is given (zeros for a null
    pointer). *)
Definition collect_write (data : option (list byte)) (len : Z) : M (list byte) Z :=
  fun acc => Ret (0, acc ++ match data with Some d => d | None => zeros len end).

#[export] Program Instance collect_sink : Sink (callback_file_ops collect_write) app :=
  {| sink_ok _ := True |}.
Next Obligation. done. Qed.
Next Obligation. done. Qed.
Next Obligation. intros. by rewrite <- app_assoc. Qed.

Lemma i64_add_i64 a b : i64 (i64 a + b) = i64 (a + b).
Proof.
  unfold i64, sgn. change (64 - 1) with 63. f_equal.
  assert (((if a mod 2 ^ 64 <? 2 ^ 63 then a mod 2 ^ 64 else a mod 2 ^ 64 - 2 ^ 64) + b) mod 2 ^ 64
          = (a + b) mod 2 ^ 64) as ->; [|done].
  destruct (_ <? _).
  - by rewrite Z.add_mod_idemp_l.
  - replace (a mod 2 ^ 64 - 2 ^ 64 + b) with (a mod 2 ^ 64 + b + -1 * 2 ^ 64) by lia.
    by rewrite Z.mod_add, Z.add_mod_idemp_l.
Qed.

#[export] Program Instance counter_sink :
    Sink (callback_file_ops out_counter_write) (fun c d => i64 (c + zlen d)) :=
  {| sink_ok _ := True |}.
Next Obligation. done. Qed.
Next Obligation. done. Qed.
Next Obligation. intros c a b _. cbn. rewrite i64_add_i64, zlen_app. f_equal. lia. Qed.

(** ** The bytes behind a backing *)

Definition backing_bytes (env : backing_env) (t : backing) (len : Z) : list byte :=
  match t with
  | BACKED_BLOCK_DATA d => ztake len d
  | BACKED_BLOCK_FILE f o => ztake len (zdrop o (env_file env f))
  | BACKED_BLOCK_FD fd o => ztake len (zdrop o (env_fd env fd))
  | BACKED_BLOCK_FILL v => fill_bytes v len
  end.

(** The file a block refers to has the bytes. *)
Definition backing_ready (env : backing_env) (t : backing) (len : Z) : Prop :=
  match t with
  | BACKED_BLOCK_DATA d => len ≤ zlen d
  | BACKED_BLOCK_FILE f o => 0 ≤ o ∧ o + len ≤ zlen (env_file env f)
  | BACKED_BLOCK_FD fd o => 0 ≤ o ∧ o + len ≤ zlen (env_fd env fd)
  | BACKED_BLOCK_FILL v => 0 ≤ v < 2 ^ 32
  end.

(** What the writer relies on of [MappedFile::FromFd] and [open]: a mapping
    within the file succeeds and shows its contents; a named file opens. *)
Record env_agrees (env : backing_env) (map_fd : Z → Z → Z → option (list byte))
    (open_file : string → Z) : Prop := {
  map_fd_ok fd off n : 0 ≤ off → 0 < n → off + n ≤ zlen (env_fd env fd) →
    map_fd fd off n = Some (ztake n (zdrop off (env_fd env fd)));
  open_file_ok f : 0 ≤ open_file f;
  open_file_fd f : env_fd env (open_file f) = env_file env f
}.

(** ** The chunks of an image *)

Definition skip_bytes (n : Z) : list byte :=
  chunk_header_bytes (mk_chunk_header CHUNK_TYPE_DONT_CARE 0 n CHUNK_HEADER_LEN).

Definition chunk_bytes (env : backing_env) (bs : Z) (bb : backed_block) : list byte :=
  let n := DIV_ROUND_UP (bb_len bb) bs in
  match bb_type bb with
  | BACKED_BLOCK_FILL v =>
      chunk_header_bytes (mk_chunk_header CHUNK_TYPE_FILL 0 n (CHUNK_HEADER_LEN + 4)) ++
      le_bytes 4 v
  | t =>
      chunk_header_bytes (mk_chunk_header CHUNK_TYPE_RAW 0 n (CHUNK_HEADER_LEN + n * bs)) ++
      backing_bytes env t (bb_len bb) ++ zeros (n * bs - bb_len bb)
  end.

(** The running CRC of the writer after a block, as output_file.cpp updates it:
    over the padded data of a raw chunk, over one block of a fill chunk
    however long it is, and not at all for a gap.  The format asks for the CRC
    of the expanded image (sparse.h); SparseRoundTrip.v shows for which files
    the two are the same. *)
Definition block_crc (env : backing_env) (bs : Z) (bb : backed_block) (c : Z) : Z :=
  match bb_type bb with
  | BACKED_BLOCK_FILL v => sparse_crc32 c (fill_bytes v bs)
  | t => sparse_crc32 c (backing_bytes env t (bb_len bb) ++
                         zeros (DIV_ROUND_UP (bb_len bb) bs * bs - bb_len bb))
  end.

(** The chunks for a list of blocks when everything before [last] is written. *)
Fixpoint chunk_list (env : backing_env) (bs : Z) (l : list backed_block) (last : Z)
    : list (list byte) :=
  match l with
  | [] => []
  | bb :: l =>
      (if bb_block bb >? last then [skip_bytes (bb_block bb - last)] else []) ++
      chunk_bytes env bs bb :: chunk_list env bs l (bb_end bs bb)
  end.

(** First block behind the last block of the list. *)
Fixpoint blocks_end (bs : Z) (l : list backed_block) (last : Z) : Z :=
  match l with
  | [] => last
  | bb :: l => blocks_end bs l (bb_end bs bb)
  end.

(** All chunks of a file of [total] blocks. *)
Definition image_chunks (env : backing_env) (bs : Z) (l : list backed_block) (total : Z)
    : list (list byte) :=
  chunk_list env bs l 0 ++
  (if blocks_end bs l 0 <? total then [skip_bytes (total - blocks_end bs l 0)] else []).

(** The sparse image of a file, byte by byte. *)
Definition image_bytes (env : backing_env) (s : sparse_file) (crc : bool) : list byte :=
  let bs := sf_block_size s in
  let l := data_blocks (sf_bbl s) in
  let total := sf_len s / bs in
  let chunks := image_chunks env bs l total in
  sparse_header_bytes (mk_sparse_header SPARSE_HEADER_MAGIC 1 0 SPARSE_HEADER_LEN
    CHUNK_HEADER_LEN bs total (zlen chunks + (if crc then 1 else 0)) 0) ++
  concat chunks ++
  (if crc then
     chunk_header_bytes (mk_chunk_header CHUNK_TYPE_CRC32 0 0 (CHUNK_HEADER_LEN + 4)) ++
     le_bytes 4 (foldl (fun c bb => block_crc env bs bb c) 0 l)
   else []).

(** ** Well-formed files *)

(** A file whose length is a whole number of blocks and whose blocks are
    well-formed, lie inside it, and can be read. *)
Definition block_writable (env : backing_env) (bs : Z) (bb : backed_block) : Prop :=
  backing_ready env (bb_type bb) (bb_len bb) ∧
  (match bb_type bb with BACKED_BLOCK_FILL _ => True
   | _ => CHUNK_HEADER_LEN + DIV_ROUND_UP (bb_len bb) bs * bs < 2 ^ 32 end).

Record sf_ok (s : sparse_file) : Prop := {
  sf_bbl_ok : bbl_ok (sf_bbl s);
  sf_bs : bbl_block_size (sf_bbl s) = sf_block_size s;
  sf_len_range : 0 ≤ sf_len s < 2 ^ 63;
  sf_len_aligned : sf_len s mod sf_block_size s = 0;
  sf_total : sf_len s / sf_block_size s < 2 ^ 31 - 1;
  sf_inside : Forall (λ b, bb_end (sf_block_size s) b ≤ sf_len s / sf_block_size s)
                (data_blocks (sf_bbl s))
}.

(** ** Loops *)

Lemma loop_fuel_step len sz fuel :
  0 < sz → 0 < len → (loop_fuel len sz ≤ S fuel)%nat →
  (loop_fuel (len - Z.min len sz) sz ≤ fuel)%nat ∨ len - Z.min len sz = 0.
Proof.
  intros Hsz Hlen Hf. destruct (Z.le_gt_cases len sz); [right; lia|left].
  rewrite Z.min_r by lia. unfold loop_fuel in *.
  replace len with (len - sz + 1 * sz) in Hf by lia. rewrite Z.div_add in Hf by lia.
  assert (0 ≤ (len - sz) / sz) by (apply Z.div_pos; lia). lia.
Qed.

Lemma fill_zero_pos : 0 < FILL_ZERO_BUFSIZE.
Proof. done. Qed.
Lemma max_mmap_pos : 0 < kMaxMmapSize.
Proof. done. Qed.
#[export] Hint Resolve fill_zero_pos max_mmap_pos : mach.

Lemma ALIGN_u64_small x y :
  0 < y → 0 ≤ x → y * DIV_ROUND_UP x y < 2 ^ 63 → y < 2 ^ 32 →
  ALIGN_u64 x y = DIV_ROUND_UP x y * y.
Proof.
  intros Hy Hx Hb ?. unfold ALIGN_u64.
  pose proof (div_round_up_bounds x y Hy). pose proof (div_round_up_nonneg x y Hx Hy).
  rewrite (u64_small (x + y - 1)) by lia. change ((x + y - 1) / y) with (DIV_ROUND_UP x y).
  rewrite u64_small; lia.
Qed.

(** Projections of an explicit [output_file]. *)
Ltac out_simpl :=
  cbn [cur_out_ptr chunk_cnt of_crc32 use_crc of_block_size of_len of_sparse sink set_sink
       bb_type bb_len bb_block] in *.

Section write.
Context {T : Type} (ops : output_file_ops T) (emit : T → list byte → T).
Context {Hsink : Sink ops emit}.
Context (env : backing_env) (map_fd : Z → Z → Z → option (list byte)).
Context (open_file : string → Z) (uninit : Z).
Context (Henv : env_agrees env map_fd open_file).

Lemma out_write_eq d out :
  sink_ok (sink out) →
  out_write ops d out = Ret (0, set_sink out (emit (sink out) d)).
Proof. intros. unfold out_write, on_sink. by rewrite sink_write. Qed.

Lemma write_zeros_loop_eq fuel len out :
  0 ≤ len → (loop_fuel len FILL_ZERO_BUFSIZE ≤ fuel)%nat → sink_ok (sink out) →
  ∃ s, write_zeros_loop ops fuel len out = Ret (0, set_sink out s) ∧
    ∀ s0 a, sink_ok s0 → sink out = emit s0 a → s = emit s0 (a ++ zeros len).
Proof.
  pose proof fill_zero_pos. revert len out. induction fuel as [|fuel IH]; intros len out Hlen Hfuel Hk.
  { unfold loop_fuel in Hfuel. lia. }
  cbn [write_zeros_loop]. destruct (Z.eqb_spec len 0) as [->|Hne].
  { exists (sink out). split; [by destruct out|]. intros s0 a _ ->. by rewrite app_nil_r. }
  mred. rewrite out_write_eq by done. mred.
  set (w := Z.min len FILL_ZERO_BUFSIZE).
  destruct (Z.eqb_spec (len - w) 0) as [Hz|Hz].
  - assert (w = len) as -> by lia. rewrite Z.sub_diag.
    exists (emit (sink out) (zeros len)). split; [by destruct fuel|].
    intros s0 a Hk0 ->. by rewrite sink_app.
  - destruct (IH (len - w) (set_sink out (emit (sink out) (zeros w)))) as (s & Heq & Hs).
    { unfold w. lia. }
    { destruct (loop_fuel_step len FILL_ZERO_BUFSIZE fuel) as [?|?]; try done; lia. }
    { cbn [sink set_sink]. auto. }
    exists s. split; [by rewrite Heq|]. intros s0 a Hk0 Ha.
    rewrite (Hs s0 (a ++ zeros w)); [|done|].
    + rewrite <- app_assoc, <- zeros_add by (unfold w; lia). do 3 f_equal. lia.
    + simpl. rewrite Ha. by rewrite sink_app.
Qed.

Lemma crc_zeros_loop_eq fuel len (out : output_file T) :
  0 ≤ len → (loop_fuel len FILL_ZERO_BUFSIZE ≤ fuel)%nat →
  crc_zeros_loop fuel len out = set_crc (sparse_crc32 (of_crc32 out) (zeros len)) out.
Proof.
  pose proof fill_zero_pos. revert len out. induction fuel as [|fuel IH]; intros len out Hlen Hfuel.
  { unfold loop_fuel in Hfuel. lia. }
  cbn [crc_zeros_loop]. destruct (Z.eqb_spec len 0) as [->|Hne].
  { change (zeros 0) with (@nil byte). rewrite sparse_crc32_nil. by destruct out. }
  unfold mbind, M_bind, get, set_crc, modify. set (w := Z.min len FILL_ZERO_BUFSIZE).
  destruct (Z.eqb_spec (len - w) 0) as [Hz|Hz].
  - assert (w = len) as -> by lia. rewrite Z.sub_diag. by destruct fuel.
  - rewrite IH; [|unfold w; lia|].
    + unfold set_crc, modify. simpl. rewrite <- sparse_crc32_app, <- zeros_add by (unfold w; lia).
      by replace (w + (len - w)) with len by lia.
    + destruct (loop_fuel_step len FILL_ZERO_BUFSIZE fuel) as [?|?]; try done; lia.
Qed.

(** A whole pass of [write_fd_chunk_range] over a range inside the file; the
    callback stands for either lambda of the source. *)
Lemma write_fd_chunk_range_eq fd (cb : list byte → Z → M (output_file T) (bool * Z))
    (upd : list byte → output_file T → output_file T) :
  (∀ d r out, sink_ok (sink out) → cb d r out = Ret (true, 0, upd d out)) →
  (∀ a b out, sink_ok (sink out) → upd b (upd a out) = upd (a ++ b) out) →
  (∀ d out, sink_ok (sink out) → sink_ok (sink (upd d out))) →
  ∀ fuel off written len r out, sink_ok (sink out) →
  0 ≤ off → 0 ≤ written ≤ len → (0 < written → r = 0) →
  off + (len - written) ≤ zlen (env_fd env fd) →
  (loop_fuel (len - written) kMaxMmapSize ≤ fuel)%nat →
  write_fd_chunk_range_loop map_fd fuel fd off written len cb r out =
  Ret (true, if written <? len then 0 else r,
       if written <? len then upd (ztake (len - written) (zdrop off (env_fd env fd))) out else out).
Proof.
  intros Hcb Hupd Hkupd. pose proof max_mmap_pos as Hmm.
  induction fuel as [|fuel IH]; intros off written len r out Hk Hoff Hw Hr Hend Hfuel.
  { unfold loop_fuel in Hfuel. lia. }
  cbn [write_fd_chunk_range_loop]. destruct (Z.ltb_spec written len) as [Hlt|]; [|done].
  set (n := Z.min kMaxMmapSize (len - written)).
  assert (n = Z.min (len - written) kMaxMmapSize) as Hn by (unfold n; lia).
  rewrite (map_fd_ok _ _ _ Henv) by lia. mred. rewrite Hcb by done. mred.
  destruct (Z.eq_dec (len - written - n) 0) as [Hz|Hz].
  - assert (n = len - written) as Hn' by lia. rewrite Hn'.
    replace (written + (len - written)) with len by lia.
    destruct fuel; simpl; by rewrite Z.ltb_irrefl.
  - rewrite IH; [|by apply Hkupd|lia..|].
    + destruct (Z.ltb_spec (written + n) len); [|lia]. do 2 f_equal.
      rewrite Hupd by done. f_equal. rewrite <- zdrop_zdrop by lia.
      rewrite <- ztake_split by lia. f_equal. lia.
    + destruct (loop_fuel_step (len - written) kMaxMmapSize fuel) as [Hf|Hf]; [lia..| |lia].
      rewrite <- Hn in Hf. by replace (len - (written + n)) with (len - written - n) by lia.
Qed.

(** The file after a chunk of [bytes] covering [n] image bytes. *)
Definition chunk_done (out : output_file T) (bytes : list byte) (crc n : Z) : output_file T :=
  mk_out (i64 (cur_out_ptr out + n)) (u32 (chunk_cnt out + 1))
    (if use_crc out then crc else of_crc32 out) (use_crc out) (of_block_size out)
    (of_len out) (of_sparse out) (emit (sink out) bytes).

Lemma set_sink_set_sink (out : output_file T) s s' : set_sink (set_sink out s) s' = set_sink out s'.
Proof. done. Qed.

Lemma iter_fill_crc v n c :
  Nat.iter n (λ c, sparse_crc32 c (le_bytes 4 v)) c =
  sparse_crc32 c (concat (replicate n (le_bytes 4 v))).
Proof.
  revert c. induction n as [|n IH]; intros c; [by rewrite sparse_crc32_nil|].
  rewrite Nat.iter_succ_r, IH. cbn [replicate concat]. by rewrite sparse_crc32_app.
Qed.

Lemma concat_replicate_length {A} n (l : list A) : length (concat (replicate n l)) = (n * length l)%nat.
Proof. induction n; simpl; [done|]. rewrite length_app. lia. Qed.

Lemma fill_bytes_mul4 v n : 0 ≤ n → fill_bytes v (n * 4) = concat (replicate (Z.to_nat n) (le_bytes 4 v)).
Proof.
  intros Hn. unfold fill_bytes. rewrite Z.div_mul by lia.
  replace (Z.to_nat (n + 1)) with (Z.to_nat n + 1)%nat by lia.
  rewrite replicate_add, concat_app. apply ztake_app_exact.
  unfold zlen. rewrite concat_replicate_length, length_le_bytes. lia.
Qed.

Section blocks.
Context (bs : Z) (Hbs : block_size_ok bs).

Lemma write_skip_chunk_sparse n out :
  sink_ok (sink out) → of_sparse out = true → of_block_size out = bs → 0 ≤ n < 2 ^ 32 →
  write_skip_chunk ops (n * bs) out =
  Ret (0, chunk_done out (skip_bytes n) (of_crc32 out) (n * bs)).
Proof.
  intros Hk Hsp Hb Hn. destruct Hbs as [Hb1 _]. unfold write_skip_chunk, write_sparse_skip_chunk.
  mred. rewrite Hsp, Hb. rewrite Z.mod_mul by lia. mred. rewrite Z.div_mul by lia.
  rewrite u32_small by lia. rewrite out_write_eq by done. mred. unfold advance. mred.
  destruct out as [cur cnt crc uc obs ol osp snk]. simpl in *. subst.
  unfold chunk_done. simpl. by destruct uc.
Qed.

Lemma write_fill_chunk_sparse len v out :
  sink_ok (sink out) → of_sparse out = true → of_block_size out = bs → 0 ≤ len → bs * DIV_ROUND_UP len bs < 2 ^ 63 →
  DIV_ROUND_UP len bs < 2 ^ 32 →
  write_fill_chunk ops len v out =
  Ret (0, chunk_done out (chunk_bytes env bs (mk_bb 0 len (BACKED_BLOCK_FILL v)))
            (block_crc env bs (mk_bb 0 len (BACKED_BLOCK_FILL v)) (of_crc32 out))
            (DIV_ROUND_UP len bs * bs)).
Proof.
  intros Hk Hsp Hb Hl Hlt Hlt32. destruct Hbs as [Hb1 Hb4].
  pose proof (div_round_up_nonneg len bs Hl ltac:(lia)).
  unfold write_fill_chunk, write_sparse_fill_chunk. mred. rewrite Hsp, Hb.
  rewrite ALIGN_u64_small by lia. rewrite Z.div_mul by lia. rewrite (u32_small (DIV_ROUND_UP len bs)) by lia.
  rewrite out_write_eq by done. mred. rewrite out_write_eq by (cbn [sink set_sink]; auto). mred.
  destruct out as [cur cnt crc uc obs ol osp snk]. out_simpl. subst obs osp.
  unfold chunk_done, chunk_bytes, block_crc. cbn [bb_type bb_len].
  assert (bs = bs / 4 * 4) as Hd4 by (pose proof (Z.div_mod bs 4); lia).
  out_simpl. rewrite <- sink_app by done.
  destruct uc; unfold set_crc, advance; mred; out_simpl; [|done].
  rewrite iter_fill_crc, <- fill_bytes_mul4 by (apply Z.div_pos; lia). by rewrite <- Hd4.
Qed.

(** Raw chunks, from memory and from a file. *)
Lemma write_data_chunk_sparse len d out :
  sink_ok (sink out) → of_sparse out = true → of_block_size out = bs → 0 ≤ len ≤ zlen d →
  CHUNK_HEADER_LEN + DIV_ROUND_UP len bs * bs < 2 ^ 32 →
  write_data_chunk ops len d out =
  Ret (0, chunk_done out (chunk_bytes env bs (mk_bb 0 len (BACKED_BLOCK_DATA d)))
            (block_crc env bs (mk_bb 0 len (BACKED_BLOCK_DATA d)) (of_crc32 out))
            (DIV_ROUND_UP len bs * bs)).
Proof.
  intros Hk Hsp Hb Hl Hlt. destruct Hbs as [Hb1 _].
  pose proof (div_round_up_nonneg len bs ltac:(lia) ltac:(lia)).
  pose proof (div_round_up_bounds len bs ltac:(lia)).
  unfold CHUNK_HEADER_LEN in Hlt.
  unfold write_data_chunk, write_sparse_data_chunk. mred. rewrite Hsp, Hb.
  rewrite ALIGN_u64_small by lia. rewrite Z.div_mul by lia.
  rewrite (u32_small (DIV_ROUND_UP len bs)) by nia.
  rewrite (u32_small (CHUNK_HEADER_LEN + _)) by (unfold CHUNK_HEADER_LEN; lia).
  rewrite u64_small by lia. set (z := DIV_ROUND_UP len bs * bs - len).
  rewrite out_write_eq by done. mred. rewrite out_write_eq by (cbn [sink set_sink]; auto). mred.
  rewrite set_sink_set_sink.
  destruct (write_zeros_loop_eq (loop_fuel z FILL_ZERO_BUFSIZE) z (set_sink out
    (emit (sink (set_sink out (emit (sink out) (chunk_header_bytes
      (mk_chunk_header CHUNK_TYPE_RAW 0 (DIV_ROUND_UP len bs)
        (CHUNK_HEADER_LEN + DIV_ROUND_UP len bs * bs)))))) (ztake len d))))
    as (s & Heq & Hs); [lia|done|cbn [sink set_sink]; auto|].
  rewrite Heq. mred. out_simpl. rewrite sink_app in Hs by done. specialize (Hs _ _ Hk eq_refl). subst s.
  destruct out as [cur cnt crc uc obs ol osp snk]. out_simpl. subst obs osp.
  unfold chunk_done, chunk_bytes, block_crc. out_simpl. cbn [backing_bytes].
  rewrite <- app_assoc. fold z.
  destruct uc; unfold set_crc, advance; mred; out_simpl; [|done].
  rewrite crc_zeros_loop_eq by (done || lia). unfold set_crc. mred. out_simpl.
  by rewrite sparse_crc32_app.
Qed.

Lemma write_fd_chunk_sparse len fd off out :
  sink_ok (sink out) → of_sparse out = true → of_block_size out = bs → 0 ≤ len → 0 ≤ off →
  off + len ≤ zlen (env_fd env fd) →
  CHUNK_HEADER_LEN + DIV_ROUND_UP len bs * bs < 2 ^ 32 →
  write_fd_chunk ops map_fd uninit len fd off out =
  Ret (0, chunk_done out (chunk_bytes env bs (mk_bb 0 len (BACKED_BLOCK_FD fd off)))
            (block_crc env bs (mk_bb 0 len (BACKED_BLOCK_FD fd off)) (of_crc32 out))
            (DIV_ROUND_UP len bs * bs)).
Proof.
  intros Hk Hsp Hb Hl Hoff Hend Hlt. destruct Hbs as [Hb1 _].
  pose proof (div_round_up_nonneg len bs ltac:(lia) ltac:(lia)).
  pose proof (div_round_up_bounds len bs ltac:(lia)).
  unfold CHUNK_HEADER_LEN in Hlt.
  unfold write_fd_chunk, write_sparse_fd_chunk. mred. rewrite Hsp, Hb.
  rewrite ALIGN_u64_small by lia. rewrite Z.div_mul by lia.
  rewrite (u32_small (DIV_ROUND_UP len bs)) by nia.
  rewrite (u32_small (CHUNK_HEADER_LEN + _)) by (unfold CHUNK_HEADER_LEN; lia).
  rewrite u64_small by lia. set (z := DIV_ROUND_UP len bs * bs - len).
  rewrite out_write_eq by done. mred. unfold write_fd_chunk_range.
  set (upd := fun (d : list byte) (o : output_file T) =>
    mk_out (cur_out_ptr o) (chunk_cnt o)
      (if use_crc o then sparse_crc32 (of_crc32 o) d else of_crc32 o) (use_crc o)
      (of_block_size o) (of_len o) (of_sparse o) (emit (sink o) d)).
  rewrite (write_fd_chunk_range_eq fd (sparse_fd_callback ops) upd); try (done || lia).
  2: { intros d r o Ho. unfold sparse_fd_callback. mred. rewrite out_write_eq by done. mred.
       destruct o as [? ? ? [] ? ? ? ?]; unfold set_crc; mred; done. }
  2: { intros a b o Ho. unfold upd. out_simpl. rewrite sink_app by done.
       destruct o as [? ? ? [] ? ? ? ?]; out_simpl; [|done]. by rewrite sparse_crc32_app. }
  2: { intros d o Ho. unfold upd. out_simpl. auto. }
  2: { cbn [sink set_sink]. auto. }
  2: { by rewrite Z.sub_0_r. }
  mred. rewrite !Z.sub_0_r.
  set (hdr := chunk_header_bytes _). set (d := ztake len (zdrop off (env_fd env fd))).
  set (o1 := if 0 <? len then _ else _).
  assert (o1 = mk_out (cur_out_ptr out) (chunk_cnt out)
    (if use_crc out then sparse_crc32 (of_crc32 out) d else of_crc32 out) (use_crc out)
    (of_block_size out) (of_len out) (of_sparse out) (emit (sink out) (hdr ++ d))) as ->.
  { unfold o1. destruct (Z.ltb_spec 0 len) as [|Hz].
    - unfold upd. out_simpl. by rewrite sink_app.
    - assert (len = 0) as -> by lia. unfold d. rewrite ztake_0, app_nil_r, sparse_crc32_nil.
      destruct out as [? ? ? [] ? ? ? ?]; done. }
  destruct (write_zeros_loop_eq (loop_fuel z FILL_ZERO_BUFSIZE) z (mk_out (cur_out_ptr out) (chunk_cnt out)
    (if use_crc out then sparse_crc32 (of_crc32 out) d else of_crc32 out) (use_crc out)
    (of_block_size out) (of_len out) (of_sparse out) (emit (sink out) (hdr ++ d))))
    as (s & Heq & Hs); [lia|done|cbn [sink]; auto|].
  rewrite Heq. mred. specialize (Hs _ _ Hk eq_refl). subst s.
  destruct out as [cur cnt crc uc obs ol osp snk]. out_simpl. subst obs osp.
  unfold chunk_done, chunk_bytes, block_crc. out_simpl. cbn [backing_bytes]. fold hdr d z.
  rewrite <- app_assoc.
  destruct uc; unfold advance; mred; out_simpl; [|done].
  rewrite crc_zeros_loop_eq by (done || lia). unfold set_crc. mred. out_simpl.
  by rewrite sparse_crc32_app.
Qed.

Lemma write_block_sparse bb out :
  sink_ok (sink out) → of_sparse out = true → of_block_size out = bs → bb_ok bs bb → block_writable env bs bb →
  sparse_file_write_block ops map_fd open_file uninit bb out =
  Ret (0, chunk_done out (chunk_bytes env bs bb) (block_crc env bs bb (of_crc32 out))
            (DIV_ROUND_UP (bb_len bb) bs * bs)).
Proof.
  intros Hk Hsp Hb (Hb0 & Hl & He & Heb & _) [Hr Hw]. unfold bb_end in *.
  destruct bb as [blk len t]. out_simpl. unfold sparse_file_write_block. out_simpl.
  destruct t as [d|f o|fd o|v]; cbn [backing_ready] in Hr.
  - by rewrite write_data_chunk_sparse by (done || lia).
  - unfold write_file_chunk. pose proof (open_file_ok _ _ _ Henv f).
    destruct (Z.ltb_spec (open_file f) 0); [lia|].
    pose proof (open_file_fd _ _ _ Henv f) as Hfd.
    rewrite write_fd_chunk_sparse by (done || lia || rewrite Hfd; lia).
    unfold chunk_bytes, block_crc. out_simpl. cbn [backing_bytes]. by rewrite Hfd.
  - by rewrite write_fd_chunk_sparse by (done || lia).
  - destruct Hbs. rewrite write_fill_chunk_sparse by (done || nia). done.
Qed.

(** [out'] is [out] after the chunks [cs]. *)
Record wrote (out out' : output_file T) (cs : list (list byte)) (crc : Z) : Prop := {
  wrote_sink : sink out' = foldl emit (sink out) cs;
  wrote_cnt : chunk_cnt out' = u32 (chunk_cnt out + zlen cs);
  wrote_crc : of_crc32 out' = if use_crc out then crc else of_crc32 out;
  wrote_use_crc : use_crc out' = use_crc out;
  wrote_bs : of_block_size out' = of_block_size out;
  wrote_len : of_len out' = of_len out;
  wrote_sparse : of_sparse out' = of_sparse out
}.

Lemma foldl_emit_ok s cs : sink_ok s → sink_ok (foldl emit s cs).
Proof. revert s. induction cs as [|c cs IH]; intros s Hs; cbn [foldl]; auto. Qed.

Lemma wrote_ok out out' cs crc : wrote out out' cs crc → sink_ok (sink out) → sink_ok (sink out').
Proof. intros [-> _ _ _ _ _ _] Hs. by apply foldl_emit_ok. Qed.

Lemma wrote_refl out : chunk_cnt out = u32 (chunk_cnt out) → wrote out out [] (of_crc32 out).
Proof. intros Hc. split; simpl; try done; [by rewrite zlen_nil, Z.add_0_r|by destruct (use_crc out)]. Qed.

Lemma chunk_done_wrote out bytes crc n : wrote out (chunk_done out bytes crc n) [bytes] crc.
Proof. by split. Qed.

Lemma wrote_trans o1 o2 o3 a b c1 c2 :
  wrote o1 o2 a c1 → wrote o2 o3 b c2 → wrote o1 o3 (a ++ b) c2.
Proof.
  intros [] []. split; try congruence.
  - rewrite wrote_sink1, wrote_sink0. by rewrite foldl_app.
  - rewrite wrote_cnt1, wrote_cnt0, zlen_app. unfold u32.
    rewrite Z.add_mod_idemp_l by lia. f_equal. lia.
  - rewrite wrote_crc1, wrote_use_crc0. by destruct (use_crc o1).
Qed.

Lemma next_block_small bb : bb_ok bs bb → next_block bs bb = bb_end bs bb.
Proof.
  intros Hok. pose proof (bb_len_bound bs Hbs bb Hok). destruct Hok as (Hb0 & Hl & He & Heb & _).
  destruct Hbs as [Hb1 _]. assert (0 ≤ bb_block bb * bs) by nia. unfold next_block.
  rewrite u64_small by lia. change ((bb_len bb + bs - 1) / bs) with (DIV_ROUND_UP (bb_len bb) bs).
  pose proof (div_round_up_nonneg (bb_len bb) bs ltac:(lia) ltac:(lia)).
  apply u32_small. unfold bb_end in *. lia.
Qed.

Lemma write_gap_sparse bb last out :
  sink_ok (sink out) → of_sparse out = true → of_block_size out = bs → bb_ok bs bb → 0 ≤ last →
  chunk_cnt out = u32 (chunk_cnt out) →
  ∃ r out', (if bb_block bb >? last
             then write_skip_chunk ops (u64 (i64 (u32 (bb_block bb - last) * bs))) out
             else Ret (0, out)) = Ret (r, out') ∧
    wrote out out' (if bb_block bb >? last then [skip_bytes (bb_block bb - last)] else [])
      (of_crc32 out).
Proof.
  intros Hk Hsp Hb Hok Hlast Hcnt. rewrite Z.gtb_ltb.
  destruct (Z.ltb_spec last (bb_block bb)); [|exists 0, out; split; [done|by apply wrote_refl]].
  pose proof (bb_len_bound bs Hbs bb Hok).
  destruct Hok as (Hb0 & Hl & He & Heb & _). destruct Hbs as [Hb1 _].
  assert (bb_block bb < 2 ^ 32).
  { unfold bb_end in He. pose proof (div_round_up_nonneg (bb_len bb) bs Hl). lia. }
  rewrite (u32_small (bb_block bb - last)) by lia.
  assert (0 ≤ (bb_block bb - last) * bs ≤ bb_block bb * bs) by nia.
  rewrite i64_small by lia. rewrite u64_small by lia.
  rewrite (write_skip_chunk_sparse (bb_block bb - last)) by (done || lia).
  eexists _, _. split; [reflexivity|]. apply chunk_done_wrote.
Qed.

Lemma write_blocks_loop_sparse l last out :
  sink_ok (sink out) → of_sparse out = true → of_block_size out = bs → chunk_cnt out = u32 (chunk_cnt out) →
  0 ≤ last → blocks_ok bs l → Forall (block_writable env bs) l →
  ∃ out', write_blocks_loop ops map_fd open_file uninit bs l last out =
      Ret (inr (blocks_end bs l last), out') ∧
    wrote out out' (chunk_list env bs l last)
      (foldl (λ c bb, block_crc env bs bb c) (of_crc32 out) l) ∧
    chunk_cnt out' = u32 (chunk_cnt out').
Proof.
  revert last out. induction l as [|bb l IH]; intros last out Hk Hsp Hb Hcnt Hlast Hok Hw.
  { exists out. simpl. split; [done|]. split; [by apply wrote_refl|done]. }
  apply blocks_ok_cons in Hok as (Hbb & Hok & _). apply Forall_cons in Hw as [Hwb Hw'].
  cbn [write_blocks_loop blocks_end chunk_list foldl].
  destruct (write_gap_sparse bb last out Hk Hsp Hb Hbb Hlast Hcnt) as (r & o1 & Hgap & W1).
  unfold mbind at 1, M_bind at 1.
  replace ((if bb_block bb >? last
    then write_skip_chunk ops (u64 (i64 (u32 (bb_block bb - last) * bs)))
    else mret 0) out) with (Ret (r, o1)) by (rewrite <- Hgap; by destruct (bb_block bb >? last)).
  pose proof W1 as []. mred.
  pose proof (wrote_ok _ _ _ _ W1 Hk) as Hk1.
  rewrite (write_block_sparse bb o1) by congruence || done.
  mred. rewrite (next_block_small bb Hbb).
  set (o2 := chunk_done o1 _ _ _).
  assert (wrote out o2 ((if bb_block bb >? last then [skip_bytes (bb_block bb - last)] else []) ++
    [chunk_bytes env bs bb]) (block_crc env bs bb (of_crc32 out))) as W2.
  { assert (of_crc32 o1 = of_crc32 out) as Hc by (rewrite wrote_crc0; by destruct (use_crc out)).
    eapply wrote_trans; [exact W1|]. rewrite <- Hc. apply chunk_done_wrote. }
  destruct (IH (bb_end bs bb) o2) as (out' & Heq & W3 & Hc').
  { by apply (wrote_ok _ _ _ _ W2). } { simpl. congruence. } { simpl. congruence. }
  { simpl. unfold u32. by rewrite Z.mod_mod. }
  { destruct Hbb as (? & ? & _). pose proof (bb_end_ge bs Hbs bb). lia. } { done. } { done. }
  exists out'. rewrite Heq. split; [done|]. split; [|done].
  pose proof (wrote_crc _ _ _ _ W2) as Hc2.
  pose proof (wrote_trans _ _ _ _ _ _ _ W2 W3) as W4. rewrite <- app_assoc in W4. cbn [app] in W4.
  destruct W4 as [Ws Wc Wcrc Wu Wb Wl Wsp]. split; try done. rewrite Wcrc.
  destruct (use_crc out); [by rewrite Hc2|done].
Qed.

Lemma count_chunks_loop_eq l last c :
  blocks_ok bs l → 0 ≤ last → c = u32 c →
  count_chunks_loop bs l last c = (blocks_end bs l last, u32 (c + zlen (chunk_list env bs l last))).
Proof.
  revert last c. induction l as [|bb l IH]; intros last c Hok Hlast Hc.
  { simpl. by rewrite zlen_nil, Z.add_0_r, <- Hc. }
  apply blocks_ok_cons in Hok as (Hbb & Hok & _).
  cbn [count_chunks_loop blocks_end chunk_list]. rewrite next_block_small by done.
  assert (∀ x, u32 (u32 x) = u32 x) as Hu by (intros x; unfold u32; by rewrite Z.mod_mod).
  assert (0 ≤ bb_end bs bb) by (destruct Hbb as (? & ? & _); pose proof (bb_end_ge bs Hbs bb); lia).
  rewrite IH by done. f_equal. rewrite zlen_app, zlen_cons.
  destruct (bb_block bb >? last); rewrite ?zlen_cons, zlen_nil; unfold u32;
    rewrite ?Z.add_mod_idemp_l by lia; [|f_equal; lia].
  replace ((c + 1) mod 2 ^ 32 + 1 + zlen (chunk_list env bs l (bb_end bs bb))) with
    ((c + 1) mod 2 ^ 32 + (1 + zlen (chunk_list env bs l (bb_end bs bb)))) by lia.
  rewrite Z.add_mod_idemp_l by lia. f_equal. lia.
Qed.

(** Every chunk but one covers or follows blocks of its own. *)
Lemma chunk_list_count l last n :
  blocks_ok bs l → Forall (λ b, bb_end bs b ≤ n) l → Forall (λ b, last ≤ bb_block b) l →
  zlen (chunk_list env bs l last) ≤ 2 * (blocks_end bs l last - last) + 1 ∧
  (l ≠ [] → Forall (λ b, last < bb_block b) l →
   zlen (chunk_list env bs l last) ≤ 2 * (blocks_end bs l last - last)) ∧
  last ≤ blocks_end bs l last ≤ Z.max last n.
Proof.
  revert last. induction l as [|bb l IH]; intros last Hok Hn Hlast.
  { simpl. rewrite zlen_nil. split_and!; [lia|done|lia..]. }
  apply blocks_ok_cons in Hok as (Hbb & Hok & Hbef).
  apply Forall_cons in Hn as [Hn Hn']. apply Forall_cons in Hlast as [Hl _].
  cbn [blocks_end chunk_list]. rewrite zlen_app, zlen_cons.
  pose proof Hbb as (_ & Hlen & _). pose proof (bb_end_ge bs Hbs bb Hlen) as Hge.
  destruct (IH (bb_end bs bb) Hok Hn') as (H1 & H2 & H3).
  { apply Forall_forall. intros b Hb. by destruct (Hbef b Hb). }
  assert (bb_end bs bb = bb_block bb → zlen (chunk_list env bs l (bb_end bs bb)) ≤
    2 * (blocks_end bs l (bb_end bs bb) - bb_end bs bb)) as H0.
  { intros He. destruct (decide (l = [])) as [->|Hne]; [simpl; rewrite zlen_nil; lia|].
    apply H2; [done|]. apply Forall_forall. intros b Hb. destruct (Hbef b Hb). lia. }
  rewrite Z.gtb_ltb. destruct (Z.ltb_spec last (bb_block bb)) as [Hlt|Hge'];
    rewrite ?zlen_cons, ?zlen_nil;
    (destruct (Z.eq_dec (bb_end bs bb) (bb_block bb)) as [E|E]; [specialize (H0 E)|]);
    (split_and!; [lia| |lia|lia]); intros _ [Hl' _]%Forall_cons; lia.
Qed.

Lemma foldl_emit s a cs : sink_ok s → foldl emit (emit s a) cs = emit s (a ++ concat cs).
Proof.
  intros Hk. revert a. induction cs as [|c cs IH]; intros a; cbn [foldl concat]; [by rewrite app_nil_r|].
  by rewrite sink_app, IH, app_assoc by done.
Qed.
End blocks.

Lemma sf_block_size_ok s : sf_ok s → block_size_ok (sf_block_size s).
Proof. intros [(Hb & _) <- _ _ _ _]. done. Qed.

Lemma sf_blocks_ok s : sf_ok s → blocks_ok (sf_block_size s) (data_blocks (sf_bbl s)).
Proof. intros [(_ & Hb & _) <- _ _ _ _]. done. Qed.

(** The number of blocks of a file, and where its last block ends. *)
Lemma sf_ends s : sf_ok s →
  let bs := sf_block_size s in let l := data_blocks (sf_bbl s) in
  let total := sf_len s / bs in
  sf_len s = total * bs ∧ 0 ≤ total ∧ 0 ≤ blocks_end bs l 0 ≤ total ∧
  zlen (chunk_list env bs l 0) ≤ 2 * blocks_end bs l 0 + 1.
Proof.
  intros Hok bs l total. pose proof (sf_block_size_ok s Hok) as Hbs.
  pose proof (sf_blocks_ok s Hok) as Hbl. destruct Hok as [_ _ Hlen Hal _ Hin].
  destruct (chunk_list_count bs Hbs l 0 total Hbl Hin) as (H1 & _ & H2).
  { eapply Forall_impl; [apply Hbl|]. by intros b (? & _). }
  destruct Hbs as [Hbs _]. pose proof (Z.div_mod (sf_len s) bs).
  assert (0 ≤ total) by (apply Z.div_pos; lia). unfold total, bs in *. lia.
Qed.

Lemma write_all_blocks_sparse s out :
  sink_ok (sink out) → sf_ok s → Forall (block_writable env (sf_block_size s)) (data_blocks (sf_bbl s)) →
  of_sparse out = true → of_block_size out = sf_block_size s →
  chunk_cnt out = u32 (chunk_cnt out) →
  ∃ out', write_all_blocks ops map_fd open_file uninit s out = Ret (0, out') ∧
    wrote out out' (image_chunks env (sf_block_size s) (data_blocks (sf_bbl s))
                     (sf_len s / sf_block_size s))
      (foldl (λ c bb, block_crc env (sf_block_size s) bb c) (of_crc32 out)
         (data_blocks (sf_bbl s))).
Proof.
  intros Hk Hok Hw Hsp Hb Hcnt. pose proof (sf_block_size_ok s Hok) as Hbs.
  destruct (sf_ends s Hok) as (Hlen & Ht & He & _).
  unfold write_all_blocks, image_chunks. set (bs := sf_block_size s) in *.
  set (l := data_blocks (sf_bbl s)) in *. set (total := sf_len s / bs) in *.
  destruct (write_blocks_loop_sparse bs Hbs l 0 out) as (o1 & Heq & W & Hc1);
    [done..|by apply sf_blocks_ok|done|].
  mred. rewrite Heq. cbv iota. destruct Hok as [_ _ Hl _ Htot _]. fold bs in Htot. fold total in Htot.
  destruct Hbs as [Hbs1 Hbs4]. set (e := blocks_end bs l 0) in *.
  assert (0 ≤ e * bs ≤ total * bs) by nia.
  rewrite (i64_small (e * bs)) by lia. rewrite i64_small by lia.
  replace (sf_len s - e * bs) with ((total - e) * bs) by lia.
  rewrite Z.geb_leb, (proj2 (Z.leb_le _ _)) by nia. rewrite Z.gtb_ltb.
  destruct (Z.ltb_spec e total) as [Hlt|Hge].
  - rewrite (proj2 (Z.ltb_lt _ _)) by nia.
    rewrite (write_skip_chunk_sparse bs (conj Hbs1 Hbs4)); [|by apply (wrote_ok _ _ _ _ W)|destruct W; congruence|destruct W; congruence|lia].
    eexists. split; [reflexivity|].
    assert (wrote out (chunk_done o1 (skip_bytes (total - e)) (of_crc32 o1) ((total - e) * bs))
      (chunk_list env bs l 0 ++ [skip_bytes (total - e)]) (of_crc32 o1)) as W'.
    { eapply wrote_trans; [exact W|]. apply chunk_done_wrote. }
    destruct W' as [? ? Wc]. split; try done. rewrite Wc.
    destruct (use_crc out) eqn:Hu; [|done]. by rewrite (wrote_crc _ _ _ _ W), Hu.
  - replace (total - e) with 0 by lia. rewrite Z.mul_0_l. cbn [Z.ltb Z.compare].
    eexists. split; [reflexivity|]. by rewrite app_nil_r.
Qed.

(** The image of a well-formed file, through any destination that keeps its
    promise. *)
Lemma write_image_sparse s crc s0 :
  sink_ok s0 → sf_ok s → Forall (block_writable env (sf_block_size s)) (data_blocks (sf_bbl s)) →
  write_image ops map_fd open_file uninit s true crc s0 =
  Ret (Some 0, emit s0 (image_bytes env s crc)).
Proof.
  intros Hk Hok Hw. pose proof (sf_block_size_ok s Hok) as Hbs.
  destruct (sf_ends s Hok) as (Hlen & Ht & He & Hn).
  unfold write_image, output_file_open, output_file_init, sparse_count_chunks, image_bytes.
  rewrite (count_chunks_loop_eq (sf_block_size s) Hbs) by (done || by apply sf_blocks_ok).
  set (bs := sf_block_size s) in *. set (l := data_blocks (sf_bbl s)) in *.
  set (total := sf_len s / bs) in *. rewrite Z.add_0_l.
  assert (DIV_ROUND_UP (sf_len s) bs = total) as Hdru.
  { rewrite Hlen. destruct Hbs. rewrite div_round_up_mul by lia. done. }
  rewrite Hdru. pose proof (sf_total s Hok) as Htot.
  fold bs total in Htot.
  set (cs := image_chunks env bs l total).
  set (n := if blocks_end bs l 0 <? total then _ else _).
  assert (0 ≤ zlen cs < 2 ^ 32 - 1 ∧ n = zlen cs) as [Hcs Hncs].
  { unfold n, cs, image_chunks. rewrite zlen_app.
    pose proof (zlen_nonneg (chunk_list env bs l 0)).
    rewrite (u32_small (zlen _)) by lia.
    destruct (Z.ltb_spec (blocks_end bs l 0) total).
    - rewrite zlen_cons, (@zlen_nil (list byte)), u32_small by lia. lia.
    - rewrite (@zlen_nil (list byte)). lia. }
  mred. rewrite out_write_eq by done. mred. cbn [sink set_sink].
  set (o0 := set_sink _ _).
  destruct (write_all_blocks_sparse s o0) as (o1 & Heq & W); [unfold o0; cbn [sink set_sink]; auto|done..|]. fold cs in W. fold l in W.
  change (0 <? 0) with false. cbv iota. rewrite Heq. mred. unfold output_file_close, write_end_chunk, write_sparse_end_chunk. mred.
  assert (init_header bs (sf_len s) n crc = mk_sparse_header SPARSE_HEADER_MAGIC 1 0
    SPARSE_HEADER_LEN CHUNK_HEADER_LEN bs total (zlen cs + (if crc then 1 else 0)) 0) as Hh.
  { unfold init_header. rewrite Hdru, Hncs, (u32_small (zlen cs)), (u32_small total) by lia.
    f_equal. destruct crc; rewrite ?u32_small; lia. }
  pose proof (wrote_ok _ _ _ _ W) as Hk1. specialize (Hk1 ltac:(unfold o0; cbn [sink set_sink]; auto)).
  rewrite <- Hh. destruct W as [Ws _ Wc Wu _ _ Wsp]. rewrite Wsp.
  change (of_sparse o0) with true. cbv iota beta. rewrite Wu. change (use_crc o0) with crc in *.
  change (of_crc32 o0) with 0 in *.
  assert (sink o1 = emit s0 (sparse_header_bytes (init_header bs (sf_len s) n crc) ++ concat cs)) as Hs1.
  { rewrite Ws. unfold o0. cbn [sink set_sink]. by apply foldl_emit. }
  destruct crc; mred.
  - rewrite out_write_eq by done. mred. rewrite out_write_eq by (cbn [sink set_sink]; auto). mred.
    out_simpl. rewrite Hs1, !sink_app, Wc by auto. done.
  - by rewrite Hs1, app_nil_r.
Qed.
End write.

(** ** Splitting blocks before writing to a file *)

Definition split_fuel (bs : Z) (l : list backed_block) : nat :=
  sum_list_with (λ b, S (Z.to_nat (bb_len b / ALIGN_DOWN MAX_BACKED_BLOCK_SIZE bs))) l.

Section split.
Context (env : backing_env) (bs : Z).
Hypothesis Hbs : block_size_ok bs.

Definition bb_ready (b : backed_block) : Prop := backing_ready env (bb_type b) (bb_len b).

Lemma split_block_ready max_len bb :
  bb_ok bs bb → bs ≤ max_len → bb_ready bb → Forall bb_ready (split_block bs max_len bb).
Proof.
  intros (_ & Hl & _ & _ & Hk) Hm Hr. unfold split_block.
  destruct (align_down_facts bs Hbs max_len Hm) as (Hn & _ & _).
  destruct (Z.leb_spec (bb_len bb) (ALIGN_DOWN max_len bs)); [by constructor|].
  destruct Hbs as [? _]. unfold bb_ready in *. destruct bb as [blk len [d|f o|fd o|v]]; simpl in *;
    repeat constructor; simpl; rewrite ?zlen_zdrop, ?i64_small; lia.
Qed.

Definition used_ok (lu : option nat) (l : list backed_block) : Prop :=
  match lu with Some j => (j < length l)%nat | None => True end.

Lemma split_block_used max_len p bb q lu lu' :
  used_ok lu (p ++ bb :: q) → (lu' = lu ∨ lu' = S <$> lu) →
  (length (split_block bs max_len bb) = 1%nat → lu' = lu) →
  used_ok lu' (p ++ split_block bs max_len bb ++ q).
Proof.
  unfold used_ok, split_block. rewrite !length_app. simpl.
  destruct (_ <=? _); simpl; intros Hlu [->| ->] H1; rewrite ?H1 by done; destruct lu; simpl; lia.
Qed.

Lemma split_all_correct fuel p q lu :
  bs ≤ MAX_BACKED_BLOCK_SIZE → blocks_ok bs (p ++ q) → Forall bb_ready q →
  used_ok lu (p ++ q) → (split_fuel bs q ≤ fuel)%nat →
  ∃ q' lu', split_all fuel (length p) (mk_bbl (p ++ q) lu bs) = Ret (0, mk_bbl (p ++ q') lu' bs) ∧
    blocks_ok bs (p ++ q') ∧ used_ok lu' (p ++ q') ∧ Forall bb_ready q' ∧
    Forall (λ b, bb_len b ≤ MAX_BACKED_BLOCK_SIZE) q' ∧
    (∀ e off, blocks_read e bs (p ++ q') off = blocks_read e bs (p ++ q) off) ∧
    (∀ n, Forall (λ b, bb_end bs b ≤ n) q → Forall (λ b, bb_end bs b ≤ n) q').
Proof.
  intros Hmax. revert p q lu. induction fuel as [|fuel IH]; intros p q lu Hok Hr Hlu Hf.
  { destruct q as [|b q]; [|unfold split_fuel in Hf; simpl in Hf; lia].
    exists [], lu. rewrite app_nil_r in *. cbn [split_all data_blocks].
    rewrite lookup_ge_None_2 by lia. done. }
  destruct q as [|bb q].
  { exists [], lu. rewrite app_nil_r in *. cbn [split_all data_blocks].
    rewrite lookup_ge_None_2 by lia. done. }
  pose proof Hok as Hbq. apply blocks_ok_app in Hbq as (_ & Hbq & _).
  apply blocks_ok_cons in Hbq as (Hb & _ & _). apply Forall_cons in Hr as [Hrb Hrq].
  cbn [split_all data_blocks]. rewrite lookup_app_r, Nat.sub_diag by lia. cbn [lookup list_lookup].
  destruct (backed_block_split_eq bs Hbs (mk_bbl (p ++ bb :: q) lu bs) p bb q _ eq_refl eq_refl Hb Hmax)
    as (lu1 & -> & Hlu1 & Hone). mred.
  pose proof (split_block_used _ p bb q lu lu1 Hlu Hlu1 Hone) as Hlu2.
  pose proof (split_block_ok_app bs p bb q _ Hbs Hok Hmax) as Hok1.
  pose proof (split_block_ready _ bb Hb Hmax Hrb) as Hr1.
  pose proof (split_block_ok bs Hbs _ bb Hb Hmax) as (_ & Hrange & Hhd).
  assert (∃ b1 t, split_block bs MAX_BACKED_BLOCK_SIZE bb = b1 :: t ∧
    (split_fuel bs (t ++ q) ≤ fuel)%nat) as (b1 & t & Es & Hf1).
  { destruct (align_down_facts bs Hbs _ Hmax) as (Hn & _ & _). destruct Hbs as [Hbs1 _].
    destruct Hb as (_ & Hl & _). unfold split_fuel in *. cbn [sum_list_with] in Hf. unfold split_block.
    set (n := ALIGN_DOWN _ _) in *. destruct (Z.leb_spec (bb_len bb) n); eexists _, _; (split; [done|]).
    - simpl. lia.
    - cbn [app sum_list_with bb_len].
      assert (bb_len bb / n = (bb_len bb - n) / n + 1) as Hd.
      { rewrite <- Z.div_add by lia. f_equal. lia. }
      assert (0 ≤ (bb_len bb - n) / n) by (apply Z.div_pos; lia).
      rewrite Hd in Hf. lia. }
  rewrite Es in *. apply Forall_cons in Hr1 as [Hr1 Hrt].
  destruct (IH (p ++ [b1]) (t ++ q) lu1) as (q' & lu' & Heq & Hok' & Hlu' & Hr' & Hlen' & Hread & Hend).
  { by rewrite <- app_assoc. } { by apply Forall_app. } { by rewrite <- app_assoc. } { done. }
  rewrite length_app, Nat.add_comm in Heq. rewrite <- !app_assoc in Heq. cbn in Heq.
  exists (b1 :: q'), lu'. rewrite <- app_assoc in Hok', Hlu'. cbn [app].
  split_and!; [done|done|done|by constructor| | |].
  - constructor; [|done]. by apply Hhd.
  - intros e off. specialize (Hread e off). rewrite <- !app_assoc in Hread. cbn [app] in Hread.
    rewrite Hread. rewrite <- (blocks_read_split e bs p bb q MAX_BACKED_BLOCK_SIZE) by done.
    by rewrite Es.
  - intros n [Hbn Hqn]%Forall_cons. constructor.
    + destruct (Hrange b1); [by left|]. lia.
    + apply Hend, Forall_app. split; [|done]. apply Forall_forall. intros x Hx.
      destruct (Hrange x); [by right|]. lia.
Qed.

(** Blocks of at most 64 MiB fit the 32-bit size field of a chunk. *)
Lemma small_block_writable bb :
  bs ≤ MAX_BACKED_BLOCK_SIZE → bb_ok bs bb → bb_ready bb → bb_len bb ≤ MAX_BACKED_BLOCK_SIZE →
  block_writable env bs bb.
Proof.
  intros Hm (_ & Hl & _) Hr Hlen. split; [done|]. destruct Hbs as [? _].
  pose proof (div_round_up_bounds (bb_len bb) bs). unfold MAX_BACKED_BLOCK_SIZE, CHUNK_HEADER_LEN in *.
  destruct (bb_type bb); lia.
Qed.
End split.

(** ** Properties *)

(** A concrete environment for the examples: one file, reached by descriptor 3
    and by every name. *)
Definition ex_file : list byte := [x01; x02; x03; x04; x05; x06; x07; x08; x09; x0a; x0b; x0c].
Definition ex_env : backing_env := mk_env (λ fd, if fd =? 3 then ex_file else []) (λ _, ex_file).
Definition ex_map (fd off n : Z) : option (list byte) :=
  let d := env_fd ex_env fd in
  if (0 <=? off) && (off + n <=? zlen d) then Some (ztake n (zdrop off d)) else None.

Lemma ex_env_agrees : env_agrees ex_env ex_map (λ _, 3).
Proof.
  split; [|done|done]. intros fd off n H1 H2 H3. unfold ex_map.
  by rewrite (proj2 (Z.leb_le _ _) H1), (proj2 (Z.leb_le _ _) H3).
Qed.

(** A file with a gap, a file-backed block, a fill, and a block from memory that
    ends inside its last block. *)
Definition ex_sparse : sparse_file :=
  mk_sparse_file 4 48 false
    (mk_bbl [mk_bb 1 8 (BACKED_BLOCK_FD 3 2); mk_bb 3 12 (BACKED_BLOCK_FILL 7);
             mk_bb 8 3 (BACKED_BLOCK_DATA [x61; x62; x63])] None 4).

Lemma ex_sparse_ok : sf_ok ex_sparse.
Proof.
  split; try done.
  - split_and!; [done| |done]. split; repeat constructor; done.
  - repeat constructor; done.
Qed.

Lemma ex_sparse_writable :
  Forall (block_writable ex_env (sf_block_size ex_sparse)) (data_blocks (sf_bbl ex_sparse)).
Proof. repeat constructor; done. Qed.

(** C27: [sparse_file_len] predicts, without producing it, the exact number of
    bytes [sparse_file_callback] delivers. *)
Theorem sparse_file_len_exact env map_fd open_file uninit s crc :
  env_agrees env map_fd open_file → sf_ok s →
  Forall (block_writable env (sf_block_size s)) (data_blocks (sf_bbl s)) →
  zlen (image_bytes env s crc) < 2 ^ 63 →
  ∃ image, sparse_file_callback map_fd open_file uninit s true crc collect_write [] = Ret (0, image) ∧
    sparse_file_len map_fd open_file uninit s true crc = Ret (zlen image).
Proof.
  intros Henv Hok Hw Hlen. exists (image_bytes env s crc).
  unfold sparse_file_callback, sparse_file_len.
  rewrite (write_image_sparse _ app env map_fd open_file uninit Henv) by done.
  rewrite (write_image_sparse _ _ env map_fd open_file uninit Henv) by done.
  mred. rewrite Z.add_0_l, i64_small; [done|].
  pose proof (zlen_nonneg (image_bytes env s crc)). lia.
Qed.

Lemma sparse_file_len_exact_witness :
  ∃ image,
    sparse_file_callback ex_map (λ _, 3) 0 ex_sparse true true collect_write [] = Ret (0, image) ∧
    sparse_file_len ex_map (λ _, 3) 0 ex_sparse true true = Ret (zlen image).
Proof.
  apply (sparse_file_len_exact ex_env); [apply ex_env_agrees|apply ex_sparse_ok|
    apply ex_sparse_writable|vm_compute; reflexivity].
Defined.

(** [sparse_file_write] terminates and succeeds on any destination that
    accepts every write; the blocks it cuts at 64 MiB describe the same image as
    before, all fit the 32-bit sizes of the format, and what is written is the
    sparse image of the cut file. *)
Theorem sparse_file_write_correct {T} (ops : output_file_ops T) (emit : T → list byte → T)
    env map_fd open_file uninit fuel s crc dest :
  ∀ Hsink : Sink ops emit, sink_ok dest → env_agrees env map_fd open_file → sf_ok s →
  sf_block_size s ≤ MAX_BACKED_BLOCK_SIZE →
  Forall (bb_ready env) (data_blocks (sf_bbl s)) →
  (split_fuel (sf_block_size s) (data_blocks (sf_bbl s)) ≤ fuel)%nat →
  ∃ s', sparse_file_write ops map_fd open_file uninit fuel s true crc dest =
      Ret (0, s', emit dest (image_bytes env s' crc)) ∧ sf_ok s' ∧
    Forall (block_writable env (sf_block_size s)) (data_blocks (sf_bbl s')) ∧
    sf_block_size s' = sf_block_size s ∧ sf_len s' = sf_len s ∧
    ∀ e off, blocks_read e (sf_block_size s) (data_blocks (sf_bbl s')) off =
             blocks_read e (sf_block_size s) (data_blocks (sf_bbl s)) off.
Proof.
  intros Hsink Hk Henv Hok Hmax Hr Hf. unfold sparse_file_write.
  pose proof (sf_block_size_ok s Hok) as Hbs. pose proof (sf_blocks_ok s Hok) as Hbl.
  destruct s as [bs len vb [l lu bs']]. pose proof (sf_bs _ Hok) as E. simpl in *. subst bs'.
  destruct (split_all_correct env bs Hbs fuel [] l lu) as (q & lu' & Heq & Hok' & Hlu' & Hr' & Hlen & Hread & Hend);
    [done..|apply Hok|done|].
  simpl in Heq. rewrite Heq. mred. cbn [set_bbl sf_block_size sf_len sf_verbose].
  assert (Forall (block_writable env bs) q) as Hw.
  { apply Forall_forall. intros b Hb. destruct Hok' as [Hok' _]. rewrite Forall_forall in Hok', Hr', Hlen.
    apply small_block_writable; auto. }
  set (s' := mk_sparse_file bs len vb (mk_bbl q lu' bs)).
  assert (sf_ok s') as Hsf.
  { destruct Hok as [_ _ Hl Ha Ht Hi]. split; simpl in *; auto. by split_and!. }
  rewrite (write_image_sparse ops emit env map_fd open_file uninit Henv) by done.
  exists s'. by split_and!.
Qed.

Lemma sparse_file_write_correct_witness :
  ∃ s', sparse_file_write (callback_file_ops collect_write) ex_map (λ _, 3) 0 10 ex_sparse true false [] =
      Ret (0, s', image_bytes ex_env s' false) ∧ sf_ok s' ∧
    Forall (block_writable ex_env 4) (data_blocks (sf_bbl s')) ∧
    sf_block_size s' = 4 ∧ sf_len s' = 48 ∧
    ∀ e off, blocks_read e 4 (data_blocks (sf_bbl s')) off =
             blocks_read e 4 (data_blocks (sf_bbl ex_sparse)) off.
Proof.
  apply (sparse_file_write_correct (callback_file_ops collect_write) app ex_env ex_map (λ _, 3) 0 10
    ex_sparse false [] _); [exact I|apply ex_env_agrees|apply ex_sparse_ok|done| |vm_compute; lia].
  repeat constructor; done.
Defined.
