(* ===== verification/SparseRead.v ===== *)
(** The readers of libsparse (system/core/libsparse/sparse_read.cpp): importing a
    sparse image from a buffer or a file descriptor, and building a sparse file
    from a plain image.

    The abstract class [SparseFileSource] is a record of operations over the
    state of the source; [SparseFileBufSource] and [SparseFileFdSource] are its
    two instances.  The system calls of the latter ([read], [lseek64]) are
    parameters.  [verbose_error] only prints and has no counterpart; [malloc]
    succeeds. *)

From S2P Require Import Prelude Crc32 SparseFormat BackedBlock OutputFile Sparse.
Open Scope Z_scope.

Definition COPY_BUF_SIZE : Z := 1024 * 1024.

(** ** [SparseFileSource] *)

Record SparseFileSource (T : Type) : Type := mk_source {
  Seek : Z → M T Z;
  GetOffset : T → Z;
  Rewind : M T Z;
  (** the file with the block added *)
  AddToSparseFile : sparse_file → Z → Z → T → outcome (Z * sparse_file);
  (** status and the bytes stored through [ptr] *)
  ReadValue : Z → M T (Z * list byte);
  (** status and the new value of [*crc32] *)
  GetCrc32 : Z → Z → M T (Z * Z)
}.
Arguments mk_source {T} _ _ _ _ _ _.
Arguments Seek {T} _ _.
Arguments GetOffset {T} _ _.
Arguments Rewind {T} _.
Arguments AddToSparseFile {T} _ _ _ _.
Arguments ReadValue {T} _ _.
Arguments GetCrc32 {T} _ _ _.

(** *** A buffer in memory *)

Module SparseFileBufSource.
(** [buf_start, buf_end) is [bytes]; [buf] is a position in it. *)
Record t : Type := mk {
  bytes : list byte;
  buf : Z;
  offset : Z
}.

Definition new (b : list byte) : t := mk b 0 0.

Definition AccessOkay (len : Z) (b : t) : Z :=
  if len <=? 0 then - EINVAL
  else if buf b <? 0 then - EOVERFLOW
  else if buf b >=? zlen (bytes b) then - EOVERFLOW
  else if len >? zlen (bytes b) - buf b then - EOVERFLOW
  else 0.

(** [buf += len; offset += len;] *)
Definition advance (len : Z) (b : t) : t := mk (bytes b) (buf b + len) (offset b + len).

Definition Seek (off : Z) : M t Z := fun b =>
  let ret := AccessOkay off b in
  if ret <? 0 then Ret (ret, b) else Ret (0, advance off b).

Definition Rewind : M t Z := fun b => Ret (0, mk (bytes b) 0 0).

Definition AddToSparseFile (s : sparse_file) (len block : Z) (b : t)
    : outcome (Z * sparse_file) :=
  let ret := AccessOkay len b in
  if ret <? 0 then Ret (ret, s)
  else sparse_file_add_data s (zdrop (buf b) (bytes b)) len block.

Definition ReadValue (len : Z) : M t (Z * list byte) := fun b =>
  let ret := AccessOkay len b in
  if ret <? 0 then Ret (ret, [], b)
  else Ret (0, ztake len (zdrop (buf b) (bytes b)), advance len b).

Definition GetCrc32 (crc32 len : Z) : M t (Z * Z) := fun b =>
  let ret := AccessOkay len b in
  if ret <? 0 then Ret (ret, crc32, b)
  else Ret (0, sparse_crc32 crc32 (ztake len (zdrop (buf b) (bytes b))), advance len b).

Definition source : SparseFileSource t :=
  mk_source Seek offset Rewind AddToSparseFile ReadValue GetCrc32.
End SparseFileBufSource.

(** *** A file descriptor *)

Inductive whence : Type := SEEK_SET | SEEK_CUR | SEEK_END | SEEK_DATA | SEEK_HOLE.

Section fd.
Context {T : Type}.
(** [read(fd, ptr, n)]: result, [errno], the bytes stored. *)
Context (read : Z → T → Z * Z * list byte * T).
(** [lseek64(fd, off, whence)]: result and [errno]. *)
Context (lseek64 : Z → whence → T → Z * Z * T).

(** [read_all] of output_file.cpp; every pass reads at least one byte. *)
Fixpoint read_all_loop (fuel : nat) (len total : Z) (got : list byte) : M T (Z * list byte) :=
  if total <? len then
    match fuel with
    | O => out_of_fuel
    | S fuel => fun t =>
        let '(ret, errno, bytes, t) := read (len - total) t in
        if ret <? 0 then Ret (- errno, got, t)
        else if ret =? 0 then Ret (- EINVAL, got, t)
        else read_all_loop fuel len (total + ret) (got ++ bytes) t
    end
  else mret (0, got).

Definition read_all (len : Z) : M T (Z * list byte) :=
  read_all_loop (Z.to_nat len) len 0 [].

Definition fd_Seek (off : Z) : M T Z := fun t =>
  let '(r, errno, t) := lseek64 off SEEK_CUR t in
  Ret (if negb (r =? -1) then 0 else - errno, t).

Definition fd_GetOffset (t : T) : Z := (lseek64 0 SEEK_CUR t).1.1.

Definition fd_Rewind : M T Z := fun t =>
  let '(r, errno, t) := lseek64 0 SEEK_SET t in
  Ret (if r =? 0 then 0 else - errno, t).

Definition fd_AddToSparseFile (fd : Z) (s : sparse_file) (len block : Z) (t : T)
    : outcome (Z * sparse_file) :=
  sparse_file_add_fd s fd (fd_GetOffset t) len block.

(** [while (len) { chunk = min(len, COPY_BUF_SIZE); ... }] with [chunk] an
    [int]; a chunk outside the copy buffer is an out-of-bounds access. *)
Fixpoint fd_crc_loop (fuel : nat) (crc32 len : Z) : M T (Z * Z) :=
  if len =? 0 then mret (0, crc32)
  else match fuel with
  | O => out_of_fuel
  | S fuel =>
      let chunk := i32 (Z.min len COPY_BUF_SIZE) in
      _ ← m_assert ((0 <=? chunk) && (chunk <=? COPY_BUF_SIZE));
      '(ret, bytes) ← read_all chunk;
      if ret <? 0 then mret (ret, crc32)
      else fd_crc_loop fuel (sparse_crc32 crc32 bytes) (len - chunk)
  end.

Definition fd_GetCrc32 (crc32 len : Z) : M T (Z * Z) :=
  fd_crc_loop (loop_fuel len COPY_BUF_SIZE) crc32 len.

Definition SparseFileFdSource (fd : Z) : SparseFileSource T :=
  mk_source fd_Seek fd_GetOffset fd_Rewind (fd_AddToSparseFile fd) read_all fd_GetCrc32.
End fd.

(** ** Reading chunks *)

Section read_sparse.
Context {T : Type} (source : SparseFileSource T).

(** What a chunk handler works on: the file, the source, and [*crc32] if the
    pointer is not null. *)
Record reader : Type := mk_reader {
  rd_file : sparse_file;
  rd_src : T;
  rd_crc : option Z
}.

Abbreviation R := (M reader).

Definition on_src {A} (m : M T A) : R A := fun r =>
  match m (rd_src r) with
  | Ret (a, t) => Ret (a, mk_reader (rd_file r) t (rd_crc r))
  | AssertFail => AssertFail
  | OutOfFuel => OutOfFuel
  end.

Definition on_file (m : sparse_file → T → outcome (Z * sparse_file)) : R Z := fun r =>
  match m (rd_file r) (rd_src r) with
  | Ret (a, s) => Ret (a, mk_reader s (rd_src r) (rd_crc r))
  | AssertFail => AssertFail
  | OutOfFuel => OutOfFuel
  end.

Definition set_rd_crc (c : Z) : R unit := modify (fun r =>
  mk_reader (rd_file r) (rd_src r) (Some c)).

(** [(int64_t)blocks * s->block_size] *)
Definition chunk_len (s : sparse_file) (blocks : Z) : Z := i64 (blocks * sf_block_size s).

Definition process_raw_chunk (chunk_size blocks block : Z) : R Z :=
  r ← get;
  let bs := sf_block_size (rd_file r) in
  let len := chunk_len (rd_file r) blocks in
  if negb (chunk_size mod bs =? 0) then mret (- EINVAL)
  else if negb (chunk_size / bs =? blocks) then mret (- EINVAL)
  else
    ret ← on_file (fun s t => AddToSparseFile source s len block t);
    if ret <? 0 then mret ret
    else
      match rd_crc r with
      | Some c =>
          '(ret, c) ← on_src (GetCrc32 source c len);
          _ ← set_rd_crc c;
          if ret <? 0 then mret ret else mret 0
      | None =>
          ret ← on_src (Seek source len);
          if ret <? 0 then mret ret else mret 0
      end.

(** The CRC of [len] bytes of the pattern in [copybuf], in pieces. *)
Fixpoint copybuf_crc_loop (fuel : nat) (pattern : Z → list byte) (crc32 len : Z) : outcome Z :=
  if len =? 0 then Ret crc32
  else match fuel with
  | O => OutOfFuel
  | S fuel =>
      let chunk := i32 (Z.min len COPY_BUF_SIZE) in
      _ ← c_assert ((0 <=? chunk) && (chunk <=? COPY_BUF_SIZE));
      copybuf_crc_loop fuel pattern (sparse_crc32 crc32 (pattern chunk)) (len - chunk)
  end.

Definition copybuf_crc (pattern : Z → list byte) (len : Z) : R unit :=
  r ← get;
  match rd_crc r with
  | Some c =>
      c ← lift (copybuf_crc_loop (loop_fuel len COPY_BUF_SIZE) pattern c len);
      set_rd_crc c
  | None => mret tt
  end.

Definition process_fill_chunk (chunk_size blocks block : Z) : R Z :=
  r ← get;
  let len := chunk_len (rd_file r) blocks in
  if negb (chunk_size =? 4) then mret (- EINVAL)
  else
    '(ret, bytes) ← on_src (ReadValue source 4);
    if ret <? 0 then mret ret
    else
      let fill_val := le_val bytes in
      ret ← on_file (fun s _ => sparse_file_add_fill s fill_val (u64 len) block);
      if ret <? 0 then mret ret
      else
        _ ← copybuf_crc (fill_bytes fill_val) len;
        mret 0.

Definition process_skip_chunk (chunk_size blocks : Z) : R Z :=
  r ← get;
  if negb (chunk_size =? 0) then mret (- EINVAL)
  else
    _ ← copybuf_crc zeros (chunk_len (rd_file r) blocks);
    mret 0.

Definition process_crc32_chunk (chunk_size : Z) : R Z :=
  r ← get;
  if negb (chunk_size =? 4) then mret (- EINVAL)
  else
    '(ret, bytes) ← on_src (ReadValue source 4);
    if ret <? 0 then mret ret
    else
      match rd_crc r with
      | Some c => if negb (le_val bytes =? c) then mret (- EINVAL) else mret 0
      | None => mret 0
      end.

(** The result is an [int]: a negative value is an error, also when it comes
    from a [chunk_sz] of 2^31 or more.  A chunk of unknown type is not skipped
    over. *)
Definition process_chunk (hdr_sz : Z) (h : chunk_header_t) (cur_block : Z) : R Z :=
  let chunk_data_size := u32 (total_sz h - hdr_sz) in
  if chunk_type h =? CHUNK_TYPE_RAW then
    ret ← process_raw_chunk chunk_data_size (chunk_sz h) cur_block;
    if ret <? 0 then mret ret else mret (i32 (chunk_sz h))
  else if chunk_type h =? CHUNK_TYPE_FILL then
    ret ← process_fill_chunk chunk_data_size (chunk_sz h) cur_block;
    if ret <? 0 then mret ret else mret (i32 (chunk_sz h))
  else if chunk_type h =? CHUNK_TYPE_DONT_CARE then
    ret ← process_skip_chunk chunk_data_size (chunk_sz h);
    if negb (chunk_data_size =? 0) && (ret <? 0) then mret ret else mret (i32 (chunk_sz h))
  else if chunk_type h =? CHUNK_TYPE_CRC32 then
    ret ← process_crc32_chunk chunk_data_size;
    if ret <? 0 then mret ret else mret 0
  else mret 0.

(** The loop over [n] chunks: an error, or [cur_block] at its end. *)
Fixpoint read_chunks (n : nat) (hdr_sz cur_block : Z) : R (Z + Z) :=
  match n with
  | O => mret (inr cur_block)
  | S n =>
      '(ret, bytes) ← on_src (ReadValue source CHUNK_HEADER_LEN);
      if ret <? 0 then mret (inl ret)
      else
        let h := chunk_header_of bytes in
        ret ← (if hdr_sz >? CHUNK_HEADER_LEN then on_src (Seek source (hdr_sz - CHUNK_HEADER_LEN))
               else mret 0);
        if ret <? 0 then mret (inl ret)
        else
          ret ← process_chunk hdr_sz h cur_block;
          if ret <? 0 then mret (inl ret)
          else read_chunks n hdr_sz (u32 (cur_block + ret))
  end.

Definition sparse_file_read_sparse (s : sparse_file) (crc : bool) (t : T)
    : outcome (Z * sparse_file * T) :=
  '(ret, r) ←
    (('(ret, bytes) ← on_src (ReadValue source SPARSE_HEADER_LEN);
      if ret <? 0 then mret ret
      else
        let h := sparse_header_of bytes in
        if negb (magic h =? SPARSE_HEADER_MAGIC) then mret (- EINVAL)
        else if negb (major_version h =? SPARSE_HEADER_MAJOR_VER) then mret (- EINVAL)
        else if file_hdr_sz h <? SPARSE_HEADER_LEN then mret (- EINVAL)
        else if chunk_hdr_sz h <? CHUNK_HEADER_LEN then mret (- EINVAL)
        else
          ret ← (if file_hdr_sz h >? SPARSE_HEADER_LEN
                 then on_src (Seek source (file_hdr_sz h - SPARSE_HEADER_LEN)) else mret 0);
          if ret <? 0 then mret ret
          else
            r ← read_chunks (Z.to_nat (total_chunks h)) (chunk_hdr_sz h) 0;
            match r with
            | inl ret => mret ret
            | inr cur_block =>
                if negb (total_blks h =? cur_block) then mret (- EINVAL) else mret 0
            end) : R Z)
    (mk_reader s t (if crc then Some 0 else None));
  Ret (ret, rd_file r, rd_src r).

(** [None] is a null pointer. *)
Definition sparse_file_import_source (verbose crc : bool) (t : T)
    : outcome (option sparse_file * T) :=
  '(ret, bytes, t) ← ReadValue source SPARSE_HEADER_LEN t;
  let h := sparse_header_of bytes in
  if ret <? 0 then Ret (None, t)
  else if negb (magic h =? SPARSE_HEADER_MAGIC) then Ret (None, t)
  else if negb (major_version h =? SPARSE_HEADER_MAJOR_VER) then Ret (None, t)
  else if file_hdr_sz h <? SPARSE_HEADER_LEN then Ret (None, t)
  else if chunk_hdr_sz h <? CHUNK_HEADER_LEN then Ret (None, t)
  else if (blk_sz h =? 0) || negb (blk_sz h mod 4 =? 0) then Ret (None, t)
  else if total_blks h =? 0 then Ret (None, t)
  else
    let s := sparse_file_new (blk_sz h) (i64 (total_blks h * blk_sz h)) in
    '(ret, t) ← Rewind source t;
    if ret <? 0 then Ret (None, t)
    else
      let s := mk_sparse_file (sf_block_size s) (sf_len s) verbose (sf_bbl s) in
      '(ret, s, t) ← sparse_file_read_sparse s crc t;
      if ret <? 0 then Ret (None, t) else Ret (Some s, t).
End read_sparse.

Arguments mk_reader {T} _ _ _.
Arguments rd_file {T} _.
Arguments rd_src {T} _.
Arguments rd_crc {T} _.

Definition sparse_file_import_buf (buf : list byte) (verbose crc : bool)
    : outcome (option sparse_file) :=
  '(s, _) ← sparse_file_import_source SparseFileBufSource.source verbose crc
              (SparseFileBufSource.new buf);
  Ret s.

(** ** Reading plain images *)

Inductive sparse_read_mode : Type :=
| SPARSE_READ_MODE_NORMAL
| SPARSE_READ_MODE_SPARSE
| SPARSE_READ_MODE_HOLE.

(** Whether all 32-bit words of a block equal its first one. *)
Definition words_equal (bs : Z) (buf : list byte) : bool :=
  forallb (fun i => le_field 0 4 buf =? le_field (4 * i) 4 buf)
    (seq 1 (Z.to_nat (bs / 4) - 1)).

Section read_normal.
Context {T : Type}.
Context (read : Z → T → Z * Z * list byte * T).
Context (lseek64 : Z → whence → T → Z * Z * T).
Context (fd : Z).

(** The results of [sparse_file_add_fill] and [sparse_file_add_fd] are
    ignored. *)
Fixpoint do_sparse_file_read_normal (fuel : nat) (s : sparse_file) (offset remain block : Z) (t : T)
    : outcome (Z * sparse_file * T) :=
  if remain >? 0 then
    match fuel with
    | O => OutOfFuel
    | S fuel =>
        let bs := sf_block_size s in
        let to_read := Z.min remain bs in
        '(ret, buf, t) ← read_all read to_read t;
        if ret <? 0 then Ret (ret, s, t)
        else
          let sparse_block := (to_read =? bs) && words_equal bs buf in
          '(_, s) ← (if sparse_block then sparse_file_add_fill s (le_field 0 4 buf) to_read block
                     else sparse_file_add_fd s fd offset to_read block);
          do_sparse_file_read_normal fuel s (offset + to_read) (remain - to_read)
            (u32 (block + 1)) t
    end
  else Ret (0, s, t).

Definition read_normal_from (s : sparse_file) (offset remain : Z) (t : T)
    : outcome (Z * sparse_file * T) :=
  do_sparse_file_read_normal (loop_fuel remain (sf_block_size s)) s offset remain
    (u32 (offset / sf_block_size s)) t.

Definition sparse_file_read_normal (s : sparse_file) (t : T) : outcome (Z * sparse_file * T) :=
  read_normal_from s 0 (sf_len s) t.

Fixpoint read_hole_loop (fuel : nat) (s : sparse_file) (end_ : Z) (t : T)
    : outcome (Z * sparse_file * T) :=
  match fuel with
  | O => OutOfFuel
  | S fuel =>
      let '(start, errno, t) := lseek64 end_ SEEK_DATA t in
      if start <? 0 then
        if errno =? ENXIO then Ret (0, s, t) else Ret (- errno, s, t)
      else if start >? sf_len s then Ret (0, s, t)
      else
        let '(end_, errno, t) := lseek64 start SEEK_HOLE t in
        if end_ <? 0 then Ret (- errno, s, t)
        else
          let end_ := Z.min end_ (sf_len s) in
          let start := ALIGN_DOWN start (sf_block_size s) in
          let end_ := ALIGN end_ (sf_block_size s) in
          let '(r, errno, t) := lseek64 start SEEK_SET t in
          if r <? 0 then Ret (- errno, s, t)
          else
            '(ret, s, t) ← read_normal_from s start (end_ - start) t;
            if negb (ret =? 0) then Ret (ret, s, t)
            else if end_ <? sf_len s then read_hole_loop fuel s end_ t
            else Ret (0, s, t)
  end.

Definition sparse_file_read_hole (fuel : nat) (s : sparse_file) (t : T)
    : outcome (Z * sparse_file * T) :=
  read_hole_loop fuel s 0 t.

Definition sparse_file_read (fuel : nat) (s : sparse_file) (mode : sparse_read_mode) (crc : bool)
    (t : T) : outcome (Z * sparse_file * T) :=
  match mode with
  | SPARSE_READ_MODE_SPARSE =>
      sparse_file_read_sparse (SparseFileFdSource read lseek64 fd) s crc t
  | SPARSE_READ_MODE_NORMAL =>
      if crc then Ret (- EINVAL, s, t) else sparse_file_read_normal s t
  | SPARSE_READ_MODE_HOLE =>
      if crc then Ret (- EINVAL, s, t) else sparse_file_read_hole fuel s t
  end.

Definition sparse_file_import (verbose crc : bool) (t : T) : outcome (option sparse_file * T) :=
  sparse_file_import_source (SparseFileFdSource read lseek64 fd) verbose crc t.

Definition sparse_file_import_auto (crc verbose : bool) (t : T)
    : outcome (option sparse_file * T) :=
  '(s, t) ← sparse_file_import false crc t;
  match s with
  | Some s => Ret (Some s, t)
  | None =>
      let '(len, _, t) := lseek64 0 SEEK_END t in
      if len <? 0 then Ret (None, t)
      else
        let '(_, _, t) := lseek64 0 SEEK_SET t in
        let s := sparse_file_new 4096 len in
        let s := mk_sparse_file (sf_block_size s) (sf_len s) verbose (sf_bbl s) in
        '(ret, s, t) ← sparse_file_read_normal s t;
        if ret <? 0 then Ret (None, t) else Ret (Some s, t)
  end.
End read_normal.
