(* ===== verification/SparseRoundTrip.v ===== *)
(** What the readers of libsparse make of an image.

    [ichunk] is the abstract syntax of the format: an image is a header and a
    list of chunks, and [image_read] is the image such a list denotes.
    [Source] is the promise a [SparseFileSource] makes to the reader; both
    sources of sparse_read.cpp keep it.  Against that interface, importing any
    well-formed list of chunks yields a sparse file with the denoted image, and
    the images written by sparse.cpp are such lists, which gives the round
    trip. *)

From S2P Require Import Prelude Crc32 SparseFormat BackedBlock OutputFile Sparse SparseFacts SparseRead.
Open Scope Z_scope.

(** ** Abstract images *)

Inductive ichunk : Type :=
| IRaw (data : list byte)
| IFill (n v : Z)
| ISkip (n : Z).

Section format.
Context (bs : Z).

Definition ichunk_blocks (c : ichunk) : Z :=
  match c with IRaw d => zlen d / bs | IFill n _ => n | ISkip n => n end.

(** The image bytes a chunk stands for. *)
Definition ichunk_expand (c : ichunk) : list byte :=
  match c with
  | IRaw d => d
  | IFill n v => fill_bytes v (n * bs)
  | ISkip n => zeros (n * bs)
  end.

Definition ichunk_header (c : ichunk) : chunk_header_t :=
  match c with
  | IRaw d => mk_chunk_header CHUNK_TYPE_RAW 0 (zlen d / bs) (CHUNK_HEADER_LEN + zlen d)
  | IFill n _ => mk_chunk_header CHUNK_TYPE_FILL 0 n (CHUNK_HEADER_LEN + 4)
  | ISkip n => mk_chunk_header CHUNK_TYPE_DONT_CARE 0 n CHUNK_HEADER_LEN
  end.

Definition ichunk_payload (c : ichunk) : list byte :=
  match c with IRaw d => d | IFill _ v => le_bytes 4 v | ISkip _ => [] end.

Definition ichunk_bytes (c : ichunk) : list byte :=
  chunk_header_bytes (ichunk_header c) ++ ichunk_payload c.

Definition ichunk_ok (c : ichunk) : Prop :=
  match c with
  | IRaw d => 0 < zlen d ∧ zlen d mod bs = 0 ∧ CHUNK_HEADER_LEN + zlen d < 2 ^ 32 ∧
              zlen d / bs < 2 ^ 31
  | IFill n v => 0 < n < 2 ^ 31 ∧ 0 ≤ v < 2 ^ 32
  | ISkip n => 0 ≤ n < 2 ^ 31
  end.

Fixpoint ichunks_blocks (cs : list ichunk) : Z :=
  match cs with [] => 0 | c :: cs => ichunk_blocks c + ichunks_blocks cs end.

(** The image denoted by chunks of which the first one starts at block [cur]. *)
Fixpoint image_read (cs : list ichunk) (cur off : Z) : option byte :=
  match cs with
  | [] => None
  | c :: cs =>
      if (cur * bs <=? off) && (off <? (cur + ichunk_blocks c) * bs) then
        match c with
        | ISkip _ => None
        | _ => zlookup (ichunk_expand c) (off - cur * bs)
        end
      else image_read cs (cur + ichunk_blocks c) off
  end.

(** A whole sparse image, with an optional CRC chunk. *)
Definition encode_image (cs : list ichunk) (crc : option Z) : list byte :=
  sparse_header_bytes (mk_sparse_header SPARSE_HEADER_MAGIC 1 0 SPARSE_HEADER_LEN
    CHUNK_HEADER_LEN bs (ichunks_blocks cs) (zlen cs + match crc with Some _ => 1 | None => 0 end) 0) ++
  concat (ichunk_bytes <$> cs) ++
  match crc with
  | Some c => chunk_header_bytes (mk_chunk_header CHUNK_TYPE_CRC32 0 0 (CHUNK_HEADER_LEN + 4)) ++
              le_bytes 4 c
  | None => []
  end.

(** The CRC the reader computes. *)
Definition image_crc (cs : list ichunk) : Z := sparse_crc32 0 (concat (ichunk_expand <$> cs)).

(** A reader that checks CRCs ([crc]) refuses an image whose CRC chunk does not
    hold the CRC of the expanded chunks. *)
Definition crc_refused (cs : list ichunk) (chk : option Z) (crc : bool) : bool :=
  match chk with Some c => crc && negb (c =? image_crc cs) | None => false end.
End format.

(** ** Fill patterns *)

Lemma fill_bytes_split v a b :
  0 ≤ a → 0 ≤ b → fill_bytes v (a * 4 + b) = fill_bytes v (a * 4) ++ fill_bytes v b.
Proof.
  intros Ha Hb. rewrite fill_bytes_mul4 by done. unfold fill_bytes.
  rewrite (Z.add_comm (a * 4)), Z.div_add by lia.
  assert (0 ≤ b / 4) by (apply Z.div_pos; lia).
  replace (Z.to_nat (b / 4 + a + 1)) with (Z.to_nat a + Z.to_nat (b / 4 + 1))%nat by lia.
  rewrite replicate_add, concat_app. rewrite Z.add_comm, ztake_split by lia.
  assert (zlen (concat (replicate (Z.to_nat a) (le_bytes 4 v))) = a * 4) as Hl.
  { unfold zlen. rewrite concat_replicate_length, length_le_bytes. lia. }
  rewrite ztake_app_exact by done. by rewrite zdrop_app_exact by done.
Qed.

Lemma zlen_fill_bytes v n : 0 ≤ n → zlen (fill_bytes v n) = n.
Proof.
  intros Hn. unfold fill_bytes. apply zlen_ztake. split; [done|].
  unfold zlen. rewrite concat_replicate_length, length_le_bytes.
  pose proof (Z.div_mod n 4). pose proof (Z.mod_pos_bound n 4). lia.
Qed.

Lemma zlookup_concat_replicate v n j :
  0 ≤ j < Z.of_nat n * 4 →
  zlookup (concat (replicate n (le_bytes 4 v))) j = zlookup (le_bytes 4 v) (j mod 4).
Proof.
  revert j. induction n as [|n IH]; intros j Hj; [lia|]. cbn [replicate concat].
  destruct (Z.lt_ge_cases j 4).
  - rewrite zlookup_app_l by (rewrite zlen_le_bytes; lia). by rewrite Z.mod_small by lia.
  - rewrite zlookup_app_r by (rewrite zlen_le_bytes; lia). rewrite zlen_le_bytes, IH by lia.
    f_equal. replace j with (j - 4 + 1 * 4) at 2 by lia. by rewrite Z.mod_add.
Qed.

Lemma zlookup_fill_bytes v n j :
  0 ≤ j < n → zlookup (fill_bytes v n) j = zlookup (le_bytes 4 v) (j mod 4).
Proof.
  intros Hj. unfold fill_bytes. rewrite zlookup_ztake by lia.
  apply zlookup_concat_replicate.
  pose proof (Z.div_mod n 4). pose proof (Z.mod_pos_bound n 4). lia.
Qed.

(** ** The interface between source and reader *)

Class Source {T} (src : SparseFileSource T) (env : backing_env) (data : list byte)
    (at_ : T → Z → Prop) : Prop := {
  so_read t k n : at_ t k → 0 ≤ k → 0 < n < 2 ^ 31 → k + n ≤ zlen data →
    ∃ t', ReadValue src n t = Ret (0, ztake n (zdrop k data), t') ∧ at_ t' (k + n);
  so_seek t k n : at_ t k → 0 ≤ k → 0 < n → k + n ≤ zlen data →
    ∃ t', Seek src n t = Ret (0, t') ∧ at_ t' (k + n);
  so_crc t k n c : at_ t k → 0 ≤ k → 0 < n → k + n ≤ zlen data →
    ∃ t', GetCrc32 src c n t = Ret (0, sparse_crc32 c (ztake n (zdrop k data)), t') ∧
      at_ t' (k + n);
  so_rewind t k : at_ t k → ∃ t', Rewind src t = Ret (0, t') ∧ at_ t' 0;
  so_add t k n s blk : at_ t k → 0 ≤ k → 0 < n → k + n ≤ zlen data →
    ∃ b, AddToSparseFile src s n blk t = on_bbl s (queue_bb (sf_bbl s) (mk_bb blk n b)) ∧
      backing_ok b n ∧ ∀ j, 0 ≤ j < n → content env b j = zlookup data (k + j)
}.

(** *** The buffer *)

Definition buf_at (data : list byte) (t : SparseFileBufSource.t) (k : Z) : Prop :=
  t = SparseFileBufSource.mk data k k.

Lemma buf_access data k n :
  0 ≤ k → 0 < n → k + n ≤ zlen data →
  SparseFileBufSource.AccessOkay n (SparseFileBufSource.mk data k k) = 0.
Proof.
  intros. unfold SparseFileBufSource.AccessOkay. simpl. rewrite Z.geb_leb. zcases; lia.
Qed.

#[export] Instance buf_source env data :
  Source SparseFileBufSource.source env data (buf_at data).
Proof.
  split.
  - intros t k n -> Hk Hn Hl. simpl. unfold SparseFileBufSource.ReadValue.
    rewrite buf_access by lia. by eexists.
  - intros t k n -> Hk Hn Hl. simpl. unfold SparseFileBufSource.Seek.
    rewrite buf_access by lia. by eexists.
  - intros t k n c -> Hk Hn Hl. simpl. unfold SparseFileBufSource.GetCrc32.
    rewrite buf_access by lia. by eexists.
  - intros t k ->. by eexists.
  - intros t k n s blk -> Hk Hn Hl. simpl. unfold SparseFileBufSource.AddToSparseFile.
    rewrite buf_access by lia. eexists. split; [reflexivity|]. simpl. split.
    + rewrite zlen_zdrop by lia. lia.
    + intros j Hj. rewrite zlookup_zdrop by lia. done.
Qed.

(** *** The file descriptor *)

(** What POSIX promises of [read] and [lseek] on a regular file with contents
    [data]: a read returns between one byte and what was asked for, or 0 at the
    end. *)
Class RegularFile {T} (read : Z → T → Z * Z * list byte * T)
    (lseek64 : Z → whence → T → Z * Z * T) (data : list byte) (at_ : T → Z → Prop) : Prop := {
  rf_read t k n : at_ t k → 0 ≤ k < zlen data → 0 < n →
    ∃ r e t', read n t = (r, e, ztake r (zdrop k data), t') ∧
      0 < r ≤ n ∧ k + r ≤ zlen data ∧ at_ t' (k + r);
  rf_eof t k n : at_ t k → zlen data ≤ k → 0 < n →
    ∃ e t', read n t = (0, e, [], t') ∧ at_ t' k;
  rf_cur t k off : at_ t k → 0 ≤ k + off → ∃ e t', lseek64 off SEEK_CUR t = (k + off, e, t') ∧
      at_ t' (k + off);
  rf_set t k off : at_ t k → 0 ≤ off → ∃ e t', lseek64 off SEEK_SET t = (off, e, t') ∧ at_ t' off;
  rf_end t k : at_ t k → ∃ e t', lseek64 0 SEEK_END t = (zlen data, e, t') ∧ at_ t' (zlen data)
}.

Section fd.
Context {T : Type} (read : Z → T → Z * Z * list byte * T).
Context (lseek64 : Z → whence → T → Z * Z * T).
Context (data : list byte) (at_ : T → Z → Prop) `{!RegularFile read lseek64 data at_}.

(** Short reads are invisible: [read_all] delivers the next [len] bytes. *)
Lemma read_all_loop_ok fuel len total k t :
  at_ t (k + total) → 0 ≤ k → 0 ≤ total ≤ len → k + len ≤ zlen data →
  (Z.to_nat (len - total) ≤ fuel)%nat →
  ∃ t', read_all_loop read fuel len total (ztake total (zdrop k data)) t =
          Ret (0, ztake len (zdrop k data), t') ∧ at_ t' (k + len).
Proof.
  revert total t. induction fuel as [|fuel IH]; intros total t Hat Hk Htot Hlen Hf.
  - assert (total = len) as -> by lia. cbn [read_all_loop]. rewrite Z.ltb_irrefl. by exists t.
  - cbn [read_all_loop]. destruct (Z.ltb_spec total len) as [Hlt|]; cycle 1.
    { assert (total = len) as -> by lia. by exists t. }
    destruct (rf_read t (k + total) (len - total) Hat) as (r & e & t1 & -> & Hr & Hkr & Hat1); [lia..|].
    destruct (Z.ltb_spec r 0); [lia|]. destruct (Z.eqb_spec r 0); [lia|].
    rewrite <- zdrop_zdrop, <- ztake_split by lia.
    apply IH; [by rewrite Z.add_assoc|lia..].
Qed.

Lemma read_all_ok len k t :
  at_ t k → 0 ≤ k → 0 ≤ len → k + len ≤ zlen data →
  ∃ t', read_all read len t = Ret (0, ztake len (zdrop k data), t') ∧ at_ t' (k + len).
Proof.
  intros Hat Hk Hl Hlen. unfold read_all. rewrite <- (ztake_0 (zdrop k data)).
  apply read_all_loop_ok; [by rewrite Z.add_0_r|lia..].
Qed.

(** At the end of the file it fails. *)
Lemma read_all_loop_eof fuel len total k got t :
  at_ t (k + total) → 0 ≤ k + total ≤ zlen data → zlen data < k + len → 0 ≤ total →
  (Z.to_nat (len - total) ≤ fuel)%nat →
  ∃ got' t', read_all_loop read fuel len total got t = Ret (- EINVAL, got', t') ∧ at_ t' (zlen data).
Proof.
  revert total got t. induction fuel as [|fuel IH]; intros total got t Hat Hk Hlen Htot Hf; [lia|].
  cbn [read_all_loop]. destruct (Z.ltb_spec total len) as [Hlt|]; [|lia].
  destruct (Z.lt_ge_cases (k + total) (zlen data)).
  - destruct (rf_read t (k + total) (len - total) Hat) as (r & e & t1 & -> & Hr & Hkr & Hat1); [lia..|].
    destruct (Z.ltb_spec r 0); [lia|]. destruct (Z.eqb_spec r 0); [lia|].
    apply IH; [by rewrite Z.add_assoc|lia..].
  - destruct (rf_eof t (k + total) (len - total) Hat) as (e & t1 & -> & Hat1); [lia..|].
    assert (k + total = zlen data) as E by lia. rewrite E in Hat1. simpl. by eexists _, _.
Qed.

Lemma fd_crc_loop_ok fuel c len k t :
  at_ t k → 0 ≤ k → 0 ≤ len → k + len ≤ zlen data →
  (loop_fuel len COPY_BUF_SIZE ≤ fuel)%nat →
  ∃ t', fd_crc_loop read fuel c len t = Ret (0, sparse_crc32 c (ztake len (zdrop k data)), t') ∧
    at_ t' (k + len).
Proof.
  revert c len k t. induction fuel as [|fuel IH]; intros c len k t Hat Hk Hl Hlen Hf.
  { unfold loop_fuel in Hf. lia. }
  cbn [fd_crc_loop]. destruct (Z.eqb_spec len 0) as [->|Hne].
  { rewrite ztake_0, sparse_crc32_nil, Z.add_0_r. by exists t. }
  assert (0 < COPY_BUF_SIZE < 2 ^ 31) as Hc by done.
  rewrite i32_small by lia. set (n := Z.min len COPY_BUF_SIZE).
  mred. rewrite (proj2 (Z.leb_le 0 n)), (proj2 (Z.leb_le n COPY_BUF_SIZE)) by (unfold n; lia). simpl.
  destruct (read_all_ok n k t Hat Hk) as (t1 & -> & Hat1); [unfold n; lia..|]. mred.
  destruct (Z.eq_dec (len - n) 0) as [Hz|Hz].
  - assert (n = len) as -> by lia. rewrite Z.sub_diag. exists t1. split; [|done]. by destruct fuel.
  - destruct (IH (sparse_crc32 c (ztake n (zdrop k data))) (len - n) (k + n) t1) as (t2 & -> & Hat2);
      [done|unfold n; lia..| |].
    { destruct (loop_fuel_step len COPY_BUF_SIZE fuel) as [?|?]; unfold n in *; lia || done. }
    exists t2. rewrite <- sparse_crc32_app, <- zdrop_zdrop, <- ztake_split by (unfold n; lia).
    replace (n + (len - n)) with len by lia. replace (k + n + (len - n)) with (k + len) in Hat2 by lia.
    done.
Qed.

(** A descriptor of a regular file keeps the promise of a source; the blocks it
    adds refer to the file. *)
#[export] Instance fd_source fd env :
  env_fd env fd = data → zlen data < 2 ^ 63 →
  Source (SparseFileFdSource read lseek64 fd) env data at_.
Proof.
  intros Henv Hdata. split; simpl.
  - intros t k n Hat Hk Hn Hlen. apply read_all_ok; lia || done.
  - intros t k n Hat Hk Hn Hlen. unfold fd_Seek.
    destruct (rf_cur t k n Hat) as (e & t' & -> & Hat'); [lia|]. exists t'.
    rewrite (proj2 (Z.eqb_neq _ _)) by lia. done.
  - intros t k n c Hat Hk Hn Hlen. apply fd_crc_loop_ok; lia || done.
  - intros t k Hat. unfold fd_Rewind.
    destruct (rf_set t k 0 Hat) as (e & t' & -> & Hat'); [lia|]. by exists t'.
  - intros t k n s blk Hat Hk Hn Hlen. unfold fd_AddToSparseFile, fd_GetOffset.
    destruct (rf_cur t k 0 Hat) as (e & t' & -> & _); [lia|]. rewrite Z.add_0_r.
    eexists. split; [reflexivity|]. simpl. split; [lia|]. intros j Hj. by rewrite Henv.
Qed.
End fd.

(** ** Reading one chunk *)

Lemma copybuf_crc_loop_ok pattern fuel c len :
  (∀ b, 0 ≤ b → pattern (COPY_BUF_SIZE + b) = pattern COPY_BUF_SIZE ++ pattern b) →
  pattern 0 = [] → 0 ≤ len → (loop_fuel len COPY_BUF_SIZE ≤ fuel)%nat →
  copybuf_crc_loop fuel pattern c len = Ret (sparse_crc32 c (pattern len)).
Proof.
  intros Hp H0. revert c len. induction fuel as [|fuel IH]; intros c len Hl Hf.
  { unfold loop_fuel in Hf. lia. }
  cbn [copybuf_crc_loop]. destruct (Z.eqb_spec len 0) as [->|Hne].
  { by rewrite H0, sparse_crc32_nil. }
  assert (0 < COPY_BUF_SIZE < 2 ^ 31) as Hc by done.
  rewrite i32_small by lia.
  rewrite (proj2 (Z.leb_le 0 _)), (proj2 (Z.leb_le _ COPY_BUF_SIZE)) by lia. simpl.
  destruct (loop_fuel_step len COPY_BUF_SIZE fuel) as [Hf'|Hz]; [lia..| |].
  - destruct (Z.le_gt_cases len COPY_BUF_SIZE); [rewrite Z.min_l in * by lia|rewrite Z.min_r in * by lia].
    + rewrite IH by lia. rewrite Z.sub_diag, H0. by rewrite sparse_crc32_nil.
    + rewrite IH by lia. rewrite <- sparse_crc32_app, <- Hp by lia. do 3 f_equal. lia.
  - rewrite Hz. replace (Z.min len COPY_BUF_SIZE) with len by lia. by destruct fuel.
Qed.

Lemma copy_buf_mul4 : COPY_BUF_SIZE = COPY_BUF_SIZE / 4 * 4.
Proof. done. Qed.

Lemma fill_bytes_crc v c fuel len :
  0 ≤ len → (loop_fuel len COPY_BUF_SIZE ≤ fuel)%nat →
  copybuf_crc_loop fuel (fill_bytes v) c len = Ret (sparse_crc32 c (fill_bytes v len)).
Proof.
  intros. apply copybuf_crc_loop_ok; try done. intros b Hb.
  rewrite copy_buf_mul4. by rewrite fill_bytes_split.
Qed.

Lemma zeros_crc c fuel len :
  0 ≤ len → (loop_fuel len COPY_BUF_SIZE ≤ fuel)%nat →
  copybuf_crc_loop fuel zeros c len = Ret (sparse_crc32 c (zeros len)).
Proof. intros. apply copybuf_crc_loop_ok; try done. intros b Hb. by rewrite zeros_add. Qed.

(** [l] up to block [cur]: every block starts before [cur] and ends there at the
    latest. *)
Definition blocks_upto (bs cur : Z) (l : list backed_block) : Prop :=
  Forall (λ b, bb_block b < cur ∧ bb_end bs b ≤ cur) l.

Lemma blocks_upto_fits bs cur l b :
  blocks_upto bs cur l → bb_block b = cur → bb_fits bs l b.
Proof.
  intros Hu Hb. eapply Forall_impl; [exact Hu|]. intros x [? ?]. left. by split; rewrite Hb.
Qed.

Lemma blocks_read_beyond env bs l cur off :
  block_size_ok bs → blocks_ok bs l → blocks_upto bs cur l → cur * bs ≤ off →
  blocks_read env bs l off = None.
Proof.
  intros Hbs [Hok _]. induction Hok as [|b l Hb Hok IH]; intros Hu Hoff; [done|].
  apply Forall_cons in Hu as [[_ Hu] Hu']. cbn [blocks_read].
  destruct (bb_covers bs b off) eqn:Hc; [|by apply IH].
  apply bb_covers_block in Hc; [|done|by destruct Hb as (_ & ? & _)].
  destruct Hbs as [? _]. nia.
Qed.

Section read.
Context {T : Type} (src : SparseFileSource T) (env : backing_env) (data : list byte).
Context (at_ : T → Z → Prop) `{!Source src env data at_}.
Context (bs : Z) (Hbs : block_size_ok bs).

(** The reader between chunks: [k] bytes of the source are consumed, blocks
    before [cur] are filled in and read as [img]. *)
Record reading (r : reader) (k cur : Z) (crc : option Z) (img : Z → option byte) : Prop := {
  rg_at : at_ (rd_src r) k;
  rg_crc : rd_crc r = crc;
  rg_ok : bbl_ok (sf_bbl (rd_file r));
  rg_bbs : bbl_block_size (sf_bbl (rd_file r)) = bs;
  rg_bs : sf_block_size (rd_file r) = bs;
  rg_upto : blocks_upto bs cur (data_blocks (sf_bbl (rd_file r)));
  rg_img off : 0 ≤ off → blocks_read env bs (data_blocks (sf_bbl (rd_file r))) off = img off
}.

(** Queueing the block of a raw or fill chunk. *)
Lemma reading_queue s n cur b :
  bbl_ok (sf_bbl s) → bbl_block_size (sf_bbl s) = bs →
  blocks_upto bs cur (data_blocks (sf_bbl s)) →
  0 ≤ cur → 0 < n → cur + n < 2 ^ 32 → (cur + n) * bs < 2 ^ 63 → backing_ok b (n * bs) →
  ∃ bbl', queue_bb (sf_bbl s) (mk_bb cur (n * bs) b) = Ret (0, bbl') ∧ bbl_ok bbl' ∧
    bbl_block_size bbl' = bs ∧ blocks_upto bs (cur + n) (data_blocks bbl') ∧
    ∀ off, blocks_read env bs (data_blocks bbl') off =
      if (cur * bs <=? off) && (off <? (cur + n) * bs) then content env b (off - cur * bs)
      else blocks_read env bs (data_blocks (sf_bbl s)) off.
Proof.
  intros Hok Hb Hu Hcur Hn H32 H63 Hbk. pose proof Hbs as [Hb1 Hb4].
  assert (bb_end bs (mk_bb cur (n * bs) b) = cur + n) as He.
  { unfold bb_end. simpl. rewrite div_round_up_mul by lia. done. }
  destruct (queue_bb_queued (sf_bbl s) (mk_bb cur (n * bs) b)) as (bbl' & Hq & Hok' & Hb' & Hqd).
  { done. }
  { rewrite Hb. unfold bb_ok. rewrite He. simpl. split_and!; try lia; try nia; done. }
  { rewrite Hb. by apply blocks_upto_fits with cur. }
  rewrite Hb in *. exists bbl'. split_and!; try done.
  - apply (queued_Forall bs _ _ _ (λ z, z < cur + n) (λ z, z ≤ cur + n) Hqd); [simpl; lia|rewrite He; lia|].
    eapply Forall_impl; [exact Hu|]. simpl. lia.
  - intros off. rewrite (queued_read _ _ _ _ Hqd). unfold bb_covers. simpl.
    replace ((cur + n) * bs) with (cur * bs + n * bs) by lia. done.
Qed.

Lemma ztake_data k n pre post :
  zdrop k data = pre ++ post → zlen pre = n → ztake n (zdrop k data) = pre.
Proof. intros -> Hn. by apply ztake_app_exact. Qed.

Lemma zdrop_data_bound k pre post :
  0 ≤ k → zdrop k data = pre ++ post → pre ≠ [] → k + zlen pre ≤ zlen data.
Proof.
  intros Hk E Hne. assert (zlen (zdrop k data) = zlen pre + zlen post) as Hl by (rewrite E; apply zlen_app).
  unfold zlen, zdrop in *. rewrite length_drop in Hl. destruct pre; [done|]. simpl in *. lia.
Qed.

(** What [process_chunk] does with a chunk whose payload comes next. *)
Definition chunk_read (c : ichunk) (cur : Z) (img : Z → option byte) (off : Z) : option byte :=
  if (cur * bs <=? off) && (off <? (cur + ichunk_blocks bs c) * bs) then
    match c with ISkip _ => None | _ => zlookup (ichunk_expand bs c) (off - cur * bs) end
  else img off.

Lemma zlookup_data k pre post j :
  0 ≤ k → zdrop k data = pre ++ post → 0 ≤ j < zlen pre → zlookup data (k + j) = zlookup pre j.
Proof. intros Hk E Hj. rewrite <- zlookup_zdrop, E by lia. apply zlookup_app_l. lia. Qed.

Lemma process_raw_ok d cur r k crc img rest :
  reading r k cur crc img → ichunk_ok bs (IRaw d) → 0 ≤ k → 0 ≤ cur →
  cur + zlen d / bs < 2 ^ 32 → (cur + zlen d / bs) * bs < 2 ^ 63 → zdrop k data = d ++ rest →
  ∃ r', process_raw_chunk src (zlen d) (zlen d / bs) cur r = Ret (0, r') ∧
    reading r' (k + zlen d) (cur + zlen d / bs) ((λ x, sparse_crc32 x d) <$> crc)
      (chunk_read (IRaw d) cur img) ∧ sf_len (rd_file r') = sf_len (rd_file r).
Proof.
  intros [Hat Hcrc Hok Hbb Hb Hu Himg] (Hpos & Hmod & Hsz & Hn) Hk Hcur H32 H63 Hd.
  pose proof Hbs as [Hb1 _]. unfold process_raw_chunk. mred. rewrite Hb, Hmod.
  rewrite Z.eqb_refl. mred. rewrite Z.eqb_refl. mred.
  assert (zlen d / bs * bs = zlen d) as Hdm by (pose proof (Z.div_mod (zlen d) bs); lia).
  unfold chunk_len. rewrite Hb, Hdm, i64_small by (unfold CHUNK_HEADER_LEN in *; lia).
  assert (k + zlen d ≤ zlen data) as Hend.
  { eapply zdrop_data_bound; [done..|]. intros ->. change (zlen []) with 0 in Hpos. lia. }
  destruct (so_add (rd_src r) k (zlen d) (rd_file r) cur Hat Hk Hpos Hend) as (b & Hadd & Hbk & Hct).
  unfold on_file. rewrite Hadd. unfold on_bbl.
  destruct (reading_queue (rd_file r) (zlen d / bs) cur b) as (bbl' & Hq & Hok' & Hb' & Hu' & Hrd);
    [done..|nia|done|done|by rewrite Hdm|]. rewrite Hdm in Hq. rewrite Hq. mred.
  assert (∀ off, 0 ≤ off → blocks_read env bs (data_blocks bbl') off = chunk_read (IRaw d) cur img off)
    as Hread.
  { intros off Hoff. rewrite Hrd. unfold chunk_read. cbn [ichunk_blocks ichunk_expand].
    destruct (Z.leb_spec (cur * bs) off); simpl; [|by apply Himg].
    destruct (Z.ltb_spec off ((cur + zlen d / bs) * bs)); [|by apply Himg].
    rewrite Hct by lia. eapply zlookup_data; [done..|lia]. }
  subst crc. destruct (rd_crc r) as [c|] eqn:Ec; unfold on_src; cbn [rd_src rd_file rd_crc].
  - destruct (so_crc (rd_src r) k (zlen d) c Hat Hk Hpos Hend) as (t' & -> & Hat').
    rewrite (ztake_data k (zlen d) d rest Hd eq_refl).
    unfold set_rd_crc. mred. eexists. split; [reflexivity|]. by split.
  - destruct (so_seek (rd_src r) k (zlen d) Hat Hk Hpos Hend) as (t' & -> & Hat').
    mred. eexists. split; [reflexivity|]. by split.
Qed.

Lemma process_fill_ok n v cur r k crc img rest :
  reading r k cur crc img → ichunk_ok bs (IFill n v) → 0 ≤ k → 0 ≤ cur →
  cur + n < 2 ^ 32 → (cur + n) * bs < 2 ^ 63 → zdrop k data = le_bytes 4 v ++ rest →
  ∃ r', process_fill_chunk src 4 n cur r = Ret (0, r') ∧
    reading r' (k + 4) (cur + n) ((λ x, sparse_crc32 x (fill_bytes v (n * bs))) <$> crc)
      (chunk_read (IFill n v) cur img) ∧ sf_len (rd_file r') = sf_len (rd_file r).
Proof.
  intros [Hat Hcrc Hok Hbb Hb Hu Himg] (Hn & Hv) Hk Hcur H32 H63 Hd.
  pose proof Hbs as [Hb1 _]. unfold process_fill_chunk. mred.
  change (4 =? 4) with true. mred.
  assert (k + 4 ≤ zlen data) as Hend.
  { pose proof (zdrop_data_bound k (le_bytes 4 v) rest Hk Hd ltac:(done)) as E.
    by rewrite zlen_le_bytes in E. }
  destruct (so_read (rd_src r) k 4 Hat Hk ltac:(lia) Hend) as (t' & Hrv & Hat').
  unfold on_src. rewrite Hrv, (ztake_data k 4 _ _ Hd (zlen_le_bytes 4 v)). mred.
  rewrite le_val_le_bytes. change (256 ^ Z.of_nat 4) with (2 ^ 32). rewrite Z.mod_small by lia.
  assert (0 < n * bs < 2 ^ 63) as Hnb by nia.
  unfold on_file, chunk_len. cbn [rd_file rd_src]. rewrite Hb, i64_small, u64_small by lia.
  unfold sparse_file_add_fill, backed_block_add_fill, on_bbl.
  destruct (reading_queue (rd_file r) n cur (BACKED_BLOCK_FILL v)) as (bbl' & -> & Hok' & Hb' & Hu' & Hrd);
    [done..|lia|done|done|done|]. mred.
  assert (∀ off, 0 ≤ off → blocks_read env bs (data_blocks bbl') off = chunk_read (IFill n v) cur img off)
    as Hread.
  { intros off Hoff. rewrite Hrd. unfold chunk_read. cbn [ichunk_blocks ichunk_expand].
    destruct (Z.leb_spec (cur * bs) off); simpl; [|by apply Himg].
    destruct (Z.ltb_spec off ((cur + n) * bs)); [|by apply Himg].
    by rewrite zlookup_fill_bytes by lia. }
  subst crc. unfold copybuf_crc. mred. cbn [rd_crc]. destruct (rd_crc r) as [c|] eqn:Ec.
  - rewrite fill_bytes_crc by (done || lia). unfold set_rd_crc. mred.
    eexists. split; [reflexivity|]. by split.
  - eexists. split; [reflexivity|]. by split.
Qed.

Lemma process_skip_ok n cur r k crc img :
  reading r k cur crc img → 0 ≤ n → 0 ≤ cur → (cur + n) * bs < 2 ^ 63 →
  ∃ r', process_skip_chunk 0 n r = Ret (0, r') ∧
    reading r' k (cur + n) ((λ x, sparse_crc32 x (zeros (n * bs))) <$> crc)
      (chunk_read (ISkip n) cur img) ∧ sf_len (rd_file r') = sf_len (rd_file r).
Proof.
  intros [Hat Hcrc Hok Hbb Hb Hu Himg] Hn Hcur H63. pose proof Hbs as [Hb1 _].
  unfold process_skip_chunk. mred.
  assert (∀ off, 0 ≤ off → blocks_read env bs (data_blocks (sf_bbl (rd_file r))) off =
    chunk_read (ISkip n) cur img off) as Hread.
  { intros off Hoff. unfold chunk_read. cbn [ichunk_blocks].
    destruct (Z.leb_spec (cur * bs) off); simpl; [|by apply Himg].
    destruct (Z.ltb_spec off ((cur + n) * bs)); [|by apply Himg].
    apply blocks_read_beyond with cur; try done. rewrite <- Hbb. apply Hok. }
  assert (blocks_upto bs (cur + n) (data_blocks (sf_bbl (rd_file r)))) as Hu'.
  { eapply Forall_impl; [exact Hu|]. simpl. lia. }
  assert (0 ≤ n * bs < 2 ^ 63) by nia.
  subst crc. unfold copybuf_crc, chunk_len. mred. rewrite Hb, i64_small by lia.
  destruct (rd_crc r) as [c|] eqn:Ec.
  - rewrite zeros_crc by (done || lia). unfold set_rd_crc. mred.
    eexists. split; [reflexivity|]. by split.
  - eexists. split; [reflexivity|]. by split.
Qed.

Lemma process_chunk_ok c cur r k crc img rest :
  reading r k cur crc img → ichunk_ok bs c → 0 ≤ k → 0 ≤ cur →
  cur + ichunk_blocks bs c < 2 ^ 32 → (cur + ichunk_blocks bs c) * bs < 2 ^ 63 →
  zdrop k data = ichunk_payload c ++ rest →
  ∃ r', process_chunk src CHUNK_HEADER_LEN (ichunk_header bs c) cur r = Ret (ichunk_blocks bs c, r') ∧
    reading r' (k + zlen (ichunk_payload c)) (cur + ichunk_blocks bs c)
      ((λ x, sparse_crc32 x (ichunk_expand bs c)) <$> crc) (chunk_read c cur img) ∧
    sf_len (rd_file r') = sf_len (rd_file r).
Proof.
  intros Hr Hc Hk Hcur H32 H63 Hd. unfold process_chunk.
  destruct c as [d|n v|n]; cbn [ichunk_header ichunk_blocks ichunk_payload ichunk_expand
    chunk_type chunk_sz total_sz] in *.
  - change (CHUNK_TYPE_RAW =? CHUNK_TYPE_RAW) with true. cbv iota.
    replace (CHUNK_HEADER_LEN + zlen d - CHUNK_HEADER_LEN) with (zlen d) by lia.
    pose proof (zlen_nonneg d). pose proof Hc as (? & ? & Hsz & ?). pose proof Hbs as [? _].
    unfold CHUNK_HEADER_LEN in Hsz. rewrite u32_small by lia.
    destruct (process_raw_ok d cur r k crc img rest) as (r' & Hp & Hp1 & Hp2); [done..|].
    mred. rewrite Hp. mred. exists r'.
    rewrite i32_small; [done|]. assert (0 ≤ zlen d / bs) by (apply Z.div_pos; lia). lia.
  - change (CHUNK_TYPE_FILL =? CHUNK_TYPE_RAW) with false.
    change (CHUNK_TYPE_FILL =? CHUNK_TYPE_FILL) with true. cbv iota.
    change (u32 (CHUNK_HEADER_LEN + 4 - CHUNK_HEADER_LEN)) with 4.
    destruct (process_fill_ok n v cur r k crc img rest) as (r' & Hp & Hp1 & Hp2); [done..|].
    mred. rewrite Hp. mred. exists r'. destruct Hc. rewrite i32_small by lia.
    rewrite zlen_le_bytes. done.
  - change (CHUNK_TYPE_DONT_CARE =? CHUNK_TYPE_RAW) with false.
    change (CHUNK_TYPE_DONT_CARE =? CHUNK_TYPE_FILL) with false.
    change (CHUNK_TYPE_DONT_CARE =? CHUNK_TYPE_DONT_CARE) with true. cbv iota.
    change (u32 (CHUNK_HEADER_LEN - CHUNK_HEADER_LEN)) with 0. cbn [ichunk_ok] in Hc.
    destruct (process_skip_ok n cur r k crc img) as (r' & Hp & Hp1 & Hp2); [done|lia|done|done|].
    mred. rewrite Hp. mred. exists r'. rewrite i32_small by lia.
    change (zlen []) with 0. rewrite Z.add_0_r. done.
Qed.

Lemma ichunk_header_ok c : ichunk_ok bs c → chunk_header_ok (ichunk_header bs c).
Proof.
  pose proof Hbs as [? _]. unfold chunk_header_ok.
  destruct c as [d|n v|n]; simpl; unfold_format; intros; [|lia..].
  pose proof (zlen_nonneg d). assert (0 ≤ zlen d / bs) by (apply Z.div_pos; lia). lia.
Qed.

Lemma ichunk_blocks_nonneg c : ichunk_ok bs c → 0 ≤ ichunk_blocks bs c.
Proof.
  pose proof Hbs as [? _]. destruct c as [d|n v|n]; simpl; [|lia..].
  intros. apply Z.div_pos; [apply zlen_nonneg|lia].
Qed.

Lemma ichunks_blocks_nonneg cs : Forall (ichunk_ok bs) cs → 0 ≤ ichunks_blocks bs cs.
Proof.
  induction 1 as [|c cs Hc Hcs IH]; simpl; [lia|]. pose proof (ichunk_blocks_nonneg c Hc). lia.
Qed.

(** Reading a header that comes next. *)
Lemma read_header_ok h r k cur crc img rest :
  reading r k cur crc img → 0 ≤ k → chunk_header_ok h →
  zdrop k data = chunk_header_bytes h ++ rest →
  ∃ bytes r', on_src (ReadValue src CHUNK_HEADER_LEN) r = Ret (0, bytes, r') ∧
    chunk_header_of bytes = h ∧ reading r' (k + CHUNK_HEADER_LEN) cur crc img ∧
    zdrop (k + CHUNK_HEADER_LEN) data = rest ∧ sf_len (rd_file r') = sf_len (rd_file r).
Proof.
  intros [Hat Hcrc Hok Hbb Hb Hu Himg] Hk Hh Hd.
  pose proof (zlen_chunk_header_bytes h) as Hl.
  pose proof (zdrop_data_bound k (chunk_header_bytes h) rest Hk Hd ltac:(done)) as Hend.
  rewrite Hl in Hend.
  destruct (so_read (rd_src r) k CHUNK_HEADER_LEN Hat Hk ltac:(done) Hend) as (t' & Hrv & Hat').
  unfold on_src. rewrite Hrv, (ztake_data k _ _ _ Hd Hl).
  eexists _, _. split; [reflexivity|]. split_and!.
  - rewrite <- (app_nil_r (chunk_header_bytes h)). by apply chunk_header_roundtrip.
  - by split.
  - rewrite <- zdrop_zdrop, Hd by (unfold CHUNK_HEADER_LEN; lia). by apply zdrop_app_exact.
  - done.
Qed.

Fixpoint chunks_read (cs : list ichunk) (cur : Z) (img : Z → option byte) (off : Z) : option byte :=
  match cs with
  | [] => img off
  | c :: cs => chunks_read cs (cur + ichunk_blocks bs c) (chunk_read c cur img) off
  end.

Lemma chunks_read_eq cs cur img off :
  Forall (ichunk_ok bs) cs → (cur * bs ≤ off → img off = None) →
  chunks_read cs cur img off = if off <? cur * bs then img off else image_read bs cs cur off.
Proof.
  intros Hcs. pose proof Hbs as [? _]. revert cur img.
  induction Hcs as [|c cs Hc Hcs IH]; intros cur img Himg; cbn [chunks_read image_read].
  { destruct (Z.ltb_spec off (cur * bs)); auto. }
  pose proof (ichunk_blocks_nonneg c Hc).
  assert (cur * bs ≤ (cur + ichunk_blocks bs c) * bs) by nia.
  rewrite IH; unfold chunk_read.
  - zcases; simpl; try lia; try done.
  - intros Hoff. zcases; simpl; try lia; apply Himg; lia.
Qed.

Lemma read_chunks_ok cs n cur r k crc img rest :
  reading r k cur crc img → Forall (ichunk_ok bs) cs → 0 ≤ k → 0 ≤ cur →
  cur + ichunks_blocks bs cs < 2 ^ 32 → (cur + ichunks_blocks bs cs) * bs < 2 ^ 63 →
  zdrop k data = concat (ichunk_bytes bs <$> cs) ++ rest →
  ∃ r', read_chunks src (length cs + n) CHUNK_HEADER_LEN cur r =
          read_chunks src n CHUNK_HEADER_LEN (cur + ichunks_blocks bs cs) r' ∧
    reading r' (k + zlen (concat (ichunk_bytes bs <$> cs))) (cur + ichunks_blocks bs cs)
      ((λ x, sparse_crc32 x (concat (ichunk_expand bs <$> cs))) <$> crc) (chunks_read cs cur img) ∧
    sf_len (rd_file r') = sf_len (rd_file r).
Proof.
  intros Hr Hcs. revert cur r k crc img Hr.
  induction Hcs as [|c cs Hc Hcs IH]; intros cur r k crc img Hr Hk Hcur H32 H63 Hd.
  { exists r. simpl. rewrite !Z.add_0_r. split; [done|]. split; [|done].
    replace ((λ x, sparse_crc32 x []) <$> crc) with crc; [done|].
    destruct crc; simpl; by rewrite ?sparse_crc32_nil. }
  pose proof Hbs as [Hb1 _]. pose proof (ichunk_blocks_nonneg c Hc). pose proof (ichunks_blocks_nonneg cs Hcs).
  cbn [ichunks_blocks] in *. cbn [fmap list_fmap concat] in *. unfold ichunk_bytes in Hd at 1.
  rewrite <- !app_assoc in Hd.
  destruct (read_header_ok _ r k cur crc img _ Hr Hk (ichunk_header_ok c Hc) Hd)
    as (bytes & r1 & Hrv & Hh & Hr1 & Hd1 & Hlen1).
  cbn [length Nat.add read_chunks]. mred. rewrite Hrv. mred. rewrite Hh.
  destruct (process_chunk_ok c cur r1 _ crc img _ Hr1 Hc ltac:(unfold CHUNK_HEADER_LEN; lia) Hcur
    ltac:(lia) ltac:(nia) Hd1) as (r2 & Hp & Hr2 & Hlen2).
  change (CHUNK_HEADER_LEN >? CHUNK_HEADER_LEN) with false. mred. rewrite Hp. mred.
  destruct (Z.ltb_spec (ichunk_blocks bs c) 0); [lia|]. rewrite u32_small by lia.
  destruct (IH _ r2 _ _ _ Hr2) as (r3 & Hrc & Hr3 & Hlen3);
    [pose proof (zlen_nonneg (ichunk_payload c)); unfold CHUNK_HEADER_LEN; lia|lia|lia|nia| |].
  { rewrite <- zdrop_zdrop, Hd1 by (apply zlen_nonneg || unfold CHUNK_HEADER_LEN; lia).
    by apply zdrop_app_exact. }
  exists r3. rewrite Hrc. split; [by rewrite Z.add_assoc|]. split; [|congruence].
  unfold ichunk_bytes at 1. rewrite !zlen_app, zlen_chunk_header_bytes, !Z.add_assoc.
  replace ((λ x, sparse_crc32 x (ichunk_expand bs c ++ concat (ichunk_expand bs <$> cs))) <$> crc)
    with ((λ x, sparse_crc32 x (concat (ichunk_expand bs <$> cs))) <$>
          ((λ x, sparse_crc32 x (ichunk_expand bs c)) <$> crc)).
  - exact Hr3.
  - destruct crc; simpl; by rewrite ?sparse_crc32_app.
Qed.

(** The chunks, then the CRC chunk if there is one. *)
Lemma read_all_chunks_ok cs (chk : option Z) r k (crc : bool) rest :
  reading r k 0 (if crc then Some 0 else None) (λ _, None) → Forall (ichunk_ok bs) cs → 0 ≤ k →
  ichunks_blocks bs cs < 2 ^ 32 → ichunks_blocks bs cs * bs < 2 ^ 63 →
  (∀ c, chk = Some c → 0 ≤ c < 2 ^ 32) →
  zdrop k data = concat (ichunk_bytes bs <$> cs) ++
    match chk with
    | Some c => chunk_header_bytes (mk_chunk_header CHUNK_TYPE_CRC32 0 0 (CHUNK_HEADER_LEN + 4)) ++
                le_bytes 4 c
    | None => []
    end ++ rest →
  ∃ r' k', read_chunks src (length cs + match chk with Some _ => 1 | None => 0 end)
          CHUNK_HEADER_LEN 0 r =
        Ret (if crc_refused bs cs chk crc then inl (- EINVAL) else inr (ichunks_blocks bs cs), r') ∧
    reading r' (k') (ichunks_blocks bs cs) (rd_crc r') (image_read bs cs 0) ∧
    sf_len (rd_file r') = sf_len (rd_file r).
Proof.
  intros Hr Hcs Hk H32 H63 Hchk Hd. pose proof Hbs as [Hb1 _].
  destruct (read_chunks_ok cs (match chk with Some _ => 1 | None => 0 end) 0 r k _ _ _ Hr Hcs Hk
    ltac:(done) H32 H63 Hd) as (r1 & -> & Hr1 & Hl1).
  rewrite Z.add_0_l in *.
  assert (∀ off, 0 ≤ off → chunks_read cs 0 (λ _, None) off = image_read bs cs 0 off) as Himg.
  { intros off Hoff. rewrite chunks_read_eq by done. destruct (Z.ltb_spec off (0 * bs)); [lia|done]. }
  set (k1 := k + zlen (concat (ichunk_bytes bs <$> cs))) in *.
  assert (0 ≤ k1) as Hk1 by (pose proof (zlen_nonneg (concat (ichunk_bytes bs <$> cs))); lia).
  destruct chk as [c|]; cycle 1.
  { exists r1, k1. split; [done|]. split; [|done]. destruct Hr1 as [? ? ? ? ? ? Hi].
    split; try done. intros off Hoff. by rewrite Hi, Himg. }
  pose proof (Hchk c eq_refl) as Hc.
  assert (zdrop k1 data = chunk_header_bytes (mk_chunk_header CHUNK_TYPE_CRC32 0 0 (CHUNK_HEADER_LEN + 4)) ++
    le_bytes 4 c ++ rest) as Hd1.
  { unfold k1. rewrite <- zdrop_zdrop, Hd by (apply zlen_nonneg || lia). rewrite zdrop_app_exact by done.
    by rewrite <- app_assoc. }
  assert (chunk_header_ok (mk_chunk_header CHUNK_TYPE_CRC32 0 0 (CHUNK_HEADER_LEN + 4))) as Hho
    by by split_and!.
  destruct (read_header_ok _ r1 k1 _ _ _ _ Hr1 Hk1 Hho Hd1)
    as (bytes & r2 & Hrv & Hh & Hr2 & Hd2 & Hl2).
  cbn [read_chunks]. mred. rewrite Hrv. mred. rewrite Hh.
  change (CHUNK_HEADER_LEN >? CHUNK_HEADER_LEN) with false. mred.
  unfold process_chunk. cbn [chunk_type total_sz].
  change (CHUNK_TYPE_CRC32 =? CHUNK_TYPE_RAW) with false.
  change (CHUNK_TYPE_CRC32 =? CHUNK_TYPE_FILL) with false.
  change (CHUNK_TYPE_CRC32 =? CHUNK_TYPE_DONT_CARE) with false.
  change (CHUNK_TYPE_CRC32 =? CHUNK_TYPE_CRC32) with true. cbv iota.
  change (u32 (CHUNK_HEADER_LEN + 4 - CHUNK_HEADER_LEN)) with 4. unfold process_crc32_chunk. mred.
  change (4 =? 4) with true. mred.
  assert (0 ≤ k1 + CHUNK_HEADER_LEN) as Hk2 by (unfold_format; lia).
  destruct Hr2 as [Hat2 Hcrc2 Hok2 Hbb2 Hb2 Hu2 Hi2].
  assert (k1 + CHUNK_HEADER_LEN + 4 ≤ zlen data) as Hend.
  { pose proof (zdrop_data_bound _ (le_bytes 4 c) rest Hk2 Hd2 ltac:(done)) as E.
    by rewrite zlen_le_bytes in E. }
  destruct (so_read (rd_src r2) _ 4 Hat2 Hk2 ltac:(lia) Hend) as (t' & Hrv' & Hat').
  unfold on_src. rewrite Hrv', (ztake_data _ 4 _ _ Hd2 (zlen_le_bytes 4 c)). mred.
  rewrite le_val_le_bytes. change (256 ^ Z.of_nat 4) with (2 ^ 32). rewrite Z.mod_small by lia.
  rewrite Hcrc2. exists (mk_reader (rd_file r2) t' (rd_crc r2)), (k1 + CHUNK_HEADER_LEN + 4).
  split; cycle 1.
  { rewrite Hcrc2. split; [|simpl; congruence]. split; try done. intros. by rewrite <- Himg, <- Hi2. }
  assert (u32 (ichunks_blocks bs cs + 0) = ichunks_blocks bs cs) as Hu32.
  { rewrite Z.add_0_r, u32_small; [done|]. pose proof (ichunks_blocks_nonneg cs Hcs). lia. }
  rewrite Hcrc2. unfold crc_refused, image_crc.
  destruct crc; cbn [fmap option_fmap option_map andb]; cycle 1.
  { mred. by rewrite Hu32. }
  destruct (c =? _); cbn [negb]; mred; [by rewrite Hu32|done].
Qed.

(** ** Importing a whole image *)

Definition image_ok (cs : list ichunk) : Prop :=
  Forall (ichunk_ok bs) cs ∧ 0 < ichunks_blocks bs cs < 2 ^ 32 ∧
  ichunks_blocks bs cs * bs < 2 ^ 63 ∧ zlen cs < 2 ^ 32 - 1.

(** The file is well-formed and has the image [img]. *)
Record file_image (s : sparse_file) (total : Z) (img : Z → option byte) : Prop := {
  fi_ok : bbl_ok (sf_bbl s);
  fi_bbs : bbl_block_size (sf_bbl s) = bs;
  fi_bs : sf_block_size s = bs;
  fi_len : sf_len s = total * bs;
  fi_inside : Forall (λ b, bb_end bs b ≤ total) (data_blocks (sf_bbl s));
  fi_img off : 0 ≤ off → blocks_read env bs (data_blocks (sf_bbl s)) off = img off
}.

(** Every well-formed image is imported or, when its CRC is checked and is not
    that of the expanded chunks, refused; nothing else can happen. *)
Lemma import_source_total cs chk verbose (crc : bool) t :
  image_ok cs → at_ t 0 → data = encode_image bs cs chk →
  (∀ c, chk = Some c → 0 ≤ c < 2 ^ 32) →
  ∃ s t', sparse_file_import_source src verbose crc t =
      Ret (if crc_refused bs cs chk crc then None else Some s, t') ∧
    file_image s (ichunks_blocks bs cs) (image_read bs cs 0).
Proof.
  intros (Hcs & Ht & H63 & Hn) Hat Hdata Hchk. pose proof Hbs as [Hb1 Hb4].
  unfold encode_image in Hdata. set (h := mk_sparse_header _ _ _ _ _ _ _ _ _) in Hdata.
  pose proof (zlen_sparse_header_bytes h) as Hhl. pose proof (zlen_nonneg cs) as Hcn.
  assert (sparse_header_ok h) as Hhok.
  { unfold sparse_header_ok, h. cbn. unfold_format. destruct chk; lia. }
  assert (SPARSE_HEADER_LEN ≤ zlen data) as Hend.
  { rewrite Hdata, zlen_app, Hhl.
    match goal with |- context [zlen ?x] => pose proof (zlen_nonneg x) end. lia. }
  assert (ztake SPARSE_HEADER_LEN (zdrop 0 data) = sparse_header_bytes h) as Htk.
  { rewrite zdrop_0, Hdata. by apply ztake_app_exact. }
  assert (sparse_header_of (sparse_header_bytes h) = h) as Hh.
  { rewrite <- (app_nil_r (sparse_header_bytes h)). by apply sparse_header_roundtrip. }
  unfold sparse_file_import_source.
  destruct (so_read t 0 SPARSE_HEADER_LEN Hat ltac:(done) ltac:(done) Hend) as (t1 & -> & Hat1).
  mred. rewrite Htk, Hh. unfold h. cbn [magic major_version file_hdr_sz chunk_hdr_sz blk_sz total_blks].
  rewrite Z.eqb_refl. mred. change (1 =? SPARSE_HEADER_MAJOR_VER) with true. mred.
  change (SPARSE_HEADER_LEN <? SPARSE_HEADER_LEN) with false.
  change (CHUNK_HEADER_LEN <? CHUNK_HEADER_LEN) with false. mred.
  rewrite Hb4, (proj2 (Z.eqb_neq bs 0)), (proj2 (Z.eqb_neq (ichunks_blocks bs cs) 0)) by lia.
  rewrite Z.eqb_refl. cbn [negb orb]. mred.
  destruct (so_rewind t1 _ Hat1) as (t2 & -> & Hat2). mred.
  rewrite i64_small by nia. unfold sparse_file_read_sparse. mred.
  set (s0 := mk_sparse_file _ _ _ _). unfold on_src at 1. cbn [rd_src rd_file rd_crc].
  destruct (so_read t2 0 SPARSE_HEADER_LEN Hat2 ltac:(done) ltac:(done) Hend) as (t3 & -> & Hat3).
  mred. rewrite Htk, Hh. unfold h.
  cbn [magic major_version file_hdr_sz chunk_hdr_sz blk_sz total_blks total_chunks].
  rewrite Z.eqb_refl. mred. change (1 =? SPARSE_HEADER_MAJOR_VER) with true. mred.
  change (SPARSE_HEADER_LEN <? SPARSE_HEADER_LEN) with false.
  change (SPARSE_HEADER_LEN >? SPARSE_HEADER_LEN) with false.
  change (CHUNK_HEADER_LEN <? CHUNK_HEADER_LEN) with false. mred.
  replace (Z.to_nat (zlen cs + match chk with Some _ => 1 | None => 0 end)) with
    (length cs + match chk with Some _ => 1 | None => 0 end)%nat by (unfold zlen; destruct chk; lia).
  destruct (read_all_chunks_ok cs chk (mk_reader s0 t3 (if crc then Some 0 else None))
    SPARSE_HEADER_LEN crc []) as (r' & k' & Hrc & Hrd & Hlen'); try done.
  { split; try done; [|constructor]. split_and!; [done|apply blocks_ok_nil|done]. }
  { unfold_format; lia. }
  { rewrite Hdata, zdrop_app_exact by done. by rewrite app_nil_r. }
  rewrite Hrc. mred. exists (rd_file r'), (rd_src r'). split.
  - destruct (crc_refused bs cs chk crc); mred; [done|]. rewrite Z.eqb_refl. by mred.
  - destruct Hrd as [? ? ? ? ? Hu Hi]. split; try done.
    eapply Forall_impl; [exact Hu|]. simpl. lia.
Qed.

Lemma crc_not_refused cs chk (crc : bool) :
  (∀ c, chk = Some c → 0 ≤ c < 2 ^ 32 ∧ (crc = true → c = image_crc bs cs)) →
  crc_refused bs cs chk crc = false.
Proof.
  intros H. unfold crc_refused. destruct chk as [c|]; [|done]. destruct crc; [|done].
  rewrite (proj2 (H c eq_refl) eq_refl). by rewrite Z.eqb_refl.
Qed.

Lemma import_source_ok cs chk verbose (crc : bool) t :
  image_ok cs → at_ t 0 → data = encode_image bs cs chk →
  (∀ c, chk = Some c → 0 ≤ c < 2 ^ 32 ∧ (crc = true → c = image_crc bs cs)) →
  ∃ s t', sparse_file_import_source src verbose crc t = Ret (Some s, t') ∧
    file_image s (ichunks_blocks bs cs) (image_read bs cs 0).
Proof.
  intros Hcs Hat Hd Hchk.
  destruct (import_source_total cs chk verbose crc t Hcs Hat Hd) as (s & t' & Hi & Hs).
  { intros c Hc. apply (Hchk c Hc). }
  rewrite crc_not_refused in Hi by done. eauto.
Qed.
End read.

(** ** The images the writer produces *)

Definition ichunk_of (env : backing_env) (bs : Z) (bb : backed_block) : ichunk :=
  let n := DIV_ROUND_UP (bb_len bb) bs in
  match bb_type bb with
  | BACKED_BLOCK_FILL v => IFill n v
  | t => IRaw (backing_bytes env t (bb_len bb) ++ zeros (n * bs - bb_len bb))
  end.

Fixpoint ichunks_of (env : backing_env) (bs : Z) (l : list backed_block) (last : Z) : list ichunk :=
  match l with
  | [] => []
  | bb :: l =>
      (if bb_block bb >? last then [ISkip (bb_block bb - last)] else []) ++
      ichunk_of env bs bb :: ichunks_of env bs l (bb_end bs bb)
  end.

Definition file_ichunks (env : backing_env) (s : sparse_file) : list ichunk :=
  let bs := sf_block_size s in
  let l := data_blocks (sf_bbl s) in
  ichunks_of env bs l 0 ++
  (if blocks_end bs l 0 <? sf_len s / bs then [ISkip (sf_len s / bs - blocks_end bs l 0)] else []).

(** The image of a list of blocks when every block is filled up to a block
    boundary: with zeros, or with more of a fill pattern. *)
Fixpoint padded_read (env : backing_env) (bs : Z) (l : list backed_block) (off : Z) : option byte :=
  match l with
  | [] => None
  | bb :: l =>
      if (bb_block bb * bs <=? off) && (off <? bb_end bs bb * bs) then
        match bb_type bb with
        | BACKED_BLOCK_FILL v => content env (BACKED_BLOCK_FILL v) (off - bb_block bb * bs)
        | t => if off <? bb_block bb * bs + bb_len bb then content env t (off - bb_block bb * bs)
               else Some x00
        end
      else padded_read env bs l off
  end.

(** The CRC the writer stores. *)
Definition writer_crc (env : backing_env) (s : sparse_file) : Z :=
  foldl (λ c bb, block_crc env (sf_block_size s) bb c) 0 (data_blocks (sf_bbl s)).

Section encode.
Context (env : backing_env) (bs : Z) (Hbs : block_size_ok bs).

Lemma zlen_backing_bytes t len : 0 ≤ len → backing_ready env t len → zlen (backing_bytes env t len) = len.
Proof.
  intros Hl Hr. destruct t as [d|f o|fd o|v]; cbn [backing_bytes backing_ready content] in *.
  - by rewrite zlen_ztake by lia.
  - rewrite zlen_ztake; [done|]. rewrite zlen_zdrop; lia.
  - rewrite zlen_ztake; [done|]. rewrite zlen_zdrop; lia.
  - by apply zlen_fill_bytes.
Qed.

Lemma zlookup_backing_bytes t len j :
  0 ≤ j < len → backing_ready env t len → zlookup (backing_bytes env t len) j = content env t j.
Proof.
  intros Hj Hr. destruct t as [d|f o|fd o|v]; cbn [backing_bytes backing_ready content] in *.
  - apply zlookup_ztake. lia.
  - rewrite zlookup_ztake, zlookup_zdrop by lia. done.
  - rewrite zlookup_ztake, zlookup_zdrop by lia. done.
  - by apply zlookup_fill_bytes.
Qed.

Lemma ichunk_of_len bb d :
  0 ≤ bb_len bb → bb_ready env bb → ichunk_of env bs bb = IRaw d →
  zlen d = DIV_ROUND_UP (bb_len bb) bs * bs.
Proof.
  intros Hl Hr. pose proof Hbs as [Hb _]. pose proof (div_round_up_bounds (bb_len bb) bs ltac:(lia)).
  assert (∀ t, backing_ready env t (bb_len bb) → zlen (backing_bytes env t (bb_len bb) ++
    zeros (DIV_ROUND_UP (bb_len bb) bs * bs - bb_len bb)) = DIV_ROUND_UP (bb_len bb) bs * bs) as Hraw.
  { intros t Ht. rewrite zlen_app, zlen_backing_bytes, zlen_zeros by (done || lia). lia. }
  unfold ichunk_of, bb_ready in *. intros E.
  destruct (bb_type bb) as [d0|f o|fd o|v]; [| | |done]; injection E as <-.
  - by apply (Hraw (BACKED_BLOCK_DATA d0)).
  - by apply (Hraw (BACKED_BLOCK_FILE f o)).
  - by apply (Hraw (BACKED_BLOCK_FD fd o)).
Qed.

Lemma ichunk_of_blocks bb :
  0 ≤ bb_len bb → bb_ready env bb → ichunk_blocks bs (ichunk_of env bs bb) = DIV_ROUND_UP (bb_len bb) bs.
Proof.
  intros Hl Hr. pose proof Hbs as [Hb _]. destruct (ichunk_of env bs bb) as [d|n v|n] eqn:E.
  - simpl. rewrite (ichunk_of_len bb d) by done. by rewrite Z.div_mul by lia.
  - unfold ichunk_of in E. by destruct (bb_type bb); simplify_eq.
  - unfold ichunk_of in E. by destruct (bb_type bb).
Qed.

Lemma ichunk_of_bytes bb :
  0 ≤ bb_len bb → bb_ready env bb → chunk_bytes env bs bb = ichunk_bytes bs (ichunk_of env bs bb).
Proof.
  intros Hl Hr. pose proof (ichunk_of_blocks bb Hl Hr) as Hbk.
  pose proof (λ d, ichunk_of_len bb d Hl Hr) as Hlen.
  unfold chunk_bytes, ichunk_bytes, ichunk_of in *.
  destruct (bb_type bb); cbn [ichunk_header ichunk_payload ichunk_blocks] in *;
    rewrite ?Hbk, ?(Hlen _ eq_refl); done.
Qed.

Lemma ichunk_of_ok bb :
  bb_ok bs bb → 0 < bb_len bb → block_writable env bs bb → DIV_ROUND_UP (bb_len bb) bs < 2 ^ 31 →
  ichunk_ok bs (ichunk_of env bs bb).
Proof.
  intros Hok Hpos [Hr Hw] Hn. pose proof Hbs as [Hb _]. pose proof (div_round_up_pos (bb_len bb) bs).
  assert (∀ d, zlen d = DIV_ROUND_UP (bb_len bb) bs * bs →
    CHUNK_HEADER_LEN + DIV_ROUND_UP (bb_len bb) bs * bs < 2 ^ 32 → ichunk_ok bs (IRaw d)) as Hraw.
  { intros d Hd Hc. simpl. rewrite Hd, Z.div_mul, Z.mod_mul by lia. split_and!; [nia|lia..]. }
  pose proof (λ d, ichunk_of_len bb d ltac:(lia) Hr) as Hlen. unfold ichunk_of, bb_ready in *.
  destruct (bb_type bb); [apply Hraw; [by apply Hlen|done]..|]. simpl in *. lia.
Qed.

Lemma ichunks_of_bytes l last :
  blocks_ok bs l → Forall (bb_ready env) l →
  chunk_list env bs l last = ichunk_bytes bs <$> ichunks_of env bs l last.
Proof.
  revert last. induction l as [|bb l IH]; intros last Hok Hr; [done|].
  apply blocks_ok_cons in Hok as (Hb & Hok & _). apply Forall_cons in Hr as [Hr Hr'].
  cbn [chunk_list ichunks_of]. rewrite fmap_app. cbn [fmap list_fmap]. f_equal.
  - destruct (_ >? _); [|done]. cbn [fmap list_fmap]. unfold skip_bytes, ichunk_bytes.
    cbn [ichunk_header ichunk_payload]. by rewrite app_nil_r.
  - rewrite <- (IH (bb_end bs bb)) by done. f_equal. apply ichunk_of_bytes; [|done].
    by destruct Hb as (_ & ? & _).
Qed.

Lemma ichunks_blocks_app cs cs' :
  ichunks_blocks bs (cs ++ cs') = ichunks_blocks bs cs + ichunks_blocks bs cs'.
Proof. induction cs; simpl; lia. Qed.

Lemma ichunks_of_blocks l last :
  blocks_ok bs l → Forall (bb_ready env) l → Forall (λ b, last ≤ bb_block b) l →
  ichunks_blocks bs (ichunks_of env bs l last) = blocks_end bs l last - last.
Proof.
  revert last. induction l as [|bb l IH]; intros last Hok Hr Hlast; [simpl; lia|].
  apply blocks_ok_cons in Hok as (Hb & Hok & Hbef). apply Forall_cons in Hr as [Hr Hr'].
  apply Forall_cons in Hlast as [Hl _]. cbn [ichunks_of blocks_end].
  rewrite ichunks_blocks_app. cbn [ichunks_blocks].
  rewrite ichunk_of_blocks by (done || by destruct Hb as (_ & ? & _)).
  rewrite IH; [|done..|]; cycle 1.
  { apply Forall_forall. intros b Hbl. by destruct (Hbef b Hbl). }
  unfold bb_end at 2. rewrite Z.gtb_ltb. destruct (Z.ltb_spec last (bb_block bb)); simpl; lia.
Qed.

Lemma ichunks_of_ok l last n :
  blocks_ok bs l → Forall (λ b, 0 < bb_len b) l → Forall (block_writable env bs) l →
  Forall (λ b, bb_end bs b ≤ n) l → n < 2 ^ 31 → 0 ≤ last →
  Forall (ichunk_ok bs) (ichunks_of env bs l last).
Proof.
  revert last. induction l as [|bb l IH]; intros last Hok Hp Hw Hn Hn31 Hlast; [constructor|].
  apply blocks_ok_cons in Hok as (Hb & Hok & _). apply Forall_cons in Hp as [Hp Hp'].
  apply Forall_cons in Hw as [Hw Hw']. apply Forall_cons in Hn as [Hn Hn'].
  pose proof Hb as (Hb0 & _). pose proof Hbs as [Hb1 _].
  pose proof (div_round_up_pos (bb_len bb) bs Hp ltac:(lia)). unfold bb_end in Hn.
  cbn [ichunks_of]. apply Forall_app. split.
  - rewrite Z.gtb_ltb. destruct (Z.ltb_spec last (bb_block bb)); constructor; [simpl; lia|constructor].
  - constructor; [apply ichunk_of_ok; done || lia|]. apply IH; try done. unfold bb_end. lia.
Qed.

(** Reading the chunks of a list of blocks. *)
Lemma ichunk_of_read bb off :
  bb_ok bs bb → bb_ready env bb → bb_block bb * bs ≤ off < bb_end bs bb * bs →
  match ichunk_of env bs bb with
  | ISkip _ => None
  | _ => zlookup (ichunk_expand bs (ichunk_of env bs bb)) (off - bb_block bb * bs)
  end =
  match bb_type bb with
  | BACKED_BLOCK_FILL v => content env (BACKED_BLOCK_FILL v) (off - bb_block bb * bs)
  | t => if off <? bb_block bb * bs + bb_len bb then content env t (off - bb_block bb * bs)
         else Some x00
  end.
Proof.
  intros (_ & Hl & _) Hr Hoff. pose proof Hbs as [Hb _].
  pose proof (div_round_up_bounds (bb_len bb) bs ltac:(lia)). unfold bb_end in Hoff.
  assert (∀ t, backing_ready env t (bb_len bb) →
    zlookup (backing_bytes env t (bb_len bb) ++ zeros (DIV_ROUND_UP (bb_len bb) bs * bs - bb_len bb))
      (off - bb_block bb * bs) =
    (if off <? bb_block bb * bs + bb_len bb then content env t (off - bb_block bb * bs) else Some x00))
    as Hraw.
  { intros t Ht. pose proof (zlen_backing_bytes t (bb_len bb) Hl Ht) as Hz.
    destruct (Z.ltb_spec off (bb_block bb * bs + bb_len bb)).
    - rewrite zlookup_app_l by lia. apply zlookup_backing_bytes; [lia|done].
    - rewrite zlookup_app_r by lia. rewrite Hz. apply zlookup_zeros. lia. }
  unfold ichunk_of, bb_ready in *. destruct (bb_type bb); cbn [ichunk_expand]; [by apply Hraw..|].
  apply zlookup_fill_bytes. nia.
Qed.

Lemma padded_read_before l last off :
  Forall (λ b, last ≤ bb_block b) l → off < last * bs → padded_read env bs l off = None.
Proof.
  pose proof Hbs as [Hb _]. induction 1 as [|bb l Hl _ IH]; intros Hoff; simpl; [done|].
  destruct (Z.leb_spec (bb_block bb * bs) off); [nia|]. by apply IH.
Qed.

Lemma ichunks_of_read l last n off :
  blocks_ok bs l → Forall (bb_ready env) l → Forall (λ b, last ≤ bb_block b) l → last * bs ≤ off →
  image_read bs (ichunks_of env bs l last ++ [ISkip n]) last off = padded_read env bs l off ∧
  image_read bs (ichunks_of env bs l last) last off = padded_read env bs l off.
Proof.
  revert last. induction l as [|bb l IH]; intros last Hok Hr Hlast Hoff.
  { simpl. by destruct (_ && _). }
  apply blocks_ok_cons in Hok as (Hb & Hok & Hbef). apply Forall_cons in Hr as [Hr Hr'].
  apply Forall_cons in Hlast as [Hl _]. pose proof Hb as (Hb0 & Hlen & _). pose proof Hbs as [Hb1 _].
  assert (Forall (λ b, bb_end bs bb ≤ bb_block b) l) as Hlast'.
  { apply Forall_forall. intros b Hbl. by destruct (Hbef b Hbl). }
  cbn [ichunks_of padded_read]. rewrite <- app_assoc.
  assert (∀ cs, (bb_end bs bb * bs ≤ off → image_read bs cs (bb_end bs bb) off = padded_read env bs l off) →
    image_read bs ((if bb_block bb >? last then [ISkip (bb_block bb - last)] else []) ++
      ichunk_of env bs bb :: cs) last off =
    padded_read env bs (bb :: l) off) as Hgo.
  { intros cs Hcs. pose proof (ichunk_of_blocks bb Hlen Hr) as Hbk. pose proof (bb_end_ge bs Hbs bb Hlen).
    assert (bb_block bb * bs ≤ off → image_read bs (ichunk_of env bs bb :: cs) (bb_block bb) off =
      padded_read env bs (bb :: l) off) as Hhere.
    { intros Hge. cbn [image_read padded_read]. rewrite Hbk. fold (bb_end bs bb).
      rewrite (proj2 (Z.leb_le _ _) Hge). cbn [andb].
      destruct (Z.ltb_spec off (bb_end bs bb * bs)); [|by apply Hcs].
      by apply ichunk_of_read. }
    rewrite Z.gtb_ltb. destruct (Z.ltb_spec last (bb_block bb)).
    - cbn [app image_read ichunk_blocks]. replace (last + (bb_block bb - last)) with (bb_block bb) by lia.
      rewrite (proj2 (Z.leb_le _ _) Hoff). destruct (Z.ltb_spec off (bb_block bb * bs)); simpl; [|by apply Hhere].
      destruct (Z.leb_spec (bb_block bb * bs) off); [lia|]. simpl.
      symmetry. apply padded_read_before with (bb_end bs bb); [done|nia].
    - assert (last = bb_block bb) as -> by lia. by apply Hhere. }
  split; apply Hgo; intros; by apply IH.
Qed.
End encode.

Lemma block_writable_ready env bs l :
  Forall (block_writable env bs) l → Forall (bb_ready env) l.
Proof. intros H. eapply Forall_impl; [exact H|]. by intros b [? _]. Qed.

Lemma blocks_nonneg bs l : blocks_ok bs l → Forall (λ b, 0 ≤ bb_block b) l.
Proof. intros [H _]. eapply Forall_impl; [exact H|]. by intros b (? & _). Qed.

(** What [sparse_file_callback] writes is the encoding of the file's chunks. *)
Lemma image_bytes_encode env s crc :
  sf_ok s → Forall (bb_ready env) (data_blocks (sf_bbl s)) →
  ichunks_blocks (sf_block_size s) (file_ichunks env s) = sf_len s / sf_block_size s ∧
  image_bytes env s crc =
  encode_image (sf_block_size s) (file_ichunks env s) (if crc then Some (writer_crc env s) else None).
Proof.
  intros Hok Hr. pose proof (sf_block_size_ok s Hok) as Hbs. pose proof (sf_blocks_ok s Hok) as Hbl.
  destruct (sf_ends env s Hok) as (_ & _ & He & _).
  unfold image_bytes, encode_image, image_chunks, file_ichunks, writer_crc.
  set (bs := sf_block_size s) in *. set (l := data_blocks (sf_bbl s)) in *.
  set (total := sf_len s / bs) in *. rewrite (ichunks_of_bytes env bs Hbs) by done.
  assert (ichunks_blocks bs (ichunks_of env bs l 0 ++
    (if blocks_end bs l 0 <? total then [ISkip (total - blocks_end bs l 0)] else [])) = total) as Ht.
  { rewrite ichunks_blocks_app, ichunks_of_blocks by (done || by eapply blocks_nonneg).
    destruct (Z.ltb_spec (blocks_end bs l 0) total); simpl; lia. }
  split; [exact Ht|]. rewrite Ht.
  assert ((ichunk_bytes bs <$> ichunks_of env bs l 0) ++
    (if blocks_end bs l 0 <? total then [skip_bytes (total - blocks_end bs l 0)] else []) =
    ichunk_bytes bs <$> (ichunks_of env bs l 0 ++
    (if blocks_end bs l 0 <? total then [ISkip (total - blocks_end bs l 0)] else []))) as ->.
  { rewrite fmap_app. f_equal. destruct (_ <? _); [|done]. cbn [fmap list_fmap].
    unfold skip_bytes, ichunk_bytes. cbn [ichunk_header ichunk_payload]. by rewrite app_nil_r. }
  unfold zlen at 1. rewrite length_fmap. fold (zlen (ichunks_of env bs l 0 ++
    (if blocks_end bs l 0 <? total then [ISkip (total - blocks_end bs l 0)] else []))).
  by destruct crc.
Qed.

Lemma file_ichunks_ok env s :
  sf_ok s → 0 < sf_len s → Forall (λ b, 0 < bb_len b) (data_blocks (sf_bbl s)) →
  Forall (block_writable env (sf_block_size s)) (data_blocks (sf_bbl s)) →
  image_ok (sf_block_size s) (file_ichunks env s).
Proof.
  intros Hok Hpos Hp Hw. pose proof (sf_block_size_ok s Hok) as Hbs.
  pose proof (sf_blocks_ok s Hok) as Hbl. pose proof (block_writable_ready _ _ _ Hw) as Hr.
  destruct (sf_ends env s Hok) as (Hlen & Ht & He & Hn).
  destruct (image_bytes_encode env s false Hok Hr) as [Hblk _].
  unfold image_ok. rewrite Hblk. pose proof (sf_total s Hok) as Htot.
  pose proof (sf_inside s Hok) as Hin. pose proof (sf_len_range s Hok) as Hl63.
  rewrite (ichunks_of_bytes env _ Hbs) in Hn by done. unfold file_ichunks.
  set (bs := sf_block_size s) in *. set (l := data_blocks (sf_bbl s)) in *.
  set (total := sf_len s / bs) in *. pose proof Hbs as [Hb1 _]. split_and!; try lia.
  - apply Forall_app. split; [apply ichunks_of_ok with total; done || lia|].
    destruct (Z.ltb_spec (blocks_end bs l 0) total); constructor; [simpl; lia|constructor].
  - rewrite zlen_app. unfold zlen in *. rewrite length_fmap in Hn.
    destruct (Z.ltb_spec (blocks_end bs l 0) total); cbn [length]; lia.
Qed.

Lemma writer_crc_range env bs l c :
  0 ≤ c < 2 ^ 32 → 0 ≤ foldl (λ c bb, block_crc env bs bb c) c l < 2 ^ 32.
Proof.
  revert c. induction l as [|b l IH]; intros c Hc; [done|]. cbn [foldl]. apply IH.
  unfold block_crc. destruct (bb_type b); by apply sparse_crc32_range.
Qed.

(** The meaning of the chunks is the file's image, padded to whole blocks. *)
Lemma file_ichunks_read env s off :
  sf_ok s → Forall (bb_ready env) (data_blocks (sf_bbl s)) → 0 ≤ off →
  image_read (sf_block_size s) (file_ichunks env s) 0 off =
  padded_read env (sf_block_size s) (data_blocks (sf_bbl s)) off.
Proof.
  intros Hok Hr Hoff. pose proof (sf_block_size_ok s Hok) as Hbs. pose proof (sf_blocks_ok s Hok) as Hbl.
  unfold file_ichunks.
  destruct (ichunks_of_read env _ Hbs (data_blocks (sf_bbl s)) 0
    (sf_len s / sf_block_size s - blocks_end (sf_block_size s) (data_blocks (sf_bbl s)) 0) off)
    as [H1 H2]; [done..|by eapply blocks_nonneg|lia|].
  destruct (_ <? _); [done|]. by rewrite app_nil_r.
Qed.

(** *** The CRC of writer and reader *)

(** Blocks that follow one another without a gap, every fill at most one block
    long. *)
Fixpoint crc_safe (bs : Z) (l : list backed_block) (last : Z) : Prop :=
  match l with
  | [] => True
  | bb :: l =>
      bb_block bb = last ∧ 0 < bb_len bb ∧
      match bb_type bb with BACKED_BLOCK_FILL _ => bb_len bb ≤ bs | _ => True end ∧
      crc_safe bs l (bb_end bs bb)
  end.

(** The same for a whole file: no gap in front of a block nor behind the last. *)
Definition crc_exact (s : sparse_file) : Prop :=
  crc_safe (sf_block_size s) (data_blocks (sf_bbl s)) 0 ∧
  blocks_end (sf_block_size s) (data_blocks (sf_bbl s)) 0 = sf_len s / sf_block_size s.

Lemma crc_safe_eq env bs l last c :
  block_size_ok bs → crc_safe bs l last →
  foldl (λ c bb, block_crc env bs bb c) c l =
  sparse_crc32 c (concat (ichunk_expand bs <$> ichunks_of env bs l last)).
Proof.
  intros Hbs. revert last c. induction l as [|bb l IH]; intros last c Hl.
  { simpl. by rewrite sparse_crc32_nil. }
  destruct Hl as (Hb & Hpos & Hfill & Hl). cbn [foldl ichunks_of].
  rewrite (IH (bb_end bs bb)) by done. rewrite Hb, Z.gtb_ltb, Z.ltb_irrefl. cbn [app].
  rewrite fmap_cons. cbn [concat]. rewrite sparse_crc32_app. f_equal.
  unfold block_crc, ichunk_of. destruct (bb_type bb); cbn [ichunk_expand]; try done.
  rewrite div_round_up_one by lia. by rewrite Z.mul_1_l.
Qed.

(** For a file without gaps whose fills are at most one block long, the CRC the
    writer accumulates is the CRC of the expanded image. *)
Lemma writer_crc_exact env s :
  block_size_ok (sf_block_size s) → crc_exact s →
  writer_crc env s = image_crc (sf_block_size s) (file_ichunks env s).
Proof.
  intros Hbs [Hsafe Hend]. unfold writer_crc, image_crc, file_ichunks.
  rewrite (crc_safe_eq env _ _ 0) by done. by rewrite Hend, Z.ltb_irrefl, app_nil_r.
Qed.

(** The CRC chunk of an image the writer makes. *)
Definition written_crc (env : backing_env) (s : sparse_file) (crc : bool) : option Z :=
  if crc then Some (writer_crc env s) else None.

Lemma written_crc_range env s crc c : written_crc env s crc = Some c → 0 ≤ c < 2 ^ 32.
Proof.
  unfold written_crc. destruct crc; [|done]. intros Hc. destruct (Some_inj _ _ Hc).
  by apply writer_crc_range.
Qed.

Lemma callback_encodes env map_fd open_file uninit s crc acc :
  env_agrees env map_fd open_file → sf_ok s →
  Forall (block_writable env (sf_block_size s)) (data_blocks (sf_bbl s)) →
  sparse_file_callback map_fd open_file uninit s true crc collect_write acc =
  Ret (0, acc ++ encode_image (sf_block_size s) (file_ichunks env s) (written_crc env s crc)).
Proof.
  intros Henv Hok Hw. pose proof (block_writable_ready _ _ _ Hw) as Hr. unfold sparse_file_callback.
  rewrite (write_image_sparse _ app env map_fd open_file uninit Henv) by done.
  by rewrite (proj2 (image_bytes_encode env s crc Hok Hr)).
Qed.

(** ** Properties *)

(** Importing the encoding of any well-formed list of chunks from memory
    succeeds and yields a well-formed sparse file with exactly the block size,
    the length and the image the chunks denote; the CRC chunk is accepted when
    the check is off or the CRC is that of the expanded image. *)
Theorem import_buf_correct env bs cs chk verbose (crc : bool) :
  block_size_ok bs → image_ok bs cs →
  (∀ c, chk = Some c → 0 ≤ c < 2 ^ 32 ∧ (crc = true → c = image_crc bs cs)) →
  ∃ s, sparse_file_import_buf (encode_image bs cs chk) verbose crc = Ret (Some s) ∧
    file_image env bs s (ichunks_blocks bs cs) (image_read bs cs 0).
Proof.
  intros Hbs Hcs Hchk. unfold sparse_file_import_buf.
  destruct (import_source_ok SparseFileBufSource.source env (encode_image bs cs chk) (buf_at _) bs Hbs
    cs chk verbose crc (SparseFileBufSource.new (encode_image bs cs chk))) as (s & t' & -> & Hs); [done..|].
  by exists s.
Qed.

Lemma image_crc_range bs cs : 0 ≤ image_crc bs cs < 2 ^ 32.
Proof. apply sparse_crc32_range. lia. Qed.

Definition ex_chunks : list ichunk :=
  [ISkip 2; IRaw [x61; x62; x63; x64]; IFill 3 0x01020304; ISkip 1].

Lemma ex_chunks_ok : image_ok 4 ex_chunks.
Proof. split_and!; try done. repeat constructor; done. Qed.

Lemma import_buf_correct_witness :
  ∃ s, sparse_file_import_buf (encode_image 4 ex_chunks (Some (image_crc 4 ex_chunks))) false true =
      Ret (Some s) ∧
    file_image ex_env 4 s 7 (image_read 4 ex_chunks 0).
Proof.
  apply (import_buf_correct ex_env 4 ex_chunks (Some (image_crc 4 ex_chunks)) false true).
  - done.
  - apply ex_chunks_ok.
  - intros c Hc. destruct (Some_inj _ _ Hc). split; [apply image_crc_range|done].
Defined.

(** C18: importing the encoding of any well-formed list of chunks through a file
    descriptor succeeds and yields a well-formed sparse file with exactly the
    block size, the length and the image the chunks denote, for any [read] and
    [lseek] that behave as POSIX says on a regular file (short reads included);
    the CRC chunk is accepted when the check is off or the CRC is that of the
    expanded image, and the raw blocks of the result refer to the file. *)
Theorem import_fd_correct {T} (read : Z → T → Z * Z * list byte * T)
    (lseek64 : Z → whence → T → Z * Z * T) (at_ : T → Z → Prop)
    env fd bs cs chk verbose (crc : bool) t :
  RegularFile read lseek64 (encode_image bs cs chk) at_ → at_ t 0 →
  env_fd env fd = encode_image bs cs chk → zlen (encode_image bs cs chk) < 2 ^ 63 →
  block_size_ok bs → image_ok bs cs →
  (∀ c, chk = Some c → 0 ≤ c < 2 ^ 32 ∧ (crc = true → c = image_crc bs cs)) →
  ∃ s t', sparse_file_import read lseek64 fd verbose crc t = Ret (Some s, t') ∧
    file_image env bs s (ichunks_blocks bs cs) (image_read bs cs 0).
Proof.
  intros Hrf Hat Henv Hlen Hbs Hcs Hchk. unfold sparse_file_import.
  pose proof (fd_source read lseek64 (encode_image bs cs chk) at_ fd env Henv Hlen) as Hsrc.
  by apply (import_source_ok _ env (encode_image bs cs chk) at_ bs Hbs cs chk verbose crc t).
Qed.

(** A regular file as a value: contents and position; [read] returns at most
    seven bytes at a time. *)
Definition ex_fd : Type := list byte * Z.
Definition ex_read (n : Z) (t : ex_fd) : Z * Z * list byte * ex_fd :=
  let r := Z.min (Z.min n 7) (Z.max 0 (zlen t.1 - t.2)) in
  (r, 0, ztake r (zdrop t.2 t.1), (t.1, t.2 + r)).
Definition ex_lseek (off : Z) (w : whence) (t : ex_fd) : Z * Z * ex_fd :=
  let go p := if p <? 0 then (-1, EINVAL, t) else (p, 0, (t.1, p)) in
  match w with
  | SEEK_SET => go off
  | SEEK_CUR => go (t.2 + off)
  | SEEK_END => go (zlen t.1 + off)
  | SEEK_DATA => if off <? zlen t.1 then go off else (-1, ENXIO, t)
  | SEEK_HOLE => if off <? zlen t.1 then go (zlen t.1) else (-1, ENXIO, t)
  end.

Lemma ex_regular data : RegularFile ex_read ex_lseek data (λ t k, t = (data, k)).
Proof.
  split.
  - intros t k n -> Hk Hn. unfold ex_read. cbn [fst snd].
    replace (Z.max 0 (zlen data - k)) with (zlen data - k) by lia.
    eexists _, _, _. split; [reflexivity|]. split_and!; [lia..|done].
  - intros t k n -> Hk Hn. unfold ex_read. cbn [fst snd].
    replace (Z.min (Z.min n 7) (Z.max 0 (zlen data - k))) with 0 by lia.
    rewrite Z.add_0_r. by eexists _, _.
  - intros t k off -> H. unfold ex_lseek. cbn [fst snd].
    destruct (Z.ltb_spec (k + off) 0); [lia|]. by eexists _, _.
  - intros t k off -> H. unfold ex_lseek. cbn [fst snd].
    destruct (Z.ltb_spec off 0); [lia|]. by eexists _, _.
  - intros t k ->. unfold ex_lseek. cbn [fst snd]. pose proof (zlen_nonneg data).
    rewrite Z.add_0_r. destruct (Z.ltb_spec (zlen data) 0); [lia|]. by eexists _, _.
Qed.

Lemma import_fd_correct_witness :
  ∃ s t', sparse_file_import ex_read ex_lseek 3 false false (encode_image 4 ex_chunks None, 0) =
      Ret (Some s, t') ∧
    file_image (mk_env (λ _, encode_image 4 ex_chunks None) (λ _, [])) 4 s 7 (image_read 4 ex_chunks 0).
Proof.
  apply (import_fd_correct ex_read ex_lseek (λ t k, t = (encode_image 4 ex_chunks None, k)) _ 3 4
    ex_chunks None false false); [apply ex_regular|done|done|done|done|apply ex_chunks_ok|done].
Defined.


Definition ex_dense : sparse_file :=
  mk_sparse_file 4 16 false
    (mk_bbl [mk_bb 0 8 (BACKED_BLOCK_FD 3 2); mk_bb 2 4 (BACKED_BLOCK_FILL 7);
             mk_bb 3 3 (BACKED_BLOCK_DATA [x61; x62; x63])] None 4).

Lemma ex_dense_ok : sf_ok ex_dense.
Proof.
  split; try done; [|repeat constructor; done].
  split_and!; [done| |done]. split; repeat constructor; done.
Qed.




(** A well-formed file whose image, written with a CRC, the importer rejects when
    it checks the CRC and accepts when it does not. *)
Definition own_crc_rejected (s : sparse_file) : Prop :=
  match sparse_file_callback ex_map (λ _, 3) 0 s true true collect_write [] with
  | Ret (0, image) =>
      sparse_file_import_buf image false true = Ret None ∧
      match sparse_file_import_buf image false false with Ret (Some _) => True | _ => False end
  | _ => False
  end.

(** Two files outside [crc_exact] whose own output the library rejects: one
    fill of two blocks, and a single block behind a gap. *)
Theorem sparse_crc_disagreement :
  let fill2 := mk_sparse_file 4 8 false (mk_bbl [mk_bb 0 8 (BACKED_BLOCK_FILL 7)] None 4) in
  let gap := mk_sparse_file 4 8 false (mk_bbl [mk_bb 1 4 (BACKED_BLOCK_FILL 7)] None 4) in
  sf_ok fill2 ∧ own_crc_rejected fill2 ∧ sf_ok gap ∧ own_crc_rejected gap.
Proof.
  intros fill2 gap. split_and!.
  - split; try done; [|repeat constructor; done].
    split_and!; [done| |done]. split; repeat constructor; done.
  - vm_compute. done.
  - split; try done; [|repeat constructor; done].
    split_and!; [done| |done]. split; repeat constructor; done.
  - vm_compute. done.
Qed.

(** A fill chunk of zero blocks leaves a block of length 0 in the list, and
    the next chunk at the same block number stops the importer in the assertion
    of [merge_bb]; an importer of untrusted images can be aborted this way. *)
Theorem import_zero_fill_aborts v w verbose crc :
  sparse_file_import_buf (encode_image 4 [IFill 0 v; IFill 1 w] None) verbose crc = AssertFail.
Proof. destruct verbose, crc; vm_compute; reflexivity. Qed.
