(* ===== verification/SparseNormal.v ===== *)
(** Building a sparse file from a plain image: [sparse_file_read_normal],
    [sparse_file_read_hole] and [sparse_file_import_auto] of sparse_read.cpp. *)

From S2P Require Import Prelude Crc32 SparseFormat BackedBlock OutputFile Sparse SparseFacts SparseRead.
From S2P Require Import SparseRoundTrip.
Open Scope Z_scope.

(** ** Blocks of equal words *)

Lemma word_lookup buf i j :
  0 ≤ i → 0 ≤ j < 4 → 4 * i + 4 ≤ zlen buf →
  zlookup buf (4 * i + j) = zlookup (le_bytes 4 (le_field (Z.to_nat (4 * i)) 4 buf)) j.
Proof.
  intros Hi Hj Hl. unfold le_field.
  assert (length (take 4 (drop (Z.to_nat (4 * i)) buf)) = 4%nat) as Hlen.
  { rewrite length_take, length_drop. unfold zlen in Hl. lia. }
  rewrite <- Hlen at 1. rewrite le_bytes_le_val.
  unfold zlookup. destruct (Z.ltb_spec (4 * i + j) 0); [lia|]. destruct (Z.ltb_spec j 0); [lia|].
  rewrite lookup_take_lt, lookup_drop by lia. f_equal. lia.
Qed.

(** A block all of whose words equal the first one has the contents of a fill. *)
Lemma words_equal_fill bs buf j :
  bs mod 4 = 0 → zlen buf = bs → words_equal bs buf = true → 0 ≤ j < bs →
  zlookup buf j = zlookup (le_bytes 4 (le_field 0 4 buf)) (j mod 4).
Proof.
  intros H4 Hlen Hw Hj. pose proof (Z.div_mod j 4 ltac:(lia)). pose proof (Z.mod_pos_bound j 4 ltac:(lia)).
  pose proof (Z.div_mod bs 4 ltac:(lia)).
  assert (0 ≤ j / 4) by (apply Z.div_pos; lia).
  replace j with (4 * (j / 4) + j mod 4) at 1 by lia. rewrite word_lookup by lia.
  destruct (Z.eq_dec (j / 4) 0) as [->|Hne]; [done|].
  unfold words_equal in Hw. rewrite forallb_forall in Hw.
  specialize (Hw (Z.to_nat (j / 4))). rewrite in_seq in Hw.
  assert ((le_field 0 4 buf =? le_field (4 * Z.to_nat (j / 4)) 4 buf) = true) as E%Z.eqb_eq by (apply Hw; lia).
  replace (Z.to_nat (4 * (j / 4))) with (4 * Z.to_nat (j / 4))%nat by lia. by rewrite <- E.
Qed.

Lemma le_field_range o n buf : 0 ≤ le_field o n buf < 256 ^ Z.of_nat n.
Proof.
  unfold le_field. pose proof (le_val_range (take n (drop o buf))) as H.
  assert (256 ^ zlen (take n (drop o buf)) ≤ 256 ^ Z.of_nat n).
  { apply Z.pow_le_mono_r; [lia|]. unfold zlen. rewrite length_take. lia. }
  lia.
Qed.

Section normal.
Context {T : Type} (read : Z → T → Z * Z * list byte * T).
Context (lseek64 : Z → whence → T → Z * Z * T).
Context (data : list byte) (at_ : T → Z → Prop) `{!RegularFile read lseek64 data at_}.
Context (env : backing_env) (fd : Z) (Henv : env_fd env fd = data).

(** The image so far: the bytes of the file between [lo] and [hi]. *)
Definition window (lo hi : Z) (base : Z → option byte) (off : Z) : option byte :=
  if (lo <=? off) && (off <? hi) then zlookup data off else base off.

(** A file whose blocks stay before block [cur]. *)
Record filling (bs : Z) (s : sparse_file) (cur : Z) (img : Z → option byte) : Prop := {
  fl_ok : bbl_ok (sf_bbl s);
  fl_bbs : bbl_block_size (sf_bbl s) = bs;
  fl_bs : sf_block_size s = bs;
  fl_upto : blocks_upto bs cur (data_blocks (sf_bbl s));
  fl_img off : 0 ≤ off → blocks_read env bs (data_blocks (sf_bbl s)) off = img off
}.

(** Adding one block of at most [bs] bytes. *)
Lemma filling_add bs s cur n b img :
  block_size_ok bs → filling bs s cur img → 0 ≤ cur → 0 < n ≤ bs → cur + 1 < 2 ^ 32 →
  (cur + 1) * bs < 2 ^ 63 → backing_ok b n →
  (∀ j, 0 ≤ j < n → content env b j = zlookup data (cur * bs + j)) →
  ∃ bbl', queue_bb (sf_bbl s) (mk_bb cur n b) = Ret (0, bbl') ∧
    filling bs (set_bbl s bbl') (cur + 1) (window (cur * bs) (cur * bs + n) img).
Proof.
  intros Hbs [Hok Hbb Hb Hu Hi] Hcur Hn H32 H63 Hbk Hct. pose proof Hbs as [Hb1 _].
  assert (bb_end bs (mk_bb cur n b) = cur + 1) as He.
  { unfold bb_end. simpl. by rewrite div_round_up_one. }
  destruct (queue_bb_queued (sf_bbl s) (mk_bb cur n b)) as (bbl' & Hq & Hok' & Hb' & Hqd).
  { done. }
  { rewrite Hbb. unfold bb_ok. rewrite He. simpl. split_and!; try lia. done. }
  { rewrite Hbb. by apply blocks_upto_fits with cur. }
  rewrite Hbb in *. exists bbl'. split; [done|]. split; try done.
  - apply (queued_Forall bs _ _ _ (λ z, z < cur + 1) (λ z, z ≤ cur + 1) Hqd); [simpl; lia|rewrite He; lia|].
    eapply Forall_impl; [exact Hu|]. simpl. lia.
  - intros off Hoff. simpl. rewrite (queued_read _ _ _ _ Hqd), Hi by done. unfold bb_covers, window. simpl.
    destruct (Z.leb_spec (cur * bs) off); simpl; [|done].
    destruct (Z.ltb_spec off (cur * bs + n)); [|done]. rewrite Hct by lia. f_equal. lia.
Qed.

Lemma do_read_normal_ok bs fuel s cur remain img t :
  block_size_ok bs → filling bs s cur img → at_ t (cur * bs) → 0 ≤ cur → 0 ≤ remain →
  cur * bs + remain ≤ zlen data → zlen data < 2 ^ 62 → cur + DIV_ROUND_UP remain bs < 2 ^ 32 →
  (loop_fuel remain bs ≤ fuel)%nat →
  ∃ s' t', do_sparse_file_read_normal read fd fuel s (cur * bs) remain cur t = Ret (0, s', t') ∧
    filling bs s' (cur + DIV_ROUND_UP remain bs)
      (window (cur * bs) (cur * bs + remain) img) ∧ at_ t' (cur * bs + remain) ∧
    sf_len s' = sf_len s.
Proof.
  intros Hbs. pose proof Hbs as [Hb1 Hb4]. revert s cur remain img t.
  induction fuel as [|fuel IH]; intros s cur remain img t Hfl Hat Hcur Hrem Hend Hdata H32 Hf.
  { unfold loop_fuel in Hf. lia. }
  cbn [do_sparse_file_read_normal]. rewrite Z.gtb_ltb.
  destruct (Z.ltb_spec 0 remain) as [Hpos|]; cycle 1.
  { assert (remain = 0) as -> by lia. exists s, t. rewrite div_round_up_0 by lia.
    rewrite !Z.add_0_r. split; [done|]. split; [|done]. destruct Hfl. split; try done.
    intros off Hoff. rewrite fl_img0 by done. unfold window. zcases; simpl; try done; lia. }
  rewrite (fl_bs _ _ _ _ Hfl). set (n := Z.min remain bs).
  assert (0 < n ≤ bs ∧ n ≤ remain) as [Hn Hnr] by (unfold n; lia).
  assert (DIV_ROUND_UP remain bs = 1 + DIV_ROUND_UP (remain - n) bs) as Hdru.
  { destruct (Z.le_gt_cases remain bs).
    - rewrite div_round_up_one by lia. replace (remain - n) with (0 * bs) by (unfold n; lia).
      rewrite div_round_up_mul by lia. lia.
    - replace remain with (remain - n + 1 * bs) at 1 by (unfold n; lia).
      rewrite div_round_up_add_mul by lia. lia. }
  pose proof (div_round_up_nonneg (remain - n) bs ltac:(lia) ltac:(lia)) as Hdn.
  destruct (read_all_ok read lseek64 data at_ n (cur * bs) t Hat) as (t1 & -> & Hat1); [nia|lia..|].
  mred. set (buf := ztake n (zdrop (cur * bs) data)).
  assert (zlen buf = n) as Hbl.
  { unfold buf. rewrite zlen_ztake; [done|]. rewrite zlen_zdrop; nia. }
  assert (∀ j, 0 ≤ j < n → zlookup buf j = zlookup data (cur * bs + j)) as Hbuf.
  { intros j Hj. unfold buf. rewrite zlookup_ztake, zlookup_zdrop by nia. done. }
  assert (∃ s1, (if (n =? bs) && words_equal bs buf
      then sparse_file_add_fill s (le_field 0 4 buf) n cur
      else sparse_file_add_fd s fd (cur * bs) n cur) = Ret (0, s1) ∧
    filling bs s1 (cur + 1) (window (cur * bs) (cur * bs + n) img) ∧ sf_len s1 = sf_len s)
    as (s1 & -> & Hfl1 & Hlen1).
  { destruct ((n =? bs) && words_equal bs buf) eqn:Hsp.
    - zbool. destruct (filling_add bs s cur n (BACKED_BLOCK_FILL (le_field 0 4 buf)) img)
        as (bbl' & Hq & Hfl'); try done; [lia|nia|apply le_field_range| |].
      { intros j Hj. rewrite <- Hbuf by done. symmetry. apply words_equal_fill with bs; try done; lia. }
      exists (set_bbl s bbl'). unfold sparse_file_add_fill, backed_block_add_fill, on_bbl. by rewrite Hq.
    - destruct (filling_add bs s cur n (BACKED_BLOCK_FD fd (cur * bs)) img)
        as (bbl' & Hq & Hfl'); try done; [lia|nia|simpl; nia| |].
      { intros j Hj. simpl. by rewrite Henv. }
      exists (set_bbl s bbl'). unfold sparse_file_add_fd, backed_block_add_fd, on_bbl. by rewrite Hq. }
  mred. rewrite u32_small by lia.
  destruct (Z.eq_dec (remain - n) 0) as [Hz|Hz].
  - assert (n = remain) as Hn' by lia. rewrite Hz in *. rewrite Hn' in *.
    rewrite div_round_up_0 in Hdru by lia.
    replace (DIV_ROUND_UP remain bs) with 1 by lia.
    exists s1, t1. split; [by destruct fuel|]. split_and!; [done..|congruence].
  - assert (n = bs) as Hn' by (unfold n in *; lia). rewrite Hn' in *.
    replace (cur * bs + bs) with ((cur + 1) * bs) in * by lia.
    destruct (IH s1 (cur + 1) (remain - bs) _ t1 Hfl1 Hat1) as (s2 & t2 & Heq & Hfl2 & Hat2 & Hlen2);
      [lia..| |].
    { destruct (loop_fuel_step remain bs fuel) as [H|H]; [lia..| |unfold n in *; lia].
      replace (Z.min remain bs) with bs in H by (unfold n in *; lia). done. }
    exists s2, t2. rewrite Heq. split; [done|].
    replace ((cur + 1) * bs + (remain - bs)) with (cur * bs + remain) in * by lia.
    replace (cur + 1 + DIV_ROUND_UP (remain - bs) bs) with (cur + DIV_ROUND_UP remain bs) in Hfl2 by lia.
    split_and!; [|done|congruence]. destruct Hfl2. split; try done.
    intros off Hoff. rewrite fl_img0 by done. unfold window.
    replace ((cur + 1) * bs) with (cur * bs + bs) by lia. zcases; simpl; try done; lia.
Qed.
End normal.

(** ** Properties *)

Lemma filling_new env bs len :
  block_size_ok bs → filling env bs (sparse_file_new bs len) 0 (λ _, None).
Proof.
  intros Hbs. split; try done; [|constructor]. split_and!; [done|apply blocks_ok_nil|done].
Qed.

Lemma zlookup_beyond {A} (l : list A) k : zlen l ≤ k → zlookup l k = None.
Proof.
  unfold zlookup, zlen. intros. destruct (Z.ltb_spec k 0); [done|]. apply lookup_ge_None_2. lia.
Qed.

Section claims.
Context {T : Type} (read : Z → T → Z * Z * list byte * T).
Context (lseek64 : Z → whence → T → Z * Z * T).
Context (data : list byte) (at_ : T → Z → Prop).

Lemma read_normal_image env fd bs s t :
  RegularFile read lseek64 data at_ → env_fd env fd = data → block_size_ok bs →
  filling env bs s 0 (λ _, None) → at_ t 0 → sf_len s = zlen data → zlen data < 2 ^ 62 →
  DIV_ROUND_UP (zlen data) bs < 2 ^ 32 →
  ∃ s' t', sparse_file_read_normal read fd s t = Ret (0, s', t') ∧
    file_image env bs (mk_sparse_file (sf_block_size s') (DIV_ROUND_UP (zlen data) bs * bs)
                         (sf_verbose s') (sf_bbl s'))
      (DIV_ROUND_UP (zlen data) bs) (zlookup data) ∧ sf_len s' = sf_len s.
Proof.
  intros Hrf Henv Hbs Hfl Hat Hlen Hdata H32. pose proof Hbs as [Hb _].
  unfold sparse_file_read_normal, read_normal_from. rewrite (fl_bs _ _ _ _ _ Hfl), Hlen.
  change (u32 (0 / bs)) with (u32 0). change (u32 0) with 0.
  destruct (do_read_normal_ok read lseek64 data at_ env fd Henv bs (loop_fuel (zlen data) bs) s 0
    (zlen data) (λ _, None) t Hbs Hfl Hat) as (s' & t' & Heq & Hfl' & _ & Hlen');
    [lia|apply zlen_nonneg|lia|lia|lia|lia|].
  change (0 * bs) with 0 in Heq. exists s', t'. rewrite Heq. split; [done|]. split; [|congruence].
  destruct Hfl' as [? ? ? Hu Hi].
  rewrite Z.add_0_l in *. split; try done.
  - eapply Forall_impl; [exact Hu|]. simpl. lia.
  - intros off Hoff. rewrite Hi by done. unfold window. change (0 * bs) with 0.
    rewrite (proj2 (Z.leb_le _ _) Hoff). simpl.
    destruct (Z.ltb_spec off (zlen data)); [done|]. by rewrite zlookup_beyond.
Qed.

(** C26: reading a plain image (mode NORMAL) builds a well-formed sparse file with
    exactly the contents of the file, for any regular file and however [read]
    splits the data: blocks of equal words become fills, all others refer to the
    file, and a last block that is not full keeps its true length. *)
Theorem sparse_file_read_normal_correct env fd bs fuel t :
  RegularFile read lseek64 data at_ → env_fd env fd = data → block_size_ok bs → at_ t 0 →
  zlen data < 2 ^ 62 → DIV_ROUND_UP (zlen data) bs < 2 ^ 32 →
  ∃ s' t', sparse_file_read read lseek64 fd fuel (sparse_file_new bs (zlen data))
             SPARSE_READ_MODE_NORMAL false t = Ret (0, s', t') ∧
    bbl_ok (sf_bbl s') ∧ sf_len s' = zlen data ∧ sf_block_size s' = bs ∧
    ∀ off, 0 ≤ off → blocks_read env bs (data_blocks (sf_bbl s')) off = zlookup data off.
Proof.
  intros Hrf Henv Hbs Hat Hdata H32.
  destruct (read_normal_image env fd bs (sparse_file_new bs (zlen data)) t) as (s' & t' & Heq & Hfi & Hlen);
    try done; [by apply filling_new|].
  exists s', t'. split; [done|]. destruct Hfi. by split_and!.
Qed.

(** [sparse_file_import_auto] on a file that is not a sparse image (it is
    shorter than a header or does not start with the magic number) falls back to
    the plain reader from the start of the file, and the sparse file it returns
    has the contents of the file, in 4096-byte blocks. *)
Theorem import_auto_plain env fd crc verbose t :
  RegularFile read lseek64 data at_ → env_fd env fd = data → at_ t 0 →
  zlen data < 2 ^ 40 →
  (zlen data < SPARSE_HEADER_LEN ∨
   magic (sparse_header_of (ztake SPARSE_HEADER_LEN data)) ≠ SPARSE_HEADER_MAGIC) →
  ∃ s' t', sparse_file_import_auto read lseek64 fd crc verbose t = Ret (Some s', t') ∧
    sf_len s' = zlen data ∧ sf_block_size s' = 4096 ∧
    ∀ off, 0 ≤ off → blocks_read env 4096 (data_blocks (sf_bbl s')) off = zlookup data off.
Proof.
  intros Hrf Henv Hat Hdata Hns. unfold sparse_file_import_auto.
  assert (∃ t1 k, sparse_file_import read lseek64 fd false crc t = Ret (None, t1) ∧ at_ t1 k)
    as (t1 & k & -> & Hat1).
  { unfold sparse_file_import, sparse_file_import_source. cbn [ReadValue SparseFileFdSource].
    destruct (Z.lt_ge_cases (zlen data) SPARSE_HEADER_LEN) as [Hlt|Hge].
    - destruct (read_all_loop_eof read lseek64 data at_ (Z.to_nat SPARSE_HEADER_LEN) SPARSE_HEADER_LEN 0 0 [] t)
        as (got & t1 & Heq & Hat1); [done|pose proof (zlen_nonneg data); lia|lia|lia|lia|].
      unfold read_all. rewrite Heq. mred. by eexists _, _.
    - destruct (read_all_ok read lseek64 data at_ SPARSE_HEADER_LEN 0 t Hat) as (t1 & -> & Hat1);
        [lia|done|lia|]. mred. rewrite zdrop_0.
      destruct Hns as [|Hm]; [lia|]. rewrite (proj2 (Z.eqb_neq _ _) Hm). mred. by eexists _, _. }
  mred. destruct (rf_end t1 k Hat1) as (e & t2 & -> & Hat2).
  pose proof (zlen_nonneg data) as Hnn. destruct (Z.ltb_spec (zlen data) 0); [lia|].
  destruct (rf_set t2 _ 0 Hat2 ltac:(done)) as (e' & t3 & -> & Hat3). cbn [sf_block_size sf_len sf_bbl].
  set (s0 := mk_sparse_file _ _ _ _).
  destruct (read_normal_image env fd 4096 s0 t3) as (s' & t' & Heq & Hfi & Hlen); try done.
  - destruct (filling_new env 4096 (zlen data) ltac:(done)). by split.
  - lia.
  - apply Z.le_lt_trans with (2 ^ 30); [|lia]. apply div_round_up_le; lia.
  - rewrite Heq. mred. exists s', t'. destruct Hfi. split_and!; try done.
Qed.
End claims.

(** Reading a file in HOLE mode rounds the end of the data up to a block
    boundary and then fails with [-EINVAL] at the end of a file whose length is
    not a multiple of the block size, where NORMAL mode succeeds. *)
Theorem read_hole_unaligned_fails :
  let data := [x61; x62; x63; x64; x65] in
  let s := sparse_file_new 4 (zlen data) in
  (∃ s' t', sparse_file_read ex_read ex_lseek 3 9 s SPARSE_READ_MODE_HOLE false (data, 0) =
              Ret (- EINVAL, s', t')) ∧
  (∃ s' t', sparse_file_read ex_read ex_lseek 3 9 s SPARSE_READ_MODE_NORMAL false (data, 0) =
              Ret (0, s', t')).
Proof. split; eexists _, _; vm_compute; reflexivity. Qed.

Definition ex_plain : list byte := [x07; x00; x00; x00; x07; x00; x00; x00; x01; x02; x03; x04; x61].

Lemma sparse_file_read_normal_correct_witness :
  ∃ s' t', sparse_file_read ex_read ex_lseek 3 0 (sparse_file_new 8 13)
             SPARSE_READ_MODE_NORMAL false (ex_plain, 0) = Ret (0, s', t') ∧
    bbl_ok (sf_bbl s') ∧ sf_len s' = 13 ∧ sf_block_size s' = 8 ∧
    ∀ off, 0 ≤ off →
      blocks_read (mk_env (λ _, ex_plain) (λ _, [])) 8 (data_blocks (sf_bbl s')) off = zlookup ex_plain off.
Proof.
  apply (sparse_file_read_normal_correct ex_read ex_lseek ex_plain (λ t k, t = (ex_plain, k))
    (mk_env (λ _, ex_plain) (λ _, [])) 3 8 0); [apply ex_regular|done..].
Defined.

Lemma import_auto_plain_witness :
  ∃ s' t', sparse_file_import_auto ex_read ex_lseek 3 false false (ex_plain, 0) = Ret (Some s', t') ∧
    sf_len s' = 13 ∧ sf_block_size s' = 4096 ∧
    ∀ off, 0 ≤ off →
      blocks_read (mk_env (λ _, ex_plain) (λ _, [])) 4096 (data_blocks (sf_bbl s')) off = zlookup ex_plain off.
Proof.
  apply (import_auto_plain ex_read ex_lseek ex_plain (λ t k, t = (ex_plain, k))
    (mk_env (λ _, ex_plain) (λ _, [])) 3 false false); [apply ex_regular|done..|by left].
Defined.

