(* ===== verification/Resparse.v ===== *)
(** Splitting a sparse file into files of bounded size: the theorems about
    [move_chunks_up_to_len] and [sparse_file_resparse] of sparse.cpp. *)

From S2P Require Import Prelude Crc32 SparseFormat BackedBlock OutputFile Sparse SparseFacts.
Open Scope Z_scope.

(** Size of the chunks of a list of blocks. *)
Definition chunks_size (env : backing_env) (bs : Z) (l : list backed_block) (last : Z) : Z :=
  zlen (concat (chunk_list env bs l last)).

(** Image blocks covered by a list. *)
Definition blocks_count (bs : Z) (l : list backed_block) : Z :=
  foldr (λ b n, DIV_ROUND_UP (bb_len b) bs + n) 0 l.

Section resparse.
Context (env : backing_env) (map_fd : Z → Z → Z → option (list byte)).
Context (open_file : string → Z) (uninit : Z).
Context (Henv : env_agrees env map_fd open_file).
Context (bs : Z) (Hbs : block_size_ok bs).

Definition gap_size (b : backed_block) (last : Z) : Z :=
  if bb_block b >? last then CHUNK_HEADER_LEN else 0.

Lemma chunks_size_app p l last :
  chunks_size env bs (p ++ l) last =
  chunks_size env bs p last + chunks_size env bs l (blocks_end bs p last).
Proof.
  unfold chunks_size. revert last. induction p as [|b p IH]; intros last; [done|].
  cbn [app chunk_list blocks_end]. rewrite !concat_app, !zlen_app. cbn [concat].
  rewrite !zlen_app, IH. lia.
Qed.

Lemma chunks_size_cons b l last :
  chunks_size env bs (b :: l) last =
  gap_size b last + zlen (chunk_bytes env bs b) + chunks_size env bs l (bb_end bs b).
Proof.
  unfold chunks_size, gap_size. cbn [chunk_list]. rewrite concat_app, zlen_app. cbn [concat].
  rewrite zlen_app. destruct (_ >? _); cbn [concat]; [|change (zlen []) with 0; lia].
  rewrite app_nil_r. unfold skip_bytes. rewrite zlen_chunk_header_bytes. lia.
Qed.

Lemma blocks_end_app p l last : blocks_end bs (p ++ l) last = blocks_end bs l (blocks_end bs p last).
Proof. revert last. induction p; intros; simpl; auto. Qed.

Lemma blocks_count_app p l : blocks_count bs (p ++ l) = blocks_count bs p + blocks_count bs l.
Proof. unfold blocks_count. induction p; simpl; lia. Qed.

Lemma chunks_size_nonneg l last : 0 ≤ chunks_size env bs l last.
Proof. apply zlen_nonneg. Qed.

Lemma gap_size_range b last : 0 ≤ gap_size b last ≤ 12.
Proof. unfold gap_size. unfold_format. destruct (_ >? _); lia. Qed.

(** A chunk takes 16 bytes (a fill) or its header and its blocks. *)
Lemma chunk_bytes_size b :
  0 ≤ bb_len b → bb_ready env b →
  zlen (chunk_bytes env bs b) =
  match bb_type b with BACKED_BLOCK_FILL _ => 16 | _ => 12 + DIV_ROUND_UP (bb_len b) bs * bs end.
Proof.
  intros Hl Hr. pose proof Hbs as [Hb1 _]. pose proof (div_round_up_bounds (bb_len b) bs ltac:(lia)).
  assert (∀ t, backing_ready env t (bb_len b) →
    match t with BACKED_BLOCK_FILL _ => True | _ => zlen (backing_bytes env t (bb_len b)) = bb_len b end)
    as Hz.
  { intros [d|f o|fd o|v]; cbn [backing_ready backing_bytes]; intros; [..|done];
      rewrite zlen_ztake; rewrite ?zlen_zdrop; lia. }
  specialize (Hz _ Hr). unfold chunk_bytes.
  destruct (bb_type b); rewrite zlen_app, zlen_chunk_header_bytes;
    rewrite ?zlen_app, ?zlen_le_bytes, ?Hz, ?zlen_zeros by lia; unfold_format; lia.
Qed.

(** ** The counting loop *)

(** Where the loop stops, for a list [l] of which a prefix is done. *)
Inductive stops (len : Z) (l : list backed_block) : move_end → Prop :=
| stops_all last_bb :
    chunks_size env bs l 0 ≤ len →
    last_bb = match l with [] => None | _ => Some (pred (length l)) end →
    stops len l (MoveRest last_bb)
| stops_before p b q :
    l = p ++ b :: q → p ≠ [] → chunks_size env bs p 0 ≤ len →
    stops len l (MoveTo (Some (pred (length p))) None)
| stops_split p b q n :
    l = p ++ b :: q → n = len - chunks_size env bs p 0 - 12 → 0 ≤ n →
    bs ≤ n → (p = [] ∨ len / 8 < n) →
    stops len l (MoveTo (Some (length p)) (Some (length p, n))).

Lemma move_loop_stops len p l out :
  blocks_ok bs (p ++ l) → Forall (block_writable env bs) l →
  of_sparse out = true → of_block_size out = bs →
  8 * bs + 12 ≤ len < 2 ^ 32 → chunks_size env bs p 0 ≤ len →
  ∃ e out', move_loop map_fd open_file uninit bs len l (length p)
      (match p with [] => None | _ => Some (pred (length p)) end)
      (blocks_end bs p 0) (chunks_size env bs p 0) out = Ret (e, out') ∧ stops len (p ++ l) e.
Proof.
  intros Hok Hw. revert p out Hok. induction Hw as [|b l Hwb Hw IH]; intros p out Hok Hsp Hob Hlen Hp.
  { eexists _, out. cbn [move_loop]. split; [reflexivity|]. rewrite app_nil_r. by apply stops_all. }
  pose proof Hok as Hb. apply blocks_ok_app in Hb as (_ & Hb & _).
  apply blocks_ok_cons in Hb as (Hb & _ & _). pose proof Hbs as [Hb1 _].
  cbn [move_loop]. rewrite (next_block_small bs Hbs) by done.
  set (o1 := set_sink out _).
  rewrite (write_block_sparse (callback_file_ops out_counter_write) (fun c d => i64 (c + zlen d)) env
    map_fd open_file uninit Henv bs Hbs b o1) by done.
  mred. cbn [sink chunk_done]. change (sink o1) with (gap_size b (blocks_end bs p 0)).
  pose proof (gap_size_range b (blocks_end bs p 0)) as Hg. pose proof (chunks_size_nonneg p 0) as Hp0.
  assert (0 ≤ zlen (chunk_bytes env bs b) < 2 ^ 33) as Hcb.
  { pose proof Hb as (_ & Hl & _). destruct Hwb as [Hr Hwb]. rewrite chunk_bytes_size by done.
    pose proof (div_round_up_nonneg (bb_len b) bs Hl ltac:(lia)).
    unfold CHUNK_HEADER_LEN in Hwb. destruct (bb_type b); nia. }
  rewrite i64_small by lia. rewrite Z.gtb_ltb.
  destruct (Z.ltb_spec len (chunks_size env bs p 0 + (gap_size b (blocks_end bs p 0) +
    zlen (chunk_bytes env bs b)))) as [Hover|Hfit].
  - change CHUNK_HEADER_LEN with 12.
    assert (bs ≤ len / 8) as H8 by (apply Z.div_le_lower_bound; lia).
    rewrite Z.gtb_ltb. destruct p as [|a p]; cbn [bool_decide decide].
    + eexists _, _. rewrite bool_decide_true by done. cbn [orb]. split; [reflexivity|].
      change (chunks_size env bs [] 0) with 0 in *. rewrite u32_small by lia.
      apply (stops_split len _ [] b l); [done|change (chunks_size env bs [] 0) with 0; lia|lia|lia|by left].
    + rewrite bool_decide_false by done. cbn [orb].
      destruct (Z.ltb_spec (len / 8) (len - (chunks_size env bs (a :: p) 0 + 12))) as [Hbig|Hsmall].
      * eexists _, _. split; [reflexivity|]. rewrite u32_small by lia.
        apply (stops_split len _ (a :: p) b l); [done|lia|lia|lia|right; lia].
      * eexists _, _. split; [reflexivity|]. by apply (stops_before len _ (a :: p) b l).
  - set (o2 := chunk_done _ o1 _ _ _).
    assert (chunks_size env bs (p ++ [b]) 0 = chunks_size env bs p 0 +
      (gap_size b (blocks_end bs p 0) + zlen (chunk_bytes env bs b))) as Hsz.
    { rewrite chunks_size_app, chunks_size_cons. change (chunks_size env bs [] _) with 0. lia. }
    destruct (IH (p ++ [b]) o2) as (e & out' & Heq & Hst); try done.
    { by rewrite <- app_assoc. } { lia. }
    rewrite <- app_assoc in Hst. exists e, out'. split; [|done]. rewrite <- Heq.
    rewrite Hsz, blocks_end_app, length_app, Nat.add_comm. cbn [blocks_end length Nat.add].
    destruct p; cbn [app length]; rewrite ?length_app; cbn; rewrite ?Nat.add_1_r; done.
Qed.

(** ** One output file *)

(** Blocks as resparsing needs them. *)
Definition blocks_fine (l : list backed_block) : Prop :=
  blocks_ok bs l ∧ Forall (block_writable env bs) l ∧ Forall (λ b, 0 < bb_len b) l.

(** [l'] cuts the blocks of [l] into smaller ones with the same contents. *)
Record refines (l l' : list backed_block) : Prop := {
  rf_fine : blocks_fine l';
  rf_img e off : blocks_read e bs l' off = blocks_read e bs l off;
  rf_ends n : Forall (λ b, bb_end bs b ≤ n) l → Forall (λ b, bb_end bs b ≤ n) l';
  rf_starts n : Forall (λ b, n ≤ bb_block b) l → Forall (λ b, n ≤ bb_block b) l';
  rf_count : blocks_count bs l' = blocks_count bs l
}.

Lemma refines_refl l : blocks_fine l → refines l l.
Proof. by split. Qed.

Lemma refines_trans l1 l2 l3 : refines l1 l2 → refines l2 l3 → refines l1 l3.
Proof.
  intros [? H1 H2 H3 H4] [? K1 K2 K3 K4]. split; auto; intros; congruence.
Qed.

Lemma refines_prefix a l l' : blocks_fine (a ++ l) → refines l l' → refines (a ++ l) (a ++ l').
Proof.
  intros (Hok & Hw & Hp) [(Hok' & Hw' & Hp') Hi He Hs Hc].
  apply blocks_ok_app in Hok as (Ha & _ & Hal).
  apply Forall_app in Hw as [Hw _], Hp as [Hp _]. split.
  - split_and!; [|by apply Forall_app..]. apply blocks_ok_app. split_and!; [done..|].
    intros x y Hx Hy. specialize (Hs (bb_block x + 1)) as Hs1. specialize (Hs (bb_end bs x)) as Hs2.
    rewrite Forall_forall in Hs1, Hs2. rewrite Forall_forall in Hs1, Hs2.
    split; [enough (bb_block x + 1 ≤ bb_block y) by lia; apply Hs1|apply Hs2]; try done;
      intros z Hz; destruct (Hal x z Hx Hz); lia.
  - intros. by apply blocks_read_prefix.
  - intros n [? ?]%Forall_app. apply Forall_app. auto.
  - intros n [? ?]%Forall_app. apply Forall_app. auto.
  - rewrite !blocks_count_app. lia.
Qed.

Lemma split_block_count max_len b :
  bb_ok bs b → bs ≤ max_len → blocks_count bs (split_block bs max_len b) = DIV_ROUND_UP (bb_len b) bs.
Proof.
  intros (_ & Hl & _) Hm. pose proof Hbs as [Hb1 _].
  destruct (align_down_facts bs Hbs max_len Hm) as (Hn & _ & Hd). unfold split_block, blocks_count.
  destruct (Z.leb_spec (bb_len b) (ALIGN_DOWN max_len bs)); cbn [foldr bb_len]; [lia|].
  set (n := ALIGN_DOWN max_len bs) in *. rewrite Hd at 1. rewrite div_round_up_mul by lia.
  replace (bb_len b) with (bb_len b - n + n / bs * bs) at 2 by lia.
  rewrite div_round_up_add_mul by lia. lia.
Qed.

Lemma split_block_fine max_len b :
  bb_ok bs b → bs ≤ max_len → block_writable env bs b → 0 < bb_len b →
  Forall (λ x, block_writable env bs x ∧ 0 < bb_len x) (split_block bs max_len b).
Proof.
  intros Hok Hm [Hr Hw] Hpos. pose proof (split_block_ready env bs Hbs max_len b Hok Hm Hr) as Hready.
  destruct (align_down_facts bs Hbs max_len Hm) as (Hn & _ & Hd). pose proof Hbs as [Hb1 _].
  unfold split_block in *. set (n := ALIGN_DOWN max_len bs) in *.
  destruct (Z.leb_spec (bb_len b) n); [by constructor|].
  apply Forall_cons in Hready as [Hr1 [Hr2 _]%Forall_cons].
  pose proof (div_round_up_mono n (bb_len b) bs ltac:(lia) ltac:(lia)).
  pose proof (div_round_up_mono (bb_len b - n) (bb_len b) bs ltac:(lia) ltac:(lia)).
  constructor; [|constructor; [|constructor]]; (split; [split; [done|]|]); cbn [bb_len bb_type] in *; try lia.
  - destruct (bb_type b); try done; nia.
  - destruct (bb_type b); cbn [backing_skip]; try done; nia.
Qed.

Lemma split_refines p b q max_len :
  blocks_fine (p ++ b :: q) → bs ≤ max_len →
  refines (p ++ b :: q) (p ++ split_block bs max_len b ++ q).
Proof.
  intros (Hok & Hw & Hp) Hm. pose proof Hok as Hb. apply blocks_ok_app in Hb as (_ & Hb & _).
  apply blocks_ok_cons in Hb as (Hb & _ & _).
  apply Forall_app in Hw as [Hw1 [Hwb Hw2]%Forall_cons], Hp as [Hp1 [Hpb Hp2]%Forall_cons].
  pose proof (split_block_fine max_len b Hb Hm Hwb Hpb) as [Hsw Hsp]%Forall_and.
  split.
  - split_and!; [by apply split_block_ok_app|rewrite !Forall_app; done|rewrite !Forall_app; done].
  - intros. by apply blocks_read_split.
  - intros n [Hn1 [Hnb Hn2]%Forall_cons]%Forall_app. rewrite !Forall_app. split_and!; try done.
    destruct (split_block_ok bs Hbs max_len b Hb Hm) as (_ & Hr & _).
    apply Forall_forall. intros x Hx. destruct (Hr x Hx). lia.
  - intros n [Hn1 [Hnb Hn2]%Forall_cons]%Forall_app. rewrite !Forall_app. split_and!; try done.
    destruct (split_block_ok bs Hbs max_len b Hb Hm) as (_ & Hr & _).
    apply Forall_forall. intros x Hx. destruct (Hr x Hx). lia.
  - rewrite !blocks_count_app, split_block_count by done. unfold blocks_count at 4. simpl.
    fold (blocks_count bs q). lia.
Qed.

(** The part that goes to the output file, and the rest. *)
Record part (len : Z) (l l1 l2 : list backed_block) (more : bool) : Prop := {
  pt_refines : refines l (l1 ++ l2);
  pt_size : chunks_size env bs l1 0 ≤ len + 12;
  pt_progress : l ≠ [] → l1 ≠ [];
  pt_done : more = false → l2 = [];
  pt_more : l = [] → more = false
}.

(** The split piece fits: its header and its blocks, plus the 12 bytes of a
    possible gap that are not accounted for. *)
Lemma split_piece_size len p b q n x t :
  blocks_fine (p ++ b :: q) → 8 * bs + 12 ≤ len →
  n = len - chunks_size env bs p 0 - 12 → bs ≤ n → (p = [] ∨ len / 8 < n) →
  split_block bs n b = x :: t → chunks_size env bs (p ++ [x]) 0 ≤ len + 12.
Proof.
  intros (Hok & Hw & Hp) Hlen Hn Hbn Hcase Hs. pose proof Hok as Hb. apply blocks_ok_app in Hb as (_ & Hb & _).
  apply blocks_ok_cons in Hb as (Hb & _ & _).
  apply Forall_app in Hw as [_ [Hwb _]%Forall_cons], Hp as [_ [Hpb _]%Forall_cons].
  pose proof (split_block_fine n b Hb Hbn Hwb Hpb) as Hf. pose proof Hbs as [Hb1 Hb4].
  destruct (align_down_facts bs Hbs n Hbn) as (Han & _ & Hd).
  rewrite Hs in Hf. apply Forall_cons in Hf as [[[Hr Hwx] Hpx] _].
  rewrite chunks_size_app, chunks_size_cons. change (chunks_size env bs [] _) with 0.
  pose proof (gap_size_range x (blocks_end bs p 0)).
  rewrite chunk_bytes_size by (done || lia).
  assert (DIV_ROUND_UP (bb_len x) bs * bs ≤ ALIGN_DOWN n bs) as Hdx.
  { unfold split_block in Hs. destruct (Z.leb_spec (bb_len b) (ALIGN_DOWN n bs)); injection Hs as <- _; cbn [bb_len].
    - pose proof (div_round_up_le (bb_len b) bs (ALIGN_DOWN n bs / bs) ltac:(lia) ltac:(lia)). nia.
    - rewrite Hd at 1. rewrite div_round_up_mul by lia. lia. }
  assert (4 ≤ bs) by (pose proof (Z.div_mod bs 4); lia).
  assert (chunks_size env bs p 0 + 16 ≤ len) as H16 by lia.
  destruct (bb_type x); lia.
Qed.

Lemma list_move_to_empty from to e :
  data_blocks to = [] → (e < length (data_blocks from))%nat →
  backed_block_list_move from to (Some O) (Some e) =
  (mk_bbl (drop (S e) (data_blocks from)) None (bbl_block_size from),
   mk_bbl (take (S e) (data_blocks from)) None (bbl_block_size to)).
Proof. intros Ht He. unfold backed_block_list_move. by rewrite Ht, Nat.sub_0_r, drop_0. Qed.

Lemma split_block_cons n b : ∃ x t, split_block bs n b = x :: t.
Proof. unfold split_block. destruct (_ <=? _); by eexists _, _. Qed.

Lemma move_chunks_part from slen verbose lu max_len l :
  blocks_fine l → sf_bbl from = mk_bbl l lu bs → 8 * bs + 68 ≤ max_len < 2 ^ 32 →
  ∃ l1 l2 lu1 lu2 more,
    move_chunks_up_to_len map_fd open_file uninit from
      (mk_sparse_file bs slen verbose (backed_block_list_new bs)) max_len =
      Ret (0, set_bbl from (mk_bbl l2 lu2 bs), mk_sparse_file bs slen verbose (mk_bbl l1 lu1 bs), more) ∧
    part (max_len - move_overhead) l l1 l2 more ∧ (lu1 = None ∧ (lu2 = None ∨ l2 = [])).
Proof.
  intros Hfine Hfrom Hmax. pose proof Hfine as (Hok & Hw & Hp). pose proof Hbs as [Hb1 _].
  unfold move_chunks_up_to_len. rewrite Hfrom. cbn [data_blocks sf_block_size sf_len sf_bbl].
  assert (move_overhead = 56) as Hov by done. rewrite u32_small by lia.
  set (len := max_len - move_overhead) in *.
  unfold output_file_open, output_file_init. mred. unfold out_write, on_sink.
  cbn [op_write callback_file_ops]. unfold callback_file_write, out_counter_write. mred.
  change (0 <? 0) with false. cbv iota. set (o0 := set_sink _ _).
  destruct (move_loop_stops len [] l o0) as (e & out' & Heq & Hst); try done; [lia..|
    by change (chunks_size env bs [] 0) with 0; lia|].
  change (chunks_size env bs [] 0) with 0 in Heq. cbn [length blocks_end app] in Heq, Hst.
  rewrite Heq. mred. destruct Hst as [last_bb Hsz ->|p b q -> Hne Hsz|p b q n -> Hn Hn0 Hbn Hcase].
  - destruct l as [|a l].
    + eexists [], [], None, lu, false. split; [reflexivity|]. split; [|by auto].
      split; try done. change (chunks_size env bs [] 0) with 0. lia.
    + rewrite list_move_to_empty by (done || (simpl; lia)). cbn [data_blocks].
      replace (S (pred (length (a :: l)))) with (length (a :: l)) by done.
      rewrite drop_all, firstn_all. cbn [bbl_block_size backed_block_list_new].
      eexists (a :: l), [], None, None, false. split; [reflexivity|]. split; [|by auto].
      split; try done; [|lia]. rewrite app_nil_r. by apply refines_refl.
  - assert (S (pred (length p)) = length p) as Hlp by (destruct p; simpl; done).
    destruct (p ++ b :: q) as [|x y] eqn:E; [by destruct p|]. rewrite <- E in *.
    rewrite list_move_to_empty by (done || (cbn [data_blocks]; rewrite length_app; simpl; lia)).
    cbn [data_blocks]. rewrite Hlp, take_app_length, drop_app_length.
    eexists p, (b :: q), None, None, true. split; [reflexivity|]. split; [|by auto].
    split; [by apply refines_refl|lia|done|done|by destruct p].
  - destruct (p ++ b :: q) as [|x y] eqn:E; [by destruct p|]. rewrite <- E in *.
    pose proof Hok as Hb. apply blocks_ok_app in Hb as (_ & Hb & _).
    apply blocks_ok_cons in Hb as (Hb & _ & _).
    destruct (backed_block_split_eq bs Hbs (mk_bbl (p ++ b :: q) lu bs) p b q n) as (lu' & -> & _); [done..|].
    mred. destruct (split_block_cons n b) as (z & t & Ez). rewrite Ez.
    rewrite list_move_to_empty by (done || (cbn [data_blocks]; rewrite length_app; simpl; lia)). cbn [data_blocks].
    rewrite (app_assoc p [z] (t ++ q) : p ++ (z :: t) ++ q = (p ++ [z]) ++ t ++ q).
    assert (S (length p) = length (p ++ [z])) as -> by (rewrite length_app; simpl; lia).
    rewrite take_app_length, drop_app_length.
    eexists (p ++ [z]), (t ++ q), None, None, true. split; [reflexivity|]. split; [|by auto].
    split; try done.
    + rewrite <- app_assoc. change ([z] ++ t ++ q) with ((z :: t) ++ q). rewrite <- Ez. by apply split_refines.
    + eapply split_piece_size; [exact Hfine|lia|exact Hn|done|done|exact Ez].
    + by destruct p.
    + by destruct p.
Qed.

(** ** All output files *)

Lemma move_search_last l blk :
  Forall (λ b, bb_block b ≤ blk) l → move_search l blk = pred (length l).
Proof.
  induction 1 as [|a l Ha Hl IH]; [done|]. destruct l as [|b l]; [done|].
  change (move_search (a :: b :: l) blk) with
    (if bb_block b >? blk then O else S (move_search (b :: l) blk)).
  rewrite IH. apply Forall_cons in Hl as [Hb _].
  rewrite Z.gtb_ltb. destruct (Z.ltb_spec blk (bb_block b)); [lia|done].
Qed.

(** Moving a whole list behind another one. *)
Lemma list_move_append l lu lt lut :
  blocks_ok bs (lt ++ l) →
  ∃ from', backed_block_list_move (mk_bbl l lu bs) (mk_bbl lt lut bs) None None =
    (from', mk_bbl (lt ++ l) (match l with [] => lut | _ => None end) bs).
Proof.
  intros Hok. unfold backed_block_list_move. cbn [data_blocks].
  destruct l as [|a l]; [rewrite app_nil_r; by eexists|].
  rewrite decide_True by (simpl; lia). rewrite drop_0, Nat.sub_0_r.
  change (S (pred (length (a :: l)))) with (length (a :: l)). rewrite firstn_all.
  destruct lt as [|b lt0] eqn:E; [by eexists|]. rewrite <- E in *.
  rewrite move_search_last.
  - assert (S (pred (length lt)) = length lt) as -> by (subst; done).
    rewrite firstn_all, !drop_all, !app_nil_r. by eexists.
  - apply blocks_ok_app in Hok as (_ & _ & Hb). apply Forall_forall. intros x Hx.
    destruct (Hb x a Hx ltac:(by left)). lia.
Qed.

(** An output file: what [sparse_file_resparse] promises of each. *)
Definition output_ok (max_len slen : Z) (s : sparse_file) : Prop :=
  sf_block_size s = bs ∧ sf_len s = slen ∧ bbl_block_size (sf_bbl s) = bs ∧
  last_used (sf_bbl s) = None ∧
  chunks_size env bs (data_blocks (sf_bbl s)) 0 ≤ max_len - move_overhead + 12.

Definition all_blocks (outs : list sparse_file) : list backed_block :=
  concat ((λ s, data_blocks (sf_bbl s)) <$> outs).

Lemma all_blocks_snoc outs s : all_blocks (outs ++ [s]) = all_blocks outs ++ data_blocks (sf_bbl s).
Proof. unfold all_blocks. rewrite fmap_app, concat_app. simpl. by rewrite app_nil_r. Qed.

Lemma blocks_count_nonneg l : blocks_fine l → 0 ≤ blocks_count bs l.
Proof.
  intros (_ & _ & Hp). pose proof Hbs as [? _]. unfold blocks_count.
  induction Hp as [|x l Hx Hl IH]; cbn [foldr]; [lia|].
  pose proof (div_round_up_pos (bb_len x) bs). lia.
Qed.

Lemma blocks_fine_app l1 l2 : blocks_fine (l1 ++ l2) → blocks_fine l1 ∧ blocks_fine l2.
Proof.
  intros (Hok & [? ?]%Forall_app & [? ?]%Forall_app). apply blocks_ok_app in Hok as (? & ? & _).
  split; by split_and!.
Qed.

Lemma blocks_count_pos l : blocks_fine l → l ≠ [] → 0 < blocks_count bs l.
Proof.
  intros Hf Hne. destruct l as [|b l]; [done|]. pose proof Hbs as [? _].
  destruct (blocks_fine_app [b] l Hf) as [(_ & _ & [Hb _]%Forall_cons) Hl].
  pose proof (blocks_count_nonneg l Hl). pose proof (div_round_up_pos (bb_len b) bs).
  change (blocks_count bs (b :: l)) with (DIV_ROUND_UP (bb_len b) bs + blocks_count bs l). lia.
Qed.

Lemma resparse_loop_ok slen max_len count l0 fuel :
  8 * bs + 68 ≤ max_len < 2 ^ 32 →
  ∀ in_s tmp c outs l lu lt lut,
  sf_block_size in_s = bs → sf_len in_s = slen → sf_bbl in_s = mk_bbl l lu bs →
  sf_bbl tmp = mk_bbl lt lut bs → 0 ≤ c → zlen outs = Z.min c (Z.max 0 count) →
  (c ≤ count → lt = []) → Forall (output_ok max_len slen) outs →
  refines l0 (all_blocks outs ++ lt ++ l) → (Z.to_nat (blocks_count bs l) < fuel)%nat →
  ∃ c' in_s' outs' tmp' lt' lut' lu',
    resparse_loop map_fd open_file uninit fuel max_len count in_s tmp c outs =
      Ret (c', in_s', outs', tmp') ∧
    sf_bbl in_s' = mk_bbl [] lu' bs ∧ sf_block_size in_s' = bs ∧ sf_len in_s' = slen ∧
    sf_bbl tmp' = mk_bbl lt' lut' bs ∧ c < c' ∧
    zlen outs' = Z.min c' (Z.max 0 count) ∧ (c' ≤ count → lt' = []) ∧
    Forall (output_ok max_len slen) outs' ∧ refines l0 (all_blocks outs' ++ lt').
Proof.
  intros Hmax. induction fuel as [|fuel IH];
    intros in_s tmp c outs l lu lt lut Hb Hs Hin Htmp Hc Hn Hlt Hout Href Hf; [lia|].
  cbn [resparse_loop]. pose proof (rf_fine _ _ Href) as Hfine.
  destruct (blocks_fine_app _ _ Hfine) as [_ Hfine1]. destruct (blocks_fine_app _ _ Hfine1) as [_ Hfinel].
  unfold sparse_file_new. rewrite Hb, Hs.
  destruct (move_chunks_part in_s slen false lu max_len l Hfinel Hin Hmax)
    as (l1 & l2 & lu1 & lu2 & more & -> & [Hp1 Hp2 Hp3 Hp4 Hp5] & Hlu1 & Hlu2).
  mred. set (s := mk_sparse_file bs slen false (mk_bbl l1 lu1 bs)).
  assert (refines l0 (all_blocks outs ++ lt ++ l1 ++ l2)) as Href1.
  { eapply refines_trans; [exact Href|]. rewrite !app_assoc. rewrite <- (app_assoc _ l1 l2).
    apply refines_prefix; [by rewrite <- app_assoc|done]. }
  assert (output_ok max_len slen s) as Hos by by repeat split.
  (* where the file goes *)
  assert (∃ outs1 tmp1 lt1 lut1,
    (if c <? count then (outs ++ [s], tmp)
     else let '(_, t) := backed_block_list_move (sf_bbl s) (sf_bbl tmp) None None in
          (outs, set_bbl tmp t)) = (outs1, tmp1) ∧
    sf_bbl tmp1 = mk_bbl lt1 lut1 bs ∧ zlen outs1 = Z.min (c + 1) (Z.max 0 count) ∧
    (c + 1 ≤ count → lt1 = []) ∧ Forall (output_ok max_len slen) outs1 ∧
    all_blocks outs1 ++ lt1 = all_blocks outs ++ lt ++ l1) as
    (outs1 & tmp1 & lt1 & lut1 & -> & Htmp1 & Hn1 & Hlt1 & Hout1 & Hall).
  { destruct (Z.ltb_spec c count) as [Hlt'|Hge].
    - exists (outs ++ [s]), tmp, lt, lut. rewrite (Hlt ltac:(lia)) in *. split_and!; try done.
      + rewrite zlen_app, Hn. change (zlen [s]) with 1. lia.
      + apply Forall_app. by repeat constructor.
      + by rewrite all_blocks_snoc, app_nil_r.
    - rewrite Htmp. cbn [sf_bbl s]. destruct (list_move_append l1 lu1 lt lut) as (from' & ->).
      { pose proof (rf_fine _ _ Href1) as (Hok1 & _). rewrite app_assoc in Hok1.
        apply blocks_ok_app in Hok1 as (_ & _ & _). pose proof (rf_fine _ _ Href1) as Hf1.
        destruct (blocks_fine_app _ _ Hf1) as [_ Hf2]. rewrite app_assoc in Hf2.
        destruct (blocks_fine_app _ _ Hf2) as [(? & _) _]. done. }
      eexists outs, _, (lt ++ l1), _. split_and!; [reflexivity|reflexivity|lia|lia|done|done]. }
  assert (refines l0 (all_blocks outs1 ++ lt1 ++ l2)) as Href2.
  { rewrite app_assoc, Hall, <- !app_assoc. done. }
  destruct more.
  - destruct (IH (set_bbl in_s (mk_bbl l2 lu2 bs)) tmp1 (c + 1) outs1 l2 lu2 lt1 lut1)
      as (c' & in_s' & outs' & tmp' & lt' & lut' & lu' & Heq & H1 & H2 & H3 & H4 & H5 & H6 & H7 & H8 & H9);
      try done; [lia| |].
    { pose proof (rf_count _ _ Hp1) as Hcnt. rewrite blocks_count_app in Hcnt.
      destruct (decide (l = [])) as [->|Hne].
      - by specialize (Hp5 eq_refl).
      - destruct (blocks_fine_app _ _ (rf_fine _ _ Hp1)) as [Hf1 Hf2].
        pose proof (blocks_count_pos l1 Hf1 (Hp3 Hne)). pose proof (blocks_count_nonneg l2 Hf2). lia. }
    eexists c', in_s', outs', tmp', lt', lut', lu'. rewrite Heq. split_and!; try done. lia.
  - rewrite (Hp4 eq_refl) in *. rewrite app_nil_r in Href2.
    eexists _, _, _, _, lt1, lut1, lu2. split; [reflexivity|]. split_and!; try done. lia.
Qed.
End resparse.

Lemma all_blocks_elem outs s :
  s ∈ outs → ∃ a b, all_blocks outs = a ++ data_blocks (sf_bbl s) ++ b.
Proof.
  intros (p & q & ->)%list_elem_of_split. exists (all_blocks p), (all_blocks q).
  unfold all_blocks. rewrite fmap_app, concat_app. done.
Qed.

(** The length of the image of a file in terms of the size of its chunks. *)
Lemma image_bytes_size env s :
  zlen (image_bytes env s false) ≤
  SPARSE_HEADER_LEN + chunks_size env (sf_block_size s) (data_blocks (sf_bbl s)) 0 + CHUNK_HEADER_LEN.
Proof.
  unfold image_bytes, image_chunks, chunks_size. rewrite app_nil_r, zlen_app, concat_app, zlen_app.
  rewrite zlen_sparse_header_bytes. destruct (blocks_end _ _ _ <? _); cbn [concat].
  - rewrite !app_nil_r. unfold skip_bytes. rewrite zlen_app, zlen_chunk_header_bytes. lia.
  - rewrite !app_nil_r. unfold_format. lia.
Qed.

Lemma output_sf_ok env bs max_len slen s :
  block_size_ok bs → output_ok env bs max_len slen s → blocks_fine env bs (data_blocks (sf_bbl s)) →
  0 ≤ slen < 2 ^ 63 → slen mod bs = 0 → slen / bs < 2 ^ 31 - 1 →
  Forall (λ b, bb_end bs b ≤ slen / bs) (data_blocks (sf_bbl s)) → sf_ok s.
Proof.
  intros Hbs (Hb & Hl & Hbb & Hlu & _) (Hok & _) H1 H2 H3 H4. split; rewrite ?Hb, ?Hl; try done.
  unfold bbl_ok. by rewrite Hbb, Hlu.
Qed.

(** ** Properties *)

(** C8: for a limit of at least eight blocks and 68 bytes ([8 * block_size + 68
    <= max_len]) [sparse_file_resparse] terminates and distributes the image
    over its output files: read one after the other (with what is left in the
    input when there are more files than [out_s] can hold) they are in block
    order, do not overlap, and together hold exactly the image of the input;
    every output file is well-formed, spans the whole device, and its sparse
    image, written without a CRC chunk, is at most [max_len] bytes long.  (A CRC
    chunk takes 16 bytes more; for limits that leave less than one block see the
    divergence below.) *)
Theorem sparse_file_resparse_correct env map_fd open_file uninit fuel in_s max_len count :
  env_agrees env map_fd open_file → sf_ok in_s →
  Forall (block_writable env (sf_block_size in_s)) (data_blocks (sf_bbl in_s)) →
  Forall (λ b, 0 < bb_len b) (data_blocks (sf_bbl in_s)) →
  8 * sf_block_size in_s + 68 ≤ max_len < 2 ^ 32 →
  (Z.to_nat (blocks_count (sf_block_size in_s) (data_blocks (sf_bbl in_s))) < fuel)%nat →
  ∃ c in_s' outs,
    sparse_file_resparse map_fd open_file uninit fuel in_s max_len count = Ret (c, in_s', outs) ∧
    0 < c ∧ zlen outs = Z.min c (Z.max 0 count) ∧ (c ≤ count → data_blocks (sf_bbl in_s') = []) ∧
    Forall (λ s, sf_ok s ∧ sf_len s = sf_len in_s ∧
      ∃ n, sparse_file_len map_fd open_file uninit s true false = Ret n ∧ n ≤ max_len) outs ∧
    blocks_ok (sf_block_size in_s) (all_blocks outs ++ data_blocks (sf_bbl in_s')) ∧
    ∀ e off, blocks_read e (sf_block_size in_s) (all_blocks outs ++ data_blocks (sf_bbl in_s')) off =
             blocks_read e (sf_block_size in_s) (data_blocks (sf_bbl in_s)) off.
Proof.
  intros Henv Hok Hw Hp Hmax Hf. pose proof (sf_block_size_ok _ Hok) as Hbs.
  pose proof (sf_blocks_ok _ Hok) as Hbl. set (bs := sf_block_size in_s) in *.
  assert (∃ l lu, sf_bbl in_s = mk_bbl l lu bs) as (l & lu & Hin).
  { pose proof (sf_bs _ Hok) as E. fold bs in E. destruct (sf_bbl in_s) as [l lu b]. simpl in E. subst b.
    by eexists _, _. }
  rewrite Hin in *. cbn [data_blocks] in *. unfold sparse_file_resparse.
  destruct (resparse_loop_ok env map_fd open_file uninit Henv bs Hbs (sf_len in_s) max_len count l fuel Hmax
    in_s (sparse_file_new bs (sf_len in_s)) 0 [] l lu [] None) as
    (c & in_s' & outs & tmp & lt & lut & lu' & Heq & Hin' & Hb' & Hs' & Htmp & Hc & Hn & Hlt & Hout & Href);
    try done; [change (zlen []) with 0; lia|].
  fold bs. rewrite Heq. mred. destruct (Z.ltb_spec c 0); [lia|]. rewrite Htmp, Hin'.
  pose proof (rf_fine _ _ _ _ Href) as Hfine. destruct (blocks_fine_app env bs _ _ Hfine) as [Hfo (Hlok & _)].
  destruct (list_move_append bs lt lut [] lu') as (from' & ->); [done|].
  eexists c, _, outs. split; [reflexivity|]. cbn [sf_bbl set_bbl data_blocks app].
  split_and!; [lia|done|done| |exact (proj1 Hfine)|exact (rf_img _ _ _ _ Href)].
  pose proof (sf_inside _ Hok) as Hinside. rewrite Hin in Hinside. fold bs in Hinside.
  pose proof (rf_ends _ _ _ _ Href _ Hinside) as Hends. apply Forall_forall. intros s Hs.
  pose proof (proj1 (Forall_forall _ _) Hout s Hs) as Ho. destruct (all_blocks_elem outs s Hs) as (a & b & Hab).
  assert (blocks_fine env bs (data_blocks (sf_bbl s))) as Hsf.
  { rewrite Hab in Hfo. apply blocks_fine_app in Hfo as [_ Hfo]. by apply blocks_fine_app in Hfo as [? _]. }
  assert (sf_ok s) as Hsok.
  { rewrite Hab, !Forall_app in Hends. destruct Hends as ((_ & ? & _) & _), Hok.
    by apply (output_sf_ok env bs max_len (sf_len in_s)). }
  destruct Ho as (Hsb & Hsl & _ & _ & Hsz). split_and!; [done..|].
  pose proof (image_bytes_size env s) as Hsize. rewrite Hsb in Hsize.
  assert (move_overhead = 56) as Hov by done. unfold_format.
  exists (zlen (image_bytes env s false)). split; [|lia].
  unfold sparse_file_len.
  rewrite (write_image_sparse _ _ env map_fd open_file uninit Henv); [|exact I|done|rewrite Hsb; apply Hsf].
  mred. rewrite Z.add_0_l, i64_small; [done|].
  pose proof (zlen_nonneg (image_bytes env s false)). lia.
Qed.

(** Twelve bytes of a file, then fills, split for a limit of 100 bytes. *)
Definition ex_big : sparse_file :=
  mk_sparse_file 4 400 false
    (mk_bbl [mk_bb 1 12 (BACKED_BLOCK_FD 3 0); mk_bb 5 40 (BACKED_BLOCK_FILL 7);
             mk_bb 20 90 (BACKED_BLOCK_DATA (zeros 90)); mk_bb 50 4 (BACKED_BLOCK_FILL 1)] None 4).

Lemma ex_big_ok : sf_ok ex_big.
Proof.
  split; try done; [|repeat constructor; done].
  split_and!; [done| |done]. split; repeat constructor; done.
Qed.

Lemma sparse_file_resparse_correct_witness :
  ∃ c in_s' outs,
    sparse_file_resparse ex_map (λ _, 3) 0 100 ex_big 100 9 = Ret (c, in_s', outs) ∧
    0 < c ∧ zlen outs = Z.min c 9 ∧ (c ≤ 9 → data_blocks (sf_bbl in_s') = []) ∧
    Forall (λ s, sf_ok s ∧ sf_len s = 400 ∧
      ∃ n, sparse_file_len ex_map (λ _, 3) 0 s true false = Ret n ∧ n ≤ 100) outs ∧
    blocks_ok 4 (all_blocks outs ++ data_blocks (sf_bbl in_s')) ∧
    ∀ e off, blocks_read e 4 (all_blocks outs ++ data_blocks (sf_bbl in_s')) off =
             blocks_read e 4 (data_blocks (sf_bbl ex_big)) off.
Proof.
  apply (sparse_file_resparse_correct ex_env ex_map (λ _, 3) 0 100 ex_big 100 9).
  - apply ex_env_agrees.
  - apply ex_big_ok.
  - repeat constructor; done.
  - repeat constructor; done.
  - done.
  - vm_compute. lia.
Defined.

(** *** Limits that are too small *)

Definition is_fill (b : backed_block) : bool :=
  match bb_type b with BACKED_BLOCK_FILL _ => true | _ => false end.

(** Splitting at less than one block cuts off an empty block and leaves the
    whole block behind it. *)
Lemma split_nothing bs b q lu n :
  block_size_ok bs → bb_ok bs b → 0 < bb_len b → 0 ≤ n < bs →
  ∃ lu', backed_block_split (mk_bbl (b :: q) lu bs) 0 n =
    Ret (0, mk_bbl (mk_bb (bb_block b) 0 (bb_type b) :: b :: q) lu' bs).
Proof.
  intros Hbs Hok Hpos Hn. unfold backed_block_split. cbn [bbl_block_size data_blocks lookup list_lookup].
  assert (ALIGN_DOWN n bs = 0) as ->.
  { unfold ALIGN_DOWN. rewrite Z.div_small by lia. lia. }
  destruct (Z.leb_spec (bb_len b) 0); [lia|]. rewrite Z.div_0_l, Z.add_0_r, Z.sub_0_r by lia.
  pose proof (bb_len_bound bs Hbs b Hok) as Hl. destruct Hok as (Hb & Hl0 & He & Heb & Hk).
  unfold bb_end in *. pose proof (div_round_up_nonneg (bb_len b) bs ltac:(lia) ltac:(lia)).
  destruct Hbs as [Hb1 _]. rewrite u32_small, u64_small by nia. cbn [take app drop].
  assert (mk_bb (bb_block b) (bb_len b) (backing_skip (bb_type b) 0) = b) as ->; [|by eexists].
  destruct b as [blk len [d|f o|fd o|v]]; cbn [bb_block bb_len bb_type backing_skip backing_ok] in *;
    rewrite ?zdrop_0, ?Z.add_0_r, ?i64_small by lia; done.
Qed.

(** The first output file gets an empty block, and the input stays as it is. *)
Lemma move_nothing env map_fd open_file uninit from b q lu slen max_len :
  let bs := sf_block_size from in
  env_agrees env map_fd open_file → block_size_ok bs → sf_bbl from = mk_bbl (b :: q) lu bs →
  bb_ok bs b → block_writable env bs b → 0 < bb_len b → is_fill b = false →
  68 ≤ max_len < 68 + bs → max_len < 2 ^ 32 →
  ∃ s', move_chunks_up_to_len map_fd open_file uninit from (sparse_file_new bs slen) max_len =
    Ret (0, set_bbl from (mk_bbl (b :: q) None bs), s', true).
Proof.
  intros bs Henv Hbs Hfrom Hok Hw Hpos Hfill Hmax H32. pose proof Hbs as [Hb1 _].
  unfold move_chunks_up_to_len, sparse_file_new. rewrite Hfrom.
  cbn [data_blocks sf_block_size sf_len sf_bbl]. assert (move_overhead = 56) as Hov by done.
  rewrite u32_small by lia. set (len := max_len - move_overhead) in *.
  unfold output_file_open, output_file_init. mred. unfold out_write, on_sink.
  cbn [op_write callback_file_ops]. unfold callback_file_write, out_counter_write. mred.
  change (0 <? 0) with false. cbv iota. set (o0 := set_sink _ _). cbn [move_loop].
  set (o1 := set_sink o0 _).
  rewrite (write_block_sparse (callback_file_ops out_counter_write) (fun c d => i64 (c + zlen d)) env
    map_fd open_file uninit Henv bs Hbs b o1) by done.
  mred. cbn [sink chunk_done]. change (sink o1) with (gap_size b 0).
  pose proof (gap_size_range b 0) as Hg.
  assert (12 + bs ≤ zlen (chunk_bytes env bs b) < 2 ^ 33) as Hcb.
  { destruct Hw as [Hr Hw]. rewrite (chunk_bytes_size env bs Hbs) by (done || lia).
    assert (1 ≤ DIV_ROUND_UP (bb_len b) bs) by (pose proof (div_round_up_bounds (bb_len b) bs); nia).
    unfold CHUNK_HEADER_LEN, is_fill in *. destruct (bb_type b); try done; nia. }
  rewrite i64_small by lia. rewrite Z.gtb_ltb, Z.add_0_l.
  destruct (Z.ltb_spec len (gap_size b 0 + zlen (chunk_bytes env bs b))); [|lia].
  rewrite bool_decide_true by done. cbn [orb]. change CHUNK_HEADER_LEN with 12. rewrite u32_small by lia.
  mred. destruct (split_nothing bs b q lu (len - (0 + 12)) Hbs Hok Hpos ltac:(lia)) as (lu' & ->). mred.
  rewrite list_move_to_empty by (done || (simpl; lia)). by eexists.
Qed.

(** C31: [sparse_file_resparse] never terminates when the limit leaves room for
    the headers but for less than one block ([68 <= max_len < 68 + block_size])
    and the first block of the input holds data (is not a fill): every round
    splits off an empty block, moves it to an output file of its own, and finds
    the input as it was. *)
Theorem sparse_file_resparse_small_diverges env map_fd open_file uninit fuel in_s b q max_len count :
  env_agrees env map_fd open_file → sf_ok in_s → data_blocks (sf_bbl in_s) = b :: q →
  block_writable env (sf_block_size in_s) b → 0 < bb_len b → is_fill b = false →
  68 ≤ max_len < 68 + sf_block_size in_s → max_len < 2 ^ 32 →
  sparse_file_resparse map_fd open_file uninit fuel in_s max_len count = OutOfFuel.
Proof.
  intros Henv Hok Hl Hw Hpos Hfill Hmax H32. unfold sparse_file_resparse.
  pose proof (sf_block_size_ok _ Hok) as Hbs. pose proof (sf_bs _ Hok) as Hbb.
  assert (bb_ok (sf_block_size in_s) b) as Hb.
  { pose proof (sf_blocks_ok _ Hok) as H. rewrite Hl in H. by apply blocks_ok_cons in H as [? _]. }
  assert (∀ tmp c outs lu, resparse_loop map_fd open_file uninit fuel max_len count
      (set_bbl in_s (mk_bbl (b :: q) lu (sf_block_size in_s))) tmp c outs = OutOfFuel) as Hloop.
  { induction fuel as [|fuel IH]; intros tmp c outs lu; [done|]. cbn [resparse_loop].
    destruct (move_nothing env map_fd open_file uninit
      (set_bbl in_s (mk_bbl (b :: q) lu (sf_block_size in_s))) b q lu (sf_len in_s) max_len)
      as (s' & Hmove); try done.
    cbn [sf_block_size sf_len set_bbl] in *. rewrite Hmove. mred. destruct (c <? count); [apply IH|].
    destruct (backed_block_list_move _ _ _ _). apply IH. }
  assert (in_s = set_bbl in_s (mk_bbl (b :: q) (last_used (sf_bbl in_s)) (sf_block_size in_s))) as E.
  { destruct in_s as [? ? ? []]. simpl in *. by subst. }
  specialize (Hloop (sparse_file_new (sf_block_size in_s) (sf_len in_s)) 0 []
    (last_used (sf_bbl in_s))).
  rewrite <- E in Hloop. by rewrite Hloop.
Qed.

Lemma sparse_file_resparse_small_diverges_witness :
  sparse_file_resparse ex_map (λ _, 3) 0 1000 ex_big 71 9 = OutOfFuel.
Proof.
  apply (sparse_file_resparse_small_diverges ex_env ex_map (λ _, 3) 0 1000 ex_big
    (mk_bb 1 12 (BACKED_BLOCK_FD 3 0)) (tail (data_blocks (sf_bbl ex_big))) 71 9);
    [apply ex_env_agrees|apply ex_big_ok|done|by repeat split|done|done|done|done].
Defined.

(** A limit below the fixed overhead of 56 bytes wraps around in the
    [unsigned int] subtraction: the file is not split at all, and its image is
    longer than the limit. *)
Theorem sparse_file_resparse_tiny_limit_ignored :
  ∃ s' out n,
    sparse_file_resparse ex_map (λ _, 3) 0 9 ex_big 55 9 = Ret (1, s', [out]) ∧
    sparse_file_len ex_map (λ _, 3) 0 out true false = Ret n ∧ 55 < n.
Proof. eexists _, _, _. split; [vm_compute; reflexivity|]. split; [vm_compute; reflexivity|done]. Qed.
