(* ===== verification/IOVector.v ===== *)
(** Chained buffers of adb (packages/modules/adb/types.h and types.cpp).

    [Block] is a heap buffer with a size below its capacity, [IOVector] a chain
    of blocks of which a prefix is consumed.  The abstract view of an [IOVector]
    is a queue of bytes, and every operation is shown to be the queue operation
    of that name.

    [std::vector::operator[]] beyond the end, and [memcpy] beyond the end of a
    buffer, are undefined behaviour and modelled as [AssertFail], like a failed
    [CHECK].  The contents of freshly allocated memory are a parameter
    ([garbage]). *)

From S2P Require Import Prelude.
Open Scope Z_scope.

(** ** [struct Block] *)

(** [data_] is the whole buffer, [capacity_] bytes; a null pointer is an empty
    one. *)
Record Block : Type := mk_block {
  data_ : list byte;
  size_ : Z
}.

Definition capacity (b : Block) : Z := zlen (data_ b).
Definition empty_block : Block := mk_block [] 0.

(** The bytes [begin(), end()). *)
Definition contents (b : Block) : list byte := ztake (size_ b) (data_ b).

Definition block_of (l : list byte) : Block := mk_block l (zlen l).

(** [memcpy(buf + off, src, n)] and [memmove] for buffers of the given sizes. *)
Definition poke (buf : list byte) (off : Z) (src : list byte) : outcome (list byte) :=
  if (0 <=? off) && (off + zlen src <=? zlen buf)
  then Ret (ztake off buf ++ src ++ zdrop (off + zlen src) buf)
  else AssertFail.

Section iovector.
(** Bytes of [new char[n]]. *)
Context (garbage : Z → list byte).

Definition allocate (size : Z) : Block :=
  if size =? 0 then empty_block else mk_block (garbage size) size.

Definition resize (b : Block) (new_size : Z) : outcome Block :=
  if capacity b =? 0 then Ret (allocate new_size)
  else if new_size <=? capacity b then Ret (mk_block (data_ b) new_size)
  else AssertFail.

(** [memmove(data, data + off, size - off); resize(size - off)] *)
Definition block_shift (b : Block) (off : Z) : outcome Block :=
  buf ← poke (data_ b) 0 (zdrop off (contents b));
  resize (mk_block buf (size_ b)) (size_ b - off).

(** ** [struct IOVector] *)

Record IOVector : Type := mk_iov {
  chain_length_ : Z;     (* size_t *)
  begin_offset_ : Z;     (* size_t *)
  start_index_ : nat;    (* size_t *)
  chain_ : list Block
}.

Definition iov_new : IOVector := mk_iov 0 0 0 [].

Definition iov_size (v : IOVector) : Z := u64 (chain_length_ v - begin_offset_ v).

(** [chain_[i]] *)
Definition chain_at (v : IOVector) (i : nat) : outcome Block :=
  match chain_ v !! i with Some b => Ret b | None => AssertFail end.

Definition front (v : IOVector) : outcome Block := chain_at v (start_index_ v).

Definition front_size (v : IOVector) : outcome Z :=
  match chain_ v with
  | [] => Ret 0
  | _ => b ← front v; Ret (u64 (size_ b - begin_offset_ v))
  end.

(** The bytes from [front_data()] to the end of the block; [None] is a null
    pointer. *)
Definition front_data (v : IOVector) : outcome (option (list byte)) :=
  match chain_ v with
  | [] => Ret None
  | _ => b ← front v; Ret (Some (zdrop (begin_offset_ v) (contents b)))
  end.

Definition clear (v : IOVector) : Block * IOVector :=
  (match last (chain_ v) with Some b => b | None => empty_block end, iov_new).

Definition append (v : IOVector) (b : Block) : IOVector :=
  if size_ b =? 0 then v
  else mk_iov (u64 (chain_length_ v + size_ b)) (begin_offset_ v) (start_index_ v) (chain_ v ++ [b]).

Definition trim_chain_front (v : IOVector) : IOVector :=
  if decide (start_index_ v = 0%nat) then v
  else mk_iov (chain_length_ v) (begin_offset_ v) 0 (drop (start_index_ v) (chain_ v)).

Definition pop_front_block (v : IOVector) : outcome IOVector :=
  b ← front v;
  let v := mk_iov (u64 (chain_length_ v - size_ b)) 0 (S (start_index_ v))
             (<[start_index_ v := empty_block]> (chain_ v)) in
  Ret (if decide (Nat.max 4 (length (chain_ v) / 2) < start_index_ v)%nat
       then trim_chain_front v else v).

(** The loop of [drop_front]; [dropped] is an [unsigned int]. *)
Fixpoint drop_front_loop (fuel : nat) (len dropped : Z) (v : IOVector) : outcome IOVector :=
  if dropped <? len then
    match fuel with
    | O => OutOfFuel
    | S fuel =>
        b ← front v;
        let next := u64 (size_ b - begin_offset_ v) in
        if u64 (dropped + next) <=? len then
          v ← pop_front_block v;
          drop_front_loop fuel len (u32 (dropped + next)) v
        else
          let taken := len - dropped in
          Ret (mk_iov (chain_length_ v) (u64 (begin_offset_ v + taken)) (start_index_ v) (chain_ v))
    end
  else Ret v.

Definition drop_front (v : IOVector) (len : Z) : outcome IOVector :=
  if len =? 0 then Ret v
  else if len =? iov_size v then Ret (clear v).2
  else
    _ ← c_assert (len <? iov_size v);
    drop_front_loop (S (length (chain_ v))) len 0 v.

(** The first loop of [take_front]: blocks that move as a whole. *)
Fixpoint take_front_loop (fuel : nat) (len : Z) (res v : IOVector)
    : outcome (Z * IOVector * IOVector) :=
  b ← front v;
  if u64 (size_ b - begin_offset_ v) <=? len then
    match fuel with
    | O => OutOfFuel
    | S fuel =>
        let i := start_index_ v in
        let chain_length := u64 (chain_length_ v - size_ b) in
        let len := u64 (len - (size_ b - begin_offset_ v)) in
        let '(res, chain) :=
          if size_ b >? begin_offset_ v then
            let res := append res b in
            (if negb (begin_offset_ v =? 0)
             then mk_iov (chain_length_ res) (begin_offset_ v) (start_index_ res) (chain_ res)
             else res,
             <[i := empty_block]> (chain_ v))
          else (res, chain_ v) in
        take_front_loop fuel len res (mk_iov chain_length 0 (S i) chain)
    end
  else Ret (len, res, v).

(** The block that is split between the two vectors. *)
Definition take_front_split (len : Z) (res v : IOVector) : outcome (IOVector * IOVector) :=
  if len >? 0 then
    b ← front v;
    if negb (begin_offset_ v =? 0) || (len <? size_ b / 2) then
      let block := block_of (ztake len (zdrop (begin_offset_ v) (contents b))) in
      Ret (append res block,
           mk_iov (chain_length_ v) (u64 (begin_offset_ v + len)) (start_index_ v) (chain_ v))
    else
      _ ← c_assert (begin_offset_ v =? 0);
      let block := block_of (zdrop len (contents b)) in
      front_part ← resize b len;
      Ret (append res front_part,
           mk_iov (u64 (u64 (chain_length_ v - size_ b) + size_ block)) (begin_offset_ v)
             (start_index_ v) (<[start_index_ v := block]> (chain_ v)))
  else Ret (res, v).

(** [take_front]: the new vector, and what is left of [*this]. *)
Definition take_front (v : IOVector) (len : Z) : outcome (IOVector * IOVector) :=
  if len =? 0 then Ret (iov_new, v)
  else if len =? iov_size v then Ret (v, iov_new)
  else
    _ ← c_assert (len <=? iov_size v);
    '(len, res, v) ← take_front_loop (length (chain_ v)) len iov_new v;
    take_front_split len res v.

Definition trim_front (v : IOVector) : outcome IOVector :=
  if ((begin_offset_ v =? 0) && bool_decide (start_index_ v = 0%nat)) || bool_decide (chain_ v = [])
  then Ret v
  else
    b ← front v;
    v' ← (if begin_offset_ v =? size_ b then
            Ret (mk_iov (chain_length_ v) (begin_offset_ v) (S (start_index_ v)) (chain_ v))
          else
            b' ← block_shift b (begin_offset_ v);
            Ret (mk_iov (chain_length_ v) (begin_offset_ v) (start_index_ v)
                   (<[start_index_ v := b']> (chain_ v))));
    Ret (trim_chain_front (mk_iov (u64 (chain_length_ v' - begin_offset_ v')) 0
                             (start_index_ v') (chain_ v'))).

(** [iterate_blocks] with the callback's arguments collected in a list. *)
Fixpoint iterate_from (first : bool) (off : Z) (l : list Block) : outcome (list (list byte)) :=
  match l with
  | [] => Ret []
  | b :: l =>
      _ ← c_assert (negb first || (off <=? size_ b));
      rest ← iterate_from false off l;
      Ret ((if first then zdrop off (contents b) else contents b) :: rest)
  end.

Definition iterate_blocks (v : IOVector) : outcome (list (list byte)) :=
  if iov_size v =? 0 then Ret []
  else iterate_from true (begin_offset_ v) (drop (start_index_ v) (chain_ v)).

(** [iovecs]: base and length of each element, as the bytes they cover. *)
Definition iovecs (v : IOVector) : outcome (list (list byte)) := iterate_blocks v.

(** [memcpy(&result[offset], data, len); offset += len;] for each piece. *)
Fixpoint copy_pieces (buf : list byte) (offset : Z) (pieces : list (list byte))
    : outcome (list byte) :=
  match pieces with
  | [] => Ret buf
  | p :: pieces =>
      buf ← poke buf offset p;
      copy_pieces buf (offset + zlen p) pieces
  end.

(** [coalesce() const&] *)
Definition coalesce (v : IOVector) : outcome Block :=
  if iov_size v =? 0 then Ret empty_block
  else
    result ← resize empty_block (iov_size v);
    pieces ← iterate_blocks v;
    buf ← copy_pieces (data_ result) 0 pieces;
    Ret (mk_block buf (size_ result)).

(** [coalesced(f)]: the argument [f] is called with. *)
Definition coalesced (v : IOVector) : outcome (list byte) :=
  if decide (length (chain_ v) = S (start_index_ v)) then
    b ← front v;
    Ret (ztake (iov_size v) (zdrop (begin_offset_ v) (contents b)))
  else b ← coalesce v; Ret (contents b).

(** [coalesce() &&]: the result, and what is left. *)
Definition coalesce_move (v : IOVector) : outcome (Block * IOVector) :=
  if iov_size v =? 0 then Ret (empty_block, v)
  else
    b0 ← front v;
    let i := start_index_ v in
    let n := length (chain_ v) in
    let bk := match last (chain_ v) with Some b => b | None => empty_block end in
    if (begin_offset_ v =? size_ b0) && bool_decide (n = S (S i)) then
      Ret (bk, mk_iov (u64 (chain_length_ v - size_ bk)) (begin_offset_ v) i (take (pred n) (chain_ v)))
    else if decide (n = S i) then
      let chain_length := u64 (chain_length_ v - size_ bk) in
      if negb (begin_offset_ v =? 0) then
        res ← block_shift bk (begin_offset_ v);
        Ret (res, mk_iov chain_length 0 i (take (pred n) (chain_ v)))
      else Ret (bk, mk_iov chain_length (begin_offset_ v) i (take (pred n) (chain_ v)))
    else if iov_size v <=? capacity b0 then
      let chain_length := u64 (chain_length_ v - size_ b0) in
      let head := zdrop (begin_offset_ v) (contents b0) in
      buf ← (if negb (begin_offset_ v =? 0) then poke (data_ b0) 0 head else Ret (data_ b0));
      let pieces := contents <$> drop (S i) (chain_ v) in
      buf ← copy_pieces buf (size_ b0 - begin_offset_ v) pieces;
      res ← resize (mk_block buf (size_ b0)) (size_ b0 - begin_offset_ v + zlen (concat pieces));
      Ret (res, mk_iov chain_length 0 (S i) (<[i := empty_block]> (chain_ v)))
    else b ← coalesce v; Ret (b, v).
End iovector.

(** ** Abstract view and invariant *)

(** The blocks that are not consumed. *)
Definition live (v : IOVector) : list Block := drop (start_index_ v) (chain_ v).

(** All bytes of a list of blocks. *)
Definition all_bytes (l : list Block) : list byte := concat (contents <$> l).

(** The queue of bytes an [IOVector] stands for. *)
Definition view (v : IOVector) : list byte := zdrop (begin_offset_ v) (all_bytes (live v)).

(** A non-empty block whose size is within its buffer. *)
Definition block_ok (b : Block) : Prop := 0 < size_ b ≤ zlen (data_ b).

Record iov_ok (v : IOVector) : Prop := {
  iov_blocks : Forall block_ok (live v);
  iov_length : chain_length_ v = zlen (all_bytes (live v));
  iov_bound : chain_length_ v < 2 ^ 64;
  iov_front : match live v with
              | [] => v = iov_new
              | b :: _ => 0 ≤ begin_offset_ v < size_ b
              end
}.

(** The weaker condition under which the readers of a vector work: the first
    live block may be consumed to its end without having been popped. *)
Record iov_weak (v : IOVector) : Prop := {
  wk_blocks : Forall block_ok (live v);
  wk_length : chain_length_ v = zlen (all_bytes (live v));
  wk_bound : chain_length_ v < 2 ^ 64;
  wk_front : match live v with
             | [] => v = iov_new
             | b :: _ => 0 ≤ begin_offset_ v ≤ size_ b
             end
}.

Lemma iov_ok_weak v : iov_ok v → iov_weak v.
Proof. intros [? ? ? Hf]. split; try done. destruct (live v); [done|lia]. Qed.

Lemma zlen_contents b : block_ok b → zlen (contents b) = size_ b.
Proof. intros [? ?]. unfold contents. apply zlen_ztake. lia. Qed.

Lemma all_bytes_cons b l : all_bytes (b :: l) = contents b ++ all_bytes l.
Proof. done. Qed.

Lemma all_bytes_app l1 l2 : all_bytes (l1 ++ l2) = all_bytes l1 ++ all_bytes l2.
Proof. unfold all_bytes. by rewrite fmap_app, concat_app. Qed.

Lemma zdrop_app_l {A} n (l1 l2 : list A) : 0 ≤ n ≤ zlen l1 → zdrop n (l1 ++ l2) = zdrop n l1 ++ l2.
Proof. intros. unfold zdrop, zlen in *. apply drop_app_le. lia. Qed.

Lemma zdrop_app_r {A} n (l1 l2 : list A) : zlen l1 ≤ n → zdrop n (l1 ++ l2) = zdrop (n - zlen l1) l2.
Proof.
  intros. unfold zdrop, zlen in *. rewrite drop_app_ge by lia. f_equal. lia.
Qed.

Lemma ztake_app_l {A} n (l1 l2 : list A) : 0 ≤ n ≤ zlen l1 → ztake n (l1 ++ l2) = ztake n l1.
Proof. intros. unfold ztake, zlen in *. apply take_app_le. lia. Qed.

Lemma ztake_app_r {A} n (l1 l2 : list A) :
  zlen l1 ≤ n → ztake n (l1 ++ l2) = l1 ++ ztake (n - zlen l1) l2.
Proof.
  intros. unfold ztake, zlen in *. rewrite take_app_ge by lia. do 2 f_equal. lia.
Qed.

(** A vector taken apart: consumed blocks, consumed bytes of the first live
    block, live blocks. *)
Lemma weak_parts v b l :
  iov_weak v → live v = b :: l →
  ∃ p, chain_ v = p ++ b :: l ∧ length p = start_index_ v ∧ front v = Ret b ∧
    0 ≤ begin_offset_ v ≤ size_ b ∧ block_ok b ∧ Forall block_ok l ∧
    chain_length_ v = size_ b + zlen (all_bytes l) ∧
    view v = zdrop (begin_offset_ v) (contents b) ++ all_bytes l.
Proof.
  intros [Hb Hl Hbd Hf] Hlive. unfold view. rewrite Hlive in *.
  apply Forall_cons in Hb as [Hb Hbl]. pose proof (zlen_contents b Hb) as Hz.
  assert (chain_ v !! start_index_ v = Some b) as Hlk.
  { unfold live in Hlive. rewrite <- (Nat.add_0_r (start_index_ v)), <- lookup_drop, Hlive. done. }
  exists (take (start_index_ v) (chain_ v)). split_and!; try done; try lia.
  - rewrite <- Hlive. unfold live. by rewrite take_drop.
  - apply length_take_le. apply lookup_lt_Some in Hlk. lia.
  - unfold front, chain_at. by rewrite Hlk.
  - rewrite Hl, all_bytes_cons, zlen_app, Hz. lia.
  - rewrite all_bytes_cons, zdrop_app_l; [done|lia].
Qed.

Lemma iov_parts v b l :
  iov_ok v → live v = b :: l →
  ∃ p, chain_ v = p ++ b :: l ∧ length p = start_index_ v ∧ front v = Ret b ∧
    0 ≤ begin_offset_ v < size_ b ∧ block_ok b ∧ Forall block_ok l ∧
    chain_length_ v = size_ b + zlen (all_bytes l) ∧
    view v = zdrop (begin_offset_ v) (contents b) ++ all_bytes l.
Proof.
  intros Hok Hlive. pose proof (iov_front v Hok) as Hf. rewrite Hlive in Hf.
  destruct (weak_parts v b l (iov_ok_weak v Hok) Hlive) as (p & ? & ? & ? & _ & ?). by exists p.
Qed.

Lemma live_eq L off p l : live (mk_iov L off (length p) (p ++ l)) = l.
Proof. unfold live. simpl. apply drop_app_length. Qed.

Lemma iov_empty v : iov_ok v → live v = [] → v = iov_new.
Proof. intros [_ _ _ Hf] Hl. by rewrite Hl in Hf. Qed.

Lemma iov_new_ok : iov_ok iov_new.
Proof. split; try done. Qed.

Lemma weak_empty v : iov_weak v → live v = [] → v = iov_new.
Proof. intros [_ _ _ Hf] Hl. by rewrite Hl in Hf. Qed.

Lemma weak_size_view v : iov_weak v → iov_size v = zlen (view v).
Proof.
  intros Hok. unfold iov_size. destruct (live v) as [|b l] eqn:Hl.
  { by rewrite (weak_empty v Hok Hl). }
  destruct (weak_parts v b l Hok Hl) as (p & _ & _ & _ & Hoff & Hb & _ & Hlen & Hview).
  pose proof (wk_bound v Hok). pose proof (zlen_contents b Hb). pose proof (zlen_nonneg (all_bytes l)).
  rewrite Hview, zlen_app, zlen_zdrop by lia. rewrite u64_small; lia.
Qed.

Lemma iov_size_view v : iov_ok v → iov_size v = zlen (view v).
Proof. intros Hok. by apply weak_size_view, iov_ok_weak. Qed.

Lemma append_ok v b :
  iov_ok v → 0 ≤ size_ b ≤ zlen (data_ b) → zlen (view v) + begin_offset_ v + size_ b < 2 ^ 64 →
  iov_ok (append v b) ∧ view (append v b) = view v ++ contents b ∧
  begin_offset_ (append v b) = begin_offset_ v.
Proof.
  intros Hok Hb Hbd. unfold append. destruct (Z.eqb_spec (size_ b) 0) as [Hz|Hz].
  { unfold contents. rewrite Hz, ztake_0, app_nil_r. done. }
  assert (block_ok b) as Hbok by (split; lia). pose proof (zlen_contents b Hbok) as Hc.
  destruct (live v) as [|a l] eqn:Hl.
  - rewrite (iov_empty v Hok Hl) in *. change (zlen (view iov_new)) with 0 in Hbd.
    change (begin_offset_ iov_new) with 0 in Hbd. cbn [chain_length_ begin_offset_ start_index_ chain_ iov_new app].
    unfold view, live, all_bytes. cbn. rewrite app_nil_r. rewrite u64_small by lia.
    split; [|split; [by rewrite zdrop_0|done]]. split; unfold live; cbn.
    + by constructor.
    + unfold all_bytes. cbn. rewrite app_nil_r. lia.
    + lia.
    + lia.
  - destruct (iov_parts v a l Hok Hl) as (p & Hch & Hp & _ & Hoff & Ha & Hbl & Hlen & Hview).
    rewrite Hview, zlen_app in Hbd. pose proof (zlen_contents a Ha) as Hza. rewrite zlen_zdrop in Hbd by lia.
    rewrite u64_small by (pose proof (zlen_nonneg (all_bytes l)); lia).
    rewrite Hch, <- Hp, <- app_assoc. cbn [app].
    assert (all_bytes (a :: l ++ [b]) = contents a ++ all_bytes l ++ contents b) as Hab.
    { rewrite all_bytes_cons, all_bytes_app. unfold all_bytes at 2. cbn. by rewrite app_nil_r. }
    split; [|split; [|done]].
    + split; rewrite ?live_eq; cbn [chain_length_ begin_offset_].
      * constructor; [done|]. apply Forall_app. split; [done|]. by constructor.
      * rewrite Hab, !zlen_app. lia.
      * lia.
      * done.
    + rewrite Hview. unfold view. rewrite live_eq. cbn [begin_offset_].
      rewrite Hab, zdrop_app_l by lia. by rewrite <- app_assoc.
Qed.

(** ** [drop_front] *)

Lemma trim_chain_front_live v : live (trim_chain_front v) = live v ∧
  chain_length_ (trim_chain_front v) = chain_length_ v ∧
  begin_offset_ (trim_chain_front v) = begin_offset_ v.
Proof. unfold trim_chain_front. destruct (decide _); [done|]. unfold live. simpl. by rewrite drop_0. Qed.

(** A vector without its first block, when another one follows. *)
Definition without_front (v : IOVector) (b : Block) : IOVector :=
  mk_iov (u64 (chain_length_ v - size_ b)) 0 (S (start_index_ v))
    (<[start_index_ v := empty_block]> (chain_ v)).

Lemma iov_tail_ok v b c l w :
  iov_ok v → live v = b :: c :: l →
  live w = c :: l → chain_length_ w = chain_length_ v - size_ b → begin_offset_ w = 0 →
  iov_ok w ∧ view w = zdrop (size_ b - begin_offset_ v) (view v).
Proof.
  intros Hok Hl Hlw Hcw Hbw. destruct (iov_parts v b (c :: l) Hok Hl)
    as (p & Hch & Hp & Hfr & Hoff & Hb & Hbl & Hlen & Hview).
  pose proof (iov_bound v Hok). pose proof (zlen_nonneg (all_bytes (c :: l))).
  pose proof (zlen_contents b Hb) as Hc. destruct Hb. split.
  - split; rewrite ?Hlw, ?Hcw, ?Hbw; try done; [lia..|]. apply Forall_cons in Hbl as [[? ?] _]. lia.
  - unfold view at 1. rewrite Hlw, Hbw, zdrop_0, Hview.
    rewrite zdrop_app_r; rewrite zlen_zdrop, Hc by lia; [|lia]. by rewrite Z.sub_diag.
Qed.

Lemma without_front_live v b c l :
  iov_ok v → live v = b :: c :: l →
  live (without_front v b) = c :: l ∧ chain_length_ (without_front v b) = chain_length_ v - size_ b.
Proof.
  intros Hok Hl. destruct (iov_parts v b (c :: l) Hok Hl)
    as (p & Hch & Hp & Hfr & Hoff & Hb & Hbl & Hlen & Hview).
  pose proof (iov_bound v Hok). pose proof (zlen_nonneg (all_bytes (c :: l))). destruct Hb. split.
  - unfold without_front, live. cbn [start_index_ chain_]. rewrite Hch, <- Hp.
    rewrite insert_app_r_alt by lia. rewrite Nat.sub_diag. cbn [insert list_insert].
    rewrite (app_assoc p [empty_block] (c :: l) : p ++ empty_block :: c :: l = _).
    apply drop_app_length'. rewrite length_app. simpl. lia.
  - unfold without_front. cbn [chain_length_]. rewrite u64_small; lia.
Qed.

Lemma pop_front_block_ok v b c l :
  iov_ok v → live v = b :: c :: l →
  ∃ v', pop_front_block v = Ret v' ∧ iov_ok v' ∧ live v' = c :: l ∧
    view v' = zdrop (size_ b - begin_offset_ v) (view v) ∧
    chain_length_ v' = chain_length_ v - size_ b.
Proof.
  intros Hok Hl. destruct (iov_parts v b (c :: l) Hok Hl) as (p & _ & _ & Hfr & _).
  unfold pop_front_block. rewrite Hfr. mred. fold (without_front v b).
  destruct (without_front_live v b c l Hok Hl) as [Hl1 Hc1].
  destruct (trim_chain_front_live (without_front v b)) as (T1 & T2 & T3).
  destruct (decide _).
  - destruct (iov_tail_ok v b c l (trim_chain_front (without_front v b)) Hok Hl);
      [congruence|congruence|by rewrite T3|]. eexists. split; [done|]. rewrite T1, T2. done.
  - destruct (iov_tail_ok v b c l (without_front v b) Hok Hl); [done..|]. by eexists.
Qed.

Lemma zlen_view_parts b l off :
  block_ok b → 0 ≤ off < size_ b →
  zlen (zdrop off (contents b) ++ all_bytes l) = size_ b - off + zlen (all_bytes l).
Proof. intros Hb Ho. rewrite zlen_app, zlen_zdrop, zlen_contents by (rewrite ?zlen_contents; done || lia). done. Qed.

(** Moving the start inside the first block. *)
Lemma advance_ok v b l n :
  iov_ok v → live v = b :: l → 0 ≤ n < size_ b - begin_offset_ v →
  let v' := mk_iov (chain_length_ v) (u64 (begin_offset_ v + n)) (start_index_ v) (chain_ v) in
  iov_ok v' ∧ view v' = zdrop n (view v).
Proof.
  intros Hok Hl Hn v'. destruct (iov_parts v b l Hok Hl) as (p & _ & _ & _ & Hoff & Hb & Hbl & Hlen & Hview).
  pose proof (iov_bound v Hok). pose proof (zlen_nonneg (all_bytes l)). pose proof (zlen_contents b Hb).
  assert (begin_offset_ v' = begin_offset_ v + n) as Hbo by (simpl; apply u64_small; lia).
  assert (live v' = live v) as Hl' by done. split.
  - destruct Hok. split; rewrite ?Hl', ?Hbo; try done. rewrite Hl in *. lia.
  - rewrite Hview. unfold view. rewrite Hl', Hbo, Hl, all_bytes_cons.
    rewrite zdrop_app_l by lia. rewrite zdrop_app_l by (rewrite zlen_zdrop; lia).
    by rewrite zdrop_zdrop by lia.
Qed.

Lemma drop_front_loop_ok fuel len dropped v :
  iov_ok v → 0 ≤ dropped ≤ len → len - dropped < zlen (view v) → len < 2 ^ 32 →
  chain_length_ v < 2 ^ 63 → (length (live v) ≤ fuel)%nat →
  ∃ v', drop_front_loop fuel len dropped v = Ret v' ∧ iov_ok v' ∧
    view v' = zdrop (len - dropped) (view v) ∧ chain_length_ v' ≤ chain_length_ v.
Proof.
  revert dropped v. induction fuel as [|fuel IH]; intros dropped v Hok Hd Hlt H32 H63 Hf.
  { destruct (live v) as [|b l] eqn:Hl; [|simpl in Hf; lia].
    rewrite (iov_empty v Hok Hl) in Hlt. change (zlen (view iov_new)) with 0 in Hlt. lia. }
  cbn [drop_front_loop]. destruct (Z.ltb_spec dropped len) as [Hdl|]; cycle 1.
  { assert (len - dropped = 0) as -> by lia. by exists v. }
  destruct (live v) as [|b l] eqn:Hl.
  { rewrite (iov_empty v Hok Hl) in Hlt. change (zlen (view iov_new)) with 0 in Hlt. lia. }
  destruct (iov_parts v b l Hok Hl) as (p & Hch & Hp & Hfr & Hoff & Hb & Hbl & Hlen & Hview).
  rewrite Hview, zlen_view_parts in Hlt by done. pose proof (zlen_nonneg (all_bytes l)).
  rewrite Hfr. mred. rewrite (u64_small (size_ b - begin_offset_ v)) by lia.
  rewrite (u64_small (dropped + _)) by lia.
  destruct (Z.leb_spec (dropped + (size_ b - begin_offset_ v)) len) as [Hle|Hgt].
  - destruct l as [|c l]; [change (zlen (all_bytes [])) with 0 in *; lia|].
    destruct (pop_front_block_ok v b c l Hok Hl) as (v1 & -> & Hok1 & Hl1 & Hv1 & Hcl1). mred.
    rewrite u32_small by lia.
    assert (zlen (view v) = size_ b - begin_offset_ v + zlen (all_bytes (c :: l))) as Hzv
      by (rewrite Hview; by apply zlen_view_parts).
    destruct (IH (dropped + (size_ b - begin_offset_ v)) v1) as (v2 & -> & Hok2 & Hv2 & Hcl2); [done|lia| |done| | |].
    { rewrite Hv1, zlen_zdrop by lia. lia. }
    { rewrite (iov_length v1 Hok1), Hl1. lia. }
    { rewrite Hl1. simpl in *. lia. }
    exists v2. split_and!; try done; [rewrite Hv2, Hv1, zdrop_zdrop by lia; f_equal; lia|].
    destruct Hb. lia.
  - destruct (advance_ok v b l (len - dropped) Hok Hl ltac:(lia)) as [Hok' Hv']. by eexists.
Qed.

(** ** [take_front] *)

(** Moving the whole first block over. *)
Lemma move_block_ok res v b :
  iov_ok res → block_ok b → 0 ≤ begin_offset_ v < size_ b →
  (begin_offset_ v ≠ 0 → res = iov_new) →
  zlen (view res) + begin_offset_ res + size_ b < 2 ^ 64 →
  let res' := if negb (begin_offset_ v =? 0)
              then mk_iov (chain_length_ (append res b)) (begin_offset_ v)
                     (start_index_ (append res b)) (chain_ (append res b))
              else append res b in
  iov_ok res' ∧ view res' = view res ++ zdrop (begin_offset_ v) (contents b) ∧
  zlen (view res') + begin_offset_ res' = zlen (view res) + begin_offset_ res + size_ b.
Proof.
  intros Hres Hb Hoff Hnew Hbd res'. pose proof (zlen_contents b Hb) as Hc. pose proof Hb as [Hb1 Hb2].
  destruct (append_ok res b Hres ltac:(lia) Hbd) as (Hok & Hview & Hbo).
  unfold res'. destruct (Z.eqb_spec (begin_offset_ v) 0) as [Hz|Hz]; cbn [negb].
  - rewrite Hz, zdrop_0, Hview, zlen_app, Hc, Hbo. split_and!; try done. lia.
  - rewrite (Hnew Hz) in *. unfold append in *. rewrite (proj2 (Z.eqb_neq _ _)) in * by lia.
    cbn [chain_length_ begin_offset_ start_index_ chain_ iov_new app] in *.
    change (view iov_new) with (@nil byte) in *. rewrite app_nil_l in *.
    change (zlen []) with 0 in *. cbn [app] in *.
    assert (view (mk_iov (u64 (0 + size_ b)) (begin_offset_ v) 0 [b]) =
      zdrop (begin_offset_ v) (contents b)) as Hv.
    { unfold view, live, all_bytes. cbn. by rewrite app_nil_r. }
    rewrite Hv. split_and!; [|done|rewrite zlen_zdrop; lia].
    destruct Hok as [K1 K2 K3 K4]. split; try done.
Qed.

Lemma take_front_loop_ok fuel len res v :
  iov_ok v → iov_ok res → 0 ≤ len < zlen (view v) → (begin_offset_ v ≠ 0 → res = iov_new) →
  zlen (view res) + begin_offset_ res + chain_length_ v < 2 ^ 64 →
  (length (live v) ≤ S fuel)%nat →
  ∃ len' res' v' b l, take_front_loop fuel len res v = Ret (len', res', v') ∧
    iov_ok v' ∧ iov_ok res' ∧ live v' = b :: l ∧ 0 ≤ len' < size_ b - begin_offset_ v' ∧ len' ≤ len ∧
    view res' = view res ++ ztake (len - len') (view v) ∧ view v' = zdrop (len - len') (view v) ∧
    zlen (view res') + begin_offset_ res' + chain_length_ v' =
    zlen (view res) + begin_offset_ res + chain_length_ v.
Proof.
  revert len res v. induction fuel as [|fuel IH]; intros len res v Hok Hres Hlen Hnew Hbd Hf;
    (destruct (live v) as [|b l] eqn:Hl;
     [rewrite (iov_empty v Hok Hl) in Hlen; change (zlen (view iov_new)) with 0 in Hlen; lia|]);
    destruct (iov_parts v b l Hok Hl) as (p & Hch & Hp & Hfr & Hoff & Hb & Hbl & HL & Hview);
    pose proof (zlen_view_parts b l _ Hb Hoff) as Hzv; rewrite <- Hview in Hzv;
    pose proof (iov_bound v Hok); pose proof (zlen_nonneg (all_bytes l));
    cbn [take_front_loop]; rewrite Hfr; mred; rewrite (u64_small (size_ b - begin_offset_ v)) by lia;
    (destruct (Z.leb_spec (size_ b - begin_offset_ v) len) as [Hle|Hgt]; cycle 1;
     [exists len, res, v, b, l; rewrite Z.sub_diag, ztake_0, app_nil_r, zdrop_0; split_and!; done || lia|]);
    (destruct l as [|c l]; [change (zlen (all_bytes [])) with 0 in *; lia|]); simpl in Hf; [lia|].
  rewrite Z.gtb_ltb, (proj2 (Z.ltb_lt (begin_offset_ v) (size_ b))) by lia.
  rewrite (u64_small (len - _)) by lia.
  pose proof (zlen_nonneg (view res)).
  destruct (move_block_ok res v b Hres Hb Hoff Hnew ltac:(lia)) as (Hres' & Hvr & Hsz).
  fold (without_front v b). destruct (without_front_live v b c l Hok Hl) as [Hl1 Hc1].
  destruct (iov_tail_ok v b c l (without_front v b) Hok Hl Hl1 Hc1 eq_refl) as [Hok1 Hv1].
  destruct (IH (len - (size_ b - begin_offset_ v)) _ (without_front v b) Hok1 Hres')
    as (len' & res'' & v'' & b'' & l'' & Heq & K1 & K2 & K3 & K4 & K5 & K6 & K7 & K8).
  { rewrite Hv1, zlen_zdrop by lia. lia. }
  { intros Hz. by destruct Hz. }
  { rewrite Hsz, Hc1. lia. }
  { rewrite Hl1. simpl. lia. }
  exists len', res'', v'', b'', l''. split; [exact Heq|]. split_and!; try done; try lia.
  - rewrite K6, Hvr, Hv1, <- app_assoc. f_equal.
    replace (len - len') with ((size_ b - begin_offset_ v) + (len - (size_ b - begin_offset_ v) - len')) by lia.
    rewrite ztake_split by lia. f_equal. rewrite Hview.
    symmetry. apply ztake_app_exact. rewrite zlen_zdrop, zlen_contents by (rewrite ?zlen_contents; done || lia). done.
  - rewrite K7, Hv1, zdrop_zdrop by lia. f_equal. lia.
Qed.

Section facts.
Context (garbage : Z → list byte) (Hgarbage : ∀ n, 0 ≤ n → zlen (garbage n) = n).

Lemma contents_block_of l : contents (block_of l) = l.
Proof. unfold contents, block_of. simpl. by apply ztake_all. Qed.

Lemma ztake_ztake {A} n m (l : list A) : 0 ≤ n ≤ m → ztake n (ztake m l) = ztake n l.
Proof. intros. unfold ztake. rewrite take_take. f_equal. lia. Qed.

(** Replacing the first live block, of which nothing is consumed. *)
Lemma replace_front_ok v b l b' L :
  iov_ok v → live v = b :: l → block_ok b' → L = size_ b' + zlen (all_bytes l) → L < 2 ^ 64 →
  let v' := mk_iov L 0 (start_index_ v) (<[start_index_ v := b']> (chain_ v)) in
  iov_ok v' ∧ live v' = b' :: l ∧ view v' = contents b' ++ all_bytes l.
Proof.
  intros Hok Hl Hb' HL HB v'. destruct (iov_parts v b l Hok Hl) as (p & Hch & Hp & _ & _ & _ & Hbl & _).
  assert (live v' = b' :: l) as Hl'.
  { unfold v', live. cbn [start_index_ chain_]. rewrite Hch, <- Hp.
    rewrite insert_app_r_alt by lia. rewrite Nat.sub_diag. apply drop_app_length. }
  split_and!; [|done|unfold view; rewrite Hl', all_bytes_cons; done].
  pose proof (zlen_contents b' Hb'). pose proof Hb' as [? ?].
  split; rewrite ?Hl'; cbn [chain_length_ begin_offset_ v'];
    [by constructor|rewrite all_bytes_cons, zlen_app; lia|done|lia].
Qed.

Lemma block_of_ok d : 0 < zlen d → block_ok (block_of d).
Proof. split; simpl; lia. Qed.

Lemma take_front_split_ok len res v b l :
  iov_ok v → iov_ok res → live v = b :: l → 0 ≤ len < size_ b - begin_offset_ v →
  zlen (view res) + begin_offset_ res + chain_length_ v < 2 ^ 64 →
  ∃ res' v', take_front_split garbage len res v = Ret (res', v') ∧ iov_ok res' ∧ iov_ok v' ∧
    view res' = view res ++ ztake len (view v) ∧ view v' = zdrop len (view v) ∧
    chain_length_ v' ≤ chain_length_ v.
Proof.
  intros Hok Hres Hl Hlen Hbd.
  destruct (iov_parts v b l Hok Hl) as (p & Hch & Hp & Hfr & Hoff & Hb & Hbl & HL & Hview).
  unfold take_front_split. rewrite Z.gtb_ltb. destruct (Z.ltb_spec 0 len) as [Hpos|]; cycle 1.
  { assert (len = 0) as -> by lia. rewrite ztake_0, app_nil_r, zdrop_0. by exists res, v. }
  pose proof (zlen_contents b Hb) as Hc. pose proof (iov_bound v Hok). pose proof (zlen_nonneg (all_bytes l)).
  rewrite Hfr. mred.
  assert (ztake len (view v) = ztake len (zdrop (begin_offset_ v) (contents b))) as Htk.
  { rewrite Hview. apply ztake_app_l. rewrite zlen_zdrop; lia. }
  destruct (Z.eqb_spec (begin_offset_ v) 0) as [Hz|Hz]; cbn [orb]; [destruct (Z.ltb_spec len (size_ b / 2))|].
  2: { (* the buffer moves, its tail is copied back *)
    mred. unfold resize, capacity. destruct Hb as [Hb1 Hb2].
    rewrite (proj2 (Z.eqb_neq _ _)), (proj2 (Z.leb_le _ _)) by lia. mred.
    assert (contents (mk_block (data_ b) len) = ztake len (view v)) as Hct.
    { rewrite Htk, Hz, zdrop_0. unfold contents. simpl. by rewrite ztake_ztake by lia. }
    destruct (append_ok res (mk_block (data_ b) len) Hres) as (Hok' & Hv' & _); [simpl; lia..|].
    destruct (replace_front_ok v b l (block_of (zdrop len (contents b)))
      (u64 (u64 (chain_length_ v - size_ b) + size_ (block_of (zdrop len (contents b))))) Hok Hl)
      as (Hok2 & _ & Hv2); [apply block_of_ok; rewrite zlen_zdrop; lia| | |].
    { cbn [size_ block_of]. rewrite (u64_small (_ - _)) by lia. rewrite zlen_zdrop by lia.
      rewrite u64_small; lia. }
    { apply u64_range. }
    rewrite Hz. eexists _, _. split; [reflexivity|]. split_and!; try done.
    - by rewrite Hv', Hct.
    - rewrite Hv2, contents_block_of, Hview, Hz, zdrop_0. by rewrite zdrop_app_l by lia.
    - cbn [chain_length_ size_ block_of]. rewrite (u64_small (_ - _)) by lia.
      rewrite zlen_zdrop by lia. rewrite u64_small; lia. }
  all: destruct (append_ok res (block_of (ztake len (zdrop (begin_offset_ v) (contents b)))) Hres)
    as (Hok' & Hv' & _); [simpl; split; [apply zlen_nonneg|lia]|
      simpl; rewrite zlen_ztake by (rewrite zlen_zdrop; lia); lia|];
    destruct (advance_ok v b l len Hok Hl ltac:(lia)) as [Hok2 Hv2];
    eexists _, _; (split; [reflexivity|]); split_and!; try done;
    rewrite Hv', contents_block_of; by rewrite Htk.
Qed.

Lemma take_front_ok v len :
  iov_ok v → 0 ≤ len ≤ zlen (view v) →
  ∃ res v', take_front garbage v len = Ret (res, v') ∧ iov_ok res ∧ iov_ok v' ∧
    view res = ztake len (view v) ∧ view v' = zdrop len (view v) ∧
    chain_length_ v' ≤ chain_length_ v.
Proof.
  intros Hok Hlen. assert (0 ≤ chain_length_ v) by (rewrite (iov_length v Hok); apply zlen_nonneg).
  unfold take_front. rewrite (iov_size_view v Hok).
  destruct (Z.eqb_spec len 0) as [->|Hne].
  { exists iov_new, v. by split_and!. }
  destruct (Z.eqb_spec len (zlen (view v))) as [->|Hlt].
  { exists v, iov_new. split_and!; try done; [by rewrite ztake_all|].
    unfold zdrop, zlen. rewrite Nat2Z.id, drop_all. done. }
  rewrite (proj2 (Z.leb_le _ _)) by lia. mred.
  pose proof (iov_bound v Hok) as Hbd.
  destruct (take_front_loop_ok (length (chain_ v)) len iov_new v Hok iov_new_ok)
    as (len' & res & v' & b & l & -> & K1 & K2 & K3 & K4 & K5 & K6 & K7 & K8); [lia|done|done| |].
  { unfold live. rewrite length_drop. lia. }
  mred. change (view iov_new) with (@nil byte) in *. rewrite app_nil_l in K6.
  destruct (take_front_split_ok len' res v' b l K1 K2 K3 K4) as (res' & v2 & -> & J1 & J2 & J3 & J4 & J5).
  { rewrite K8. change (zlen []) with 0. change (begin_offset_ iov_new) with 0. lia. }
  exists res', v2. split_and!; try done.
  - rewrite J3, K6, K7, <- ztake_split by lia. f_equal. lia.
  - rewrite J4, K7, zdrop_zdrop by lia. f_equal. lia.
  - assert (0 ≤ begin_offset_ res).
    { pose proof (iov_front res K2) as Hfr. destruct (live res); [by subst|lia]. }
    pose proof (zlen_nonneg (view res)). change (zlen []) with 0 in K8.
    change (begin_offset_ iov_new) with 0 in K8. lia.
Qed.

Lemma drop_front_ok v len :
  iov_ok v → 0 ≤ len ≤ zlen (view v) → len < 2 ^ 32 → chain_length_ v < 2 ^ 63 →
  ∃ v', drop_front v len = Ret v' ∧ iov_ok v' ∧ view v' = zdrop len (view v) ∧
    chain_length_ v' ≤ chain_length_ v.
Proof.
  intros Hok Hlen H32 H63.
  assert (0 ≤ chain_length_ v) by (rewrite (iov_length v Hok); apply zlen_nonneg). unfold drop_front. rewrite (iov_size_view v Hok).
  destruct (Z.eqb_spec len 0) as [->|Hne]; [by exists v|].
  destruct (Z.eqb_spec len (zlen (view v))) as [->|Hlt].
  { exists iov_new. split_and!; try done.
    unfold zdrop, zlen. rewrite Nat2Z.id, drop_all. done. }
  rewrite (proj2 (Z.ltb_lt _ _)) by lia. mred.
  destruct (drop_front_loop_ok (S (length (chain_ v))) len 0 v) as (v' & -> & H1 & H2 & H3); try done; try lia.
  { unfold live. rewrite length_drop. lia. }
  rewrite Z.sub_0_r in H2. by exists v'.
Qed.

(** ** [trim_front] *)

Lemma poke_ok buf off src :
  0 ≤ off → off + zlen src ≤ zlen buf →
  poke buf off src = Ret (ztake off buf ++ src ++ zdrop (off + zlen src) buf).
Proof.
  intros H1 H2. unfold poke. by rewrite (proj2 (Z.leb_le _ _) H1), (proj2 (Z.leb_le _ _) H2).
Qed.

Lemma zlen_poked (buf : list byte) off src :
  0 ≤ off → off + zlen src ≤ zlen buf →
  zlen (ztake off buf ++ src ++ zdrop (off + zlen src) buf) = zlen buf.
Proof.
  intros. pose proof (zlen_nonneg src). rewrite !zlen_app, zlen_ztake, zlen_zdrop by lia. lia.
Qed.

Lemma block_shift_ok b off :
  block_ok b → 0 ≤ off < size_ b →
  ∃ b', block_shift garbage b off = Ret b' ∧ block_ok b' ∧ size_ b' = size_ b - off ∧
    contents b' = zdrop off (contents b).
Proof.
  intros Hb Hoff. pose proof (zlen_contents b Hb) as Hc. pose proof Hb as [Hb1 Hb2].
  assert (zlen (zdrop off (contents b)) = size_ b - off) as Hz by (rewrite zlen_zdrop; lia).
  unfold block_shift. rewrite poke_ok by lia. mred.
  pose proof (zlen_poked (data_ b) 0 (zdrop off (contents b)) ltac:(lia) ltac:(lia)) as Hzp.
  set (buf := ztake 0 (data_ b) ++ _) in *.
  unfold resize, capacity. cbn [data_]. rewrite Hzp.
  rewrite (proj2 (Z.eqb_neq _ _)), (proj2 (Z.leb_le _ _)) by lia.
  eexists. split; [reflexivity|]. split_and!; [split; simpl; lia|done|].
  unfold contents at 1. simpl. unfold buf. rewrite ztake_0, app_nil_l.
  apply ztake_app_exact. lia.
Qed.

Lemma trim_front_ok v :
  iov_ok v → ∃ v', trim_front garbage v = Ret v' ∧ iov_ok v' ∧ view v' = view v ∧
    begin_offset_ v' = 0 ∧ start_index_ v' = 0%nat ∧ chain_length_ v' ≤ chain_length_ v.
Proof.
  intros Hok. unfold trim_front. destruct (live v) as [|b l] eqn:Hl.
  { rewrite (iov_empty v Hok Hl). by exists iov_new. }
  destruct (iov_parts v b l Hok Hl) as (p & Hch & Hp & Hfr & Hoff & Hb & Hbl & HL & Hview).
  rewrite (bool_decide_false (chain_ v = [])) by (rewrite Hch; by destruct p).
  rewrite orb_false_r. destruct (_ && _) eqn:E.
  { zbool. apply bool_decide_eq_true in H0. by exists v. }
  clear E. rewrite Hfr. mred. rewrite (proj2 (Z.eqb_neq _ _)) by lia.
  destruct (block_shift_ok b (begin_offset_ v) Hb Hoff) as (b' & -> & Hb' & Hs' & Hc'). mred.
  cbn [chain_length_ begin_offset_ start_index_ chain_].
  pose proof (iov_bound v Hok). pose proof (zlen_nonneg (all_bytes l)).
  rewrite u64_small by lia.
  destruct (replace_front_ok v b l b' (chain_length_ v - begin_offset_ v) Hok Hl Hb') as (Hok1 & Hl1 & Hv1);
    [lia..|].
  set (v1 := mk_iov _ 0 _ _) in *. destruct (trim_chain_front_live v1) as (T1 & T2 & T3).
  exists (trim_chain_front v1). split; [done|]. split_and!.
  - destruct Hok1 as [K1 K2 K3 K4]. split; rewrite ?T1, ?T2, ?T3; try done. by rewrite Hl1 in *.
  - unfold view at 1. rewrite T1, T3. fold (view v1). by rewrite Hv1, Hview, Hc'.
  - by rewrite T3.
  - unfold trim_chain_front. by destruct (decide _).
  - rewrite T2. simpl. lia.
Qed.

(** ** [iovecs] and [coalesce] *)

Lemma iterate_from_ok off l : iterate_from false off l = Ret (contents <$> l).
Proof. induction l as [|b l IH]; [done|]. cbn [iterate_from]. mred. by rewrite IH. Qed.

Lemma weak_iterate_blocks_ok v :
  iov_weak v → ∃ ps, iterate_blocks v = Ret ps ∧ concat ps = view v.
Proof.
  intros Hok. unfold iterate_blocks. rewrite (weak_size_view v Hok).
  destruct (Z.eqb_spec (zlen (view v)) 0) as [Hz|Hz].
  { exists []. split; [done|]. unfold zlen in Hz. destruct (view v); [done|simpl in Hz; lia]. }
  destruct (live v) as [|b l] eqn:Hl.
  { by rewrite (weak_empty v Hok Hl) in Hz. }
  destruct (weak_parts v b l Hok Hl) as (p & Hch & Hp & Hfr & Hoff & Hb & Hbl & HL & Hview).
  unfold live in Hl. rewrite Hl. cbn [iterate_from]. mred.
  rewrite (proj2 (Z.leb_le _ _)) by lia. cbn [orb]. rewrite iterate_from_ok.
  eexists. split; [reflexivity|]. by rewrite Hview.
Qed.

Lemma iterate_blocks_ok v :
  iov_ok v → ∃ ps, iterate_blocks v = Ret ps ∧ concat ps = view v.
Proof. intros Hok. by apply weak_iterate_blocks_ok, iov_ok_weak. Qed.

Lemma copy_pieces_ok ps buf off :
  0 ≤ off → off + zlen (concat ps) ≤ zlen buf →
  copy_pieces buf off ps =
  Ret (ztake off buf ++ concat ps ++ zdrop (off + zlen (concat ps)) buf).
Proof.
  revert buf off. induction ps as [|p ps IH]; intros buf off Hoff Hlen.
  { cbn [copy_pieces concat app]. change (zlen []) with 0 in *. by rewrite Z.add_0_r, ztake_zdrop. }
  cbn [copy_pieces concat] in *. rewrite zlen_app in *.
  pose proof (zlen_nonneg p). pose proof (zlen_nonneg (concat ps)).
  rewrite poke_ok by lia. mred. rewrite IH by (rewrite ?zlen_poked; lia).
  set (B := ztake off buf). assert (zlen B = off) as HB by (unfold B; rewrite zlen_ztake; lia).
  assert (ztake (off + zlen p) (B ++ p ++ zdrop (off + zlen p) buf) = B ++ p) as ->.
  { rewrite app_assoc. apply ztake_app_exact. rewrite zlen_app. lia. }
  assert (zdrop (off + zlen p + zlen (concat ps)) (B ++ p ++ zdrop (off + zlen p) buf) =
    zdrop (off + (zlen p + zlen (concat ps))) buf) as ->.
  { rewrite app_assoc, zdrop_app_r by (rewrite zlen_app; lia).
    rewrite zlen_app, HB, zdrop_zdrop by lia. f_equal. lia. }
  by rewrite <- !app_assoc.
Qed.

Lemma weak_coalesce_ok v :
  iov_weak v → ∃ b, coalesce garbage v = Ret b ∧ contents b = view v.
Proof.
  intros Hok. unfold coalesce. destruct (weak_iterate_blocks_ok v Hok) as (ps & -> & Hps).
  rewrite (weak_size_view v Hok). destruct (Z.eqb_spec (zlen (view v)) 0) as [Hz|Hz].
  { exists empty_block. split; [done|]. unfold zlen in Hz. destruct (view v); [done|simpl in Hz; lia]. }
  unfold resize, capacity, allocate. change (zlen (data_ empty_block) =? 0) with true. cbv iota.
  rewrite (proj2 (Z.eqb_neq _ _) Hz). mred. cbn [data_ size_].
  pose proof (zlen_nonneg (view v)). pose proof (Hgarbage (zlen (view v)) ltac:(lia)) as Hg.
  rewrite copy_pieces_ok by (rewrite ?Hps; lia). mred. eexists. split; [reflexivity|].
  unfold contents. cbn [size_ data_]. rewrite ztake_0, app_nil_l, Hps. by apply ztake_app_exact.
Qed.

Lemma coalesce_ok v :
  iov_ok v → ∃ b, coalesce garbage v = Ret b ∧ contents b = view v.
Proof. intros Hok. by apply weak_coalesce_ok, iov_ok_weak. Qed.

Lemma coalesced_ok v : iov_ok v → coalesced garbage v = Ret (view v).
Proof.
  intros Hok. unfold coalesced. destruct (decide _) as [Hn|Hn].
  - destruct (live v) as [|b l] eqn:Hl; [by rewrite (iov_empty v Hok Hl) in Hn|].
    destruct (iov_parts v b l Hok Hl) as (p & Hch & Hp & Hfr & Hoff & Hb & Hbl & HL & Hview).
    rewrite Hch, length_app in Hn. simpl in Hn. destruct l; [|simpl in Hn; lia].
    rewrite Hfr. mred. rewrite (iov_size_view v Hok), Hview. unfold all_bytes. cbn.
    rewrite app_nil_r. by rewrite ztake_all by lia.
  - destruct (coalesce_ok v Hok) as (b & -> & Hb). mred. by rewrite Hb.
Qed.

(** Filling the rest of a buffer whose front holds the first piece. *)
Lemma fill_up buf head ps sz :
  ztake (zlen head) buf = head → zlen head + zlen (concat ps) ≤ zlen buf → 0 < zlen buf →
  ∃ b, (buf' ← copy_pieces buf (zlen head) ps;
        resize garbage (mk_block buf' sz) (zlen head + zlen (concat ps))) = Ret b ∧
    contents b = head ++ concat ps.
Proof.
  intros Htk Hlen Hpos. rewrite copy_pieces_ok by (pose proof (zlen_nonneg head); lia). mred.
  rewrite Htk. unfold resize, capacity. cbn [data_].
  set (buf' := head ++ concat ps ++ zdrop (zlen head + zlen (concat ps)) buf).
  pose proof (zlen_nonneg (concat ps)). pose proof (zlen_nonneg head).
  assert (zlen buf' = zlen buf) as Hz.
  { unfold buf'. rewrite !zlen_app, zlen_zdrop by lia. lia. }
  rewrite Hz, (proj2 (Z.eqb_neq _ _)), (proj2 (Z.leb_le _ _)) by lia.
  eexists. split; [reflexivity|]. unfold contents. cbn [size_ data_]. unfold buf'.
  rewrite app_assoc. apply ztake_app_exact. by rewrite zlen_app.
Qed.

Lemma coalesce_move_ok v :
  iov_weak v → ∃ b v', coalesce_move garbage v = Ret (b, v') ∧ contents b = view v.
Proof.
  intros Hok. unfold coalesce_move. rewrite (weak_size_view v Hok).
  destruct (Z.eqb_spec (zlen (view v)) 0) as [Hz|Hz].
  { exists empty_block, v. split; [done|]. unfold zlen in Hz. destruct (view v); [done|simpl in Hz; lia]. }
  destruct (live v) as [|b l] eqn:Hl; [by rewrite (weak_empty v Hok Hl) in Hz|].
  destruct (weak_parts v b l Hok Hl) as (p & Hch & Hp & Hfr & Hoff & Hb & Hbl & HL & Hview).
  rewrite Hfr. mred. pose proof (zlen_contents b Hb) as Hc. pose proof Hb as [Hb1 Hb2].
  destruct ((begin_offset_ v =? size_ b) && bool_decide (length (chain_ v) = S (S (start_index_ v))))
    eqn:Hlast.
  { apply andb_true_iff in Hlast as [Ho%Z.eqb_eq Hn%bool_decide_eq_true].
    rewrite Hch, length_app in Hn. simpl in Hn. destruct l as [|c [|? ?]]; try (simpl in Hn; lia).
    rewrite Hch, (app_assoc p [b] [c] : p ++ [b; c] = _), last_snoc.
    eexists c, _. split; [reflexivity|]. rewrite Hview, Ho, <- Hc. unfold zdrop, zlen.
    rewrite drop_ge by lia. cbn. by rewrite app_nil_r. }
  assert (0 < zlen (view v)) as Hpos by (pose proof (zlen_nonneg (view v)); lia).
  destruct (decide (length (chain_ v) = S (start_index_ v))) as [Hn|Hn].
  { rewrite Hch, length_app in Hn. simpl in Hn. destruct l; [|simpl in Hn; lia].
    rewrite Hch, last_snoc. change (all_bytes []) with (@nil byte) in Hview. rewrite app_nil_r in Hview.
    destruct (Z.eqb_spec (begin_offset_ v) 0) as [Ho|Ho]; cbn [negb].
    - eexists b, _. split; [reflexivity|]. by rewrite Hview, Ho, zdrop_0.
    - assert (0 ≤ begin_offset_ v < size_ b) as Hoff'.
      { rewrite Hview, zlen_zdrop in Hpos; lia. }
      destruct (block_shift_ok b (begin_offset_ v) Hb Hoff') as (b' & -> & _ & _ & Hb'). mred.
      eexists b', _. split; [reflexivity|]. by rewrite Hview. }
  destruct (Z.leb_spec (zlen (view v)) (capacity b)) as [Hcap|]; cycle 1.
  { destruct (weak_coalesce_ok v Hok) as (b' & -> & Hb'). mred. by eexists _, _. }
  set (head := zdrop (begin_offset_ v) (contents b)).
  assert (zlen head = size_ b - begin_offset_ v) as Hh by (unfold head; rewrite zlen_zdrop; lia).
  assert (drop (S (start_index_ v)) (chain_ v) = l) as ->.
  { rewrite Hch, (app_assoc p [b] l : p ++ b :: l = _). apply drop_app_length'.
    rewrite length_app. simpl. lia. }
  assert (∃ buf, (if negb (begin_offset_ v =? 0) then poke (data_ b) 0 head else Ret (data_ b)) = Ret buf ∧
    zlen buf = zlen (data_ b) ∧ ztake (zlen head) buf = head) as (buf & Hbuf & Hzb & Htk).
  { destruct (Z.eqb_spec (begin_offset_ v) 0) as [Ho|Ho]; cbn [negb].
    - exists (data_ b). split_and!; try done. rewrite Hh. unfold head. rewrite Ho, zdrop_0, Z.sub_0_r. done.
    - rewrite poke_ok by lia. eexists. split; [done|]. split; [apply zlen_poked; lia|].
      rewrite ztake_0, app_nil_l. by apply ztake_app_exact. }
  cbn [negb] in Hbuf. unfold negb in Hbuf. rewrite Hbuf. mred.
  rewrite <- Hh. fold (all_bytes l) in *.
  assert (zlen head + zlen (all_bytes l) ≤ zlen buf) as Hfit.
  { rewrite Hview, zlen_app in Hcap. fold head in Hcap. unfold capacity in Hcap. lia. }
  destruct (fill_up buf head (contents <$> l) (size_ b) Htk Hfit ltac:(lia)) as (b' & Heq & Hb').
  mred. revert Heq. mred. fold (all_bytes l).
  destruct (copy_pieces buf (zlen head) (contents <$> l)); try done. intros ->. mred.
  eexists _, _. split; [reflexivity|]. rewrite Hb', Hview. done.
Qed.
End facts.

(** ** Specification: a queue of bytes *)

Inductive queue_op : Type :=
| QAppend (d : list byte)
| QDropFront (n : Z)
| QTakeFront (n : Z)
| QTrimFront
| QCoalesce
| QIovecs
| QClear.

(** What a queue does: the bytes the caller sees, and the new queue. *)
Definition queue_step (op : queue_op) (q : list byte) : outcome (list byte * list byte) :=
  match op with
  | QAppend d => Ret ([], q ++ d)
  | QDropFront n => if n <=? zlen q then Ret ([], zdrop n q) else AssertFail
  | QTakeFront n => if n <=? zlen q then Ret (ztake n q, zdrop n q) else AssertFail
  | QTrimFront => Ret ([], q)
  | QCoalesce => Ret (q, q)
  | QIovecs => Ret (q, q)
  | QClear => Ret ([], [])
  end.

(** The same through an [IOVector]. *)
Definition iov_step (garbage : Z → list byte) (op : queue_op) (v : IOVector)
    : outcome (list byte * IOVector) :=
  match op with
  | QAppend d => Ret ([], append v (block_of d))
  | QDropFront n => v ← drop_front v n; Ret ([], v)
  | QTakeFront n =>
      '(res, v) ← take_front garbage v n;
      b ← coalesce garbage res;
      Ret (contents b, v)
  | QTrimFront => v ← trim_front garbage v; Ret ([], v)
  | QCoalesce => d ← coalesced garbage v; Ret (d, v)
  | QIovecs => ps ← iovecs v; Ret (concat ps, v)
  | QClear => Ret ([], (clear v).2)
  end.

(** A sequence of operations: what the caller sees, and the final state. *)
Fixpoint run_ops {S} (step : queue_op → S → outcome (list byte * S)) (ops : list queue_op) (s : S)
    : outcome (list (list byte) * S) :=
  match ops with
  | [] => Ret ([], s)
  | op :: ops =>
      '(out, s) ← step op s;
      '(outs, s) ← run_ops step ops s;
      Ret (out :: outs, s)
  end.

(** Bytes an operation adds, and arguments that are sizes. *)
Definition op_bytes (op : queue_op) : Z := match op with QAppend d => zlen d | _ => 0 end.
Definition op_ok (op : queue_op) : Prop :=
  match op with QDropFront n | QTakeFront n => 0 ≤ n | _ => True end.

Fixpoint ops_bytes (ops : list queue_op) : Z :=
  match ops with [] => 0 | op :: ops => op_bytes op + ops_bytes ops end.

Section refinement.
Context (garbage : Z → list byte) (Hgarbage : ∀ n, 0 ≤ n → zlen (garbage n) = n).

(** One step: both fail, or both succeed with the same output and related
    states. *)
Lemma iov_step_refines op v :
  iov_ok v → op_ok op → chain_length_ v + op_bytes op < 2 ^ 32 →
  match queue_step op (view v) with
  | Ret (out, q) => ∃ v', iov_step garbage op v = Ret (out, v') ∧ iov_ok v' ∧ view v' = q ∧
      chain_length_ v' ≤ chain_length_ v + op_bytes op
  | AssertFail => iov_step garbage op v = AssertFail
  | OutOfFuel => False
  end.
Proof.
  intros Hok Hop Hlen. pose proof (iov_size_view v Hok) as Hsz.
  assert (0 ≤ chain_length_ v) as Hnn by (rewrite (iov_length v Hok); apply zlen_nonneg).
  destruct op as [d|n|n| | | |]; cbn [queue_step iov_step op_bytes op_ok] in *.
  - pose proof (zlen_nonneg d). assert (zlen (view v) + begin_offset_ v = chain_length_ v) as Hsum.
    { destruct (live v) as [|b l] eqn:Hl; [by rewrite (iov_empty v Hok Hl)|].
      destruct (iov_parts v b l Hok Hl) as (p & _ & _ & _ & Hoff & Hb & _ & HL & Hview).
      rewrite Hview, zlen_view_parts by done. lia. }
    destruct (append_ok v (block_of d) Hok) as (Hok' & Hv' & _); [simpl; lia..|].
    eexists. split; [reflexivity|]. rewrite Hv', contents_block_of. split_and!; try done.
    unfold append. simpl. destruct (Z.eqb_spec (zlen d) 0); simpl; [lia|]. rewrite u64_small; lia.
  - destruct (Z.leb_spec n (zlen (view v))) as [Hle|Hgt].
    + assert (zlen (view v) ≤ chain_length_ v) as Hvl.
      { rewrite <- Hsz. unfold iov_size. destruct (live v) as [|b l] eqn:Hl.
        - by rewrite (iov_empty v Hok Hl).
        - destruct (iov_parts v b l Hok Hl) as (p & _ & _ & _ & Hoff & Hb & _ & HL & _).
          pose proof (zlen_nonneg (all_bytes l)). rewrite u64_small; lia. }
      destruct (drop_front_ok v n Hok) as (v' & -> & H1 & H2 & H3); [lia..|]. mred.
      eexists. split; [reflexivity|]. split_and!; try done. lia.
    + unfold drop_front. rewrite Hsz. pose proof (zlen_nonneg (view v)).
      rewrite (proj2 (Z.eqb_neq n 0)), (proj2 (Z.eqb_neq n _)), (proj2 (Z.ltb_ge n _)) by lia. done.
  - destruct (Z.leb_spec n (zlen (view v))) as [Hle|Hgt].
    + destruct (take_front_ok garbage v n Hok) as (res & v' & -> & H1 & H2 & H3 & H4 & H5); [lia|]. mred.
      destruct (coalesce_ok garbage Hgarbage res H1) as (b & -> & Hb). mred.
      eexists. split; [by rewrite Hb, H3|]. split_and!; try done. lia.
    + unfold take_front. rewrite Hsz. pose proof (zlen_nonneg (view v)).
      rewrite (proj2 (Z.eqb_neq n 0)), (proj2 (Z.eqb_neq n _)), (proj2 (Z.leb_gt n _)) by lia. done.
  - destruct (trim_front_ok garbage v Hok) as (v' & -> & H1 & H2 & _ & _ & H3). mred.
    eexists. split; [reflexivity|]. split_and!; try done. lia.
  - rewrite (coalesced_ok garbage Hgarbage v Hok). mred. eexists. split; [reflexivity|]. split_and!; try done. lia.
  - unfold iovecs. destruct (iterate_blocks_ok v Hok) as (ps & -> & Hps). mred.
    eexists. split; [by rewrite Hps|]. split_and!; try done. lia.
  - eexists. split; [reflexivity|]. split_and!; try done. simpl. lia.
Qed.

Lemma op_bytes_nonneg op : 0 ≤ op_bytes op.
Proof. destruct op; simpl; try lia. apply zlen_nonneg. Qed.

Lemma ops_bytes_nonneg ops : 0 ≤ ops_bytes ops.
Proof. induction ops as [|op ops IH]; simpl; [lia|]. pose proof (op_bytes_nonneg op). lia. Qed.

Lemma run_refines ops v :
  iov_ok v → Forall op_ok ops → chain_length_ v + ops_bytes ops < 2 ^ 32 →
  match run_ops queue_step ops (view v) with
  | Ret (outs, q) => ∃ v', run_ops (iov_step garbage) ops v = Ret (outs, v') ∧ iov_ok v' ∧ view v' = q
  | AssertFail => run_ops (iov_step garbage) ops v = AssertFail
  | OutOfFuel => False
  end.
Proof.
  intros Hok Hops. revert v Hok. induction Hops as [|op ops Hop Hops IH]; intros v Hok Hlen.
  { cbn [run_ops]. by exists v. }
  cbn [run_ops ops_bytes] in *. pose proof (ops_bytes_nonneg ops).
  pose proof (iov_step_refines op v Hok Hop ltac:(lia)) as Hstep.
  destruct (queue_step op (view v)) as [[out q]| |]; [|by mred; rewrite Hstep|done].
  destruct Hstep as (v' & -> & Hok' & <- & Hl'). mred. specialize (IH v' Hok' ltac:(lia)).
  destruct (run_ops queue_step ops (view v')) as [[outs q']| |]; [|by rewrite IH|done].
  destruct IH as (v'' & -> & Hok'' & <-). by exists v''.
Qed.

(** [front_data] and [front_size] show the rest of the first block: nothing of
    an empty queue, else a non-empty prefix. *)
Lemma front_view v :
  iov_ok v →
  ∃ n, front_size v = Ret n ∧
    front_data v = Ret (if bool_decide (view v = []) then None else Some (ztake n (view v))) ∧
    0 ≤ n ≤ zlen (view v) ∧ (view v ≠ [] → 0 < n).
Proof.
  intros Hok. unfold front_size, front_data. destruct (live v) as [|b l] eqn:Hl.
  { rewrite (iov_empty v Hok Hl). by exists 0. }
  destruct (iov_parts v b l Hok Hl) as (p & Hch & _ & Hfr & Hoff & Hb & _ & _ & Hview).
  pose proof (zlen_contents b Hb) as Hc. pose proof (iov_bound v Hok). pose proof (iov_size_view v Hok).
  assert (zlen (zdrop (begin_offset_ v) (contents b)) = size_ b - begin_offset_ v) as Hz
    by (rewrite zlen_zdrop; lia).
  pose proof (zlen_nonneg (all_bytes l)). rewrite Hfr, Hview. mred.
  assert (size_ b < 2 ^ 64) as Hsz.
  { rewrite (iov_length v Hok), Hl, all_bytes_cons, zlen_app in *. lia. }
  rewrite bool_decide_false.
  - exists (size_ b - begin_offset_ v). rewrite u64_small, ztake_app_exact by (done || lia).
    rewrite zlen_app. split_and!; try lia; by destruct (chain_ v) as [|? ?]; [destruct p|].
  - intros E. apply app_eq_nil in E as [E _]. rewrite E in Hz. change (zlen (@nil byte)) with 0 in Hz. lia.
Qed.
End refinement.

(** ** Properties *)

(** C11: an [IOVector] refines a queue of bytes.  For every sequence of
    [append], [drop_front], [take_front], [trim_front], [coalesced] (with the
    [coalesce() const] it calls), [iovecs] and [clear] in which less than 4 GiB
    are appended in all, an [IOVector] that starts empty shows its caller
    exactly what a plain queue of bytes would: the same bytes, and a failed
    [CHECK] exactly when more is dropped or taken than there is.  At the end its
    offsets and lengths are consistent and it stands for the queue: [size()] is
    the length of the queue, [front_data()] and [front_size()] show a non-empty
    prefix of it (a null pointer and 0 when it is empty), and a final
    [coalesce() &&], which may leave the vector unusable, returns all of it.
    Which blocks are moved, copied, split or trimmed on the way is invisible. *)
Theorem iovector_refines_queue garbage ops :
  (∀ n, 0 ≤ n → zlen (garbage n) = n) → Forall op_ok ops → ops_bytes ops < 2 ^ 32 →
  match run_ops queue_step ops [] with
  | Ret (outs, q) =>
      ∃ v n b v', run_ops (iov_step garbage) ops iov_new = Ret (outs, v) ∧
        iov_ok v ∧ view v = q ∧ iov_size v = zlen q ∧
        front_size v = Ret n ∧
        front_data v = Ret (if bool_decide (q = []) then None else Some (ztake n q)) ∧
        0 ≤ n ≤ zlen q ∧ (q ≠ [] → 0 < n) ∧
        coalesce_move garbage v = Ret (b, v') ∧ contents b = q
  | AssertFail => run_ops (iov_step garbage) ops iov_new = AssertFail
  | OutOfFuel => False
  end.
Proof.
  intros Hg Hops Hlen. pose proof (run_refines garbage Hg ops iov_new iov_new_ok Hops) as H.
  change (view iov_new) with (@nil byte) in H. specialize (H ltac:(by cbn)).
  destruct (run_ops queue_step ops []) as [[outs q]| |]; [|done|done].
  destruct H as (v & E & Hok & <-). destruct (front_view v Hok) as (n & H1 & H2 & H3 & H4).
  destruct (coalesce_move_ok garbage Hg v (iov_ok_weak v Hok)) as (b & v' & E' & Hb).
  exists v, n, b, v'. split_and!; try done; try lia. by apply iov_size_view.
Qed.

Lemma iovector_refines_queue_witness :
  let ops := [QAppend [x01; x02; x03]; QAppend [x04; x05; x06; x07]; QDropFront 1;
              QTakeFront 4; QTrimFront; QCoalesce] in
  match run_ops queue_step ops [] with
  | Ret (outs, q) =>
      ∃ v n b v', run_ops (iov_step zeros) ops iov_new = Ret (outs, v) ∧
        iov_ok v ∧ view v = q ∧ iov_size v = zlen q ∧
        front_size v = Ret n ∧
        front_data v = Ret (if bool_decide (q = []) then None else Some (ztake n q)) ∧
        0 ≤ n ≤ zlen q ∧ (q ≠ [] → 0 < n) ∧
        coalesce_move zeros v = Ret (b, v') ∧ contents b = q
  | AssertFail => run_ops (iov_step zeros) ops iov_new = AssertFail
  | OutOfFuel => False
  end.
Proof.
  apply (iovector_refines_queue zeros); [apply zlen_zeros| |done].
  repeat constructor; simpl; lia.
Defined.

(** C29: the destructive [coalesce() &&] returns the queued bytes in a single
    block on each of its paths: nothing to return, reusing the last block (the
    first one is consumed to its end but not popped), shifting a lone block,
    filling up the first buffer, or copying everything.  [iov_weak] allows the
    state of the second path, which [iov_ok] excludes. *)
Theorem coalesce_move_correct garbage v :
  (∀ n, 0 ≤ n → zlen (garbage n) = n) → iov_weak v →
  ∃ b v', coalesce_move garbage v = Ret (b, v') ∧ contents b = view v.
Proof. intros Hg Hok. by apply coalesce_move_ok. Qed.

(** The first block is consumed to its end: the second one is returned as it
    is. *)
Definition ex_iov : IOVector :=
  mk_iov 7 3 1 [empty_block; mk_block [x01; x02; x03; x00] 3; block_of [x04; x05; x06; x07]].

Lemma coalesce_move_correct_witness :
  ∃ b v', coalesce_move zeros ex_iov = Ret (b, v') ∧ contents b = [x04; x05; x06; x07].
Proof.
  apply (coalesce_move_correct zeros ex_iov); [apply zlen_zeros|].
  split; try done. change (live ex_iov) with (drop 1 (chain_ ex_iov)). cbn [drop chain_ ex_iov].
  constructor; [by split|]. constructor; [by split|constructor].
Defined.

(** After [coalesce() &&] of a vector whose first block was dropped, the
    chain keeps consumed blocks and [start_index_] points behind its end:
    [front_size], [front_data] and [trim_front] then index out of bounds, although the
    comment promises "some valid state". *)
Theorem coalesce_move_leaves_bad_index :
  ∃ v b v', iov_ok v ∧ coalesce_move zeros v = Ret (b, v') ∧ iov_size v' = 0 ∧
    front_size v' = AssertFail ∧ front_data v' = AssertFail ∧ trim_front zeros v' = AssertFail.
Proof.
  exists (mk_iov 4 0 1 [empty_block; block_of [x04; x05; x06; x07]]). eexists _, _.
  split; [|split; [reflexivity|by vm_compute]].
  split; try done. unfold live. cbn [drop chain_ start_index_]. constructor; [by split|constructor].
Qed.
