(* ===== verification/LibBase.v ===== *)
(** The C library and libbase functions on strings that the fastboot and adb
    sources use: [isspace], [strtol] / [strtoll], the integer conversions of
    [StringPrintf], and [ParseInt] / [ParseUint] of
    system/libbase/include/android-base/parseint.h.

    A C string is the list of its bytes without the terminating NUL. *)

From Stdlib Require Import Strings.String.
From S2P Require Import Prelude.
Open Scope Z_scope.

Definition bs (s : string) : list byte := String.list_byte_of_string s.

(** The string a [const char*] denotes: the bytes before the first NUL. *)
Fixpoint c_str (l : list byte) : list byte :=
  match l with
  | [] => []
  | b :: l => if b2z b =? 0 then [] else b :: c_str l
  end.

Definition isspace (b : byte) : bool := (b2z b =? 32) || ((9 <=? b2z b) && (b2z b <=? 13)).
Definition isdigit (b : byte) : bool := (48 <=? b2z b) && (b2z b <=? 57).

Fixpoint skip_space (l : list byte) : list byte :=
  match l with
  | b :: l' => if isspace b then skip_space l' else l
  | [] => []
  end.

(** The value of a digit in a base of at most 36. *)
Definition digit_val (base : Z) (b : byte) : option Z :=
  let c := b2z b in
  let v := if isdigit b then c - 48
           else if (97 <=? c) && (c <=? 122) then c - 87
           else if (65 <=? c) && (c <=? 90) then c - 55
           else 36 in
  if v <? base then Some v else None.

(** The value of the longest prefix of digits, and what follows it. *)
Fixpoint digits (base acc : Z) (l : list byte) : Z * list byte :=
  match l with
  | b :: l' =>
      match digit_val base b with
      | Some v => digits base (acc * base + v) l'
      | None => (acc, l)
      end
  | [] => (acc, [])
  end.

(** [0x] is part of a number in base 16 when a digit follows it. *)
Definition skip_0x (base : Z) (l : list byte) : list byte :=
  match l with
  | z :: x :: d :: l' =>
      if (base =? 16) && (b2z z =? 48) && ((b2z x =? 120) || (b2z x =? 88))
         && bool_decide (is_Some (digit_val 16 d))
      then d :: l' else l
  | _ => l
  end.

Definition LLONG_MAX : Z := 2 ^ 63 - 1.
Definition LLONG_MIN : Z := - 2 ^ 63.

Record strto_result : Type := mk_strto {
  st_val : Z;              (* the value returned *)
  st_end : list byte;      (* what [*end] points to *)
  st_erange : bool         (* errno was set to ERANGE *)
}.

(** [strtoll(s, &end, base)]; [strtol] is the same function where [long] has
    64 bits. *)
Definition strtoll (s : list byte) (base : Z) : strto_result :=
  let s1 := skip_space s in
  let '(neg, s2) :=
    match s1 with
    | b :: s' => if b2z b =? 45 then (true, s') else if b2z b =? 43 then (false, s') else (false, s1)
    | [] => (false, [])
    end in
  let s3 := skip_0x base s2 in
  match s3 with
  | d :: _ =>
      match digit_val base d with
      | None => mk_strto 0 s false
      | Some _ =>
          let '(v, rest) := digits base 0 s3 in
          let r := if neg then - v else v in
          if r <? LLONG_MIN then mk_strto LLONG_MIN rest true
          else if LLONG_MAX <? r then mk_strto LLONG_MAX rest true
          else mk_strto r rest false
      end
  | [] => mk_strto 0 s false
  end.

Definition strtol : list byte → Z → strto_result := strtoll.

(** [ParseInt<int>(s, &out, min, max)]: [None] is the return value false. *)
Definition ParseInt (s : list byte) (min max : Z) : option Z :=
  let s := skip_space s in
  let base :=
    match s with
    | z :: x :: _ => if (b2z z =? 48) && ((b2z x =? 120) || (b2z x =? 88)) then 16 else 10
    | _ => 10
    end in
  let r := strtoll s base in
  if st_erange r then None
  else if (zlen (st_end r) =? zlen s) || negb (zlen (st_end r) =? 0) then None
  else if (st_val r <? min) || (max <? st_val r) then None
  else Some (st_val r).

Definition ULLONG_MAX : Z := 2 ^ 64 - 1.

(** [strtoull(s, &end, base)] of a string that does not start with a minus
    sign. *)
Definition strtoull (s : list byte) (base : Z) : strto_result :=
  let s1 := skip_space s in
  let s2 := match s1 with b :: s' => if b2z b =? 43 then s' else s1 | [] => [] end in
  let s3 := skip_0x base s2 in
  match s3 with
  | d :: _ =>
      match digit_val base d with
      | None => mk_strto 0 s false
      | Some _ =>
          let '(v, rest) := digits base 0 s3 in
          if ULLONG_MAX <? v then mk_strto ULLONG_MAX rest true else mk_strto v rest false
      end
  | [] => mk_strto 0 s false
  end.

Definition tolower (b : byte) : byte :=
  if (65 <=? b2z b) && (b2z b <=? 90) then z2b (b2z b + 32) else b.

(** [suffix - suffixes] for a byte of ["bkmgtpe"]. *)
Definition suffix_index (b : byte) : option Z :=
  match list_find (fun c => c = tolower b) (bs "bkmgtpe") with
  | Some (i, _) => Some (Z.of_nat i)
  | None => None
  end.

(** [ParseUint<T>(s, &out, max, allow_suffixes)]: [None] is the return value
    false. *)
Definition ParseUint (s : list byte) (max : Z) (allow_suffixes : bool) : option Z :=
  let s := skip_space s in
  match s with
  | b :: _ => if b2z b =? 45 then None else Some tt
  | [] => Some tt
  end ≫= fun _ =>
  let base :=
    match s with
    | z :: x :: _ => if (b2z z =? 48) && ((b2z x =? 120) || (b2z x =? 88)) then 16 else 10
    | _ => 10
    end in
  let r := strtoull s base in
  if st_erange r then None
  else if zlen (st_end r) =? zlen s then None
  else
    match st_end r with
    | [] => Some (st_val r)
    | e :: _ =>
        if negb allow_suffixes then None
        else match suffix_index e with
             | None => None
             | Some i =>
                 let v := st_val r * Z.shiftl 1 (10 * i) in
                 if ULLONG_MAX <? v then None else Some v
             end
    end ≫= fun result =>
  if max <? result then None else Some result.

(** ** Conversions of [StringPrintf] *)

Definition digit_char (v : Z) : byte := z2b (if v <? 10 then 48 + v else 87 + v).

(** The digits of [z], most significant first; [n] bounds their number. *)
Fixpoint show_base (n : nat) (base z : Z) (acc : list byte) : list byte :=
  match n with
  | O => acc
  | S n =>
      let acc := digit_char (z mod base) :: acc in
      if z / base =? 0 then acc else show_base n base (z / base) acc
  end.

Definition pad_left (w : Z) (c : byte) (l : list byte) : list byte :=
  replicate (Z.to_nat (w - zlen l)) c ++ l.

(** [%08x] of an unsigned 32-bit, [%08lx] of an unsigned 64-bit value. *)
Definition fmt_08x (z : Z) : list byte := pad_left 8 (z2b 48) (show_base 16 16 z []).
(** [%x] of an unsigned 64-bit value. *)
Definition fmt_x (z : Z) : list byte := show_base 16 16 z [].
(** [%u] and [%zu]. *)
Definition fmt_u (z : Z) : list byte := show_base 20 10 z [].
(** [%d]. *)
Definition fmt_d (z : Z) : list byte := if z <? 0 then z2b 45 :: fmt_u (- z) else fmt_u z.
(** [%02d] of a non-negative value. *)
Definition fmt_02d (z : Z) : list byte := pad_left 2 (z2b 48) (fmt_d z).

(** [s.substr(0, prefix.size()) == prefix] *)
Definition StartsWith (s prefix : list byte) : bool :=
  bool_decide (ztake (zlen prefix) s = prefix).

(** ** Numbers read back as they were printed *)

Definition is_digit (base : Z) (b : byte) : Prop := is_Some (digit_val base b).

Lemma digit_val_char base v :
  2 ≤ base ≤ 16 → 0 ≤ v < base → digit_val base (digit_char v) = Some v.
Proof.
  intros Hb Hv.
  assert (∃ n : nat, (n < 16)%nat ∧ v = Z.of_nat n) as (n & Hn & ->).
  { exists (Z.to_nat v). lia. }
  assert (digit_val base (digit_char (Z.of_nat n))
          = if Z.of_nat n <? base then Some (Z.of_nat n) else None) as ->.
  { clear Hv Hb. do 16 (destruct n as [|n]; [reflexivity|]). lia. }
  destruct (Z.ltb_spec (Z.of_nat n) base); [done|lia].
Qed.

Lemma digits_show_base base n z a acc :
  2 ≤ base ≤ 16 → (0 < n)%nat → 0 ≤ z < base ^ Z.of_nat n →
  ∃ k, 0 ≤ k ∧
    digits base a (show_base n base z acc) = digits base (a * base ^ k + z) acc.
Proof.
  intros Hb. revert z a acc. induction n as [|n IH]; intros z a acc Hn Hz; [lia|].
  pose proof (Z.div_mod z base ltac:(lia)) as Hdm.
  pose proof (Z.mod_pos_bound z base ltac:(lia)) as Hm.
  cbn [show_base]. destruct (Z.eqb_spec (z / base) 0) as [H0|H0].
  - exists 1. split; [lia|]. cbn [digits]. rewrite digit_val_char by lia. f_equal. lia.
  - assert (0 ≤ z / base < base ^ Z.of_nat n) as Hq.
    { split; [apply Z.div_pos; lia|]. apply Z.div_lt_upper_bound; [lia|].
      rewrite Nat2Z.inj_succ, Z.pow_succ_r in Hz by lia. lia. }
    destruct n as [|n]; [simpl in Hq; lia|].
    destruct (IH (z / base) a (digit_char (z mod base) :: acc) ltac:(lia) Hq) as (k & Hk & ->).
    exists (k + 1). split; [lia|]. cbn [digits]. rewrite digit_val_char by lia.
    f_equal. rewrite Z.pow_add_r by lia. lia.
Qed.

Lemma show_base_digits base n z acc :
  2 ≤ base ≤ 16 → 0 ≤ z → Forall (is_digit base) acc →
  Forall (is_digit base) (show_base n base z acc).
Proof.
  intros Hb. revert z acc. induction n as [|n IH]; intros z acc Hz Hacc; [done|].
  cbn [show_base].
  assert (Forall (is_digit base) (digit_char (z mod base) :: acc)) as Hc.
  { constructor; [|done]. exists (z mod base). apply digit_val_char; [done|].
    apply Z.mod_pos_bound. lia. }
  destruct (z / base =? 0); [done|]. apply IH; [apply Z.div_pos; lia|done].
Qed.

Lemma show_base_nonempty base n z : (0 < n)%nat → show_base n base z [] ≠ [].
Proof.
  assert (∀ n z acc, acc ≠ [] → show_base n base z acc ≠ []) as H.
  { clear. induction n as [|n IH]; intros z acc Hacc; [done|]. cbn [show_base].
    destruct (z / base =? 0); [done|]. by apply IH. }
  destruct n as [|n]; [lia|]. intros _. cbn [show_base].
  destruct (z / base =? 0); [done|]. by apply H.
Qed.

Lemma digits_pad base m l :
  2 ≤ base → digits base 0 (replicate m (z2b 48) ++ l) = digits base 0 l.
Proof.
  intros Hb. induction m as [|m IH]; [done|]. cbn [replicate app digits].
  assert (digit_val base (z2b 48) = Some 0) as ->.
  { change (digit_val base (z2b 48)) with (if 0 <? base then Some 0 else None).
    destruct (Z.ltb_spec 0 base); [done|lia]. }
  exact IH.
Qed.

(** A string of hexadecimal digits has no white space, sign or prefix. *)
Lemma digit_16_byte b : is_digit 16 b →
  isspace b = false ∧ b2z b ≠ 45 ∧ b2z b ≠ 43 ∧ b2z b ≠ 120 ∧ b2z b ≠ 88 ∧ b2z b ≠ 0.
Proof. destruct b; intros [v Hv]; vm_compute in Hv; try discriminate; done. Qed.

Lemma strtoll_hex l : Forall (is_digit 16) l → l ≠ [] →
  0 ≤ (digits 16 0 l).1 ≤ LLONG_MAX →
  strtoll l 16 = mk_strto (digits 16 0 l).1 (digits 16 0 l).2 false.
Proof.
  intros Hd Hne Hr. destruct l as [|b l]; [done|].
  apply Forall_cons in Hd as [Hb Hl].
  destruct (digit_16_byte b Hb) as (Hsp & H1 & H2 & _).
  unfold strtoll. cbn [skip_space]. rewrite Hsp.
  apply Z.eqb_neq in H1, H2. rewrite H1, H2.
  assert (skip_0x 16 (b :: l) = b :: l) as ->.
  { destruct l as [|c l]; [done|]. destruct l as [|d l]; [done|].
    apply Forall_cons in Hl as [Hc _].
    destruct (digit_16_byte c Hc) as (_ & _ & _ & H3 & H4 & _).
    apply Z.eqb_neq in H3, H4. cbn [skip_0x]. rewrite H3, H4.
    by rewrite andb_false_r. }
  destruct Hb as [v Hv]. rewrite Hv.
  destruct (digits 16 0 (b :: l)) as [r rest]. simpl in Hr |- *.
  unfold LLONG_MAX, LLONG_MIN in *.
  destruct (Z.ltb_spec r (- 2 ^ 63)); [lia|].
  destruct (Z.ltb_spec (2 ^ 63 - 1) r); [lia|done].
Qed.

Lemma fmt_08x_digits z : 0 ≤ z → Forall (is_digit 16) (fmt_08x z).
Proof.
  intros. unfold fmt_08x, pad_left. apply Forall_app. split.
  - apply Forall_replicate. by exists 0.
  - by apply show_base_digits.
Qed.

Lemma fmt_08x_nonempty z : fmt_08x z ≠ [].
Proof.
  unfold fmt_08x, pad_left. intros [_ H]%app_eq_nil.
  by apply (show_base_nonempty 16 16 z) in H; [|lia].
Qed.

Lemma strtoll_fmt_08x z : 0 ≤ z < 2 ^ 63 → strtoll (fmt_08x z) 16 = mk_strto z [] false.
Proof.
  intros Hz.
  assert (digits 16 0 (fmt_08x z) = (z, [])) as Hd.
  { unfold fmt_08x, pad_left. rewrite digits_pad by lia.
    destruct (digits_show_base 16 16 z 0 []) as (k & Hk & ->); [lia|lia| |].
    - change (16 ^ Z.of_nat 16) with (2 ^ 64). lia.
    - done. }
  rewrite strtoll_hex; rewrite ?Hd; [done|by apply fmt_08x_digits; lia|
    apply fmt_08x_nonempty|simpl; unfold LLONG_MAX; lia].
Qed.

Example parse_ex : ParseUint (bs " 0x10k") (2 ^ 32) true = Some 16384.
Proof. vm_compute. reflexivity. Qed.
Example parse_ex2 : ParseUint (bs "4kx") (2 ^ 32) true = Some 4096.
Proof. vm_compute. reflexivity. Qed.
Example parse_ex3 : ParseInt (bs "01") (-100) 100 = Some 1.
Proof. vm_compute. reflexivity. Qed.
Example fmt_ex : fmt_08x 2100 = bs "00000834".
Proof. vm_compute. reflexivity. Qed.
