(* ===== verification/Socket.v ===== *)
(** Sockets of fastboot (system/core/fastboot/socket.h and socket.cpp, with
    [socket_send_buffers] of libcutils).

    [OS] is the interface of the system calls, [Socket] the virtual interface
    the transports are written against.  [TcpSocket] and [UdpSocket] implement
    it.  [StreamSocket] states what a transport relies on when it uses a TCP
    socket; it is proved for [TcpSocket] over a connection that fragments both
    directions arbitrarily. *)

From Stdlib Require Import Strings.String.
From S2P Require Import Prelude LibBase.
Open Scope Z_scope.

(** ** System calls

    Each is the call wrapped in [TEMP_FAILURE_RETRY], so [EINTR] is never seen.
    [os_recv] gives [None] for -1. *)
Class OS (W : Type) := {
  os_send : list byte → W → Z * W;
  os_writev : list (list byte) → W → Z * W;
  os_recv : Z → W → option (list byte) * W;
  os_select : Z → W → Z * W;
  os_close : W → Z * W;
  os_strerror : W → list byte
}.

(** The virtual interface [class Socket].  Received bytes are returned instead
    of stored through a pointer; [None] stands for the return value -1. *)
Class Socket (S : Type) := {
  Send : list byte → M S bool;
  SendBuffers : list (list byte) → M S bool;
  Receive : Z → Z → M S (option (list byte));
  ReceiveAll : Z → Z → M S (option (list byte));
  ReceiveTimedOut : S → bool;
  SocketClose : M S Z;
  GetErrorMessage : S → list byte
}.

Definition SOCKET_SEND_BUFFERS_MAX_BUFFERS : Z := 16.

Section base.
Context {W : Type} `{OS W}.

(** [sock_] is only ever compared with [INVALID_SOCKET]; a system call on an
    invalid descriptor fails. *)
Record sock : Type := mk_sock {
  sock_valid : bool;
  receive_timed_out_ : bool;
  sock_os : W
}.

Definition with_os (s : sock) (w : W) : sock := mk_sock (sock_valid s) (receive_timed_out_ s) w.

Definition sys_send (data : list byte) (s : sock) : Z * sock :=
  if sock_valid s then let '(r, w) := os_send data (sock_os s) in (r, with_os s w) else (-1, s).
Definition sys_writev (bufs : list (list byte)) (s : sock) : Z * sock :=
  if sock_valid s then let '(r, w) := os_writev bufs (sock_os s) in (r, with_os s w) else (-1, s).
Definition sys_recv (len : Z) (s : sock) : option (list byte) * sock :=
  if sock_valid s then let '(r, w) := os_recv len (sock_os s) in (r, with_os s w) else (None, s).

Definition socket_send_buffers (bufs : list (list byte)) (s : sock) : Z * sock :=
  if SOCKET_SEND_BUFFERS_MAX_BUFFERS <? zlen bufs then (-1, s) else sys_writev bufs s.

(** [Socket::Close] *)
Definition Close : M sock Z := fun s =>
  if sock_valid s
  then let '(r, w) := os_close (sock_os s) in Ret (r, mk_sock false (receive_timed_out_ s) w)
  else Ret (0, s).

(** [Socket::WaitForRecv] *)
Definition WaitForRecv (timeout_ms : Z) : M sock bool := fun s =>
  let s := mk_sock (sock_valid s) false (sock_os s) in
  if timeout_ms <=? 0 then Ret (true, s)
  else if negb (sock_valid s) then Ret (false, s)
  else
    let '(result, w) := os_select timeout_ms (sock_os s) in
    let s := mk_sock (sock_valid s) (if result =? 0 then true else receive_timed_out_ s) w in
    Ret (result =? 1, s).

End base.

(** [Socket::ReceiveAll], over the virtual [Receive].  Every iteration that
    goes on has received at least one byte, so [length] iterations are enough. *)
Fixpoint ReceiveAll_loop {S} (recv : Z → Z → M S (option (list byte))) (fuel : nat)
    (length timeout_ms : Z) (got : list byte) : M S (option (list byte)) :=
  if zlen got <? length then
    match fuel with
    | O => out_of_fuel
    | Datatypes.S fuel =>
        bytes ← recv (length - zlen got) timeout_ms;
        match bytes with
        | Some ((_ :: _) as l) => ReceiveAll_loop recv fuel length timeout_ms (got ++ l)
        | _ => mret (if zlen got =? 0 then None else Some got)
        end
    end
  else mret (Some got).

Definition receive_all {S} (recv : Z → Z → M S (option (list byte))) (length timeout_ms : Z)
    : M S (option (list byte)) :=
  ReceiveAll_loop recv (Z.to_nat length) length timeout_ms [].

Module UdpSocket.
Section udp.
Context {W : Type} `{OS W}.

(** A client: [addr_] is null and [sendto] goes to the connected peer. *)
Definition Send (data : list byte) : M sock bool := fun s =>
  let '(sent, s) := sys_send data s in Ret (sent =? zlen data, s).

Definition total_length (bufs : list (list byte)) : Z := foldr (fun b n => zlen b + n) 0 bufs.

Definition SendBuffers (bufs : list (list byte)) : M sock bool := fun s =>
  let '(sent, s) := socket_send_buffers bufs s in Ret (sent =? total_length bufs, s).

Definition Receive (length timeout_ms : Z) : M sock (option (list byte)) :=
  ready ← WaitForRecv timeout_ms;
  if negb ready then mret None else fun s => Ret (sys_recv length s).

End udp.
End UdpSocket.

Module TcpSocket.
Section tcp.
Context {W : Type} `{OS W}.

(** [TcpSocket::Send(const void*, size_t)]: the loop shortens [length] but keeps
    [data], so every call sends from the start of the buffer. *)
Fixpoint Send_loop (fuel : nat) (data : list byte) (length : Z) : M sock bool := fun s =>
  if 0 <? length then
    match fuel with
    | O => OutOfFuel
    | Datatypes.S fuel =>
        let '(sent, s) := sys_send (ztake length data) s in
        if sent =? -1 then Ret (false, s)
        else Send_loop fuel data (length - sent) s
    end
  else Ret (true, s).

Definition Send (fuel : nat) (data : list byte) : M sock bool := Send_loop fuel data (zlen data).

(** The inner loop of [Send(buffers)]: the buffers from [iter] on, after
    skipping [sent] bytes; [iter] beyond the end is dereferenced. *)
Fixpoint skip_sent (sent : Z) (bufs : list (list byte)) : outcome (list (list byte)) :=
  if 0 <? sent then
    match bufs with
    | [] => AssertFail
    | b :: rest =>
        if sent <? zlen b then Ret (zdrop sent b :: rest)
        else skip_sent (sent - zlen b) rest
    end
  else Ret bufs.

Fixpoint SendBuffers (fuel : nat) (bufs : list (list byte)) : M sock bool := fun s =>
  match bufs with
  | [] => Ret (true, s)
  | _ =>
      match fuel with
      | O => OutOfFuel
      | Datatypes.S fuel =>
          let '(sent, s) := socket_send_buffers bufs s in
          if sent =? -1 then Ret (false, s)
          else
            bufs' ← skip_sent sent bufs;
            match bufs' with
            | [] => Ret (true, s)
            | _ => SendBuffers fuel bufs' s
            end
      end
  end.

Definition Receive (length timeout_ms : Z) : M sock (option (list byte)) :=
  ready ← WaitForRecv timeout_ms;
  if negb ready then mret None else fun s => Ret (sys_recv length s).

End tcp.
End TcpSocket.

Definition UdpSocket_socket {W} `{OS W} : Socket (@sock W) := {|
  Send := UdpSocket.Send;
  SendBuffers := UdpSocket.SendBuffers;
  Receive := UdpSocket.Receive;
  ReceiveAll := receive_all UdpSocket.Receive;
  ReceiveTimedOut := receive_timed_out_;
  SocketClose := Close;
  GetErrorMessage s := os_strerror (sock_os s)
|}.

(** [fuel] bounds the loops of the two [Send]s. *)
Definition TcpSocket_socket {W} `{OS W} (fuel : nat) : Socket (@sock W) := {|
  Send := TcpSocket.Send fuel;
  SendBuffers := TcpSocket.SendBuffers fuel;
  Receive := TcpSocket.Receive;
  ReceiveAll := receive_all TcpSocket.Receive;
  ReceiveTimedOut := receive_timed_out_;
  SocketClose := Close;
  GetErrorMessage s := os_strerror (sock_os s)
|}.

(** ** What a transport relies on when its socket is a stream

    [incoming] is what the peer has sent and was not received yet, [outgoing]
    everything sent so far; [max_send] bounds one [SendBuffers]. *)
Definition ends_nonempty (bufs : list (list byte)) : Prop :=
  ∀ b, last bufs = Some b → b ≠ [].

Class StreamSocket (S : Type) `{Socket S} := {
  connected : S → Prop;
  incoming : S → list byte;
  outgoing : S → list byte;
  max_send : Z;
  stream_send bufs s :
    connected s → zlen bufs ≤ SOCKET_SEND_BUFFERS_MAX_BUFFERS → ends_nonempty bufs →
    zlen (concat bufs) ≤ max_send →
    ∃ s', SendBuffers bufs s = Ret (true, s') ∧ connected s' ∧
          incoming s' = incoming s ∧ outgoing s' = outgoing s ++ concat bufs;
  stream_receive n t s :
    connected s → 0 < n → t ≤ 0 →
    ∃ s', ReceiveAll n t s
          = Ret (if bool_decide (incoming s = []) then None else Some (ztake n (incoming s)), s') ∧
          connected s' ∧ incoming s' = zdrop n (incoming s) ∧ outgoing s' = outgoing s;
  stream_receive_none t s : ReceiveAll 0 t s = Ret (Some [], s);
  stream_close s : ∃ r, SocketClose s = Ret r
}.

(** ** A connection that fragments arbitrarily

    Every system call transfers a number of bytes that the list [cuts] chooses,
    at least one when there is something to transfer. *)
Record stream : Type := mk_stream {
  st_rx : list byte;
  st_tx : list byte;
  cuts : list Z
}.

Definition cut (w : stream) (available : Z) : Z :=
  Z.min available (Z.max 1 (default available (head (cuts w)))).

Definition stream_put (data : list byte) (w : stream) : Z * stream :=
  let n := cut w (zlen data) in
  (n, mk_stream (st_rx w) (st_tx w ++ ztake n data) (tail (cuts w))).

#[export] Instance stream_os : OS stream := {|
  os_send := stream_put;
  os_writev bufs := stream_put (concat bufs);
  os_recv len w :=
    let n := cut w (Z.min len (zlen (st_rx w))) in
    (Some (ztake n (st_rx w)), mk_stream (zdrop n (st_rx w)) (st_tx w) (tail (cuts w)));
  os_select _ w := (1, w);
  os_close w := (0, w);
  os_strerror _ := []
|}.

Lemma cut_range w n : 0 ≤ n → 0 ≤ cut w n ≤ n ∧ (0 < n → 0 < cut w n).
Proof. unfold cut. lia. Qed.

(** ** Sending *)

Lemma skip_sent_spec sent bufs :
  0 ≤ sent ≤ zlen (concat bufs) → ends_nonempty bufs →
  ∃ bufs', TcpSocket.skip_sent sent bufs = Ret bufs' ∧
    concat bufs' = zdrop sent (concat bufs) ∧
    zlen bufs' ≤ zlen bufs ∧ ends_nonempty bufs'.
Proof.
  revert sent. induction bufs as [|b rest IH]; intros sent Hs He.
  - exists []. cbn [concat] in Hs. change (zlen []) with 0 in Hs.
    assert (sent = 0) as -> by lia. done.
  - cbn [concat] in Hs |- *. rewrite zlen_app in Hs. cbn [TcpSocket.skip_sent].
    destruct (Z.ltb_spec 0 sent) as [Hp|Hp].
    2: { assert (sent = 0) as -> by lia. by exists (b :: rest). }
    destruct (Z.ltb_spec sent (zlen b)) as [Hlt|Hge].
    + exists (zdrop sent b :: rest). split_and!; [done| | |].
      * cbn [concat]. unfold zdrop. rewrite drop_app_le; [done|]. unfold zlen in *. lia.
      * rewrite !zlen_cons. lia.
      * intros c Hc. destruct rest as [|r rest].
        -- injection Hc as <-. intros E.
           pose proof (zlen_zdrop sent b ltac:(lia)) as HL. rewrite E in HL.
           change (zlen []) with 0 in HL. lia.
        -- apply (He c Hc).
    + destruct (IH (sent - zlen b)) as (bufs' & E & HC & HL & HE); [lia| |].
      { intros c Hc. destruct rest as [|r rest]; [done|]. by apply He. }
      exists bufs'. split_and!; [done| | |done].
      * rewrite HC. unfold zdrop, zlen. rewrite drop_app_ge by (unfold zlen in *; lia).
        f_equal. lia.
      * rewrite zlen_cons. lia.
Qed.

Lemma ends_nonempty_pos bufs : bufs ≠ [] → ends_nonempty bufs → 0 < zlen (concat bufs).
Proof.
  intros Hne He. destruct (last bufs) as [b|] eqn:Hl.
  - pose proof (He b Hl) as Hb. apply last_Some in Hl as [l ->].
    rewrite concat_app, zlen_app. cbn [concat]. rewrite app_nil_r.
    pose proof (zlen_nonneg (concat l)). destruct b; [done|].
    rewrite zlen_cons. pose proof (zlen_nonneg b0). lia.
  - by apply last_None in Hl.
Qed.

Lemma tcp_send_buffers fuel bufs rx tx cs tmo :
  zlen bufs ≤ SOCKET_SEND_BUFFERS_MAX_BUFFERS → ends_nonempty bufs →
  zlen (concat bufs) ≤ Z.of_nat fuel →
  ∃ cs', TcpSocket.SendBuffers fuel bufs (mk_sock true tmo (mk_stream rx tx cs))
       = Ret (true, mk_sock true tmo (mk_stream rx (tx ++ concat bufs) cs')).
Proof.
  revert bufs tx cs. induction fuel as [|fuel IH]; intros bufs tx cs HM He Hf.
  - destruct bufs as [|b bufs].
    + exists cs. cbn [TcpSocket.SendBuffers concat]. by rewrite app_nil_r.
    + pose proof (ends_nonempty_pos (b :: bufs) ltac:(done) He). lia.
  - destruct bufs as [|b bufs].
    { exists cs. cbn [TcpSocket.SendBuffers concat]. by rewrite app_nil_r. }
    remember (b :: bufs) as l eqn:Hl.
    assert (0 < zlen (concat l)) as Hpos by (apply ends_nonempty_pos; subst; done).
    set (w := mk_stream rx tx cs).
    destruct (cut_range w (zlen (concat l)) ltac:(lia)) as [Hr Hr'].
    specialize (Hr' Hpos). set (n := cut w (zlen (concat l))) in *.
    destruct (skip_sent_spec n l Hr He) as (l' & Es & EC & EL & Ee).
    assert (TcpSocket.SendBuffers (S fuel) l (mk_sock true tmo w)
      = match l' with
        | [] => Ret (true, mk_sock true tmo (mk_stream rx (tx ++ ztake n (concat l)) (tail cs)))
        | _ => TcpSocket.SendBuffers fuel l'
                 (mk_sock true tmo (mk_stream rx (tx ++ ztake n (concat l)) (tail cs)))
        end) as ->.
    { rewrite Hl at 1. cbn [TcpSocket.SendBuffers]. rewrite <- Hl.
      unfold socket_send_buffers.
      destruct (Z.ltb_spec SOCKET_SEND_BUFFERS_MAX_BUFFERS (zlen l)); [lia|].
      unfold sys_writev. cbn [sock_valid sock_os os_writev stream_os].
      unfold stream_put. fold n. cbn [with_os sock_valid receive_timed_out_ st_rx st_tx cuts w].
      destruct (Z.eqb_spec n (-1)); [lia|]. rewrite Es. cbn [mbind outcome_bind]. done. }
    assert (concat l = ztake n (concat l) ++ concat l') as Hsplit
      by (rewrite EC; symmetry; apply ztake_zdrop).
    destruct l' as [|b' l'].
    + exists (tail cs). cbn [concat] in Hsplit. rewrite app_nil_r in Hsplit. by rewrite <- Hsplit.
    + destruct (IH (b' :: l') (tx ++ ztake n (concat l)) (tail cs)) as [cs' E]; [lia|done| |].
      { rewrite EC, zlen_zdrop by lia. lia. }
      exists cs'. rewrite E, <- app_assoc, <- Hsplit. done.
Qed.

(** ** Receiving *)

Lemma tcp_receive_step n t tmo rx tx cs : t ≤ 0 →
  TcpSocket.Receive n t (mk_sock true tmo (mk_stream rx tx cs))
  = let k := cut (mk_stream rx tx cs) (Z.min n (zlen rx)) in
    Ret (Some (ztake k rx), mk_sock true false (mk_stream (zdrop k rx) tx (tail cs))).
Proof.
  intros Ht. unfold TcpSocket.Receive, WaitForRecv. mred. cbn [sock_valid sock_os].
  destruct (Z.leb_spec t 0); [|lia]. done.
Qed.

Lemma receive_all_loop fuel n t tmo got rx tx cs :
  t ≤ 0 → zlen got ≤ n → (Z.to_nat (n - zlen got) ≤ fuel)%nat →
  ∃ cs' tmo',
    ReceiveAll_loop TcpSocket.Receive fuel n t got (mk_sock true tmo (mk_stream rx tx cs))
    = Ret (if (0 <? n) && bool_decide (got = []) && bool_decide (rx = []) then None
           else Some (got ++ ztake (n - zlen got) rx),
           mk_sock true tmo' (mk_stream (zdrop (n - zlen got) rx) tx cs')).
Proof.
  intros Ht. revert tmo got rx cs. induction fuel as [|fuel IH]; intros tmo got rx cs Hg Hf.
  - assert (n = zlen got) as -> by lia. exists cs, tmo. cbn [ReceiveAll_loop].
    rewrite Z.ltb_irrefl, Z.sub_diag, ztake_0, zdrop_0, app_nil_r. mred.
    destruct got as [|g got]; [done|].
    by rewrite (bool_decide_eq_false_2 (g :: got = [])), andb_false_r.
  - cbn [ReceiveAll_loop]. destruct (Z.ltb_spec (zlen got) n) as [Hlt|Hge].
    2: { assert (n = zlen got) as -> by lia. exists cs, tmo.
         rewrite Z.sub_diag, ztake_0, zdrop_0, app_nil_r. mred.
         destruct got as [|g got]; [done|].
         by rewrite (bool_decide_eq_false_2 (g :: got = [])), andb_false_r. }
    unfold mbind, M_bind. rewrite tcp_receive_step by done. cbn zeta.
    pose proof (zlen_nonneg rx) as Hrx. pose proof (zlen_nonneg got) as Hgot.
    set (w := mk_stream rx tx cs).
    destruct (cut_range w (Z.min (n - zlen got) (zlen rx)) ltac:(lia)) as [Hr Hr'].
    set (k := cut w (Z.min (n - zlen got) (zlen rx))) in *.
    destruct (decide (rx = [])) as [->|Hne].
    + change (zlen []) with 0 in *. assert (k = 0) as Hk by lia.
      rewrite Hk. exists (tail cs), false. change (ztake 0 []) with (@nil byte).
      assert (zdrop (n - zlen got) [] = @nil byte) as -> by (unfold zdrop; apply drop_nil).
      assert (ztake (n - zlen got) [] = @nil byte) as -> by (unfold ztake; apply take_nil).
      change (zdrop 0 []) with (@nil byte). rewrite app_nil_r.
      destruct (Z.ltb_spec 0 n); [|lia]. mred.
      destruct got as [|g got]; [done|]. rewrite (bool_decide_eq_false_2 (g :: got = [])) by done.
      rewrite zlen_cons. pose proof (zlen_nonneg got).
      destruct (Z.eqb_spec (zlen got + 1) 0); [lia|done].
    + assert (0 < zlen rx).
      { destruct rx as [|r rx]; [done|]. rewrite zlen_cons. pose proof (zlen_nonneg rx). lia. }
      specialize (Hr' ltac:(lia)).
      assert (zlen (ztake k rx) = k) as Hkl by (apply zlen_ztake; lia).
      destruct (ztake k rx) as [|x l] eqn:Htk; [change (zlen []) with 0 in Hkl; lia|].
      cbv beta iota. rewrite <- Htk in *.
      destruct (IH false (got ++ ztake k rx) (zdrop k rx) (tail cs)) as (cs' & tmo' & E).
      * rewrite zlen_app. lia.
      * rewrite zlen_app, Hkl. lia.
      * exists cs', tmo'. rewrite E. rewrite zlen_app, Hkl.
        replace (n - zlen got) with (k + (n - (zlen got + k))) by lia.
        rewrite zdrop_zdrop, ztake_split, <- app_assoc by lia.
        assert (bool_decide (got ++ ztake k rx = []) = false) as ->.
        { apply bool_decide_eq_false_2. rewrite Htk. by intros [_ ?]%app_eq_nil. }
        assert (bool_decide (rx = []) = false) as ->.
        { by apply bool_decide_eq_false_2. }
        by rewrite !andb_false_r.
Qed.

(** The stream interface holds of [TcpSocket] over such a connection, for
    transfers of up to [fuel] bytes. *)
#[export] Program Instance TcpSocket_stream (fuel : nat) :
    @StreamSocket (@sock stream) (TcpSocket_socket fuel) := {|
  connected s := sock_valid s = true;
  incoming s := st_rx (sock_os s);
  outgoing s := st_tx (sock_os s);
  max_send := Z.of_nat fuel
|}.
Next Obligation.
  intros fuel bufs [v tmo [rx tx cs]] Hv HM He Hf. cbn in Hv. subst v.
  destruct (tcp_send_buffers fuel bufs rx tx cs tmo HM He Hf) as [cs' E].
  eexists. split; [exact E|]. done.
Qed.
Next Obligation.
  intros fuel n t [v tmo [rx tx cs]] Hv Hn Ht. cbn in Hv. subst v.
  destruct (receive_all_loop (Z.to_nat n) n t tmo [] rx tx cs Ht) as (cs' & tmo' & E);
    change (zlen []) with 0; [lia|lia|].
  change (zlen []) with 0 in E. rewrite Z.sub_0_r in E.
  exists (mk_sock true tmo' (mk_stream (zdrop n rx) tx cs')).
  split; [cbn [ReceiveAll TcpSocket_socket]; unfold receive_all; rewrite E|done].
  destruct (Z.ltb_spec 0 n); [|lia]. done.
Qed.
Next Obligation. done. Qed.
Next Obligation. intros fuel [v tmo w]. cbn. unfold Close. cbn. destruct v; by eexists. Qed.

(** * Claims *)

(** Whatever way a TCP connection cuts the transfers into pieces,
    [TcpSocket::Send(buffers)] terminates, returns true and puts exactly the
    concatenation of its buffers on the wire, and [ReceiveAll] then returns on
    the other end exactly the bytes asked for when they have been sent, with the
    rest left for the next call: a send followed by a receive of that many bytes
    is the identity. *)
Theorem tcp_socket_roundtrip (fuel : nat) bufs tx rx cs cs2 tmo tmo2 later :
  zlen bufs ≤ SOCKET_SEND_BUFFERS_MAX_BUFFERS → ends_nonempty bufs → bufs ≠ [] →
  zlen (concat bufs) ≤ Z.of_nat fuel →
  ∃ cs' cs2' tmo',
    TcpSocket.SendBuffers fuel bufs (mk_sock true tmo (mk_stream rx tx cs))
    = Ret (true, mk_sock true tmo (mk_stream rx (tx ++ concat bufs) cs')) ∧
    receive_all TcpSocket.Receive (zlen (concat bufs)) 0
      (mk_sock true tmo2 (mk_stream (concat bufs ++ later) [] cs2))
    = Ret (Some (concat bufs), mk_sock true tmo' (mk_stream later [] cs2')).
Proof.
  intros HM He Hne Hf. destruct (tcp_send_buffers fuel bufs rx tx cs tmo HM He Hf) as [cs' ->].
  pose proof (ends_nonempty_pos bufs Hne He) as Hpos.
  destruct (receive_all_loop (Z.to_nat (zlen (concat bufs))) (zlen (concat bufs)) 0 tmo2 []
              (concat bufs ++ later) [] cs2) as (cs2' & tmo' & E);
    change (zlen []) with 0 in *; [lia|lia|lia|].
  exists cs', cs2', tmo'. split; [done|]. unfold receive_all. rewrite E, Z.sub_0_r.
  rewrite (bool_decide_eq_false_2 (concat bufs ++ later = [])), andb_false_r, app_nil_l.
  - by rewrite ztake_app_exact, zdrop_app_exact.
  - intros [E' _]%app_eq_nil. rewrite E' in Hpos. change (zlen []) with 0 in Hpos. lia.
Qed.

Lemma tcp_socket_roundtrip_witness :
  ∃ cs' cs2' tmo',
    TcpSocket.SendBuffers 100 [bs "head"; bs "payload"]
      (mk_sock true false (mk_stream [] [] [3; 1; 2]))
    = Ret (true, mk_sock true false (mk_stream [] (bs "headpayload") cs')) ∧
    receive_all TcpSocket.Receive 11 0
      (mk_sock true false (mk_stream (bs "headpayloadmore") [] [5; 5]))
    = Ret (Some (bs "headpayload"), mk_sock true tmo' (mk_stream (bs "more") [] cs2')).
Proof.
  apply (tcp_socket_roundtrip 100 [bs "head"; bs "payload"] [] [] [3; 1; 2] [5; 5] false false
           (bs "more")).
  - vm_compute. discriminate.
  - intros b Hb. vm_compute in Hb. injection Hb as <-. discriminate.
  - discriminate.
  - vm_compute. discriminate.
Defined.

(** C34: [TcpSocket::Send(data, length)] does not advance [data] after a partial
    write.  When the first system call accepts [k] of the bytes and the second
    the rest, the wire carries the first [k] bytes followed by a prefix of the
    same data instead of its remainder. *)
Theorem tcp_send_partial_write_repeats_prefix fuel data k rx tx tmo :
  0 < k < zlen data → (2 ≤ fuel)%nat →
  TcpSocket.Send fuel data (mk_sock true tmo (mk_stream rx tx [k]))
  = Ret (true, mk_sock true tmo
           (mk_stream rx (tx ++ ztake k data ++ ztake (zlen data - k) data) [])).
Proof.
  intros Hk Hf. destruct fuel as [|[|fuel]]; [lia|lia|].
  unfold TcpSocket.Send. cbn [TcpSocket.Send_loop].
  destruct (Z.ltb_spec 0 (zlen data)); [|lia].
  assert (∀ d t cs, sys_send d (mk_sock true tmo (mk_stream rx t cs))
          = let n := cut (mk_stream rx t cs) (zlen d) in
            (n, mk_sock true tmo (mk_stream rx (t ++ ztake n d) (tail cs)))) as Hsend by done.
  rewrite Hsend, (ztake_all (zlen data)) by lia. cbn zeta.
  replace (cut (mk_stream rx tx [k]) (zlen data)) with k
    by (unfold cut; cbn [cuts head default]; unfold id; lia).
  destruct (Z.eqb_spec k (-1)); [lia|].
  destruct (Z.ltb_spec 0 (zlen data - k)); [|lia].
  rewrite Hsend. cbn zeta. rewrite zlen_ztake by lia.
  replace (cut _ (zlen data - k)) with (zlen data - k)
    by (unfold cut; cbn [cuts head default tail]; unfold id; lia).
  destruct (Z.eqb_spec (zlen data - k) (-1)); [lia|].
  rewrite Z.sub_diag, <- app_assoc.
  rewrite (ztake_all (zlen data - k) (ztake _ _)) by (rewrite zlen_ztake; lia).
  destruct fuel; reflexivity.
Qed.

Lemma tcp_send_partial_write_repeats_prefix_witness :
  TcpSocket.Send 5 (bs "FB01") (mk_sock true false (mk_stream [] [] [2]))
  = Ret (true, mk_sock true false (mk_stream [] (bs "FBFB") [])).
Proof.
  apply (tcp_send_partial_write_repeats_prefix 5 (bs "FB01") 2 [] [] false).
  - vm_compute. split; reflexivity.
  - lia.
Defined.
