(* ===== verification/Tcp.v ===== *)
(** The TCP transport of fastboot (system/core/fastboot/tcp.cpp): messages of up
    to 2^64-1 bytes, each preceded by its length in 8 big-endian bytes, over any
    [Socket].  The theorems on data are proved against [StreamSocket]. *)

From Stdlib Require Import Strings.String.
From S2P Require Import Prelude LibBase Socket.
Open Scope Z_scope.

Module TcpTransport.

Definition kProtocolVersion : Z := 1.
Definition kHandshakeLength : Z := 4.
Definition kHandshakeTimeoutMs : Z := 2000.

(** The loop variable of both length codecs. *)
Definition idx8 : list Z := [0; 1; 2; 3; 4; 5; 6; 7].

Definition ExtractMessageLength (buffer : list byte) : Z :=
  foldl (fun ret i => Z.lor ret (Z.shiftl (b2z (default x00 (zlookup buffer i))) (56 - i * 8)))
    0 idx8.

Definition EncodeMessageLength (length : Z) : list byte :=
  (fun i => z2b (Z.shiftr length (56 - i * 8))) <$> idx8.

(** Lines 112-122: the reply to the handshake; [inr] is an error message. *)
Definition check_reply (buffer : list byte) : unit + list byte :=
  if negb (bool_decide (ztake 2 buffer = bs "FB"))
  then inr (bs "Unrecognized initialization message. Target may not support TCP fastboot")
  else
    match ParseInt (c_str (zdrop 2 buffer)) (- 2 ^ 31) (2 ^ 31 - 1) with
    | Some version =>
        if version <? kProtocolVersion
        then inr (bs "Unknown TCP protocol version " ++ c_str (zdrop 2 buffer)
                  ++ bs " (host version " ++ fmt_02d kProtocolVersion ++ bs ")")
        else inl tt
    | None =>
        inr (bs "Unknown TCP protocol version " ++ c_str (zdrop 2 buffer)
             ++ bs " (host version " ++ fmt_02d kProtocolVersion ++ bs ")")
    end.

Section transport.
Context {S : Type} `{Socket S}.

(** [socket_] is null once the transport is closed. *)
Record TcpTransport : Type := mk_tcp {
  socket_ : option S;
  message_bytes_left_ : Z       (* uint64_t *)
}.

(** Returns [*error], [None] for success. *)
Definition InitializeProtocol : M S (option (list byte)) :=
  let handshake_message := bs "FB" ++ fmt_02d kProtocolVersion in
  sent ← Send (ztake kHandshakeLength handshake_message);
  if negb sent then
    s ← get;
    mret (Some (bs "Failed to send initialization message (" ++ GetErrorMessage s ++ bs ")"))
  else
    r ← ReceiveAll kHandshakeLength kHandshakeTimeoutMs;
    match r with
    | Some buffer =>
        if negb (zlen buffer =? kHandshakeLength) then
          s ← get;
          mret (Some (bs "No initialization message received (" ++ GetErrorMessage s
                      ++ bs "). Target may not support TCP fastboot"))
        else
          match check_reply buffer with
          | inl _ => mret None
          | inr e => mret (Some e)
          end
    | None =>
        s ← get;
        mret (Some (bs "No initialization message received (" ++ GetErrorMessage s
                    ++ bs "). Target may not support TCP fastboot"))
    end.

(** [NewTransport]: on failure the transport is destroyed, which closes its
    socket. *)
Definition NewTransport (s : S) : outcome (TcpTransport + list byte) :=
  '(e, s) ← InitializeProtocol s;
  match e with
  | None => Ret (inl (mk_tcp (Some s) 0))
  | Some e => '(_, _) ← SocketClose s; Ret (inr e)
  end.

(** [internal::Connect]: a null socket gives a null transport. *)
Definition Connect (sock : option S) (error : list byte) : outcome (TcpTransport + list byte) :=
  match sock with
  | None => Ret (inr error)
  | Some s => NewTransport s
  end.

Definition Close : M TcpTransport Z := fun t =>
  match socket_ t with
  | None => Ret (0, t)
  | Some s =>
      '(result, _) ← SocketClose s;
      Ret (result, mk_tcp None (message_bytes_left_ t))
  end.

Definition Reset : M TcpTransport Z := mret 0.

(** The message part of [Read]: up to [length] bytes of the current message. *)
Definition ReadMessage (length : Z) (s : S) : M TcpTransport (option (list byte)) := fun t =>
  let length := if message_bytes_left_ t <? length then message_bytes_left_ t else length in
  '(bytes_read, s) ← ReceiveAll length 0 s;
  match bytes_read with
  | None => '(_, t) ← Close (mk_tcp (Some s) (message_bytes_left_ t)); Ret (None, t)
  | Some data => Ret (Some data, mk_tcp (Some s) (u64 (message_bytes_left_ t - zlen data)))
  end.

Definition Read (length : Z) : M TcpTransport (option (list byte)) := fun t =>
  match socket_ t with
  | None => Ret (None, t)
  | Some s =>
      if message_bytes_left_ t =? 0 then
        '(r, s) ← ReceiveAll 8 0 s;
        let t := mk_tcp (Some s) (message_bytes_left_ t) in
        match r with
        | Some buffer =>
            if negb (zlen buffer =? 8) then '(_, t) ← Close t; Ret (None, t)
            else ReadMessage length s (mk_tcp (Some s) (ExtractMessageLength buffer))
        | None => '(_, t) ← Close t; Ret (None, t)
        end
      else ReadMessage length s t
  end.

Definition Write (data : list byte) : M TcpTransport Z := fun t =>
  match socket_ t with
  | None => Ret (-1, t)
  | Some s =>
      let header := EncodeMessageLength (zlen data) in
      '(ok, s) ← SendBuffers [header; data] s;
      let t := mk_tcp (Some s) (message_bytes_left_ t) in
      if negb ok then '(_, t) ← Close t; Ret (-1, t) else Ret (zlen data, t)
  end.

End transport.
Arguments TcpTransport : clear implicits.

(** ** The length codec *)

Lemma zlen_EncodeMessageLength n : zlen (EncodeMessageLength n) = 8.
Proof. done. Qed.

(** Byte [k / 8] of [n], put back in its place. *)
Lemma testbit_byte n k i : 0 ≤ k → 0 ≤ i →
  Z.testbit (Z.shiftl (b2z (z2b (Z.shiftr n k))) k) i
  = ((k <=? i) && (i <? k + 8)) && Z.testbit n i.
Proof.
  intros Hk Hi. rewrite b2z_z2b. change 256 with (2 ^ 8). rewrite Z.shiftl_spec by done.
  destruct (Z.leb_spec k i) as [Hki|Hki].
  - destruct (Z.ltb_spec i (k + 8)) as [Hi8|Hi8].
    + rewrite Z.mod_pow2_bits_low, Z.shiftr_spec by lia. simpl. f_equal. lia.
    + by rewrite Z.mod_pow2_bits_high by lia.
  - by rewrite Z.testbit_neg_r by lia.
Qed.

Lemma testbit_extend n k acc :
  0 ≤ k ≤ 56 →
  (∀ i, 0 ≤ i → Z.testbit acc i = ((k + 8 <=? i) && (i <? 64)) && Z.testbit n i) →
  ∀ i, 0 ≤ i →
    Z.testbit (Z.lor acc (Z.shiftl (b2z (z2b (Z.shiftr n k))) k)) i
    = ((k <=? i) && (i <? 64)) && Z.testbit n i.
Proof.
  intros Hk Hacc i Hi. rewrite Z.lor_spec, Hacc, testbit_byte by lia.
  destruct (Z.leb_spec k i), (Z.leb_spec (k + 8) i), (Z.ltb_spec i (k + 8)), (Z.ltb_spec i 64);
    try lia; cbn [andb orb]; by rewrite ?orb_false_r.
Qed.

Lemma extract_encode n : ExtractMessageLength (EncodeMessageLength n) = u64 n.
Proof.
  apply Z.bits_inj'. intros i Hi. unfold u64.
  change (ExtractMessageLength (EncodeMessageLength n)) with
    (foldl (fun ret k => Z.lor ret (Z.shiftl (b2z (z2b (Z.shiftr n k))) k)) 0
       [56; 48; 40; 32; 24; 16; 8; 0]).
  cbn [foldl]. transitivity (((0 <=? i) && (i <? 64)) && Z.testbit n i).
  - revert i Hi. do 8 (apply testbit_extend; [lia|]). intros i Hi. rewrite Z.bits_0.
    destruct (Z.leb_spec (56 + 8) i), (Z.ltb_spec i 64); try lia; done.
  - destruct (Z.leb_spec 0 i); [|lia]. destruct (Z.ltb_spec i 64); cbn [andb].
    + by rewrite Z.mod_pow2_bits_low by lia.
    + by rewrite Z.mod_pow2_bits_high by lia.
Qed.

(** ** What the transport promises: a queue of messages

    [cur] is the unread part of the message being read. *)
Record msg_state : Type := mk_msgs { ms_cur : list byte; ms_pending : list (list byte) }.

Definition spec_read (n : Z) (m : msg_state) : option (list byte * msg_state) :=
  match ms_cur m, ms_pending m with
  | [], [] => None
  | [], msg :: rest => Some (ztake n msg, mk_msgs (zdrop n msg) rest)
  | cur, rest => Some (ztake n cur, mk_msgs (zdrop n cur) rest)
  end.

Fixpoint spec_reads (ns : list Z) (m : msg_state) : list (option (list byte)) :=
  match ns with
  | [] => []
  | n :: ns =>
      match spec_read n m with
      | Some (d, m') => Some d :: spec_reads ns m'
      | None => replicate (length (n :: ns)) None
      end
  end.

Definition frame (msg : list byte) : list byte := EncodeMessageLength (zlen msg) ++ msg.

Section runs.
Context {S : Type} `{Socket S}.

Fixpoint reads (ns : list Z) (t : TcpTransport S) : outcome (list (option (list byte))) :=
  match ns with
  | [] => Ret []
  | n :: ns => '(r, t) ← Read n t; rs ← reads ns t; Ret (r :: rs)
  end.

Fixpoint writes (msgs : list (list byte)) (t : TcpTransport S)
    : outcome (list Z * TcpTransport S) :=
  match msgs with
  | [] => Ret ([], t)
  | m :: msgs => '(r, t) ← Write m t; '(rs, t) ← writes msgs t; Ret (r :: rs, t)
  end.

End runs.

(** ** The transport over a stream *)
Section over_stream.
Context {S : Type} `{StreamSocket S}.

(** The transport and the abstract queue agree. *)
Definition holds (t : TcpTransport S) (m : msg_state) : Prop :=
  ∃ s, socket_ t = Some s ∧ connected s ∧ message_bytes_left_ t = zlen (ms_cur m) ∧
       incoming s = ms_cur m ++ concat (frame <$> ms_pending m) ∧
       zlen (ms_cur m) < 2 ^ 64 ∧ Forall (fun d => zlen d < 2 ^ 64) (ms_pending m).

Lemma ReadMessage_spec n s cur rest left :
  0 ≤ n → connected s → left = zlen cur → zlen cur < 2 ^ 64 →
  incoming s = cur ++ concat (frame <$> rest) →
  Forall (fun d => zlen d < 2 ^ 64) rest →
  ∃ t', ReadMessage n s (mk_tcp (Some s) left) = Ret (Some (ztake n cur), t') ∧
        holds t' (mk_msgs (zdrop n cur) rest).
Proof.
  intros Hn Hc -> Hsz Hi Hrest. pose proof (zlen_nonneg cur) as Hpos.
  unfold ReadMessage. cbn [message_bytes_left_].
  set (len := if zlen cur <? n then zlen cur else n).
  assert (len = Z.min n (zlen cur)) as Hlen by (unfold len; destruct (Z.ltb_spec (zlen cur) n); lia).
  clearbody len. subst len.
  assert (ztake (Z.min n (zlen cur)) cur = ztake n cur) as Htk.
  { destruct (Z.min_spec n (zlen cur)) as [[? ->]|[? ->]]; [done|]. by rewrite !ztake_all by lia. }
  assert (zdrop (Z.min n (zlen cur)) cur = zdrop n cur) as Hdr.
  { destruct (Z.min_spec n (zlen cur)) as [[? ->]|[? ->]]; [done|].
    unfold zdrop, zlen in *. rewrite !drop_ge by lia. done. }
  assert (zlen (ztake n cur) = Z.min n (zlen cur)) as Hl by (rewrite <- Htk; apply zlen_ztake; lia).
  assert (u64 (zlen cur - zlen (ztake n cur)) = zlen (zdrop n cur)) as Hu.
  { rewrite <- Hdr, zlen_zdrop, Hl by lia. apply u64_small. lia. }
  destruct (Z.eq_dec (Z.min n (zlen cur)) 0) as [H0'|H0'].
  - rewrite H0' in *. rewrite stream_receive_none. mred. rewrite <- Htk, ztake_0 in *.
    eexists. split; [done|]. rewrite <- Hdr, zdrop_0 in *. exists s. cbn. split_and!; try done.
  - destruct (stream_receive (Z.min n (zlen cur)) 0 s Hc) as (s' & E & Hc' & Hi' & _); [lia|lia|].
    rewrite E. rewrite Hi in *.
    rewrite bool_decide_eq_false_2
      by (intros [-> _]%app_eq_nil; change (zlen []) with 0 in *; lia).
    replace (ztake (Z.min n (zlen cur)) (cur ++ concat (frame <$> rest))) with (ztake n cur)
      by (rewrite <- Htk; unfold ztake; rewrite take_app_le by (unfold zlen in *; lia); done).
    mred. eexists. split; [done|]. exists s'. cbn [socket_ message_bytes_left_ ms_cur ms_pending].
    split_and!; try done.
    + rewrite Hi', <- Hdr. unfold zdrop. rewrite drop_app_le by (unfold zlen in *; lia). done.
    + rewrite <- Hdr, zlen_zdrop by lia. lia.
Qed.

Lemma Read_spec n t m : 0 ≤ n → holds t m →
  match spec_read n m with
  | Some (d, m') => ∃ t', Read n t = Ret (Some d, t') ∧ holds t' m'
  | None => ∃ left, Read n t = Ret (None, mk_tcp None left)
  end.
Proof.
  intros Hn (s & Hs & Hc & Hl & Hi & Hsz & Hp). destruct m as [cur rest].
  cbn [ms_cur ms_pending] in *. unfold Read. rewrite Hs.
  destruct t as [so left]. cbn [socket_ message_bytes_left_] in *. subst so left.
  destruct cur as [|c cur].
  - change (zlen (@nil byte) =? 0) with true. cbv iota. cbn [app] in Hi.
    destruct (stream_receive 8 0 s Hc) as (s' & E & Hc' & Hi' & _); [lia|lia|].
    rewrite E, Hi in *. cbn [spec_read ms_cur ms_pending].
    destruct rest as [|msg rest]; cbn [fmap list_fmap concat] in *.
    + rewrite bool_decide_eq_true_2 by done. mred. unfold Close. cbn [socket_]. destruct (stream_close s') as [[r s''] ->]. mred.
      by eexists.
    + apply Forall_cons in Hp as [Hm Hp]. unfold frame in *.
      rewrite <- app_assoc in *.
      rewrite bool_decide_eq_false_2 by (intros [? _]%app_eq_nil; done).
      rewrite (ztake_app_exact 8) by done. rewrite (zdrop_app_exact 8) in Hi' by done.
      mred. rewrite zlen_EncodeMessageLength. change (8 =? 8) with true. cbv iota.
      rewrite extract_encode, u64_small by (pose proof (zlen_nonneg msg); lia).
      by apply ReadMessage_spec.
  - rewrite zlen_cons. pose proof (zlen_nonneg cur).
    destruct (Z.eqb_spec (zlen cur + 1) 0); [lia|].
    cbn [spec_read ms_cur ms_pending]. apply ReadMessage_spec; rewrite ?zlen_cons in *; done.
Qed.

Lemma reads_closed ns left : reads ns (mk_tcp None left) = Ret (replicate (length ns) None).
Proof. induction ns as [|n ns IH]; [done|]. cbn [reads]. unfold Read. cbn. by rewrite IH. Qed.

Lemma reads_spec ns t m : Forall (fun n => 0 ≤ n) ns → holds t m →
  reads ns t = Ret (spec_reads ns m).
Proof.
  revert t m. induction ns as [|n ns IH]; intros t m Hns Hh; [done|].
  apply Forall_cons in Hns as [Hn Hns]. pose proof (Read_spec n t m Hn Hh) as HR.
  cbn [reads spec_reads]. destruct (spec_read n m) as [[d m']|].
  - destruct HR as (t' & -> & Hh'). mred. by rewrite (IH t' m' Hns Hh').
  - destruct HR as (left & ->). mred. by rewrite reads_closed.
Qed.

Lemma Write_spec data s left : connected s → data ≠ [] → zlen data + 8 ≤ max_send →
  ∃ s', Write data (mk_tcp (Some s) left) = Ret (zlen data, mk_tcp (Some s') left) ∧
        connected s' ∧ incoming s' = incoming s ∧ outgoing s' = outgoing s ++ frame data.
Proof.
  intros Hc Hd Hm. unfold Write. cbn [socket_ message_bytes_left_].
  destruct (stream_send [EncodeMessageLength (zlen data); data] s Hc) as (s' & E & H1 & H2 & H3).
  - vm_compute. discriminate.
  - intros b [= <-]. done.
  - cbn [concat]. rewrite app_nil_r, zlen_app, zlen_EncodeMessageLength. lia.
  - rewrite E. mred. exists s'. cbn [concat] in H3. rewrite app_nil_r in H3. done.
Qed.

Lemma writes_spec msgs s left :
  connected s → Forall (fun d => d ≠ [] ∧ zlen d + 8 ≤ max_send) msgs →
  ∃ s', writes msgs (mk_tcp (Some s) left) = Ret (zlen <$> msgs, mk_tcp (Some s') left) ∧
        connected s' ∧ outgoing s' = outgoing s ++ concat (frame <$> msgs).
Proof.
  revert s. induction msgs as [|m msgs IH]; intros s Hc Hm.
  - exists s. cbn. by rewrite app_nil_r.
  - apply Forall_cons in Hm as [[Hne Hl] Hm].
    destruct (Write_spec m s left Hc Hne Hl) as (s' & E & Hc' & _ & Ho).
    destruct (IH s' Hc' Hm) as (s'' & E' & Hc'' & Ho').
    exists s''. cbn [writes]. rewrite E. mred. rewrite E'. split_and!; try done.
    rewrite Ho', Ho, <- app_assoc. done.
Qed.

End over_stream.

(** ** A transport that failed stays closed *)
Section errors.
Context {S : Type} `{Socket S}.

Lemma Close_closes t r t' : Close t = Ret (r, t') → socket_ t' = None.
Proof.
  unfold Close. destruct (socket_ t) as [s|] eqn:E; [|by intros [= _ <-]].
  destruct (SocketClose s) as [[? ?]| |]; mred; [|done..]. by intros [= _ <-].
Qed.

Lemma close_then_fail {A} t (x : A) r t' :
  ('(_, t) ← Close t; Ret (x, t)) = Ret (r, t') → socket_ t' = None.
Proof.
  destruct (Close t) as [[r0 t0]| |] eqn:E; mred; [|done..].
  intros [= _ <-]. by apply Close_closes in E.
Qed.

Lemma ReadMessage_fails n s t t' : ReadMessage n s t = Ret (None, t') → socket_ t' = None.
Proof.
  unfold ReadMessage. destruct (ReceiveAll _ 0 s) as [[[d|] s']| |]; mred; [done| |done..].
  apply close_then_fail.
Qed.

Lemma Read_fails n t t' : Read n t = Ret (None, t') → socket_ t' = None.
Proof.
  unfold Read. destruct (socket_ t) as [s|] eqn:E; [|by intros [= <-]].
  destruct (message_bytes_left_ t =? 0); [|apply ReadMessage_fails].
  destruct (ReceiveAll 8 0 s) as [[[d|] s']| |]; mred; [|apply close_then_fail|done..].
  destruct (zlen d =? 8); [apply ReadMessage_fails|apply close_then_fail].
Qed.

Lemma Write_fails data t t' : Write data t = Ret (-1, t') → socket_ t' = None.
Proof.
  unfold Write. destruct (socket_ t) as [s|] eqn:E; [|by intros [= <-]].
  destruct (SendBuffers _ s) as [[[|] s']| |]; mred; [|apply close_then_fail|done..].
  intros [= Hl _]. pose proof (zlen_nonneg data). lia.
Qed.

End errors.

(** * Claims *)

(** C14: messages written to one TCP transport and read from the other end arrive
    unchanged.  For any two stream sockets, any list of non-empty messages and
    any sequence of read sizes, every [Write] returns the length it was given,
    and every [Read] returns what the abstract queue of messages gives: bytes of
    the message at its head, in order, never bytes of two messages, and -1 once
    the stream ends. *)
Theorem tcp_messages_roundtrip {S1 S2} `{StreamSocket S1} `{StreamSocket S2}
    (s : S1) (s2 : S2) msgs ns :
  connected s → outgoing s = [] →
  Forall (fun d => d ≠ [] ∧ zlen d + 8 ≤ max_send (S := S1) ∧ zlen d < 2 ^ 64) msgs →
  Forall (fun n => 0 ≤ n) ns →
  ∃ s', writes msgs (mk_tcp (Some s) 0) = Ret (zlen <$> msgs, mk_tcp (Some s') 0) ∧
    (connected s2 → incoming s2 = outgoing s' →
     reads ns (mk_tcp (Some s2) 0) = Ret (spec_reads ns (mk_msgs [] msgs))).
Proof.
  intros Hc Ho Hm Hn.
  destruct (writes_spec msgs s 0 Hc) as (s' & E & Hc' & Ho').
  { eapply Forall_impl; [exact Hm|]. intros d (? & ? & ?); done. }
  exists s'. split; [done|]. intros Hc2 Hi. apply reads_spec; [done|].
  exists s2. cbn [socket_ message_bytes_left_ ms_cur ms_pending]. split_and!; try done.
  - by rewrite Hi, Ho', Ho.
  - eapply Forall_impl; [exact Hm|]. intros d (_ & _ & ?); done.
Qed.

Lemma tcp_messages_roundtrip_witness :
  let S1 := TcpSocket_socket (W := stream) 64 in
  let msgs := [bs "getvar:version"; bs "OKAY"] in
  ∃ s', writes (H := S1) msgs (mk_tcp (Some (mk_sock true false (mk_stream [] [] [1; 9]))) 0)
        = Ret ([14; 4], mk_tcp (Some s') 0) ∧
    reads (H := S1) [6; 100; 2; 2; 1]
      (mk_tcp (Some (mk_sock true false (mk_stream (concat (frame <$> msgs)) [] [2; 7; 1]))) 0)
    = Ret [Some (bs "getvar"); Some (bs ":version"); Some (bs "OK"); Some (bs "AY"); None].
Proof.
  intros S1 msgs.
  destruct (tcp_messages_roundtrip (H := S1) (H1 := S1)
              (mk_sock true false (mk_stream [] [] [1; 9]))
              (mk_sock true false (mk_stream (concat (frame <$> msgs)) [] [2; 7; 1]))
              msgs [6; 100; 2; 2; 1]) as (s' & E & HR).
  - reflexivity.
  - reflexivity.
  - do 2 (apply Forall_cons; split; [split_and!; [discriminate|vm_compute; discriminate|done]|]).
    apply Forall_nil; done.
  - do 5 (apply Forall_cons; split; [lia|]). apply Forall_nil; done.
  - exists s'. split; [exact E|]. vm_compute in E. injection E as <-.
    apply HR; vm_compute; reflexivity.
Defined.

(** A [Read] or [Write] that returns -1 has closed the transport, and from
    then on every [Read] and [Write] returns -1 and touches no socket. *)
Theorem tcp_error_closes {S} `{Socket S} (t t' : TcpTransport S) n data :
  Read n t = Ret (None, t') ∨ Write data t = Ret (-1, t') →
  (∀ k, Read k t' = Ret (None, t')) ∧ (∀ d, Write d t' = Ret (-1, t')) ∧ Close t' = Ret (0, t').
Proof.
  intros [E|E]; [apply Read_fails in E|apply Write_fails in E];
    unfold Read, Write, Close; by rewrite E.
Qed.

Lemma tcp_error_closes_witness :
  let S1 := TcpSocket_socket (W := stream) 64 in
  let t := mk_tcp (Some (mk_sock true false (mk_stream (bs "abc") [] []))) 0 in
  Read (H := S1) 5 t = Ret (None, mk_tcp None 0) ∧
  Read (H := S1) 1 (mk_tcp None 0) = Ret (None, mk_tcp None 0).
Proof.
  intros S1 t.
  assert (Read (H := S1) 5 t = Ret (None, mk_tcp None 0)) as E by reflexivity.
  split; [exact E|].
  apply (proj1 (tcp_error_closes (H := S1) t (mk_tcp None 0) 5 [] (or_introl E))).
Defined.

(** The handshake accepts exactly the devices whose reply carries a version
    that is at least the host's: for a reply ["FB"] and two decimal digits the
    connection is set up when the number is 1 or more, and otherwise the socket
    is closed and an error reported. *)
Theorem tcp_handshake_version {S} `{Socket S} (s s1 s2 s3 : S) r v :
  0 ≤ v < 100 →
  Send (bs "FB01") s = Ret (true, s1) →
  ReceiveAll 4 2000 s1 = Ret (Some (bs "FB" ++ fmt_02d v), s2) →
  SocketClose s2 = Ret (r, s3) →
  (1 ≤ v → Connect (Some s) [] = Ret (inl (mk_tcp (Some s2) 0))) ∧
  (v < 1 → ∃ e, Connect (Some s) [] = Ret (inr e)).
Proof.
  intros Hv HS HR HC.
  assert (check_reply (bs "FB" ++ fmt_02d v)
          = if v <? 1 then inr (bs "Unknown TCP protocol version 00 (host version 01)") else inl tt)
    as Hchk.
  { assert (∃ n : nat, (n < 100)%nat ∧ v = Z.of_nat n) as (n & Hn & ->).
    { exists (Z.to_nat v). lia. }
    clear - Hn. do 100 (destruct n as [|n]; [vm_compute; reflexivity|]). lia. }
  assert (zlen (bs "FB" ++ fmt_02d v) = 4) as Hl.
  { unfold fmt_02d, pad_left. rewrite !zlen_app. change (zlen (bs "FB")) with 2.
    assert (zlen (fmt_d v) = 1 ∨ zlen (fmt_d v) = 2) as Hd.
    { assert (∃ n : nat, (n < 100)%nat ∧ v = Z.of_nat n) as (n & Hn & ->).
      { exists (Z.to_nat v). lia. }
      clear - Hn. do 100 (destruct n as [|n]; [vm_compute; auto|]). lia. }
    unfold zlen in *. rewrite length_replicate. lia. }
  unfold Connect, NewTransport, InitializeProtocol.
  change (ztake kHandshakeLength (bs "FB" ++ fmt_02d kProtocolVersion)) with (bs "FB01").
  change kHandshakeLength with 4. change kHandshakeTimeoutMs with 2000.
  unfold mbind, M_bind, outcome_bind. rewrite HS. mred. rewrite HR, Hl, Hchk.
  destruct (Z.ltb_spec v 1).
  - split; [lia|]. intros _. change (4 =? 4) with true. mred. rewrite HC. by eexists.
  - split; [done|lia].
Qed.

Lemma tcp_handshake_version_witness :
  let S1 := TcpSocket_socket (W := stream) 64 in
  let s0 := mk_sock true false (mk_stream (bs "FB02rest") [] []) in
  let s1 := mk_sock true false (mk_stream (bs "FB02rest") (bs "FB01") []) in
  let s2 := mk_sock true false (mk_stream (bs "rest") (bs "FB01") []) in
  let s3 := mk_sock false false (mk_stream (bs "rest") (bs "FB01") []) in
  Connect (H := S1) (Some s0) [] = Ret (inl (mk_tcp (Some s2) 0)).
Proof.
  intros S1 s0 s1 s2 s3.
  refine (proj1 (tcp_handshake_version (H := S1) s0 s1 s2 s3 0 2 _ _ _ _) _).
  - lia.
  - vm_compute. reflexivity.
  - vm_compute. reflexivity.
  - vm_compute. reflexivity.
  - lia.
Defined.

(** C33: writing an empty message over a TCP socket never returns.  Once the
    header is sent the remaining buffer is empty; sending it makes no progress
    and the loop of [TcpSocket::Send(buffers)] goes on for ever, on every
    connection and for every fuel. *)
Theorem tcp_write_empty_never_returns (fuel : nat) rx tx cs tmo left :
  Write (H := TcpSocket_socket fuel) [] (mk_tcp (Some (mk_sock true tmo (mk_stream rx tx cs))) left)
  = OutOfFuel.
Proof.
  assert (∀ f w, TcpSocket.SendBuffers f [[]] (mk_sock true tmo w) = OutOfFuel) as Hempty.
  { induction f as [|f IH]; intros w; [done|]. cbn [TcpSocket.SendBuffers].
    unfold socket_send_buffers, sys_writev. cbn [sock_valid sock_os os_writev stream_os].
    change (SOCKET_SEND_BUFFERS_MAX_BUFFERS <? zlen [[]]) with false. cbv iota.
    unfold stream_put. cbn [concat app].
    assert (cut w (zlen (@nil byte)) = 0) as ->
      by (pose proof (cut_range w (zlen (@nil byte))); change (zlen (@nil byte)) with 0 in *; lia).
    apply IH. }
  assert (∀ f h w, h ≠ [] → TcpSocket.SendBuffers f [h; []] (mk_sock true tmo w) = OutOfFuel) as Hall.
  { induction f as [|f IH]; intros h w Hh; [done|]. cbn [TcpSocket.SendBuffers].
    unfold socket_send_buffers, sys_writev. cbn [sock_valid sock_os os_writev stream_os].
    change (SOCKET_SEND_BUFFERS_MAX_BUFFERS <? zlen [h; []]) with false. cbv iota.
    unfold stream_put. cbn [concat app]. rewrite app_nil_r.
    assert (0 < zlen h) as Hpos.
    { destruct h as [|x h]; [done|]. rewrite zlen_cons. pose proof (zlen_nonneg h). lia. }
    destruct (cut_range w (zlen h) ltac:(lia)) as [Hr Hr']. specialize (Hr' Hpos).
    destruct (Z.eqb_spec (cut w (zlen h)) (-1)); [lia|]. cbn [TcpSocket.skip_sent].
    destruct (Z.ltb_spec 0 (cut w (zlen h))); [|lia].
    destruct (Z.ltb_spec (cut w (zlen h)) (zlen h)) as [Hlt|Hge]; mred.
    - unfold with_os. cbn [sock_valid receive_timed_out_]. apply IH. intros E0.
      assert (zlen (zdrop (cut w (zlen h)) h) = 0) as E1 by (rewrite E0; done).
      rewrite zlen_zdrop in E1 by lia. lia.
    - replace (cut w (zlen h) - zlen h) with 0 by lia. mred. apply Hempty. }
  unfold Write. cbn [socket_ SendBuffers TcpSocket_socket]. unfold mbind, outcome_bind.
  rewrite Hall; [done|]. discriminate.
Qed.

End TcpTransport.
