(* ===== verification/Udp.v ===== *)
(** The UDP transport of fastboot (system/core/fastboot/udp.cpp and udp.h):
    packets with a 4-byte header, one outstanding packet, retransmission on
    timeout, continuation packets in both directions.  Written against any
    [Socket]. *)

From Stdlib Require Import Strings.String.
From S2P Require Import Prelude LibBase Socket.
Open Scope Z_scope.

Module UdpTransport.

Definition kProtocolVersion : Z := 1.
Definition kHostMaxPacketSize : Z := 8192.
Definition kResponseTimeoutMs : Z := 500.
Definition kMaxConnectAttempts : Z := 4.
Definition kMaxTransmissionAttempts : Z := 60 * 1000 / kResponseTimeoutMs.
Definition kMinPacketSize : Z := 512.
Definition kHeaderSize : Z := 4.

(** [enum Id] and [enum Flag] *)
Definition kIdError : Z := 0.
Definition kIdDeviceQuery : Z := 1.
Definition kIdInitialization : Z := 2.
Definition kIdFastboot : Z := 3.
Definition kFlagNone : Z := 0.
Definition kFlagContinuation : Z := 1.

(** [enum Index] *)
Definition kIndexId : Z := 0.
Definition kIndexFlags : Z := 1.
Definition kIndexSeqH : Z := 2.
Definition kIndexSeqL : Z := 3.

(** [buf[i]] as a [uint8_t] *)
Definition at_ (buf : list byte) (i : Z) : Z := b2z (default x00 (zlookup buf i)).

Definition ExtractUint16 (bytes : list byte) : Z :=
  Z.lor (Z.shiftl (at_ bytes 0) 8) (at_ bytes 1).

(** [Header::Set]; a header is its 4 bytes. *)
Definition Set_ (id sequence flag : Z) : list byte :=
  [z2b id; z2b flag; z2b (Z.shiftr sequence 8); z2b sequence].

(** [Header::Matches] *)
Definition Matches (header response : list byte) : bool :=
  (at_ header kIndexSeqH =? at_ response kIndexSeqH)
  && (at_ header kIndexSeqL =? at_ response kIndexSeqL)
  && ((at_ header kIndexId =? at_ response kIndexId) || (at_ response kIndexId =? kIdError)).

(** What [SendData] and its helper return: the value ([-1] on failure), the
    bytes stored through [rx_data], and [*error]. *)
Record sent : Type := mk_sent { ret : Z; rx : list byte; err : list byte }.

(** [buf] after [data] was received into it. *)
Definition overwrite (buf data : list byte) : list byte := data ++ zdrop (zlen data) buf.

(** [vector::resize], new elements are zero. *)
Definition vec_resize (n : Z) (buf : list byte) : list byte :=
  ztake n buf ++ zeros (n - zlen buf).

Section transport.
Context {S : Type} `{Socket S}.

Record UdpTransport : Type := mk_udp {
  socket_ : option S;
  sequence_ : Z;               (* int *)
  max_data_length_ : Z;        (* size_t *)
  rx_packet_ : list byte
}.

Definition set_rx (buf : list byte) (t : UdpTransport) : UdpTransport :=
  mk_udp (socket_ t) (sequence_ t) (max_data_length_ t) buf.
Definition set_seq (n : Z) (t : UdpTransport) : UdpTransport :=
  mk_udp (socket_ t) n (max_data_length_ t) (rx_packet_ t).

(** A call on [socket_], which the callers have checked to be non-null. *)
Definition on_socket {A} (m : M S A) : M UdpTransport A := fun t =>
  match socket_ t with
  | None => AssertFail
  | Some s =>
      '(a, s) ← m s;
      Ret (a, mk_udp (Some s) (sequence_ t) (max_data_length_ t) (rx_packet_ t))
  end.

Definition socket_get {A} (f : S → A) : M UdpTransport A :=
  on_socket (fun s => Ret (f s, s)).

(** Lines 266-280: receives until a response matches or the wait times out.
    [inl] is [bytes] when the loop is left (-1 after a timeout), [inr] the error
    of an early return. *)
Fixpoint receive_matching (fuel : nat) (header : list byte) : M UdpTransport (Z + list byte) :=
  match fuel with
  | O => out_of_fuel
  | Datatypes.S fuel =>
      t ← get;
      r ← on_socket (Receive (zlen (rx_packet_ t)) kResponseTimeoutMs);
      match r with
      | None =>
          timed_out ← socket_get ReceiveTimedOut;
          if (timed_out : bool) then mret (inl (-1))
          else e ← socket_get GetErrorMessage; mret (inr e)
      | Some data =>
          _ ← modify (fun t => set_rx (overwrite (rx_packet_ t) data) t);
          if zlen data <? kHeaderSize then mret (inr (bs "protocol error: incomplete header"))
          else
            t ← get;
            if negb (Matches header (rx_packet_ t)) then receive_matching fuel header
            else mret (inl (zlen data))
      end
  end.

(** Lines 259-325.  [rx_length] is what is left of the caller's buffer, [got]
    what was stored in it. *)
Fixpoint packet_loop (fuel : nat) (header tx_data : list byte) (attempts attempts_left : Z)
    (rx_length total_data_bytes : Z) (got error : list byte) : M UdpTransport sent :=
  if 0 <? attempts_left then
    match fuel with
    | O => out_of_fuel
    | Datatypes.S fuel' =>
        ok ← on_socket (SendBuffers [header; tx_data]);
        if negb ok then e ← socket_get GetErrorMessage; mret (mk_sent (-1) got e)
        else
          r ← receive_matching fuel header;
          match r with
          | inr e => mret (mk_sent (-1) got e)
          | inl bytes =>
              timed_out ← socket_get ReceiveTimedOut;
              if (timed_out : bool) then
                packet_loop fuel' header tx_data attempts (attempts_left - 1) rx_length
                  total_data_bytes got error
              else
                t ← get;
                _ ← m_assert (sequence_ t <? INT_MAX);
                _ ← modify (set_seq (sequence_ t + 1));
                let packet := rx_packet_ t in
                let payload := ztake (bytes - kHeaderSize) (zdrop kHeaderSize packet) in
                let is_error := at_ packet kIndexId =? kIdError in
                let error := if is_error then error ++ payload else error in
                let total_data_bytes :=
                  if is_error then total_data_bytes else total_data_bytes + (bytes - kHeaderSize) in
                let rx_data_bytes := if is_error then 0 else Z.min (bytes - kHeaderSize) rx_length in
                let got := got ++ ztake rx_data_bytes payload in
                let rx_length := rx_length - rx_data_bytes in
                if negb (Z.land (at_ packet kIndexFlags) kFlagContinuation =? 0) then
                  packet_loop fuel' (Set_ (at_ packet kIndexId) (u16 (sequence_ t + 1)) kFlagNone) []
                    attempts attempts rx_length total_data_bytes got error
                else if is_error then
                  mret (mk_sent (-1) got (bs "target reported error: " ++ error))
                else mret (mk_sent total_data_bytes got error)
          end
    end
  else mret (mk_sent (-1) got (bs "no response from target")).

Definition SendSinglePacketHelper (fuel : nat) (header tx_data : list byte) (rx_length attempts : Z)
    : M UdpTransport sent :=
  packet_loop fuel header tx_data attempts attempts rx_length 0 [] [].

(** The loop of [SendData]. *)
Fixpoint SendData_loop (fuel : nat) (id : Z) (tx_data : list byte) (rx_length attempts : Z)
    (total : Z) (got : list byte) : M UdpTransport sent :=
  match fuel with
  | O => out_of_fuel
  | Datatypes.S fuel' =>
      t ← get;
      let '(packet_data_length, header) :=
        if max_data_length_ t <? zlen tx_data
        then (max_data_length_ t, Set_ id (u16 (sequence_ t)) kFlagContinuation)
        else (zlen tx_data, Set_ id (u16 (sequence_ t)) kFlagNone) in
      r ← SendSinglePacketHelper fuel header (ztake packet_data_length tx_data) rx_length attempts;
      if ret r =? -1 then mret (mk_sent (-1) (got ++ rx r) (err r))
      else
        let rx_length := if ret r <? rx_length then rx_length - ret r else 0 in
        let tx_data := zdrop packet_data_length tx_data in
        let total := total + ret r in
        let got := got ++ rx r in
        if 0 <? zlen tx_data
        then SendData_loop fuel' id tx_data rx_length attempts total got
        else mret (mk_sent total got (err r))
  end.

Definition SendData (fuel : nat) (id : Z) (tx_data : list byte) (rx_length attempts : Z)
    : M UdpTransport sent := fun t =>
  match socket_ t with
  | None => Ret (mk_sent (-1) [] (bs "socket is closed"), t)
  | Some _ => SendData_loop fuel id tx_data rx_length attempts 0 [] t
  end.

(** Returns [*error], [None] for success. *)
Definition InitializeProtocol (fuel : nat) : M UdpTransport (option (list byte)) :=
  _ ← modify (fun t => set_seq 0 (set_rx (vec_resize kMinPacketSize (rx_packet_ t)) t));
  q ← SendData fuel kIdDeviceQuery [] 4 kMaxConnectAttempts;
  if ret q =? -1 then mret (Some (err q))
  else if ret q <? 2 then mret (Some (bs "invalid query response from target"))
  else
    _ ← modify (set_seq (ExtractUint16 (rx q)));
    let init_data := [z2b (Z.shiftr kProtocolVersion 8); z2b (Z.land kProtocolVersion 255);
                      z2b (Z.shiftr kHostMaxPacketSize 8); z2b (Z.land kHostMaxPacketSize 255)] in
    r ← SendData fuel kIdInitialization init_data 4 kMaxTransmissionAttempts;
    if ret r =? -1 then mret (Some (err r))
    else if ret r <? 4 then mret (Some (bs "invalid initialization response from target"))
    else
      let version := ExtractUint16 (rx r) in
      if version <? kProtocolVersion
      then mret (Some (bs "target reported invalid protocol version " ++ fmt_d version))
      else
        let packet_size := ExtractUint16 (zdrop 2 (rx r)) in
        if packet_size <? kMinPacketSize
        then mret (Some (bs "target reported invalid packet size " ++ fmt_d packet_size))
        else
          let packet_size := Z.min kHostMaxPacketSize packet_size in
          _ ← modify (fun t => mk_udp (socket_ t) (sequence_ t) (packet_size - kHeaderSize)
                                 (vec_resize packet_size (rx_packet_ t)));
          mret None.

(** [NewTransport]: on failure the transport is destroyed, which closes its
    socket. *)
Definition NewTransport (fuel : nat) (s : S) : outcome (UdpTransport + list byte) :=
  '(e, t) ← InitializeProtocol fuel (mk_udp (Some s) (-1) (kMinPacketSize - kHeaderSize) []);
  match e with
  | None => Ret (inl t)
  | Some e => '(_, _) ← on_socket SocketClose t; Ret (inr e)
  end.

Definition Connect (fuel : nat) (sock : option S) (error : list byte)
    : outcome (UdpTransport + list byte) :=
  match sock with
  | None => Ret (inr error)
  | Some s => NewTransport fuel s
  end.

(** [None] is the return value -1. *)
Definition Read (fuel : nat) (length : Z) : M UdpTransport (option (list byte)) :=
  r ← SendData fuel kIdFastboot [] length kMaxTransmissionAttempts;
  if ret r =? -1 then mret None
  else if length <? ret r then mret None
  else mret (Some (rx r)).

Definition Write (fuel : nat) (data : list byte) : M UdpTransport Z :=
  r ← SendData fuel kIdFastboot data 0 kMaxTransmissionAttempts;
  if ret r =? -1 then mret (-1)
  else if 0 <? ret r then mret (-1)
  else mret (zlen data).

Definition Close : M UdpTransport Z := fun t =>
  match socket_ t with
  | None => Ret (0, t)
  | Some s =>
      '(result, _) ← SocketClose s;
      Ret (result, mk_udp None (sequence_ t) (max_data_length_ t) (rx_packet_ t))
  end.

Definition Reset : M UdpTransport Z := mret 0.

End transport.
Arguments UdpTransport : clear implicits.

End UdpTransport.
