(* ===== verification/UdpNet.v ===== *)
(** Reliable delivery of the fastboot UDP transport.

    The device is the one the protocol prescribes (system/core/fastboot/README.md,
    "UDP Protocol v1", Summary): it answers queries, processes the packet with
    the sequence number it expects, repeats its last response for the packet
    before it, and ignores the rest.  What it does with a packet is a parameter
    ([process]).

    The network loses, delays, duplicates and reorders packets in both
    directions as a schedule of events says; it remembers the last [W] packets
    of each direction.  The theorems hold for every schedule. *)

From Stdlib Require Import Strings.String.
From S2P Require Import Prelude LibBase Socket Udp.
Import UdpTransport.
Open Scope Z_scope.

(** ** The device and the network *)
Section network.
Context {A : Type}.
(** The application: state, packet id, flags and data give the new state and the
    id, flags and data of the response. *)
Context (process : A → Z → Z → list byte → A * (Z * Z * list byte)).
(** How many packets of each direction the network can still deliver. *)
Context (W : nat).

Definition seq_of (p : list byte) : Z := ExtractUint16 (zdrop 2 p).
Definition id_of (p : list byte) : Z := at_ p kIndexId.
Definition flags_of (p : list byte) : Z := at_ p kIndexFlags.
Definition data_of (p : list byte) : list byte := zdrop kHeaderSize p.

Definition packet (id n flags : Z) (data : list byte) : list byte := Set_ id (u16 n) flags ++ data.

Record device : Type := mk_device {
  expected : Z;                        (* S: the next expected sequence number *)
  saved : option (list byte);          (* R: the response that may be repeated *)
  app : A
}.

Definition device_receive (p : list byte) (d : device) : option (list byte) * device :=
  if zlen p <? kHeaderSize then (None, d)
  else if id_of p =? kIdDeviceQuery then
    (Some (packet kIdDeviceQuery (seq_of p) kFlagNone (be_bytes 2 (expected d))), d)
  else if seq_of p =? expected d then
    let '(a, (id, flags, data)) := process (app d) (id_of p) (flags_of p) (data_of p) in
    let r := packet id (seq_of p) flags data in
    (Some r, mk_device (u16 (expected d + 1)) (Some r) a)
  else if seq_of p =? u16 (expected d - 1) then (saved d, d)
  else (None, d).

(** [Deliver k] hands the device the [k]-th most recent packet of the host,
    [Answer k] the host the [k]-th most recent response.  [Timeout] lets the
    host's wait expire, [Fail] makes its socket fail. *)
Inductive event : Type := Deliver (k : nat) | Answer (k : nat) | Timeout | Fail.

Record net : Type := mk_net {
  dev : device;
  to_dev : list (list byte);
  to_host : list (list byte);
  sched : list event;
  net_timed_out : bool
}.

Definition push (p : list byte) (l : list (list byte)) : list (list byte) := take W (p :: l).
Definition push_opt (p : option (list byte)) (l : list (list byte)) : list (list byte) :=
  match p with Some p => push p l | None => l end.

Fixpoint net_receive (len : Z) (evs : list event) (d : device) (td th : list (list byte))
    : option (list byte) * net :=
  match evs with
  | [] => (None, mk_net d td th [] true)
  | Timeout :: evs => (None, mk_net d td th evs true)
  | Fail :: evs => (None, mk_net d td th evs false)
  | Deliver k :: evs =>
      match td !! k with
      | None => net_receive len evs d td th
      | Some p => let '(r, d) := device_receive p d in net_receive len evs d td (push_opt r th)
      end
  | Answer k :: evs =>
      match th !! k with
      | None => net_receive len evs d td th
      | Some p => (Some (ztake len p), mk_net d td th evs false)
      end
  end.

Definition net_Receive (len timeout_ms : Z) : M net (option (list byte)) := fun n =>
  Ret (net_receive len (sched n) (dev n) (to_dev n) (to_host n)).

Definition net_Send (data : list byte) : M net bool := fun n =>
  Ret (true, mk_net (dev n) (push data (to_dev n)) (to_host n) (sched n) (net_timed_out n)).

#[export] Instance net_socket : Socket net := {|
  Send := net_Send;
  SendBuffers bufs := net_Send (concat bufs);
  Receive := net_Receive;
  ReceiveAll := receive_all net_Receive;
  ReceiveTimedOut := net_timed_out;
  SocketClose n := Ret (0, n);
  GetErrorMessage _ := bs "network error"
|}.

(** ** What the device does when every packet arrives exactly once

    [exchange a id flags data a' rs]: a packet and the empty packets that prompt
    for the rest of a continued response take the application from [a] to [a'];
    [rs] are the ids and data of its responses. *)
Inductive exchange : A → Z → Z → list byte → A → list (Z * list byte) → Prop :=
| ex_done a id flags data a' id' flags' data' :
    process a id flags data = (a', (id', flags', data')) →
    Z.land flags' kFlagContinuation = 0 →
    exchange a id flags data a' [(id', data')]
| ex_more a id flags data a1 id1 flags1 data1 a' rs :
    process a id flags data = (a1, (id1, flags1, data1)) →
    Z.land flags1 kFlagContinuation ≠ 0 →
    exchange a1 id1 kFlagNone [] a' rs →
    exchange a id flags data a' ((id1, data1) :: rs).

(** [delivered max a id data a' rs]: [data] is handed over in packets of [max]
    bytes, all but the last flagged as continued. *)
Inductive delivered (max : Z) : A → Z → list byte → A → list (Z * list byte) → Prop :=
| dl_last a id data a' rs :
    zlen data ≤ max → exchange a id kFlagNone data a' rs → delivered max a id data a' rs
| dl_more a id data a1 rs1 a' rs :
    max < zlen data → exchange a id kFlagContinuation (ztake max data) a1 rs1 →
    delivered max a1 id (zdrop max data) a' rs → delivered max a id data a' (rs1 ++ rs).

(** The responses the protocol allows: the packet's id or an error, and data
    that fits the negotiated packet size. *)
Definition well_behaved (size : Z) : Prop :=
  ∀ a id flags data a' id' flags' data',
    process a id flags data = (a', (id', flags', data')) →
    (id' = id ∨ id' = kIdError) ∧ 0 ≤ flags' < 256 ∧ zlen data' + kHeaderSize ≤ size.

End network.
Arguments device : clear implicits.
Arguments net : clear implicits.

(** ** Packets *)

Lemma u16_neq a b : 0 < Z.abs (a - b) < 65536 → u16 a ≠ u16 b.
Proof.
  unfold u16. change (2 ^ 16) with 65536. intros Hd E.
  pose proof (Z.div_mod a 65536 ltac:(lia)). pose proof (Z.div_mod b 65536 ltac:(lia)).
  rewrite E in *. nia.
Qed.

Lemma u16_u16 a : u16 (u16 a) = u16 a.
Proof. unfold u16. apply Z.mod_mod. lia. Qed.

Lemma u16_succ a : u16 (u16 a + 1) = u16 (a + 1).
Proof. unfold u16. apply Zplus_mod_idemp_l. Qed.

Lemma u16_pred a : u16 (u16 a - 1) = u16 (a - 1).
Proof. unfold u16. apply Zminus_mod_idemp_l. Qed.

Lemma extract16 x y l : ExtractUint16 (x :: y :: l) = 256 * b2z x + b2z y.
Proof.
  unfold ExtractUint16, at_. change (zlookup (x :: y :: l) 0) with (Some x).
  change (zlookup (x :: y :: l) 1) with (Some y). cbn [default]. unfold id.
  pose proof (b2z_range y). rewrite Z.shiftl_mul_pow2 by lia. change (2 ^ 8) with 256.
  pose proof (Z.add_lor_land (b2z x * 256) (b2z y)) as Hadd.
  assert (Z.land (b2z x * 256) (b2z y) = 0) as E; [|lia]. clear Hadd.
  apply Z.bits_inj'. intros i Hi. rewrite Z.land_spec, Z.bits_0. change 256 with (2 ^ 8).
  destruct (Z.ltb_spec i 8).
  - by rewrite Z.mul_pow2_bits_low by lia.
  - assert (b2z y = b2z y mod 2 ^ 8) as -> by (rewrite Z.mod_small; [done|]; change (2 ^ 8) with 256; lia).
    rewrite (Z.mod_pow2_bits_high (b2z y)) by lia. apply andb_false_r.
Qed.

Lemma seq_of_packet id n flags data : seq_of (packet id n flags data) = u16 n.
Proof.
  change (seq_of (packet id n flags data))
    with (ExtractUint16 (z2b (Z.shiftr (u16 n) 8) :: z2b (u16 n) :: data)).
  rewrite extract16, !b2z_z2b, Z.shiftr_div_pow2 by lia. change (2 ^ 8) with 256.
  pose proof (u16_range n). change (2 ^ 16) with 65536 in *.
  rewrite (Z.mod_small (u16 n / 256)).
  - pose proof (Z.div_mod (u16 n) 256 ltac:(lia)). lia.
  - split; [apply Z.div_pos; lia|apply Z.div_lt_upper_bound; lia].
Qed.

Lemma id_of_packet id n flags data : 0 ≤ id < 256 → id_of (packet id n flags data) = id.
Proof.
  intros. change (id_of (packet id n flags data)) with (b2z (z2b id)).
  rewrite b2z_z2b. by apply Z.mod_small.
Qed.

Lemma flags_of_packet id n flags data :
  0 ≤ flags < 256 → flags_of (packet id n flags data) = flags.
Proof.
  intros. change (flags_of (packet id n flags data)) with (b2z (z2b flags)).
  rewrite b2z_z2b. by apply Z.mod_small.
Qed.

Lemma data_of_packet id n flags data : data_of (packet id n flags data) = data.
Proof. done. Qed.

Lemma zlen_packet id n flags data : zlen (packet id n flags data) = zlen data + 4.
Proof. unfold packet. rewrite zlen_app. change (zlen (Set_ id (u16 n) flags)) with 4. lia. Qed.

(** A response matches when it has the sequence number of the packet and its id
    or the error id; only the header is looked at. *)
Lemma Matches_seq id n flags p :
  0 ≤ id < 256 → 4 ≤ zlen p → Matches (Set_ id (u16 n) flags) p = true →
  seq_of p = u16 n ∧ (id_of p = id ∨ id_of p = kIdError).
Proof.
  intros Hid Hp HM. destruct p as [|x0 [|x1 [|x2 [|x3 p]]]]; try (by vm_compute in Hp).
  unfold Matches in HM. apply andb_true_iff in HM as [HM Hi]. apply andb_true_iff in HM as [H2 H3].
  apply Z.eqb_eq in H2, H3.
  change (b2z (z2b (Z.shiftr (u16 n) 8)) = b2z x2) in H2. change (b2z (z2b (u16 n)) = b2z x3) in H3.
  split.
  - change (seq_of (x0 :: x1 :: x2 :: x3 :: p)) with (ExtractUint16 (x2 :: x3 :: p)).
    rewrite extract16, <- H2, <- H3, <- (extract16 _ _ []).
    exact (seq_of_packet id n flags []).
  - change (id_of (x0 :: x1 :: x2 :: x3 :: p)) with (b2z x0).
    change ((b2z (z2b id) =? b2z x0) || (b2z x0 =? kIdError) = true) in Hi.
    rewrite b2z_z2b, (Z.mod_small id) in Hi by lia.
    apply orb_true_iff in Hi as [Hi|Hi]; apply Z.eqb_eq in Hi; lia.
Qed.

Lemma Matches_own id n flags id' flags' data :
  0 ≤ id < 256 → id' = id ∨ id' = kIdError →
  Matches (Set_ id (u16 n) flags) (packet id' n flags' data) = true.
Proof.
  intros Hid Hid'. unfold Matches.
  change (at_ (packet id' n flags' data) kIndexSeqH) with (b2z (z2b (Z.shiftr (u16 n) 8))).
  change (at_ (packet id' n flags' data) kIndexSeqL) with (b2z (z2b (u16 n))).
  change (at_ (packet id' n flags' data) kIndexId) with (b2z (z2b id')).
  change (at_ (Set_ id (u16 n) flags) kIndexSeqH) with (b2z (z2b (Z.shiftr (u16 n) 8))).
  change (at_ (Set_ id (u16 n) flags) kIndexSeqL) with (b2z (z2b (u16 n))).
  change (at_ (Set_ id (u16 n) flags) kIndexId) with (b2z (z2b id)).
  rewrite !Z.eqb_refl. cbn [andb]. destruct Hid' as [->| ->]; [by rewrite Z.eqb_refl|].
  change (b2z (z2b kIdError) =? kIdError) with true. apply orb_true_r.
Qed.

(** [Matches] and the accessors only see the first four bytes. *)
Lemma at_app p q i : 0 ≤ i < zlen p → at_ (p ++ q) i = at_ p i.
Proof. intros. unfold at_. by rewrite zlookup_app_l by lia. Qed.

Lemma at_ztake p len i : 0 ≤ i < len → at_ (ztake len p) i = at_ p i.
Proof. intros. unfold at_. by rewrite zlookup_ztake by lia. Qed.

Lemma Matches_ext h p q :
  (∀ i, 0 ≤ i < 4 → at_ p i = at_ q i) → Matches h p = Matches h q.
Proof.
  intros E. unfold Matches. rewrite !(E kIndexSeqH), !(E kIndexSeqL), !(E kIndexId); [done|..];
    vm_compute; split; congruence.
Qed.

Lemma zlen_overwrite buf d : zlen d ≤ zlen buf → zlen (overwrite buf d) = zlen buf.
Proof. intros. unfold overwrite. rewrite zlen_app, zlen_zdrop by (pose proof (zlen_nonneg d); lia). lia. Qed.

Lemma Matches_overwrite h buf q len :
  4 ≤ zlen (ztake len q) → 4 ≤ len → Matches h (overwrite buf (ztake len q)) = Matches h q.
Proof.
  intros Hl H4. apply Matches_ext. intros i Hi. unfold overwrite.
  rewrite at_app by lia. apply at_ztake. lia.
Qed.

Lemma zlen_ztake_le {B} len (q : list B) : 0 ≤ len → zlen (ztake len q) ≤ len.
Proof. intros. unfold zlen, ztake. rewrite length_take. lia. Qed.

Lemma ztake_min {B} k (l : list B) : 0 ≤ k → ztake (Z.min (zlen l) k) l = ztake k l.
Proof.
  intros. destruct (Z.min_spec (zlen l) k) as [[? ->]|[? ->]]; [|done].
  by rewrite !ztake_all by lia.
Qed.

Lemma ztake_app_rest {B} k (l1 l2 : list B) : 0 ≤ k →
  ztake k l1 ++ ztake (k - Z.min (zlen l1) k) l2 = ztake k (l1 ++ l2).
Proof.
  intros. unfold ztake, zlen. rewrite take_app. do 2 f_equal. lia.
Qed.

(** ** Which packets are in the network *)
Section invariant.
Context {A : Type} (process : A → Z → Z → list byte → A * (Z * Z * list byte)) (W : nat).
Context (size : Z) (Hwb : well_behaved process size).
Context (HW : Z.of_nat W ≤ 65534).
#[local] Existing Instance net_socket.

(** A packet of the handshake, or one whose sequence number is less than [hi]
    and at least [lo]. *)
Definition old (lo hi : Z) (p : list byte) : Prop :=
  4 ≤ zlen p ∧ (id_of p = kIdDeviceQuery ∨ ∃ n, seq_of p = u16 n ∧ lo ≤ n < hi).

(** Every sequence number was used for at least one packet, so the packet at
    position [i] is at most [i] numbers back from [top]. *)
Definition recent (top hi : Z) (l : list (list byte)) : Prop :=
  (length l ≤ W)%nat ∧ ∀ i p, l !! i = Some p → old (top - Z.of_nat i) hi p.

(** The same with the packet of the exchange under way. *)
Definition recent_or (cur : list byte) (top hi : Z) (l : list (list byte)) : Prop :=
  (length l ≤ W)%nat ∧ ∀ i p, l !! i = Some p → p = cur ∨ old (top - Z.of_nat i) hi p.

(** No exchange is under way: the device expects the host's next number. *)
Record idle (s : Z) (a : A) (n : net A) : Prop := {
  idle_expected : expected (dev n) = u16 s;
  idle_app : app (dev n) = a;
  idle_saved p : saved (dev n) = Some p → 4 ≤ zlen p ∧ seq_of p = u16 (s - 1);
  idle_to_dev : recent (s - 1) s (to_dev n);
  idle_to_host : recent (s - 1) s (to_host n)
}.

(** The host waits for the response to packet [p] with number [s]; the device
    has processed it ([a'], response [r]) or not yet. *)
Definition unprocessed (s : Z) (a : A) (p : list byte) (n : net A) : Prop :=
  expected (dev n) = u16 s ∧ app (dev n) = a ∧
  (∀ q, saved (dev n) = Some q → 4 ≤ zlen q ∧ seq_of q = u16 (s - 1)) ∧
  recent_or p s s (to_dev n) ∧ recent (s - 1) s (to_host n).

Definition processed (s : Z) (a' : A) (p r : list byte) (n : net A) : Prop :=
  expected (dev n) = u16 (s + 1) ∧ app (dev n) = a' ∧ saved (dev n) = Some r ∧
  recent_or p s s (to_dev n) ∧ recent_or r s s (to_host n).

Lemma old_weaken lo lo' hi hi' p : lo' ≤ lo → hi ≤ hi' → old lo hi p → old lo' hi' p.
Proof.
  intros Hlo Hhi [Hl [Hq|(n & Hn & Hr)]]; split; try done; [by left|].
  right. exists n. split; [done|lia].
Qed.

Lemma recent_push_or cur top hi l : recent top hi l → recent_or cur (top + 1) hi (push W cur l).
Proof.
  intros [Hl Hr]. split; [unfold push; rewrite length_take; lia|].
  intros [|i] p Hp; unfold push in Hp; apply lookup_take_Some in Hp as [Hp _].
  - left. by injection Hp.
  - right. apply (old_weaken (top - Z.of_nat i) _ hi hi); [lia|lia|]. by apply Hr.
Qed.

Lemma recent_or_push cur top hi l : recent_or cur top hi l → recent_or cur top hi (push W cur l).
Proof.
  intros [Hl Hr]. split; [unfold push; rewrite length_take; lia|].
  intros [|i] p Hp; unfold push in Hp; apply lookup_take_Some in Hp as [Hp _].
  - left. by injection Hp.
  - destruct (Hr i p Hp) as [?|Ho]; [by left|right].
    apply (old_weaken (top - Z.of_nat i) _ hi hi); [lia|lia|done].
Qed.

Lemma recent_push q top hi l : recent top hi l → old top hi q → recent top hi (push W q l).
Proof.
  intros [Hl Hr] Ho. split; [unfold push; rewrite length_take; lia|].
  intros [|i] p Hp; unfold push in Hp; apply lookup_take_Some in Hp as [Hp _].
  - injection Hp as <-. by rewrite Z.sub_0_r.
  - apply (old_weaken (top - Z.of_nat i) _ hi hi); [lia|lia|]. by apply Hr.
Qed.

Lemma recent_or_push_old cur q top hi l :
  recent_or cur top hi l → old top hi q → recent_or cur top hi (push W q l).
Proof.
  intros [Hl Hr] Ho. split; [unfold push; rewrite length_take; lia|].
  intros [|i] p Hp; unfold push in Hp; apply lookup_take_Some in Hp as [Hp _].
  - injection Hp as <-. right. by rewrite Z.sub_0_r.
  - destruct (Hr i p Hp) as [?|Ho']; [by left|right].
    apply (old_weaken (top - Z.of_nat i) _ hi hi); [lia|lia|done].
Qed.

(** When the exchange ends its packet becomes an old one. *)
Lemma recent_or_end cur s l :
  4 ≤ zlen cur → seq_of cur = u16 s → recent_or cur s s l → recent s (s + 1) l.
Proof.
  intros Hc Hs [Hl Hr]. split; [done|]. intros i p Hp.
  destruct (Hr i p Hp) as [->|Ho].
  - split; [done|]. right. exists s. split; [done|lia].
  - apply (old_weaken (s - Z.of_nat i) _ s _); [lia|lia|done].
Qed.

(** An old packet that is not a query is neither the expected one nor, once the
    current packet is processed, its predecessor. *)
Lemma old_seq s i p :
  (i < W)%nat → old (s - 1 - Z.of_nat i) s p → id_of p ≠ kIdDeviceQuery →
  seq_of p ≠ u16 s ∧ seq_of p ≠ u16 (s + 1).
Proof.
  intros Hi [_ [?|(n & -> & Hn)]] Hq; [done|]. split; apply u16_neq; lia.
Qed.

(** ** One exchange *)
Section exchange.
Context (s : Z) (a a' : A) (id flags id' flags' : Z) (data data' : list byte).
Context (Hid : 0 ≤ id < 256) (Hnq : id ≠ kIdDeviceQuery) (Hfl : 0 ≤ flags < 256).
Context (Hproc : process a id flags data = (a', (id', flags', data'))).

Let p : list byte := packet id s flags data.
Let r : list byte := packet id' s flags' data'.

Lemma zlen_p : 4 ≤ zlen p.
Proof. unfold p. rewrite zlen_packet. pose proof (zlen_nonneg data). lia. Qed.
Lemma zlen_r : 4 ≤ zlen r.
Proof. unfold r. rewrite zlen_packet. pose proof (zlen_nonneg data'). lia. Qed.
Lemma id_p : id_of p = id.
Proof. by apply id_of_packet. Qed.
Lemma flags_p : flags_of p = flags.
Proof. by apply flags_of_packet. Qed.
Lemma data_p : data_of p = data.
Proof. done. Qed.
Lemma seq_p : seq_of p = u16 s.
Proof. apply seq_of_packet. Qed.
Lemma seq_r : seq_of r = u16 s.
Proof. apply seq_of_packet. Qed.

(** The network state, whatever the rest of the schedule. *)
Definition under_way (d : device A) (td th : list (list byte)) : Prop :=
  unprocessed s a p (mk_net d td th [] false) ∨ processed s a' p r (mk_net d td th [] false).

Lemma query_response_old lo hi q e :
  old lo hi (packet kIdDeviceQuery (seq_of q) kFlagNone (be_bytes 2 e)).
Proof. split; [rewrite zlen_packet; done|left; done]. Qed.

Lemma device_receive_query q d : 4 ≤ zlen q → id_of q = kIdDeviceQuery →
  device_receive process q d
  = (Some (packet kIdDeviceQuery (seq_of q) kFlagNone (be_bytes 2 (expected d))), d).
Proof.
  intros Hl Hq. unfold device_receive.
  destruct (Z.ltb_spec (zlen q) kHeaderSize); [unfold kHeaderSize in *; lia|].
  by rewrite Hq, Z.eqb_refl.
Qed.

Lemma deliver_unprocessed d td th k q resp d' :
  unprocessed s a p (mk_net d td th [] false) → td !! k = Some q →
  device_receive process q d = (resp, d') → under_way d' td (push_opt W resp th).
Proof.
  intros (He & Ha & Hs & Htd & Hth) Hq HD. cbn [dev to_dev to_host] in He, Ha, Hs, Htd, Hth.
  destruct Htd as [Hlen Htd].
  destruct (Htd k q Hq) as [->|Ho].
  - right. unfold device_receive in HD. pose proof zlen_p as Hlp.
    destruct (Z.ltb_spec (zlen p) kHeaderSize); [unfold kHeaderSize in *; lia|].
    apply Z.eqb_neq in Hnq.
    rewrite id_p, Hnq, seq_p, He, Z.eqb_refl, Ha, flags_p, data_p, Hproc in HD.
    injection HD as <- <-.
    assert (packet id' (u16 s) flags' data' = r) as -> by (unfold r, packet; by rewrite u16_u16).
    split_and!; cbn [dev to_dev to_host expected saved app push_opt]; [by rewrite u16_succ|done|done|done|].
    replace s with (s - 1 + 1) at 1 by lia. by apply recent_push_or.
  - left. assert (k < W)%nat as Hk.
    { apply lookup_lt_Some in Hq. lia. }
    destruct (decide (id_of q = kIdDeviceQuery)) as [Hqq|Hqn].
    + rewrite device_receive_query in HD by (done || apply Ho). injection HD as <- <-.
      split_and!; cbn [dev to_dev to_host expected saved app push_opt]; try done. apply recent_push; [done|]. apply query_response_old.
    + destruct (old_seq s k q Hk) as [H1 H2]; [by eapply old_weaken; [..|exact Ho]; lia|done|].
      unfold device_receive in HD.
      destruct (zlen q <? kHeaderSize); [by injection HD as <- <-|].
      apply Z.eqb_neq in Hqn. rewrite Hqn, He in HD. apply Z.eqb_neq in H1. rewrite H1 in HD.
      destruct (seq_of q =? u16 (u16 s - 1)); [|by injection HD as <- <-].
      injection HD as <- <-. split_and!; cbn [dev to_dev to_host expected saved app push_opt]; try done.
      destruct (saved d) as [sv|] eqn:Esv; [|done]. destruct (Hs sv eq_refl) as [Hl1 Hl2].
      apply recent_push; [done|]. split; [done|]. right. exists (s - 1). split; [done|lia].
Qed.

Lemma deliver_processed d td th k q resp d' :
  processed s a' p r (mk_net d td th [] false) → td !! k = Some q →
  device_receive process q d = (resp, d') → processed s a' p r (mk_net d' td (push_opt W resp th) [] false).
Proof.
  intros (He & Ha & Hs & Htd & Hth) Hq HD. cbn [dev to_dev to_host] in He, Ha, Hs, Htd, Hth.
  destruct Htd as [Hlen Htd].
  assert (u16 (s + 1) ≠ u16 s) as Hne by (apply u16_neq; lia).
  destruct (Htd k q Hq) as [->|Ho].
  - unfold device_receive in HD. pose proof zlen_p as Hlp.
    destruct (Z.ltb_spec (zlen p) kHeaderSize); [unfold kHeaderSize in *; lia|].
    apply Z.eqb_neq in Hnq. rewrite id_p, Hnq, seq_p, He in HD.
    destruct (Z.eqb_spec (u16 s) (u16 (s + 1))) as [E|_]; [congruence|].
    rewrite u16_pred, Z.add_simpl_r, Z.eqb_refl, Hs in HD. injection HD as <- <-.
    split_and!; cbn [dev to_dev to_host expected saved app push_opt]; try done. by apply recent_or_push.
  - assert (k < W)%nat as Hk.
    { apply lookup_lt_Some in Hq. lia. }
    destruct (decide (id_of q = kIdDeviceQuery)) as [Hqq|Hqn].
    + rewrite device_receive_query in HD by (done || apply Ho). injection HD as <- <-.
      split_and!; cbn [dev to_dev to_host expected saved app push_opt]; try done. apply recent_or_push_old; [done|]. apply query_response_old.
    + destruct (old_seq s k q Hk) as [H1 H2]; [by eapply old_weaken; [..|exact Ho]; lia|done|].
      unfold device_receive in HD.
      destruct (zlen q <? kHeaderSize); [by injection HD as <- <-|].
      apply Z.eqb_neq in Hqn. rewrite Hqn, He in HD. rewrite u16_pred, Z.add_simpl_r in HD.
      apply Z.eqb_neq in H1, H2. rewrite H1, H2 in HD. by injection HD as <- <-.
Qed.

Lemma deliver_under_way d td th k q resp d' :
  under_way d td th → td !! k = Some q →
  device_receive process q d = (resp, d') → under_way d' td (push_opt W resp th).
Proof.
  intros [Hu|Hp] Hq HD; [by eapply deliver_unprocessed|right; by eapply deliver_processed].
Qed.

(** What the host receives during an exchange: nothing, an old response, or the
    response to its packet, and then the device has processed it. *)
Lemma net_receive_under_way len evs d td th res n' :
  net_receive process W len evs d td th = (res, n') → under_way d td th →
  to_dev n' = td ∧ under_way (dev n') td (to_host n') ∧
  (length (sched n') ≤ length evs)%nat ∧
  match res with
  | None => True
  | Some q =>
      net_timed_out n' = false ∧ (length (sched n') < length evs)%nat ∧
      ((q = ztake len r ∧ processed s a' p r (mk_net (dev n') td (to_host n') [] false)) ∨
       ∃ o lo, q = ztake len o ∧ s - 65535 < lo ∧ old lo s o)
  end.
Proof.
  revert d th. induction evs as [|ev evs IH]; intros d th HN Hu; cbn [net_receive] in HN.
  - injection HN as <- <-. done.
  - destruct ev as [k|k| |].
    + destruct (td !! k) as [q|] eqn:Hq.
      * destruct (device_receive process q d) as [resp d'] eqn:HD.
        apply IH in HN; [|by eapply deliver_under_way].
        destruct HN as (H1 & H2 & H3 & H4). split_and!; try done; [simpl; lia|].
        destruct res; [|done]. destruct H4 as (H4 & H5 & H6). split_and!; try done. simpl. lia.
      * apply IH in HN; [|done]. destruct HN as (H1 & H2 & H3 & H4).
        split_and!; try done; [simpl; lia|].
        destruct res; [|done]. destruct H4 as (H4 & H5 & H6). split_and!; try done. simpl. lia.
    + destruct (th !! k) as [q|] eqn:Hq.
      * injection HN as <- <-. cbn [dev to_dev to_host sched net_timed_out].
        split_and!; try done; [simpl; lia|simpl; lia|].
        destruct Hu as [Hu|Hu].
        -- right. destruct Hu as (_ & _ & _ & _ & Hth). cbn [dev to_dev to_host] in Hth. destruct Hth as [Hlen Hth].
           exists q, (s - 1 - Z.of_nat k). apply lookup_lt_Some in Hq as Hk.
           split_and!; [done|lia|]. by apply Hth.
        -- pose proof Hu as (_ & _ & _ & _ & Hth). cbn [dev to_dev to_host] in Hth. destruct Hth as [Hlen Hth].
           destruct (Hth k q Hq) as [->|Ho]; [by left|right].
           exists q, (s - Z.of_nat k). apply lookup_lt_Some in Hq as Hk.
           split_and!; [done|lia|done].
      * apply IH in HN; [|done]. destruct HN as (H1 & H2 & H3 & H4).
        split_and!; try done; [simpl; lia|].
        destruct res; [|done]. destruct H4 as (H4 & H5 & H6). split_and!; try done. simpl. lia.
    + injection HN as <- <-. cbn. split_and!; try done. lia.
    + injection HN as <- <-. cbn. split_and!; try done. lia.
Qed.

(** A received packet that matches is the response to the current one. *)
Lemma old_no_match lo o :
  s - 65535 < lo → old lo s o → Matches (Set_ id (u16 s) flags) o = false.
Proof.
  intros Hlo [Hl Ho]. destruct (Matches _ o) eqn:HM; [|done].
  destruct (Matches_seq id s flags o Hid Hl HM) as [Hseq Hi].
  destruct Ho as [Hq|(n & Hn & Hr)].
  - rewrite Hq in Hi. destruct Hi as [<-|Hi]; [done|discriminate Hi].
  - rewrite Hn in Hseq. destruct (u16_neq n s); [lia|done].
Qed.

Lemma zlen_r_size : zlen r ≤ size.
Proof. unfold r. rewrite zlen_packet. apply (Hwb _ _ _ _ _ _ _ _ Hproc). Qed.

Lemma receive_matching_spec fuel mdl buf n :
  4 ≤ size → (length (sched n) < fuel)%nat → zlen buf = size →
  under_way (dev n) (to_dev n) (to_host n) →
  ∃ res n' buf',
    receive_matching (H := net_socket process W) fuel (Set_ id (u16 s) flags)
      (mk_udp (Some n) s mdl buf)
    = Ret (res, mk_udp (Some n') s mdl buf') ∧
    zlen buf' = size ∧ under_way (dev n') (to_dev n') (to_host n') ∧
    (length (sched n') ≤ length (sched n))%nat ∧
    match res with
    | inr _ => True
    | inl b =>
        net_timed_out n' = true ∨
        net_timed_out n' = false ∧ b = zlen r ∧ (length (sched n') < length (sched n))%nat ∧
        processed s a' p r (mk_net (dev n') (to_dev n') (to_host n') [] false) ∧
        ∃ tl, buf' = r ++ tl
    end.
Proof.
  intros Hsize. revert buf n. induction fuel as [|fuel IH]; intros buf n Hf Hbuf Hu; [lia|].
  cbn [receive_matching]. unfold on_socket, socket_get. mred.
  cbn [socket_ rx_packet_ Receive net_socket]. unfold net_Receive. rewrite Hbuf.
  destruct (net_receive process W size (sched n) (dev n) (to_dev n) (to_host n)) as [res n'] eqn:HN.
  destruct (net_receive_under_way _ _ _ _ _ _ _ HN Hu) as (Htd & Hu' & Hlen & Hres).
  rewrite <- Htd in Hu'. unfold outcome_bind. cbv beta iota.
  destruct res as [q|].
  - destruct Hres as (Hto & Hlt & Hq).
    unfold set_rx. cbn [rx_packet_ socket_ sequence_ max_data_length_].
    assert (∃ o, q = ztake size o) as [o Ho].
    { destruct Hq as [[-> _]|(o & lo & -> & _)]; by eexists. }
    assert (zlen q ≤ size) as Hql by (rewrite Ho; apply zlen_ztake_le; lia).
    assert (zlen (overwrite buf q) = size) as Hov by (rewrite zlen_overwrite; lia).
    destruct (Z.ltb_spec (zlen q) kHeaderSize) as [Hshort|Hlong].
    + eexists _, n', _. split_and!; [reflexivity|done|done|done|done].
    + unfold kHeaderSize in Hlong. cbn [rx_packet_].
      assert (Matches (Set_ id (u16 s) flags) (overwrite buf q)
              = Matches (Set_ id (u16 s) flags) o) as HMq.
      { subst q. apply Matches_overwrite; lia. }
      destruct Hq as [[Hqr Hpr]|(o' & lo & Hqo & Hlo & Hold)].
      * assert (q = r) as -> by (rewrite Hqr; apply ztake_all; pose proof zlen_r_size; lia).
        assert (Matches (Set_ id (u16 s) flags) (overwrite buf r) = true) as ->.
        { rewrite <- (ztake_all size r) by apply zlen_r_size.
          rewrite Matches_overwrite by (rewrite ?(ztake_all size r) by apply zlen_r_size; lia).
          apply Matches_own; [done|]. apply (Hwb _ _ _ _ _ _ _ _ Hproc). }
        mred. eexists _, n', _. split_and!; [reflexivity|done|done|lia|]. right.
        split_and!; [done|done|lia|by rewrite Htd|by eexists].
      * assert (Matches (Set_ id (u16 s) flags) (overwrite buf q) = false) as ->.
        { rewrite Hqo, Matches_overwrite by (rewrite <- ?Hqo; lia). by eapply old_no_match. }
        cbv iota.
        destruct (IH (overwrite buf q) n' ltac:(lia) Hov Hu') as (res & n'' & buf'' & E & H1 & H2 & H3 & H4).
        exists res, n'', buf''. split_and!; [exact E|done|done|lia|].
        destruct res; [|done]. destruct H4 as [?|(?&?&?&?&?)]; [by left|right].
        split_and!; try done. lia.
  - unfold on_socket. mred.
    cbn [socket_ sequence_ max_data_length_ rx_packet_ ReceiveTimedOut GetErrorMessage net_socket].
    destruct (net_timed_out n') eqn:Hto.
    + eexists (inl (-1)), n', buf. split_and!; [reflexivity|done|done|done|by left].
    + eexists (inr _), n', buf. split_and!; [reflexivity|done|done|done|done].
Qed.

(** ** Sending and the end of the exchange *)

Lemma idle_send n evs b : idle s a n →
  under_way (dev n) (push W p (to_dev n)) (to_host (mk_net (dev n) (to_dev n) (to_host n) evs b)).
Proof.
  intros [H1 H2 H3 H4 H5]. left. split_and!; cbn [dev to_dev to_host]; try done.
  replace s with (s - 1 + 1) at 1 by lia. by apply recent_push_or.
Qed.

Lemma under_way_send d td th : under_way d td th → under_way d (push W p td) th.
Proof.
  intros [(H1 & H2 & H3 & H4 & H5)|(H1 & H2 & H3 & H4 & H5)]; [left|right];
    split_and!; cbn [dev to_dev to_host] in *; try done; by apply recent_or_push.
Qed.

Lemma processed_idle n : processed s a' p r n → idle (s + 1) a' n.
Proof.
  intros (H1 & H2 & H3 & H4 & H5). split; try done.
  - intros q Hq. rewrite H3 in Hq. injection Hq as <-. split; [apply zlen_r|].
    rewrite Z.add_simpl_r. apply seq_r.
  - rewrite Z.add_simpl_r. eapply recent_or_end; [apply zlen_p|apply seq_p|done].
  - rewrite Z.add_simpl_r. eapply recent_or_end; [apply zlen_r|apply seq_r|done].
Qed.

End exchange.

(** ** Runs of the transport *)

#[local] Abbreviation run_loop := (packet_loop (H := net_socket process W)).

Definition payloads (rs : list (Z * list byte)) : list byte := concat (snd <$> rs).

(** How far a run may have gone when it returns. *)
Record progress (s : Z) (n : net A) (s' : Z) (n' : net A) : Prop := {
  pr_sched : (length (sched n') ≤ length (sched n))%nat;
  pr_seq : s ≤ s' ∧ s' + zlen (sched n') ≤ s + zlen (sched n)
}.

Lemma progress_trans s n s1 n1 s2 n2 :
  progress s n s1 n1 → progress s1 n1 s2 n2 → progress s n s2 n2.
Proof. intros [] []. split; lia. Qed.

Lemma progress_same s n n' : (length (sched n') ≤ length (sched n))%nat → progress s n s n'.
Proof. intros. split; [done|]. unfold zlen. lia. Qed.

Lemma progress_step s n n' : (length (sched n') < length (sched n))%nat → progress s n (s + 1) n'.
Proof. intros. split; [lia|]. unfold zlen. lia. Qed.

(** What is known when the packet with number [s] is about to be sent, for the
    first time or again. *)
Definition sendable (s : Z) (a : A) (id flags : Z) (data : list byte) (n : net A) : Prop :=
  idle s a n ∨
  under_way s a (process a id flags data).1 id flags
    (process a id flags data).2.1.1 (process a id flags data).2.1.2 data (process a id flags data).2.2
    (dev n) (to_dev n) (to_host n).

(** What a run of the helper that does not fail has achieved. *)
Definition exchanged (s : Z) (a : A) (id flags : Z) (data : list byte) (rxl total : Z)
    (got : list byte) (res : sent) (s' : Z) (n' : net A) : Prop :=
  ∃ a' rs, exchange process a id flags data a' rs ∧ idle s' a' n' ∧ s' = s + zlen rs ∧
    Forall (fun x => x.1 ≠ kIdError) rs ∧ ret res = total + zlen (payloads rs) ∧
    rx res = got ++ ztake rxl (payloads rs).

Lemma exchange_error a flags data a' rs :
  exchange process a kIdError flags data a' rs → ¬ Forall (fun x => x.1 ≠ kIdError) rs.
Proof.
  intros E HF. inversion E as [? ? ? ? ? ? ? ? HP _|? ? ? ? ? ? ? ? ? ? HP _ _]; subst;
    apply Forall_cons in HF as [HF _]; destruct (Hwb _ _ _ _ _ _ _ _ HP) as [[?|?] _]; done.
Qed.

(** The rest of the loop body once the response [id1], [fl1], [d1] arrived. *)
Definition after_response (fuel : nat) (attempts rxl total : Z) (got error : list byte)
    (id1 fl1 : Z) (d1 : list byte) (t : UdpTransport (net A)) : outcome (sent * UdpTransport (net A)) :=
  let is_error := id1 =? kIdError in
  let k := if is_error then 0 else Z.min (zlen d1) rxl in
  let error := if is_error then error ++ d1 else error in
  let total := if is_error then total else total + zlen d1 in
  if negb (Z.land fl1 kFlagContinuation =? 0) then
    run_loop fuel (Set_ id1 (u16 (sequence_ t)) kFlagNone) [] attempts attempts (rxl - k) total
      (got ++ ztake k d1) error t
  else if is_error then
    Ret (mk_sent (-1) (got ++ ztake k d1) (bs "target reported error: " ++ error), t)
  else Ret (mk_sent total (got ++ ztake k d1) error, t).

(** The network once the host has sent [p]. *)
Definition sent_net (p : list byte) (n : net A) : net A :=
  mk_net (dev n) (push W p (to_dev n)) (to_host n) (sched n) (net_timed_out n).

(** The fields of a response in the receive buffer. *)
Lemma response_fields id1 s fl1 d1 tl :
  0 ≤ id1 < 256 → 0 ≤ fl1 < 256 →
  let pk := packet id1 s fl1 d1 ++ tl in
  at_ pk kIndexId = id1 ∧ at_ pk kIndexFlags = fl1 ∧
  ztake (zlen d1) (zdrop kHeaderSize pk) = d1 ∧
  zlen (packet id1 s fl1 d1) - kHeaderSize = zlen d1.
Proof.
  intros Hid1 Hfl1 pk. pose proof (zlen_nonneg d1) as Hd. unfold pk. split_and!.
  - rewrite at_app by (rewrite zlen_packet; unfold kIndexId; lia). by apply id_of_packet.
  - rewrite at_app by (rewrite zlen_packet; unfold kIndexFlags; lia). by apply flags_of_packet.
  - change (zdrop kHeaderSize (packet id1 s fl1 d1 ++ tl)) with (d1 ++ tl). by apply ztake_app_exact.
  - rewrite zlen_packet. unfold kHeaderSize. lia.
Qed.

(** One iteration of the loop by what the wait for the response gave. *)
Section step.
Context (fuel : nat) (id flags s attempts left rxl total mdl : Z).
Context (data got error buf : list byte) (n : net A) (Hleft : 0 < left).
#[local] Abbreviation header := (Set_ id (u16 s) flags).
#[local] Abbreviation wait := (receive_matching (H := net_socket process W) (S fuel) header
  (mk_udp (Some (sent_net (packet id s flags data) n)) s mdl buf)).
#[local] Abbreviation loop := (run_loop (S fuel) header data attempts left rxl total got error
  (mk_udp (Some n) s mdl buf)).

Lemma send_step :
  on_socket (SendBuffers (Socket := net_socket process W) [header; data]) (mk_udp (Some n) s mdl buf)
  = Ret (true, mk_udp (Some (sent_net (packet id s flags data) n)) s mdl buf).
Proof. unfold on_socket. cbn [socket_ SendBuffers net_socket concat]. rewrite app_nil_r. done. Qed.

(** Executes the loop body up to the result of the wait. *)
Ltac to_wait HR :=
  cbn [packet_loop]; destruct (Z.ltb_spec 0 left) as [_|]; [|lia];
  unfold mbind at 1, M_bind at 1; rewrite send_step; cbv beta iota; cbn [negb];
  unfold mbind at 1, M_bind at 1; rewrite HR; cbv beta iota.

Lemma step_failed e t : wait = Ret (inr e, t) → loop = Ret (mk_sent (-1) got e, t).
Proof. intros HR. by to_wait HR. Qed.

Lemma step_timeout b n2 buf2 : wait = Ret (inl b, mk_udp (Some n2) s mdl buf2) →
  net_timed_out n2 = true →
  loop = run_loop fuel header data attempts (left - 1) rxl total got error
           (mk_udp (Some n2) s mdl buf2).
Proof.
  intros HR Hto. to_wait HR.
  unfold mbind at 1, M_bind at 1, socket_get, on_socket. cbn [socket_].
  cbn [mbind outcome_bind sequence_ max_data_length_ rx_packet_ ReceiveTimedOut net_socket].
  by rewrite Hto.
Qed.

Lemma step_response id1 fl1 d1 tl n2 : 0 ≤ id1 < 256 → 0 ≤ fl1 < 256 → s < INT_MAX →
  wait = Ret (inl (zlen (packet id1 s fl1 d1)), mk_udp (Some n2) s mdl (packet id1 s fl1 d1 ++ tl)) →
  net_timed_out n2 = false →
  loop = after_response fuel attempts rxl total got error id1 fl1 d1
           (mk_udp (Some n2) (s + 1) mdl (packet id1 s fl1 d1 ++ tl)).
Proof.
  intros Hid1 Hfl1 Hseq HR Hto. to_wait HR.
  unfold mbind at 1, M_bind at 1, socket_get, on_socket. cbn [socket_].
  cbn [mbind outcome_bind sequence_ max_data_length_ rx_packet_ ReceiveTimedOut net_socket].
  rewrite Hto. mred. cbn [sequence_ rx_packet_ socket_ max_data_length_].
  destruct (Z.ltb_spec s INT_MAX) as [_|]; [|lia].
  unfold set_seq. cbn [sequence_ rx_packet_ socket_ max_data_length_].
  destruct (response_fields id1 s fl1 d1 tl Hid1 Hfl1) as (Eid & Efl & Epl & Elen).
  rewrite Eid, Efl, Elen, Epl. unfold after_response. cbn [sequence_].
  destruct (id1 =? kIdError), (Z.land fl1 kFlagContinuation =? 0); done.
Qed.

End step.

Section round.
Context (mdl attempts : Z) (Hsize : 4 ≤ size).
Context (s : Z) (a a1 : A) (id flags id1 fl1 : Z) (data d1 : list byte).
Context (Hid : 0 ≤ id < 256) (Hnq : id ≠ kIdDeviceQuery) (Hfl : 0 ≤ flags < 256).
Context (HP : process a id flags data = (a1, (id1, fl1, d1))).

Lemma sendable_send n : sendable s a id flags data n →
  under_way s a a1 id flags id1 fl1 data d1
    (dev n) (push W (packet id s flags data) (to_dev n)) (to_host n).
Proof.
  intros [Hs|Hs].
  - exact (idle_send s a a1 id flags id1 fl1 data d1 n (sched n) (net_timed_out n) Hs).
  - rewrite HP in Hs. by apply under_way_send.
Qed.

(** One iteration of the loop: it fails, or the wait timed out and the packet is
    sent again, or the response came in. *)
Lemma packet_loop_round fuel left rxl total got error n buf :
  0 < left → zlen buf = size → s < INT_MAX → (length (sched n) ≤ fuel)%nat →
  sendable s a id flags data n →
  ∃ n2 buf2, zlen buf2 = size ∧ (length (sched n2) ≤ length (sched n))%nat ∧
    let loop := run_loop (S fuel) (Set_ id (u16 s) flags) data attempts left rxl total got error
                  (mk_udp (Some n) s mdl buf) in
    (∃ e, loop = Ret (mk_sent (-1) got e, mk_udp (Some n2) s mdl buf2)) ∨
    (loop = run_loop fuel (Set_ id (u16 s) flags) data attempts (left - 1) rxl total got error
              (mk_udp (Some n2) s mdl buf2) ∧ sendable s a id flags data n2) ∨
    (loop = after_response fuel attempts rxl total got error id1 fl1 d1
              (mk_udp (Some n2) (s + 1) mdl buf2) ∧
     (length (sched n2) < length (sched n))%nat ∧ idle (s + 1) a1 n2).
Proof.
  intros Hpos Hbuf Hseq Hfuel Hs. cbn zeta.
  destruct (receive_matching_spec s a a1 id flags id1 fl1 data d1 Hid Hnq Hfl HP (S fuel) mdl buf
              (sent_net (packet id s flags data) n))
    as (r & n2 & buf2 & HR & Hbuf2 & Hu2 & Hlen2 & Hr); [done|cbn; lia|done|by apply sendable_send|].
  exists n2, buf2. split_and!; [done|done|].
  destruct r as [b|e]; [right|left; exists e; by apply step_failed].
  destruct Hr as [Hto|(Hto & -> & Hlt & Hpr & tl & ->)]; [left|right].
  - split; [by eapply step_timeout|]. right. by rewrite HP.
  - split_and!; [|done|by destruct (processed_idle _ _ _ _ _ _ _ _ _ Hpr)].
    destruct (Hwb _ _ _ _ _ _ _ _ HP) as ([->| ->] & Hfl1 & _); by apply step_response.
Qed.

End round.

Lemma fuel_after_answer (l l' k left fuel : nat) :
  (l' < l)%nat → (l * (k + 1) + left < S fuel)%nat → (l' * (k + 1) + k < fuel)%nat.
Proof. nia. Qed.

Lemma fuel_after_timeout (l l' k left fuel : nat) :
  (l' ≤ l)%nat → (0 < left)%nat → (l * (k + 1) + left < S fuel)%nat →
  (l' * (k + 1) + (left - 1) < fuel)%nat.
Proof. nia. Qed.

Lemma packet_loop_spec mdl attempts : 4 ≤ size →
  ∀ fuel s a id flags data left rxl total got error n buf,
  0 ≤ id < 256 → id ≠ kIdDeviceQuery → 0 ≤ flags < 256 → 0 ≤ left ≤ attempts → 0 ≤ rxl →
  zlen buf = size → s + zlen (sched n) < INT_MAX →
  (length (sched n) * (Z.to_nat attempts + 1) + Z.to_nat left < fuel)%nat →
  sendable s a id flags data n →
  ∃ res n' s' buf',
    run_loop fuel (Set_ id (u16 s) flags) data attempts left rxl total got error
      (mk_udp (Some n) s mdl buf)
    = Ret (res, mk_udp (Some n') s' mdl buf') ∧
    zlen buf' = size ∧ progress s n s' n' ∧
    (ret res = -1 ∨ exchanged s a id flags data rxl total got res s' n').
Proof.
  intros Hsize. induction fuel as [|fuel IH];
    intros s a id flags data left rxl total got error n buf Hid Hnq Hfl Hleft Hrxl Hbuf Hseq Hfuel Hs;
    [lia|].
  destruct (Z.ltb_spec 0 left) as [Hpos|Hzero].
  2: { cbn [packet_loop]. destruct (Z.ltb_spec 0 left); [lia|].
       eexists _, n, s, buf. split_and!; [reflexivity|done|by apply progress_same|by left]. }
  destruct (process a id flags data) as [a1 [[id1 fl1] d1]] eqn:HP.
  destruct (Hwb _ _ _ _ _ _ _ _ HP) as (Hid1 & Hfl1 & Hd1). pose proof (zlen_nonneg (sched n)).
  destruct (packet_loop_round mdl attempts Hsize s a a1 id flags id1 fl1 data d1 Hid Hnq Hfl HP
              fuel left rxl total got error n buf)
    as (n2 & buf2 & Hbuf2 & Hlen2 & [[e ->]|[[-> Hs2]|(-> & Hlt & Hidle)]]);
    [done|done|lia|nia|done| | |].
  - eexists _, n2, s, buf2. split_and!; [reflexivity|done|by apply progress_same|by left].
  - pose proof (progress_same s n n2 Hlen2) as Hpg2.
    destruct (IH s a id flags data (left - 1) rxl total got error n2 buf2)
      as (res & n' & s' & buf' & E & Hb & Hpg & Hpost); try done; try lia.
    { destruct Hpg2. lia. }
    { rewrite Z2Nat.inj_sub by lia. eapply fuel_after_timeout; [exact Hlen2|lia|exact Hfuel]. }
    exists res, n', s', buf'. split_and!; [exact E|done| |done]. by eapply progress_trans.
  - assert (progress s n (s + 1) n2) as Hpg2 by (by apply progress_step).
    unfold after_response. cbn [sequence_]. set (k := if id1 =? kIdError then 0 else _).
    destruct (Z.eqb_spec (Z.land fl1 kFlagContinuation) 0) as [Hlast|Hmore]; cbn [negb].
    + destruct (Z.eqb_spec id1 kIdError) as [Herr|Hok].
      * eexists _, n2, _, _. split_and!; [reflexivity|done|done|by left].
      * destruct Hid1 as [->| ->]; [|done].
        eexists _, n2, _, _. split_and!; [reflexivity|done|done|right].
        exists a1, [(id, d1)]. unfold payloads. cbn [fmap list_fmap concat snd]. rewrite app_nil_r.
        split_and!; [by econstructor|done|done|by repeat constructor|done|].
        cbn [rx]. unfold k. by rewrite ztake_min.
    + edestruct (IH (s + 1) a1 id1 kFlagNone [] attempts (rxl - k))
        as (res & n' & s' & buf' & E & Hb & Hpg & Hpost); [..|
          exists res, n', s', buf'; split_and!; [exact E|done|by eapply progress_trans|]];
        try done; try lia.
      { destruct Hid1 as [->| ->]; [done|]. unfold kIdError. lia. }
      { destruct Hid1 as [->| ->]; done. }
      { unfold k. destruct (id1 =? kIdError); lia. }
      { destruct Hpg2. lia. } { by eapply fuel_after_answer. } { by left. }
      destruct Hpost as [?|(a' & rs & Hex & Hi & Hss & HF & Hret & Hrx)]; [by left|].
      destruct (Z.eqb_spec id1 kIdError) as [->|Hok]; [by apply exchange_error in Hex|].
      destruct Hid1 as [->| ->]; [|done]. right.
      exists a', ((id, d1) :: rs). unfold payloads in *. cbn [fmap list_fmap concat snd].
      split_and!; [by econstructor|done|rewrite zlen_cons; lia|by constructor| |].
      * rewrite zlen_app. lia.
      * rewrite Hrx, <- app_assoc. unfold k. rewrite ztake_min by done. by rewrite ztake_app_rest.
Qed.

(** What a run of [SendData] that does not fail has achieved. *)
Definition sent_all (mdl s : Z) (a : A) (id : Z) (data : list byte) (rxl total : Z)
    (got : list byte) (res : sent) (s' : Z) (n' : net A) : Prop :=
  ∃ a' rs, delivered process mdl a id data a' rs ∧ idle s' a' n' ∧ s' = s + zlen rs ∧
    Forall (fun x => x.1 ≠ kIdError) rs ∧ ret res = total + zlen (payloads rs) ∧
    rx res = got ++ ztake rxl (payloads rs).

Lemma payloads_app rs1 rs2 : payloads (rs1 ++ rs2) = payloads rs1 ++ payloads rs2.
Proof. unfold payloads. by rewrite fmap_app, concat_app. Qed.

Lemma SendData_loop_spec mdl attempts id : 4 ≤ size → 0 < mdl → 0 ≤ attempts →
  0 ≤ id < 256 → id ≠ kIdDeviceQuery →
  ∀ fuel s a data rxl total got n buf,
  0 ≤ rxl → 0 ≤ total → zlen buf = size → s + zlen (sched n) < INT_MAX →
  (length (sched n) * (Z.to_nat attempts + 1) + Z.to_nat attempts + length data < fuel)%nat →
  idle s a n →
  ∃ res n' s' buf',
    SendData_loop (H := net_socket process W) fuel id data rxl attempts total got
      (mk_udp (Some n) s mdl buf)
    = Ret (res, mk_udp (Some n') s' mdl buf') ∧
    zlen buf' = size ∧ progress s n s' n' ∧
    (ret res = -1 ∨ sent_all mdl s a id data rxl total got res s' n').
Proof.
  intros Hsize Hmdl Hatt Hid Hnq. induction fuel as [|fuel IH];
    intros s a data rxl total got n buf Hrxl Htot Hbuf Hseq Hfuel Hidle; [lia|].
  cbn [SendData_loop]. unfold mbind at 1, M_bind at 1, get. cbn [max_data_length_ sequence_].
  set (big := mdl <? zlen data).
  set (len := if big then mdl else zlen data).
  set (fl := if big then kFlagContinuation else kFlagNone).
  replace (if big then (mdl, Set_ id (u16 s) kFlagContinuation)
           else (zlen data, Set_ id (u16 s) kFlagNone)) with (len, Set_ id (u16 s) fl)
    by (unfold len, fl; by destruct big).
  assert (0 ≤ fl < 256) as Hfl by (unfold fl; by destruct big).
  destruct (packet_loop_spec mdl attempts Hsize (S fuel) s a id fl (ztake len data) attempts rxl 0 []
              [] n buf) as (r & n1 & s1 & buf1 & E & Hb1 & Hpg1 & Hpost); try done; try lia.
  { by left. }
  unfold mbind at 1, M_bind at 1, SendSinglePacketHelper. rewrite E. cbv beta iota.
  destruct Hpost as [Hret|(a1 & rs1 & Hex & Hi1 & Hs1 & HF1 & Hret & Hrx)].
  { rewrite Hret. eexists _, n1, s1, buf1. split_and!; [reflexivity|done|done|by left]. }
  pose proof (zlen_nonneg (payloads rs1)) as Hp1. rewrite Z.add_0_l in Hret. rewrite app_nil_l in Hrx.
  destruct (Z.eqb_spec (ret r) (-1)); [lia|].
  replace (if ret r <? rxl then rxl - ret r else 0) with (rxl - Z.min (zlen (payloads rs1)) rxl)
    by (rewrite Hret; destruct (Z.ltb_spec (zlen (payloads rs1)) rxl); lia).
  unfold big in *. destruct (Z.ltb_spec mdl (zlen data)) as [Hbig|Hsmall].
  - assert (0 < zlen (zdrop len data)) as Hne by (unfold len; rewrite zlen_zdrop; lia).
    destruct (Z.ltb_spec 0 (zlen (zdrop len data))); [|lia].
    destruct (IH s1 a1 (zdrop len data) (rxl - Z.min (zlen (payloads rs1)) rxl) (total + ret r)
                (got ++ rx r) n1 buf1) as (res & n' & s' & buf' & E2 & Hb2 & Hpg2 & Hpost);
      try done; try lia.
    { destruct Hpg1. lia. }
    { destruct Hpg1 as [Hpl _]. unfold len, zdrop. rewrite length_drop.
      unfold zlen in Hbig. nia. }
    exists res, n', s', buf'. split_and!; [exact E2|done|by eapply progress_trans|].
    destruct Hpost as [?|(a2 & rs2 & Hdl & Hi2 & Hs2 & HF2 & Hret2 & Hrx2)]; [by left|right].
    exists a2, (rs1 ++ rs2). rewrite payloads_app, !zlen_app, Forall_app.
    split_and!; [by eapply dl_more|done|lia|done|done|lia|].
    rewrite Hrx2, Hrx, <- app_assoc, ztake_app_rest by done. done.
  - assert (zdrop len data = []) as -> by (unfold len, zdrop, zlen; apply drop_ge; lia).
    change (0 <? zlen []) with false. cbv iota.
    eexists _, n1, s1, buf1. split_and!; [reflexivity|done|done|right].
    unfold len in Hex. rewrite ztake_all in Hex by lia.
    exists a1, rs1. split_and!; [by apply dl_last|done|done|done|cbn [ret]; lia|].
    cbn [rx]. by rewrite Hrx.
Qed.

(** The transport of an established session whose device is in state [a]. *)
Definition session (mdl : Z) (a : A) (t : UdpTransport (net A)) : Prop :=
  ∃ n s buf, t = mk_udp (Some n) s mdl buf ∧ zlen buf = size ∧ idle s a n.

(** What remains of the schedule, and the fuel that is enough for a transfer. *)
Definition remaining (t : UdpTransport (net A)) : nat :=
  match socket_ t with Some n => length (sched n) | None => 0 end.
Definition enough_fuel (attempts : Z) (data : list byte) (t : UdpTransport (net A)) : nat :=
  remaining t * (Z.to_nat attempts + 1) + Z.to_nat attempts + length data + 1.

Lemma SendData_spec mdl attempts id fuel a data rxl t :
  4 ≤ size → 0 < mdl → 0 ≤ attempts → 0 ≤ id < 256 → id ≠ kIdDeviceQuery → 0 ≤ rxl →
  session mdl a t → sequence_ t + Z.of_nat (remaining t) < INT_MAX →
  (enough_fuel attempts data t ≤ fuel)%nat →
  ∃ res t',
    SendData (H := net_socket process W) fuel id data rxl attempts t = Ret (res, t') ∧
    (ret res = -1 ∨
     ∃ a' rs, session mdl a' t' ∧ delivered process mdl a id data a' rs ∧
       Forall (fun x => x.1 ≠ kIdError) rs ∧ sequence_ t' = sequence_ t + zlen rs ∧
       ret res = zlen (payloads rs) ∧ rx res = ztake rxl (payloads rs)).
Proof.
  intros Hsize Hmdl Hatt Hid Hnq Hrxl (n & s & buf & -> & Hbuf & Hidle) Hseq Hfuel.
  unfold enough_fuel, remaining in Hfuel, Hseq. cbn [socket_ sequence_] in Hfuel, Hseq.
  destruct (SendData_loop_spec mdl attempts id Hsize Hmdl Hatt Hid Hnq fuel s a data rxl 0 [] n buf)
    as (res & n' & s' & buf' & E & Hb & _ & Hpost); try done; try lia.
  unfold SendData. cbn [socket_]. rewrite E. eexists _, _. split; [done|].
  destruct Hpost as [?|(a' & rs & H1 & H2 & H3 & H4 & H5 & H6)]; [by left|right].
  exists a', rs. split_and!; try done. by exists n', s', buf'.
Qed.

End invariant.

(** ** A device that logs and acknowledges every packet *)

Definition log_process (l : list (Z * Z * list byte)) (id flags : Z) (data : list byte)
    : list (Z * Z * list byte) * (Z * Z * list byte) :=
  (l ++ [(id, flags, data)], (id, kFlagNone, [])).

Lemma log_well_behaved size : 4 ≤ size → well_behaved log_process size.
Proof.
  intros Hs l id flags data l' id' flags' data' [= <- <- <- <-].
  split_and!; [by left|done|done|]. change (zlen []) with 0. unfold kHeaderSize. lia.
Qed.

(** The packets a transfer is cut into; [n] bounds their number. *)
Fixpoint packets_of (n : nat) (max id : Z) (data : list byte) : list (Z * Z * list byte) :=
  match n with
  | O => []
  | S n =>
      if max <? zlen data
      then (id, kFlagContinuation, ztake max data) :: packets_of n max id (zdrop max data)
      else [(id, kFlagNone, data)]
  end.

Lemma packets_of_data max id n data : 0 < max → (length data < n)%nat →
  concat (snd <$> packets_of n max id data) = data ∧
  Forall (fun x => zlen x.2 ≤ max) (packets_of n max id data).
Proof.
  intros Hmax. revert data. induction n as [|n IH]; intros data Hn; [lia|].
  cbn [packets_of]. destruct (Z.ltb_spec max (zlen data)).
  - destruct (IH (zdrop max data)) as [E1 E2].
    { unfold zdrop. rewrite length_drop. unfold zlen in *. lia. }
    cbn [fmap list_fmap concat snd]. rewrite E1, ztake_zdrop. split; [done|].
    constructor; [|done]. cbn [snd]. rewrite zlen_ztake; lia.
  - cbn [fmap list_fmap concat snd]. rewrite app_nil_r. split; [done|].
    repeat constructor. done.
Qed.

Lemma log_exchange l id flags data l' rs : exchange log_process l id flags data l' rs →
  l' = l ++ [(id, flags, data)] ∧ payloads rs = [].
Proof.
  intros E. inversion E as [? ? ? ? ? ? ? ? HP _|? ? ? ? ? ? ? ? ? ? HP Hc _]; subst;
    injection HP as <- <- <- <-; [done|]. by vm_compute in Hc.
Qed.

Lemma log_delivered max l id data l' rs n : 0 < max → (length data < n)%nat →
  delivered log_process max l id data l' rs →
  l' = l ++ packets_of n max id data ∧ payloads rs = [].
Proof.
  intros Hmax Hn D. revert n Hn.
  induction D as [l id data l' rs Hd He|l id data l1 rs1 l' rs Hd He _ IH]; intros n Hn;
    (destruct n as [|n]; [lia|]); cbn [packets_of]; apply log_exchange in He as [-> Hp].
  - destruct (Z.ltb_spec max (zlen data)); [lia|]. done.
  - destruct (Z.ltb_spec max (zlen data)); [|lia].
    destruct (IH n) as [-> Hp2]; [unfold zdrop; rewrite length_drop; unfold zlen in *; lia|].
    by rewrite payloads_app, Hp, Hp2, <- app_assoc.
Qed.

Lemma udp_Write_spec {A} process W size mdl fuel (a : A) data t :
  well_behaved process size → Z.of_nat W ≤ 65534 → 4 ≤ size → 0 < mdl →
  session W size mdl a t → sequence_ t + Z.of_nat (remaining t) < INT_MAX →
  (enough_fuel kMaxTransmissionAttempts data t ≤ fuel)%nat →
  ∃ v t', Write (H := net_socket process W) fuel data t = Ret (v, t') ∧
    (v = -1 ∨
     v = zlen data ∧ ∃ a' rs, delivered process mdl a kIdFastboot data a' rs ∧
       payloads rs = [] ∧ Forall (fun x => x.1 ≠ kIdError) rs ∧ session W size mdl a' t').
Proof.
  intros Hwb HW Hsize Hmdl Hses Hseq Hfuel.
  destruct (SendData_spec process W size Hwb HW mdl kMaxTransmissionAttempts kIdFastboot fuel a data 0 t)
    as (res & t' & E & Hpost); try done.
  unfold Write, mbind, M_bind. rewrite E.
  destruct Hpost as [Hr|(a' & rs & H1 & H2 & H3 & H4 & H5 & H6)].
  - rewrite Hr. eexists _, t'. split; [reflexivity|by left].
  - pose proof (zlen_nonneg (payloads rs)).
    destruct (Z.eqb_spec (ret res) (-1)); [lia|].
    destruct (Z.ltb_spec 0 (ret res)) as [|Hz].
    + eexists _, t'. split; [reflexivity|by left].
    + eexists _, t'. split; [reflexivity|right]. split; [done|]. exists a', rs.
      split_and!; try done. destruct (payloads rs) as [|x l] eqn:Ep; [done|].
      rewrite zlen_cons in *. pose proof (zlen_nonneg l). lia.
Qed.

(** A device that has just been started, or whose last session has died out. *)
Lemma fresh_session {A} W size mdl (a : A) s evs b buf :
  zlen buf = size →
  session W size mdl a (mk_udp (Some (mk_net (mk_device (u16 s) None a) [] [] evs b)) s mdl buf).
Proof.
  intros Hb. eexists _, _, _. split_and!; [reflexivity|done|].
  split; try done; (split; [apply Nat.le_0_l|]); intros i p [=].
Qed.

(** * Claims *)

(** C3: in a session in step, a UDP [Write] delivers its data exactly once,
    whatever the network does.  [session] says that host and device are in step
    at the start: the device expects the host's sequence number, and only
    packets of earlier numbers are in flight; it holds after initialisation and
    after every successful operation (not after one that failed).  For every
    device application that keeps to the protocol, every schedule of losses,
    delays, duplications and reorderings (of the last 65534 packets of each
    direction) and every data, with sequence numbers left for the schedule below
    INT_MAX, [Write] returns; and when it returns the length, the device
    application has gone through exactly the packets of the data, each once and
    in order, with the prompts it asked for, it has answered no data, and the
    session is in step again. *)
Theorem udp_write_exactly_once {A} process W size mdl fuel (a : A) data t :
  well_behaved process size → Z.of_nat W ≤ 65534 → 4 ≤ size → 0 < mdl →
  session W size mdl a t → sequence_ t + Z.of_nat (remaining t) < INT_MAX →
  (enough_fuel kMaxTransmissionAttempts data t ≤ fuel)%nat →
  ∃ v t', Write (H := net_socket process W) fuel data t = Ret (v, t') ∧
    (v = -1 ∨
     v = zlen data ∧ ∃ a' rs, delivered process mdl a kIdFastboot data a' rs ∧
       payloads rs = [] ∧ Forall (fun x => x.1 ≠ kIdError) rs ∧ session W size mdl a' t').
Proof. apply udp_Write_spec. Qed.

(** C19: in a session in step, a UDP [Read] returns exactly what the device
    said.  Under the conditions of the theorem on [Write] (host and device in
    step at the start, a device that keeps to the protocol, any schedule of the
    network) [Read] returns, and when it returns data these are the
    concatenated payloads of the device's answers to one empty packet and the
    prompts that follow it, and they fit the caller's buffer. *)
Theorem udp_read_exact {A} process W size mdl fuel (a : A) length t :
  well_behaved process size → Z.of_nat W ≤ 65534 → 4 ≤ size → 0 < mdl → 0 ≤ length →
  session W size mdl a t → sequence_ t + Z.of_nat (remaining t) < INT_MAX →
  (enough_fuel kMaxTransmissionAttempts [] t ≤ fuel)%nat →
  ∃ v t', Read (H := net_socket process W) fuel length t = Ret (v, t') ∧
    (v = None ∨
     ∃ a' rs, exchange process a kIdFastboot kFlagNone [] a' rs ∧ v = Some (payloads rs) ∧
       zlen (payloads rs) ≤ length ∧ Forall (fun x => x.1 ≠ kIdError) rs ∧ session W size mdl a' t').
Proof.
  intros Hwb HW Hsize Hmdl Hlen Hses Hseq Hfuel.
  destruct (SendData_spec process W size Hwb HW mdl kMaxTransmissionAttempts kIdFastboot fuel a []
              length t) as (res & t' & E & Hpost); try done.
  unfold Read, mbind, M_bind. rewrite E.
  destruct Hpost as [Hr|(a' & rs & H1 & H2 & H3 & H4 & H5 & H6)].
  - rewrite Hr. eexists _, t'. split; [reflexivity|by left].
  - pose proof (zlen_nonneg (payloads rs)).
    destruct (Z.eqb_spec (ret res) (-1)); [lia|].
    destruct (Z.ltb_spec length (ret res)).
    + eexists _, t'. split; [reflexivity|by left].
    + eexists _, t'. split; [reflexivity|right]. exists a', rs.
      inversion H2 as [? ? ? ? ? _ Hex|? ? ? ? ? ? ? Hbig]; subst;
        [|change (zlen []) with 0 in Hbig; lia].
      split_and!; [done| |lia|done|done]. rewrite H6, ztake_all by lia. done.
Qed.

(** The application of a device that acknowledges everything sees the data
    of a successful [Write] in packets of at most the negotiated size, all but
    the last flagged as continued, that concatenate to the data: nothing is
    lost, repeated or reordered although the network does all three. *)
Theorem udp_write_log W size mdl fuel log data t :
  Z.of_nat W ≤ 65534 → 4 ≤ size → 0 < mdl → session W size mdl log t →
  sequence_ t + Z.of_nat (remaining t) < INT_MAX →
  (enough_fuel kMaxTransmissionAttempts data t ≤ fuel)%nat →
  let packets := packets_of (S (length data)) mdl kIdFastboot data in
  concat (snd <$> packets) = data ∧ Forall (fun x => zlen x.2 ≤ mdl) packets ∧
  ∃ v t', Write (H := net_socket log_process W) fuel data t = Ret (v, t') ∧
    (v = -1 ∨ v = zlen data ∧ session W size mdl (log ++ packets) t').
Proof.
  intros HW Hsize Hmdl Hses Hseq Hfuel packets.
  destruct (packets_of_data mdl kIdFastboot (S (length data)) data Hmdl) as [H1 H2]; [lia|].
  split_and!; [done|done|].
  destruct (udp_Write_spec log_process W size mdl fuel log data t) as (v & t' & E & Hpost);
    try done; [by apply log_well_behaved|].
  exists v, t'. split; [done|]. destruct Hpost as [?|(Hv & a' & rs & Hdl & _ & _ & Hs')]; [by left|].
  right. split; [done|]. apply (log_delivered mdl log _ _ _ _ (S (length data))) in Hdl as [-> _]; [done|done|lia].
Qed.

(** A session with sequence number 65535 next, 4-byte packets, over a network
    that loses a response, lets a packet arrive twice and delivers an old
    response before the right one. *)
Definition ex_events : list event :=
  [Deliver 0; Timeout; Deliver 0; Deliver 1; Answer 0; Deliver 0; Answer 1; Answer 0].
Definition ex_session : UdpTransport (net (list (Z * Z * list byte))) :=
  mk_udp (Some (mk_net (mk_device (u16 65535) None []) [] [] ex_events false)) 65535 4 (zeros 8).

Lemma udp_write_log_witness :
  ∃ t', Write (H := net_socket log_process 100) 2000 (bs "boot!") ex_session = Ret (5, t') ∧
    session 100 8 4 [(3, 1, bs "boot"); (3, 0, bs "!")] t'.
Proof.
  destruct (udp_write_log 100 8 4 2000 [] (bs "boot!") ex_session) as (_ & _ & v & t' & E & Hv).
  - lia.
  - lia.
  - lia.
  - apply fresh_session. reflexivity.
  - vm_compute. reflexivity.
  - apply Nat.leb_le. vm_compute. reflexivity.
  - assert (match Write (H := net_socket log_process 100) 2000 (bs "boot!") ex_session with
            | Ret (v, _) => v = 5 | _ => False end) as Hc by (vm_compute; reflexivity).
    rewrite E in Hc. subst v. exists t'. split; [exact E|].
    destruct Hv as [Hv|[_ Hv]]; [discriminate Hv|exact Hv].
Defined.

Lemma udp_write_exactly_once_witness :
  ∃ v t', Write (H := net_socket log_process 100) 2000 (bs "boot!") ex_session = Ret (v, t') ∧
    (v = -1 ∨
     v = 5 ∧ ∃ a' rs, delivered log_process 4 [] kIdFastboot (bs "boot!") a' rs ∧
       payloads rs = [] ∧ Forall (fun x => x.1 ≠ kIdError) rs ∧ session 100 8 4 a' t').
Proof.
  apply (udp_write_exactly_once log_process 100 8 4 2000 [] (bs "boot!") ex_session).
  - apply log_well_behaved. lia.
  - lia.
  - lia.
  - lia.
  - apply fresh_session. reflexivity.
  - vm_compute. reflexivity.
  - apply Nat.leb_le. vm_compute. reflexivity.
Defined.

(** A device that answers every empty packet with ["OKAY"] in two packets. *)
Definition okay_process (n : nat) (id flags : Z) (data : list byte) : nat * (Z * Z * list byte) :=
  if Nat.even n then (S n, (id, kFlagContinuation, bs "OK")) else (S n, (id, kFlagNone, bs "AY")).

Definition ex_read_session : UdpTransport (net nat) :=
  mk_udp (Some (mk_net (mk_device (u16 7) None 0%nat) [] []
            [Timeout; Deliver 0; Deliver 1; Answer 0; Deliver 2; Deliver 0; Answer 1; Answer 0] false))
    7 508 (zeros 512).

Lemma udp_read_exact_witness :
  ∃ t', Read (H := net_socket okay_process 100) 2000 256 ex_read_session = Ret (Some (bs "OKAY"), t') ∧
    session 100 512 508 2%nat t'.
Proof.
  destruct (udp_read_exact okay_process 100 512 508 2000 0%nat 256 ex_read_session)
    as (v & t' & E & Hv).
  - intros n id flags data n' id' flags' data' HP. unfold okay_process in HP.
    destruct (Nat.even n); injection HP as <- <- <- <-; (split; [by left|]);
      split; [done|vm_compute; congruence|done|vm_compute; congruence].
  - lia.
  - lia.
  - lia.
  - lia.
  - apply fresh_session. reflexivity.
  - vm_compute. reflexivity.
  - apply Nat.leb_le. vm_compute. reflexivity.
  - assert (match Read (H := net_socket okay_process 100) 2000 256 ex_read_session with
            | Ret (v, _) => v = Some (bs "OKAY") | _ => False end) as Hc by (vm_compute; reflexivity).
    rewrite E in Hc. subst v. exists t'. split; [exact E|].
    destruct Hv as [Hv|(a' & rs & Hex & _ & _ & _ & Hs)]; [discriminate Hv|].
    inversion Hex as [? ? ? ? ? ? ? ? HP Hl|? ? ? ? ? ? ? ? ? ? HP _ Hex2]; subst;
      injection HP as <- <- <- <-; [discriminate Hl|].
    inversion Hex2 as [? ? ? ? ? ? ? ? HP Hl|? ? ? ? ? ? ? ? ? ? HP Hl _]; subst;
      injection HP as <- <- <- <-; [exact Hs|by destruct Hl].
Defined.
