(* ===== verification/UdpSession.v ===== *)
(** Retransmission, giving up, and the set-up of a session of the fastboot UDP
    transport, over the network of [UdpNet]. *)

From Stdlib Require Import Strings.String.
From S2P Require Import Prelude LibBase Socket Udp UdpNet.
Import UdpTransport.
Open Scope Z_scope.

Section retransmission.
Context {A : Type} (process : A → Z → Z → list byte → A * (Z * Z * list byte)) (W : nat).
#[local] Abbreviation run_loop := (packet_loop (H := net_socket process W)).
#[local] Abbreviation wait := (receive_matching (H := net_socket process W)).

Lemma push_head p l : (0 < W)%nat → push W p l !! 0%nat = Some p.
Proof. intros. unfold push. destruct W; [lia|done]. Qed.

(** The network when a wait has expired with [evs] left to happen. *)
Definition expired (n : net A) (evs : list event) : net A :=
  mk_net (dev n) (to_dev n) (to_host n) evs true.

Lemma wait_timeout fuel header n evs s mdl buf :
  sched n = Timeout :: evs →
  wait (S fuel) header (mk_udp (Some n) s mdl buf)
  = Ret (inl (-1), mk_udp (Some (expired n evs)) s mdl buf).
Proof.
  intros Hev. cbn [receive_matching]. unfold on_socket, socket_get. mred.
  cbn [socket_ rx_packet_ sequence_ max_data_length_ Receive net_socket]. unfold net_Receive.
  rewrite Hev. cbn [net_receive]. reflexivity.
Qed.

(** [k] waits that expire cost [k] attempts and nothing else. *)
Lemma packet_loop_timeouts k : ∀ fuel id flags s data attempts left rxl total got error n evs mdl buf,
  Z.of_nat k ≤ left → (k ≤ fuel)%nat → sched n = replicate k Timeout ++ evs →
  ∃ n', run_loop fuel (Set_ id (u16 s) flags) data attempts left rxl total got error
      (mk_udp (Some n) s mdl buf)
    = run_loop (fuel - k) (Set_ id (u16 s) flags) data attempts (left - Z.of_nat k) rxl total got error
        (mk_udp (Some n') s mdl buf) ∧
    dev n' = dev n ∧ to_host n' = to_host n ∧ sched n' = evs ∧
    to_dev n' = Nat.iter k (push W (packet id s flags data)) (to_dev n).
Proof.
  induction k as [|k IH]; intros fuel id flags s data attempts left rxl total got error n evs mdl buf
    Hk Hf Hs.
  - exists n. rewrite Nat.sub_0_r, Z.sub_0_r. done.
  - destruct fuel as [|fuel]; [lia|].
    set (p := packet id s flags data). set (evs' := replicate k Timeout ++ evs).
    rewrite (step_timeout process W fuel id flags s attempts left rxl total mdl data got error buf n)
      with (b := -1) (n2 := expired (sent_net W p n) evs') (buf2 := buf)
      by (lia || done || by apply wait_timeout).
    destruct (IH fuel id flags s data attempts (left - 1) rxl total got error
                (expired (sent_net W p n) evs') evs mdl buf)
      as (n' & -> & H1 & H2 & H3 & H4); [lia|lia|done|].
    exists n'. split_and!; try done.
    + f_equal; lia.
    + rewrite H4. cbn [to_dev expired sent_net]. by rewrite <- Nat.iter_succ_r.
Qed.

(** A packet that arrives, and whose response [r] arrives, ends the loop,
    whether the device processed the packet or repeated a response. *)
Section reply.
Context (size : Z) (HW : (0 < W)%nat) (s : Z) (id flags : Z) (data d' : list byte).
Context (Hid : 0 ≤ id < 256) (Hnerr : id ≠ kIdError).

Let p : list byte := packet id s flags data.
Let r : list byte := packet id s kFlagNone d'.
Context (Hr : zlen r ≤ size).

Definition replied (d : device A) (n : net A) (evs : list event) : net A :=
  mk_net d (to_dev n) (push W r (to_host n)) evs false.

Lemma wait_replied fuel n d evs mdl buf :
  device_receive process p (dev n) = (Some r, d) → zlen buf = size → 4 ≤ size →
  sched n = Deliver 0 :: Answer 0 :: evs →
  wait (S fuel) (Set_ id (u16 s) flags) (mk_udp (Some (sent_net W p n)) s mdl buf)
  = Ret (inl (zlen r), mk_udp (Some (replied d (sent_net W p n) evs)) s mdl
           (r ++ zdrop (zlen r) buf)).
Proof.
  intros Hdev Hbuf Hsize Hev.
  assert (4 ≤ zlen r) as Hr4 by (unfold r; rewrite zlen_packet; pose proof (zlen_nonneg d'); lia).
  cbn [receive_matching]. unfold on_socket, socket_get. mred.
  cbn [socket_ rx_packet_ sequence_ max_data_length_ Receive net_socket]. unfold net_Receive.
  cbn [sched sent_net dev to_dev to_host]. rewrite Hev, Hbuf. cbn [net_receive].
  rewrite push_head, Hdev by done. cbn [push_opt].
  rewrite push_head, ztake_all by done. unfold set_rx.
  cbn [socket_ rx_packet_ sequence_ max_data_length_].
  destruct (Z.ltb_spec (zlen r) kHeaderSize); [unfold kHeaderSize in *; lia|]. cbn [rx_packet_].
  assert (Matches (Set_ id (u16 s) flags) (overwrite buf r) = true) as ->; [|done].
  pose proof (Matches_overwrite (Set_ id (u16 s) flags) buf r size) as HM.
  rewrite ztake_all in HM by done. rewrite HM by done. apply Matches_own; [done|by left].
Qed.

Lemma packet_loop_replied fuel attempts left rxl n d evs mdl buf :
  0 < left → (0 < fuel)%nat → 0 ≤ rxl → s < INT_MAX → 4 ≤ size →
  device_receive process p (dev n) = (Some r, d) → zlen buf = size →
  sched n = Deliver 0 :: Answer 0 :: evs →
  run_loop fuel (Set_ id (u16 s) flags) data attempts left rxl 0 [] [] (mk_udp (Some n) s mdl buf)
  = Ret (mk_sent (zlen d') (ztake rxl d') [],
         mk_udp (Some (replied d (sent_net W p n) evs)) (s + 1) mdl (r ++ zdrop (zlen r) buf)).
Proof.
  intros Hleft Hfuel Hrxl Hs Hsize Hdev Hbuf Hev. destruct fuel as [|fuel]; [lia|].
  rewrite (step_response process W fuel id flags s attempts left rxl 0 mdl data [] [] buf n Hleft
             id kFlagNone d' (zdrop (zlen r) buf) (replied d (sent_net W p n) evs)); try done.
  - unfold after_response. apply Z.eqb_neq in Hnerr. rewrite Hnerr.
    change (Z.land kFlagNone kFlagContinuation =? 0) with true. cbn [negb].
    by rewrite ztake_min.
  - by apply wait_replied.
Qed.

End reply.

(** The device processes the packet it expects. *)
Section answered.
Context (size : Z) (Hwb : well_behaved process size) (HW : (0 < W)%nat).
Context (s : Z) (a a' : A) (id flags : Z) (data d' : list byte).
Context (Hid : 0 ≤ id < 256) (Hnq : id ≠ kIdDeviceQuery) (Hnerr : id ≠ kIdError) (Hfl : 0 ≤ flags < 256).
Context (HP : process a id flags data = (a', (id, kFlagNone, d'))).

Let p : list byte := packet id s flags data.
Let r : list byte := packet id s kFlagNone d'.

Definition answered (n : net A) (evs : list event) : net A :=
  replied s id d' (mk_device (u16 (s + 1)) (Some r) a') n evs.

Lemma device_receive_expected d : expected d = u16 s → app d = a →
  device_receive process p d = (Some r, mk_device (u16 (s + 1)) (Some r) a').
Proof.
  intros Hexp Happ. unfold device_receive. unfold p at 1. rewrite zlen_packet.
  pose proof (zlen_nonneg data).
  destruct (Z.ltb_spec (zlen data + 4) kHeaderSize); [unfold kHeaderSize in *; lia|].
  apply Z.eqb_neq in Hnq. unfold p. rewrite id_of_packet, Hnq, seq_of_packet, Hexp, Z.eqb_refl by done.
  rewrite Happ, flags_of_packet, data_of_packet, HP by done. rewrite u16_succ.
  unfold r, packet. by rewrite u16_u16.
Qed.

Lemma zlen_r_le : zlen r ≤ size.
Proof. unfold r. rewrite zlen_packet. apply (Hwb _ _ _ _ _ _ _ _ HP). Qed.

Lemma packet_loop_answered fuel attempts left rxl n evs mdl buf :
  0 < left → (0 < fuel)%nat → 0 ≤ rxl → s < INT_MAX → 4 ≤ size →
  expected (dev n) = u16 s → app (dev n) = a → zlen buf = size →
  sched n = Deliver 0 :: Answer 0 :: evs →
  run_loop fuel (Set_ id (u16 s) flags) data attempts left rxl 0 [] [] (mk_udp (Some n) s mdl buf)
  = Ret (mk_sent (zlen d') (ztake rxl d') [],
         mk_udp (Some (answered (sent_net W p n) evs)) (s + 1) mdl (r ++ zdrop (zlen r) buf)).
Proof.
  intros Hleft Hfuel Hrxl Hs Hsize Hexp Happ Hbuf Hev.
  apply (packet_loop_replied size); try done; [apply zlen_r_le|by apply device_receive_expected].
Qed.

End answered.

End retransmission.

(** ** A transfer in which every packet is lost some times *)

(** Events for packets that are lost [k] times each, then get through. *)
Fixpoint lossy (ks : list nat) (rest : list event) : list event :=
  match ks with
  | [] => rest
  | k :: ks => replicate k Timeout ++ Deliver 0 :: Answer 0 :: lossy ks rest
  end.

Section lossy.
Context {A : Type} (process : A → Z → Z → list byte → A * (Z * Z * list byte)) (W : nat).
Context (size mdl attempts : Z) (Hwb : well_behaved process size) (HW : (0 < W)%nat).
Context (Hsize : 4 ≤ size) (Hmdl : 0 < mdl).
(** The device acknowledges every fastboot packet. *)
Context (Hack : ∀ a flags data, ∃ a',
  process a kIdFastboot flags data = (a', (kIdFastboot, kFlagNone, []))).

Lemma SendData_lossy fuel : ∀ data ks s a n buf rest,
  length ks = length (packets_of fuel mdl kIdFastboot data) →
  Forall (fun k => Z.of_nat k < attempts) ks →
  (length data < fuel)%nat → (Z.to_nat attempts + length data < fuel)%nat →
  expected (dev n) = u16 s → app (dev n) = a → zlen buf = size →
  s + zlen ks < INT_MAX → sched n = lossy ks rest →
  ∃ n' buf', SendData_loop (H := net_socket process W) fuel kIdFastboot data 0 attempts 0 []
      (mk_udp (Some n) s mdl buf)
    = Ret (mk_sent 0 [] [], mk_udp (Some n') (s + zlen ks) mdl buf') ∧
    zlen buf' = size ∧ expected (dev n') = u16 (s + zlen ks) ∧ sched n' = rest.
Proof.
  induction fuel as [|fuel IH]; intros data ks s a n buf rest Hks HF Hf1 Hf2 Hexp Happ Hbuf Hseq Hev;
    [lia|].
  cbn [packets_of] in Hks. cbn [SendData_loop]. unfold mbind at 1, M_bind at 1, get.
  cbn [max_data_length_ sequence_].
  set (big := mdl <? zlen data) in *.
  set (len := if big then mdl else zlen data).
  set (fl := if big then kFlagContinuation else kFlagNone).
  replace (if big then (mdl, Set_ kIdFastboot (u16 s) kFlagContinuation)
           else (zlen data, Set_ kIdFastboot (u16 s) kFlagNone))
    with (len, Set_ kIdFastboot (u16 s) fl) by (unfold len, fl; by destruct big).
  assert (0 ≤ fl < 256) as Hfl by (unfold fl; by destruct big).
  destruct ks as [|k ks]; [by destruct big|]. apply Forall_cons in HF as [Hk HF].
  rewrite zlen_cons in Hseq. pose proof (zlen_nonneg ks) as Hks0.
  destruct (packet_loop_timeouts process W k (S fuel) kIdFastboot fl s (ztake len data) attempts attempts
              0 0 [] [] n (Deliver 0 :: Answer 0 :: lossy ks rest) mdl buf)
    as (n1 & E1 & H1 & H2 & H3 & H4); [lia|lia|done|].
  destruct (Hack a fl (ztake len data)) as [a' HP].
  unfold mbind at 1, M_bind at 1, SendSinglePacketHelper. rewrite E1.
  rewrite (packet_loop_answered process W size Hwb HW s a a' kIdFastboot fl (ztake len data) [])
    with (evs := lossy ks rest) by (done || lia || by rewrite H1).
  cbn [ret rx err]. change (zlen []) with 0. change (0 =? -1) with false.
  change (0 <? 0) with false. cbv beta iota. change (ztake 0 []) with (@nil byte).
  set (r := packet kIdFastboot s kFlagNone []).
  assert (zlen (r ++ zdrop (zlen r) buf) = size) as Hb'.
  { change (zlen r) with 4. rewrite zlen_app, zlen_zdrop by lia. change (zlen r) with 4. lia. }
  unfold big in *. destruct (Z.ltb_spec mdl (zlen data)) as [Hbig|Hsmall].
  - assert (0 < zlen (zdrop len data)) as Hne by (unfold len; rewrite zlen_zdrop; lia).
    destruct (Z.ltb_spec 0 (zlen (zdrop len data))); [|lia].
    assert (length (zdrop len data) < length data)%nat
      by (unfold len, zdrop; rewrite length_drop; unfold zlen in Hbig; lia).
    destruct (IH (zdrop len data) ks (s + 1) a'
                (answered W s a' kIdFastboot [] (sent_net W (packet kIdFastboot s fl (ztake len data)) n1)
                   (lossy ks rest)) (r ++ zdrop (zlen r) buf) rest)
      as (n' & buf' & E & Hb & He & Hs'); try done; try lia.
    { cbn [length] in Hks. unfold len. lia. }
    exists n', buf'. rewrite zlen_cons. replace (s + (zlen ks + 1)) with (s + 1 + zlen ks) by lia.
    done.
  - assert (zdrop len data = []) as -> by (unfold len, zdrop, zlen; apply drop_ge; lia).
    destruct ks as [|? ?]; [|done]. eexists _, _. split_and!; [reflexivity|done|done|done].
Qed.

End lossy.

Lemma packets_of_fuel max id n m data : 0 < max →
  (length data < n)%nat → (length data < m)%nat → packets_of n max id data = packets_of m max id data.
Proof.
  intros Hmax. revert m data. induction n as [|n IH]; intros m data Hn Hm; [lia|].
  destruct m as [|m]; [lia|]. cbn [packets_of]. destruct (Z.ltb_spec max (zlen data)); [|done].
  f_equal. apply IH; unfold zdrop, zlen in *; rewrite length_drop; lia.
Qed.

(** ** The query that starts a session *)
Section query.
Context {A : Type} (process : A → Z → Z → list byte → A * (Z * Z * list byte)) (W : nat).
#[local] Abbreviation run_loop := (packet_loop (H := net_socket process W)).
#[local] Abbreviation wait := (receive_matching (H := net_socket process W)).

Definition query : list byte := packet kIdDeviceQuery 0 kFlagNone [].
Definition query_response (S0 : Z) : list byte := packet kIdDeviceQuery 0 kFlagNone (be_bytes 2 S0).

(** Nothing but queries and their responses is in the network, and the device
    expects sequence number [S0]. *)
Record quiet (S0 : Z) (a : A) (n : net A) : Prop := {
  q_range : 0 ≤ S0 < 65536;
  q_expected : expected (dev n) = S0;
  q_app : app (dev n) = a;
  q_saved p : saved (dev n) = Some p → 4 ≤ zlen p ∧ seq_of p = u16 (S0 - 1);
  q_to_dev : (length (to_dev n) ≤ W)%nat ∧ Forall (fun p => p = query) (to_dev n);
  q_to_host : (length (to_host n) ≤ W)%nat ∧ Forall (fun p => p = query_response S0) (to_host n)
}.

Lemma quiet_push P p l : (length l ≤ W)%nat ∧ Forall P l → P p →
  (length (push W p l) ≤ W)%nat ∧ Forall P (push W p l).
Proof.
  intros [Hl HF] Hp. unfold push. split; [rewrite length_take; lia|].
  apply Forall_take. by constructor.
Qed.

Lemma quiet_send S0 a n : quiet S0 a n → quiet S0 a (sent_net W query n).
Proof. intros []. split; try done. by apply quiet_push. Qed.

Lemma quiet_device_receive S0 d : expected d = S0 →
  device_receive process query d = (Some (query_response S0), d).
Proof. intros <-. done. Qed.

Lemma net_receive_quiet S0 a len evs d td th res n' tmo :
  net_receive process W len evs d td th = (res, n') → quiet S0 a (mk_net d td th evs tmo) →
  quiet S0 a n' ∧ (length (sched n') ≤ length evs)%nat ∧
  match res with
  | None => True
  | Some q => q = ztake len (query_response S0) ∧ net_timed_out n' = false ∧
              (length (sched n') < length evs)%nat
  end.
Proof.
  revert d th. induction evs as [|ev evs IH]; intros d th HN Hq; cbn [net_receive] in HN.
  - injection HN as <- <-. split_and!; try done. by destruct Hq.
  - assert (∀ d' th', quiet S0 a (mk_net d' td th' (ev :: evs) tmo) →
      quiet S0 a (mk_net d' td th' evs tmo)) as Hev by (intros d' th' []; done).
    assert (∀ th', quiet S0 a (mk_net d td th' evs tmo) →
      net_receive process W len evs d td th' = (res, n') →
      quiet S0 a n' ∧ (length (sched n') ≤ S (length evs))%nat ∧
      match res with
      | None => True
      | Some q => q = ztake len (query_response S0) ∧ net_timed_out n' = false ∧
                  (length (sched n') < S (length evs))%nat
      end) as Hrec.
    { intros th' Hq' HN'. destruct (IH d th' HN' Hq') as (H1 & H2 & H3).
      split_and!; [done|lia|]. destruct res; [|done]. destruct H3 as (?&?&?). split_and!; try done. lia. }
    destruct ev as [k|k| |].
    + destruct (td !! k) as [p|] eqn:Hk; [|by apply (Hrec th); [apply Hev|]].
      assert (p = query) as -> by (eapply Forall_lookup_1 in Hk; [exact Hk|apply (q_to_dev _ _ _ Hq)]).
      rewrite (quiet_device_receive S0) in HN by (apply (q_expected _ _ _ Hq)).
      apply (Hrec _) in HN; [done|]. apply Hev. destruct Hq. split; try done. by apply quiet_push.
    + destruct (th !! k) as [p|] eqn:Hk; [|by apply (Hrec th); [apply Hev|]].
      injection HN as <- <-. cbn [sched net_timed_out length].
      assert (p = query_response S0) as -> by (eapply Forall_lookup_1 in Hk; [exact Hk|apply (q_to_host _ _ _ Hq)]).
      split_and!; try done; [by destruct Hq|lia|lia].
    + injection HN as <- <-. cbn [sched length]. split_and!; try done; [by destruct Hq|lia].
    + injection HN as <- <-. cbn [sched length]. split_and!; try done; [by destruct Hq|lia].
Qed.

Lemma wait_quiet fuel S0 a s mdl buf n : zlen buf = kMinPacketSize → quiet S0 a n →
  ∃ res n' buf', wait (Datatypes.S fuel) (Set_ kIdDeviceQuery (u16 0) kFlagNone)
      (mk_udp (Some n) s mdl buf) = Ret (res, mk_udp (Some n') s mdl buf') ∧
    zlen buf' = kMinPacketSize ∧ quiet S0 a n' ∧ (length (sched n') ≤ length (sched n))%nat ∧
    match res with
    | inr _ => True
    | inl b => net_timed_out n' = true ∧ buf' = buf ∨
        net_timed_out n' = false ∧ b = zlen (query_response S0) ∧ ∃ tl, buf' = query_response S0 ++ tl
    end.
Proof.
  intros Hbuf Hq. cbn [receive_matching]. unfold on_socket, socket_get. mred.
  cbn [socket_ rx_packet_ sequence_ max_data_length_ Receive net_socket]. unfold net_Receive.
  rewrite Hbuf.
  destruct (net_receive process W kMinPacketSize (sched n) (dev n) (to_dev n) (to_host n))
    as [res n'] eqn:HN.
  destruct (net_receive_quiet S0 a _ _ _ _ _ _ _ false HN) as (Hq' & Hlen & Hres); [by destruct Hq|].
  cbn beta iota. destruct res as [q|].
  - destruct Hres as (-> & Hto & _). rewrite ztake_all by (vm_compute; congruence).
    unfold set_rx. cbn [socket_ rx_packet_ sequence_ max_data_length_].
    change (zlen (query_response S0) <? kHeaderSize) with false. cbv iota. cbn [rx_packet_].
    pose proof (Matches_overwrite (Set_ kIdDeviceQuery (u16 0) kFlagNone) buf (query_response S0)
                  kMinPacketSize) as HM.
    rewrite ztake_all in HM by (vm_compute; congruence). rewrite HM by (vm_compute; congruence).
    unfold query_response at 1.
    rewrite (Matches_own kIdDeviceQuery 0 kFlagNone) by (done || by left).
    mred. eexists _, n', _. split_and!; [reflexivity| |done|done|right].
    + rewrite zlen_overwrite; [done|]. rewrite Hbuf. vm_compute. congruence.
    + split_and!; [done|done|by eexists].
  - unfold on_socket. mred.
    cbn [socket_ sequence_ max_data_length_ rx_packet_ ReceiveTimedOut GetErrorMessage net_socket].
    destruct (net_timed_out n') eqn:Hto.
    + eexists (inl (-1)), n', buf. split_and!; [reflexivity|done|done|done|by left].
    + eexists (inr _), n', buf. split_and!; [reflexivity|done|done|done|done].
Qed.

(** The loop for the query packet: it fails or gives the device's number. *)
Lemma query_loop S0 a mdl attempts : ∀ fuel left buf n,
  zlen buf = kMinPacketSize → quiet S0 a n → 0 ≤ left → (Z.to_nat left < fuel)%nat →
  ∃ res n' s' buf', run_loop fuel (Set_ kIdDeviceQuery (u16 0) kFlagNone) [] attempts left 4 0 [] []
      (mk_udp (Some n) 0 mdl buf) = Ret (res, mk_udp (Some n') s' mdl buf') ∧
    zlen buf' = kMinPacketSize ∧ quiet S0 a n' ∧ (length (sched n') ≤ length (sched n))%nat ∧
    (ret res = -1 ∨ ret res = 2 ∧ rx res = be_bytes 2 S0).
Proof.
  induction fuel as [|fuel IH]; intros left buf n Hbuf Hq Hleft Hfuel; [lia|].
  destruct (Z.ltb_spec 0 left) as [Hpos|Hzero].
  2: { cbn [packet_loop]. destruct (Z.ltb_spec 0 left); [lia|].
       eexists _, n, 0, buf. split_and!; [reflexivity|done|done|lia|by left]. }
  destruct (wait_quiet fuel S0 a 0 mdl buf (sent_net W query n) Hbuf (quiet_send _ _ _ Hq))
    as (r & n2 & buf2 & HR & Hbuf2 & Hq2 & Hlen2 & Hr). cbn [sched sent_net] in Hlen2.
  destruct r as [b|e].
  - destruct Hr as [[Hto ->]|(Hto & -> & tl & ->)].
    + rewrite (step_timeout process W fuel kIdDeviceQuery kFlagNone 0 attempts left 4 0 mdl [] [] [] buf n)
        with (b := b) (n2 := n2) (buf2 := buf) by done.
      destruct (IH (left - 1) buf n2) as (res & n' & s' & buf' & E & H1 & H2 & H3 & H4); [done|done|lia|lia|].
      exists res, n', s', buf'. split_and!; try done. lia.
    + rewrite (step_response process W fuel kIdDeviceQuery kFlagNone 0 attempts left 4 0 mdl [] [] [] buf n
                 Hpos kIdDeviceQuery kFlagNone (be_bytes 2 S0) tl n2) by done.
      eexists _, n2, _, _. split_and!; [reflexivity|done|done|done|right]. split; reflexivity.
  - rewrite (step_failed process W fuel kIdDeviceQuery kFlagNone 0 attempts left 4 0 mdl [] [] [] buf n Hpos
               e _ HR).
    eexists _, n2, 0, buf2. split_and!; [reflexivity|done|done|done|by left].
Qed.

Lemma quiet_idle S0 a n : quiet S0 a n → idle W S0 a n.
Proof.
  intros [H1 H2 H3 H4 [H5 H6] [H7 H8]]. split; try done.
  - rewrite H2. symmetry. apply u16_small. change (2 ^ 16) with 65536. done.
  - split; [done|]. intros i p Hp. eapply Forall_lookup_1 in H6; [|exact Hp]. subst p.
    split; [done|by left].
  - split; [done|]. intros i p Hp. eapply Forall_lookup_1 in H8; [|exact Hp]. subst p.
    split; [done|by left].
Qed.

Lemma ExtractUint16_be S0 : 0 ≤ S0 < 65536 → ExtractUint16 (be_bytes 2 S0) = S0.
Proof.
  intros. change (be_bytes 2 S0) with [z2b (S0 / 256); z2b S0]. rewrite extract16, !b2z_z2b.
  rewrite (Z.mod_small (S0 / 256)).
  - pose proof (Z.div_mod S0 256 ltac:(lia)). lia.
  - split; [apply Z.div_pos; lia|apply Z.div_lt_upper_bound; lia].
Qed.

Definition init_data : list byte := [x00; x01; x20; x00].

Lemma zlen_vec_resize n buf : 0 ≤ n → zlen (vec_resize n buf) = n.
Proof.
  intros. unfold vec_resize. rewrite zlen_app. unfold zlen, ztake, zeros.
  rewrite length_take, length_replicate. unfold zlen. lia.
Qed.

Lemma query_spec S0 a n fuel :
  quiet S0 a n → (Z.to_nat kMaxConnectAttempts < fuel)%nat →
  ∃ res n' s' buf',
    SendData (H := net_socket process W) fuel kIdDeviceQuery [] 4 kMaxConnectAttempts
      (mk_udp (Some n) 0 508 (zeros 512)) = Ret (res, mk_udp (Some n') s' 508 buf') ∧
    zlen buf' = kMinPacketSize ∧ quiet S0 a n' ∧ (length (sched n') ≤ length (sched n))%nat ∧
    (ret res = -1 ∨ ret res = 2 ∧ rx res = be_bytes 2 S0).
Proof.
  intros Hq Hf. destruct fuel as [|fuel]; [lia|].
  destruct (query_loop S0 a 508 kMaxConnectAttempts (S fuel) kMaxConnectAttempts (zeros 512) n)
    as (res & n' & s' & buf' & E & H1 & H2 & H3 & H4); try done.
  unfold SendData. cbn [socket_ SendData_loop]. unfold mbind at 1, M_bind at 1, get.
  cbn [max_data_length_ sequence_]. change (508 <? zlen []) with false. cbv iota.
  unfold mbind at 1, M_bind at 1, SendSinglePacketHelper.
  change (ztake (zlen []) []) with (@nil byte). rewrite E. cbv beta iota.
  destruct H4 as [Hr|[Hr Hx]]; rewrite Hr.
  - eexists _, n', s', buf'. split_and!; [reflexivity|done|done|done|by left].
  - eexists _, n', s', buf'. split_and!; [reflexivity|done|done|done|right]. cbn [rx]. by rewrite Hx.
Qed.

Section initialize.
Context (Hwb : well_behaved process kMinPacketSize) (HW : Z.of_nat W ≤ 65534).

(** The packet size both ends use from now on. *)
Definition negotiated (rs : list (Z * list byte)) : Z :=
  Z.min kHostMaxPacketSize (ExtractUint16 (zdrop 2 (ztake 4 (payloads rs)))).

Lemma InitializeProtocol_spec S0 a n fuel :
  quiet S0 a n → S0 + zlen (sched n) < INT_MAX →
  (length (sched n) * 121 + 126 ≤ fuel)%nat →
  ∃ e t', InitializeProtocol (H := net_socket process W) fuel (mk_udp (Some n) (-1) 508 [])
      = Ret (e, t') ∧
    (e = None → ∃ a' rs,
       exchange process a kIdInitialization kFlagNone init_data a' rs ∧
       1 ≤ ExtractUint16 (payloads rs) ∧
       512 ≤ negotiated rs ≤ 8192 ∧ session W (negotiated rs) (negotiated rs - 4) a' t').
Proof.
  intros Hq Hseq Hfuel. unfold InitializeProtocol, set_seq, set_rx, modify.
  unfold mbind at 1, M_bind at 1. cbn [socket_ sequence_ max_data_length_ rx_packet_].
  change (vec_resize kMinPacketSize []) with (zeros 512).
  destruct (query_spec S0 a n fuel Hq) as (q & n1 & s1 & buf1 & E1 & Hb1 & Hq1 & Hl1 & Hr1).
  { change (Z.to_nat kMaxConnectAttempts) with 4%nat. lia. }
  unfold mbind at 1, M_bind at 1. rewrite E1. cbv beta iota.
  destruct Hr1 as [Hr|[Hr Hx]]; rewrite Hr; [by eexists _, _; split; [reflexivity|]|].
  change (2 =? -1) with false. change (2 <? 2) with false. cbv iota.
  unfold mbind at 1, M_bind at 1. cbn [socket_ sequence_ max_data_length_ rx_packet_].
  pose proof (q_range _ _ _ Hq1) as Hrange. rewrite Hx, ExtractUint16_be by done.
  destruct (SendData_spec process W kMinPacketSize Hwb HW 508 kMaxTransmissionAttempts kIdInitialization
              fuel a init_data 4 (mk_udp (Some n1) S0 508 buf1)) as (r & t2 & E2 & Hr2); try done.
  { exists n1, S0, buf1. split_and!; [done|done|by apply quiet_idle]. }
  { unfold remaining. cbn [socket_ sequence_]. unfold zlen in Hseq. lia. }
  { unfold enough_fuel, remaining. cbn [socket_].
    change (Z.to_nat kMaxTransmissionAttempts) with 120%nat. change (length init_data) with 4%nat. lia. }
  unfold mbind at 1, M_bind at 1.
  change [z2b (Z.shiftr kProtocolVersion 8); z2b (Z.land kProtocolVersion 255);
          z2b (Z.shiftr kHostMaxPacketSize 8); z2b (Z.land kHostMaxPacketSize 255)] with init_data.
  rewrite E2. cbv beta iota zeta.
  destruct Hr2 as [Hr2|(a' & rs & Hses & Hdl & HF & Hsq & Hret & Hrx)];
    [rewrite Hr2; by eexists _, _; split; [reflexivity|]|].
  pose proof (zlen_nonneg (payloads rs)).
  destruct (Z.eqb_spec (ret r) (-1)); [lia|].
  destruct (Z.ltb_spec (ret r) 4); [by eexists _, _; split; [reflexivity|]|].
  rewrite Hrx. destruct (Z.ltb_spec (ExtractUint16 (ztake 4 (payloads rs))) kProtocolVersion);
    [by eexists _, _; split; [reflexivity|]|].
  destruct (Z.ltb_spec (ExtractUint16 (zdrop 2 (ztake 4 (payloads rs)))) kMinPacketSize);
    [by eexists _, _; split; [reflexivity|]|].
  eexists _, _. split; [reflexivity|]. intros _. exists a', rs.
  destruct Hses as (n2 & s2 & buf2 & -> & Hb2 & Hi2).
  unfold kMinPacketSize, kHostMaxPacketSize, kProtocolVersion in *.
  split_and!.
  - inversion Hdl as [? ? ? ? ? _ Hex|? ? ? ? ? ? ? Hbig]; subst; [done|by vm_compute in Hbig].
  - unfold ExtractUint16 in *. rewrite !at_ztake in * by lia. lia.
  - unfold negotiated, kHostMaxPacketSize. lia.
  - unfold negotiated, kHostMaxPacketSize. lia.
  - eexists n2, s2, _. split_and!; [reflexivity| |done]. apply zlen_vec_resize.
    unfold negotiated, kHostMaxPacketSize. lia.
Qed.

End initialize.
End query.

(** * Claims *)

(** C20: retransmission overcomes losses.  When every packet of a transfer (or
    its wait) is lost up to 119 times before it and its response get through,
    [Write] succeeds: it returns the length and has consumed exactly those
    events. *)
Theorem udp_write_retransmits {A} process W size mdl fuel (a : A) data ks rest n s buf :
  well_behaved process size → (0 < W)%nat → 4 ≤ size → 0 < mdl →
  (∀ a flags data, ∃ a', process a kIdFastboot flags data = (a', (kIdFastboot, kFlagNone, []))) →
  expected (dev n) = u16 s → app (dev n) = a → zlen buf = size →
  length ks = length (packets_of (S (length data)) mdl kIdFastboot data) →
  Forall (fun k => (k < 120)%nat) ks →
  sched n = lossy ks rest → s + zlen ks < INT_MAX → (120 + length data < fuel)%nat →
  ∃ n' buf', Write (H := net_socket process W) fuel data (mk_udp (Some n) s mdl buf)
    = Ret (zlen data, mk_udp (Some n') (s + zlen ks) mdl buf') ∧ sched n' = rest.
Proof.
  intros Hwb HW Hsize Hmdl Hack Hexp Happ Hbuf Hks HF Hev Hseq Hfuel.
  rewrite (packets_of_fuel mdl kIdFastboot _ fuel) in Hks by lia.
  destruct (SendData_lossy process W size mdl kMaxTransmissionAttempts Hwb HW Hsize Hmdl Hack fuel data ks s
              a n buf rest) as (n' & buf' & E & _ & _ & Hs); try done.
  - eapply Forall_impl; [exact HF|]. intros k Hk. cbv beta in Hk |- *. change kMaxTransmissionAttempts with 120. lia.
  - lia.
  - exists n', buf'. split; [|done]. unfold Write, SendData, mbind, M_bind. cbn [socket_].
    rewrite E. reflexivity.
Qed.

Lemma udp_write_retransmits_witness :
  let n := mk_net (mk_device 65535 None []) [] [] (lossy [2; 0; 1]%nat [Fail]) false in
  ∃ n' buf', Write (H := net_socket log_process 100) 200 (bs "hello bytes") (mk_udp (Some n) 65535 4 (zeros 8))
    = Ret (11, mk_udp (Some n') 65538 4 buf') ∧ sched n' = [Fail].
Proof.
  intros n.
  apply (udp_write_retransmits log_process 100 8 4 200 [] (bs "hello bytes") [2; 0; 1]%nat [Fail] n 65535
           (zeros 8)).
  - apply log_well_behaved. lia.
  - lia.
  - lia.
  - lia.
  - intros a flags data. eexists. reflexivity.
  - reflexivity.
  - reflexivity.
  - reflexivity.
  - reflexivity.
  - repeat constructor; lia.
  - reflexivity.
  - vm_compute. reflexivity.
  - apply Nat.ltb_lt. vm_compute. reflexivity.
Defined.

(** A packet without an answer is sent exactly as often as the caller
    allows.  When every wait expires, the helper returns -1 with "no response
    from target" after [attempts] transmissions of the same packet, and leaves
    the sequence number as it was. *)
Theorem udp_gives_up {A} process W fuel (n : net A) id flags s data rxl (attempts : nat) rest mdl buf :
  sched n = replicate attempts Timeout ++ rest → (attempts ≤ fuel)%nat →
  ∃ n', SendSinglePacketHelper (H := net_socket process W) fuel (Set_ id (u16 s) flags) data rxl
      (Z.of_nat attempts) (mk_udp (Some n) s mdl buf)
    = Ret (mk_sent (-1) [] (bs "no response from target"), mk_udp (Some n') s mdl buf) ∧
    to_dev n' = Nat.iter attempts (push W (packet id s flags data)) (to_dev n) ∧
    dev n' = dev n ∧ sched n' = rest.
Proof.
  intros Hev Hf.
  destruct (packet_loop_timeouts process W attempts fuel id flags s data (Z.of_nat attempts)
              (Z.of_nat attempts) rxl 0 [] [] n rest mdl buf) as (n' & E & H1 & H2 & H3 & H4); [lia|done|done|].
  exists n'. split_and!; try done. unfold SendSinglePacketHelper. rewrite E, Z.sub_diag.
  by destruct (fuel - attempts)%nat.
Qed.

Lemma udp_gives_up_witness :
  let n := mk_net (mk_device 7 None []) [] [] (replicate 4 Timeout ++ [Fail]) false in
  ∃ n', SendSinglePacketHelper (H := net_socket log_process 100) 10 (Set_ kIdFastboot 7 0) (bs "x") 0 4
      (mk_udp (Some n) 7 4 (zeros 8))
    = Ret (mk_sent (-1) [] (bs "no response from target"), mk_udp (Some n') 7 4 (zeros 8)) ∧
    to_dev n' = replicate 4 (packet kIdFastboot 7 0 (bs "x")) ∧ dev n' = mk_device 7 None [] ∧
    sched n' = [Fail].
Proof.
  intros n.
  apply (udp_gives_up log_process 100 10 n kIdFastboot 0 7 (bs "x") 0 4 [Fail] 4 (zeros 8)).
  - reflexivity.
  - lia.
Defined.

(** C21: the set-up of a session synchronises both ends.  On a network that holds
    nothing but queries, whatever the schedule does, [InitializeProtocol]
    returns; and when it reports success the device has processed exactly one
    initialization packet, it reported version 1 or later and a packet size of at
    least 512, the host uses the smaller of that size and 8192, and the host's
    sequence number is the one the device expects. *)
Theorem udp_initialize_synchronises {A} process W S0 (a : A) n fuel :
  well_behaved process kMinPacketSize → Z.of_nat W ≤ 65534 →
  quiet W S0 a n → S0 + zlen (sched n) < INT_MAX → (length (sched n) * 121 + 126 ≤ fuel)%nat →
  ∃ e t', InitializeProtocol (H := net_socket process W) fuel (mk_udp (Some n) (-1) 508 [])
      = Ret (e, t') ∧
    (e = None → ∃ a' rs,
       exchange process a kIdInitialization kFlagNone init_data a' rs ∧
       1 ≤ ExtractUint16 (payloads rs) ∧
       512 ≤ negotiated rs ≤ 8192 ∧ session W (negotiated rs) (negotiated rs - 4) a' t').
Proof. intros. by eapply InitializeProtocol_spec. Qed.

(** A device that supports version 1 and packets of 1024 bytes. *)
Definition init_process (k : nat) (id flags : Z) (data : list byte) : nat * (Z * Z * list byte) :=
  (S k, (id, kFlagNone, [x00; x01; x04; x00])).

Lemma udp_initialize_synchronises_witness :
  let n := mk_net (mk_device 21930 None 0%nat) [] []
             [Timeout; Deliver 0; Deliver 1; Answer 0; Deliver 2; Answer 1; Timeout; Deliver 0; Answer 0]
             false in
  ∃ t', InitializeProtocol (H := net_socket init_process 100) 2000 (mk_udp (Some n) (-1) 508 [])
      = Ret (None, t') ∧
    ∃ a' rs, exchange init_process 0%nat kIdInitialization kFlagNone init_data a' rs ∧
      session 100 (negotiated rs) (negotiated rs - 4) a' t'.
Proof.
  intros n.
  destruct (udp_initialize_synchronises init_process 100 21930 0%nat n 2000) as (e & t' & E & Hpost).
  - intros k id flags data k' id' flags' data' [= <- <- <- <-].
    split; [by left|]. split; [done|vm_compute; congruence].
  - lia.
  - split; try done; (split; [apply Nat.le_0_l|apply Forall_nil; exact I]).
  - vm_compute. reflexivity.
  - apply Nat.leb_le. vm_compute. reflexivity.
  - assert (match InitializeProtocol (H := net_socket init_process 100) 2000 (mk_udp (Some n) (-1) 508 [])
            with Ret (e, _) => e = None | _ => False end) as Hc by (vm_compute; reflexivity).
    rewrite E in Hc. subst e. exists t'. split; [exact E|].
    destruct (Hpost eq_refl) as (a' & rs & H1 & _ & _ & H2). exists a', rs. split; [exact H1|exact H2].
Defined.

(** *** Writing after a failure *)
Section after_failure.
Context {A : Type} (process : A → Z → Z → list byte → A * (Z * Z * list byte)) (W : nat).
Context (HW : (0 < W)%nat).

(** The device takes whatever carries the number before the one it expects for
    a repetition. *)
Lemma device_receive_repeated id s flags data d :
  0 ≤ id < 256 → id ≠ kIdDeviceQuery → expected d = u16 (s + 1) →
  device_receive process (packet id s flags data) d = (saved d, d).
Proof.
  intros Hid Hnq Hexp. unfold device_receive. rewrite zlen_packet. pose proof (zlen_nonneg data).
  destruct (Z.ltb_spec (zlen data + 4) kHeaderSize); [unfold kHeaderSize in *; lia|].
  apply Z.eqb_neq in Hnq. rewrite id_of_packet, Hnq, seq_of_packet, Hexp by done.
  rewrite (proj2 (Z.eqb_neq (u16 s) (u16 (s + 1)))) by (apply u16_neq; lia).
  rewrite u16_pred. replace (s + 1 - 1) with s by lia. by rewrite Z.eqb_refl.
Qed.

(** A wait in which the packet arrives and its response is lost. *)
Lemma wait_delivered_only fuel header p r d n evs s mdl buf :
  device_receive process p (dev n) = (r, d) → sched n = Deliver 0 :: Timeout :: evs →
  receive_matching (H := net_socket process W) (S fuel) header
    (mk_udp (Some (sent_net W p n)) s mdl buf)
  = Ret (inl (-1), mk_udp (Some (mk_net d (push W p (to_dev n)) (push_opt W r (to_host n)) evs true))
                     s mdl buf).
Proof.
  intros Hdev Hev. cbn [receive_matching]. unfold on_socket, socket_get. mred.
  cbn [socket_ rx_packet_ sequence_ max_data_length_ Receive net_socket]. unfold net_Receive.
  cbn [sched sent_net dev to_dev to_host]. rewrite Hev. cbn [net_receive].
  rewrite push_head, Hdev by done. reflexivity.
Qed.

(** A packet that is processed and whose responses are all lost: the host gives
    up with the sequence number it had. *)
Lemma packet_loop_unanswered id flags s data r d k fuel attempts rxl n evs mdl buf :
  device_receive process (packet id s flags data) (dev n) = (r, d) →
  sched n = Deliver 0 :: replicate (S k) Timeout ++ evs → (S k < fuel)%nat →
  ∃ n', packet_loop (H := net_socket process W) fuel (Set_ id (u16 s) flags) data attempts
          (Z.of_nat (S k)) rxl 0 [] [] (mk_udp (Some n) s mdl buf)
      = Ret (mk_sent (-1) [] (bs "no response from target"), mk_udp (Some n') s mdl buf) ∧
    dev n' = d ∧ sched n' = evs.
Proof.
  intros Hdev Hev Hf. destruct fuel as [|fuel]; [lia|]. set (p := packet id s flags data) in *.
  set (n1 := mk_net d (push W p (to_dev n)) (push_opt W r (to_host n))
               (replicate k Timeout ++ evs) true).
  rewrite (step_timeout process W fuel id flags s attempts (Z.of_nat (S k)) rxl 0 mdl data [] [] buf n)
    with (b := -1) (n2 := n1) (buf2 := buf); [|lia|by eapply wait_delivered_only|done].
  destruct (packet_loop_timeouts process W k fuel id flags s data attempts (Z.of_nat (S k) - 1) rxl 0
              [] [] n1 evs mdl buf) as (n' & -> & H1 & _ & H3 & _); [lia|lia|done|].
  exists n'. replace (Z.of_nat (S k) - 1 - Z.of_nat k) with 0 by lia.
  split_and!; [|done|done]. by destruct (fuel - k)%nat.
Qed.

(** One packet is enough for data of at most the negotiated length. *)
Lemma Write_one_packet fuel data n s mdl buf :
  zlen data ≤ mdl →
  Write (H := net_socket process W) (S fuel) data (mk_udp (Some n) s mdl buf) =
  match packet_loop (H := net_socket process W) (S fuel) (Set_ kIdFastboot (u16 s) kFlagNone) data
          kMaxTransmissionAttempts kMaxTransmissionAttempts 0 0 [] [] (mk_udp (Some n) s mdl buf) with
  | Ret (r, t) => Ret (if ret r =? -1 then -1 else if 0 <? ret r then -1 else zlen data, t)
  | AssertFail => AssertFail
  | OutOfFuel => OutOfFuel
  end.
Proof.
  intros Hlen. unfold Write, SendData. mred. cbn [socket_ SendData_loop]. mred.
  cbn [max_data_length_ sequence_]. destruct (Z.ltb_spec mdl (zlen data)); [lia|].
  unfold SendSinglePacketHelper. rewrite ztake_all by lia.
  destruct (packet_loop _ _ _ _ _ _ _ _ _ _) as [[r t]| |]; try done. mred.
  assert (zdrop (zlen data) data = []) as -> by (unfold zdrop, zlen; apply drop_ge; lia).
  change (0 <? zlen []) with false. destruct (Z.eqb_spec (ret r) (-1)) as [E|E]; mred; [done|].
  cbn [ret]. rewrite Z.add_0_l, (proj2 (Z.eqb_neq _ _) E). by destruct (0 <? ret r).
Qed.
End after_failure.

(** C32: after a [Write] has failed for want of a response the transport stays
    open with the old sequence number, and the next [Write] can report success
    for data the device never processed.  For every device application that
    acknowledges the first packet, every session in step and all data of at most
    one packet: when the device processes the first packet and each of its
    responses is lost, [Write] gives up after its 120 attempts; when the next
    [Write] is then delivered and answered, the device takes its packet for a
    repetition and repeats the old acknowledgement, so that this [Write] returns
    the length of its data while the application is where the first one left
    it. *)
Theorem udp_write_after_failure_not_delivered {A} process W size mdl fuel (a a' : A)
    data1 data2 n s buf rest :
  (0 < W)%nat → 4 ≤ size → zlen buf = size → s < INT_MAX →
  zlen data1 ≤ mdl → zlen data2 ≤ mdl →
  process a kIdFastboot kFlagNone data1 = (a', (kIdFastboot, kFlagNone, [])) →
  expected (dev n) = u16 s → app (dev n) = a →
  sched n = Deliver 0 :: replicate 120 Timeout ++ Deliver 0 :: Answer 0 :: rest →
  (121 ≤ fuel)%nat →
  ∃ t1 t2 n2,
    Write (H := net_socket process W) fuel data1 (mk_udp (Some n) s mdl buf) = Ret (-1, t1) ∧
    sequence_ t1 = s ∧
    Write (H := net_socket process W) fuel data2 t1 = Ret (zlen data2, t2) ∧
    socket_ t2 = Some n2 ∧ app (dev n2) = a' ∧ expected (dev n2) = u16 (s + 1).
Proof.
  intros HW Hsize Hbuf Hs Hd1 Hd2 HP Hexp Happ Hev Hf. destruct fuel as [|fuel]; [lia|].
  pose proof (device_receive_expected process W HW s a a' kIdFastboot kFlagNone data1 []
    ltac:(done) ltac:(done) ltac:(done) HP (dev n) Hexp Happ) as Hdev.
  destruct (packet_loop_unanswered process W HW kIdFastboot kFlagNone s data1 _ _ 119 (S fuel)
    kMaxTransmissionAttempts 0 n (Deliver 0 :: Answer 0 :: rest) mdl buf Hdev Hev ltac:(lia))
    as (n1 & E1 & Hn1 & Hs1).
  change (Z.of_nat 120) with kMaxTransmissionAttempts in E1.
  rewrite Write_one_packet, E1 by done. eexists _, _, _. split; [reflexivity|]. split; [done|].
  rewrite Write_one_packet by done.
  rewrite (packet_loop_replied process W size HW s kIdFastboot kFlagNone data2 [] ltac:(done) ltac:(done)
    ltac:(change (4 ≤ size); lia) (S fuel) kMaxTransmissionAttempts kMaxTransmissionAttempts 0 n1 (dev n1) rest mdl buf);
    try done; try lia.
  - split; [reflexivity|]. split; [reflexivity|]. cbn [dev replied]. by rewrite Hn1.
  - rewrite (device_receive_repeated process W HW); [by rewrite Hn1|done|done|by rewrite Hn1].
Qed.

Lemma udp_write_after_failure_not_delivered_witness :
  let n := mk_net (mk_device 0 None []) [] []
             (Deliver 0 :: replicate 120 Timeout ++ [Deliver 0; Answer 0]) false in
  ∃ t1 t2 n2,
    Write (H := net_socket log_process 1000) 300 (bs "A") (mk_udp (Some n) 0 508 (zeros 512))
      = Ret (-1, t1) ∧ sequence_ t1 = 0 ∧
    Write (H := net_socket log_process 1000) 300 (bs "B") t1 = Ret (1, t2) ∧
    socket_ t2 = Some n2 ∧ app (dev n2) = [(kIdFastboot, kFlagNone, bs "A")] ∧ expected (dev n2) = 1.
Proof.
  intros n.
  apply (udp_write_after_failure_not_delivered log_process 1000 512 508 300 [] _ (bs "A") (bs "B") n 0
    (zeros 512) []); try done; try lia.
Defined.
