(* ===== verification/AdbIo.v ===== *)
(** Exact reads and writes on file descriptors and the length-prefixed strings
    of the adb host protocol (packages/modules/adb/adb_io.cpp, with [adb_read]
    and [adb_write] of sysdeps.h).

    [AdbFd] is the interface of the system calls, [errno] is part of the state.
    [StreamFd] states what POSIX promises about a blocking byte stream: calls
    are cut short, interrupted or (for writes) refused with [EAGAIN], but not
    for ever.  [pipe_stream] is an executable instance of it. *)

From Stdlib Require Import Strings.String.
From S2P Require Import Prelude LibBase.
Open Scope Z_scope.

Definition EINTR : Z := 4.
Definition EPIPE : Z := 32.
Definition EMSGSIZE : Z := 90.
Definition MAX_PAYLOAD : Z := 1024 * 1024.

(** ** System calls: the result, the value of [errno] on failure and, for
    [read], the bytes stored. *)
Class AdbFd (S : Type) := {
  sys_read : Z → S → Z * Z * list byte * S;
  sys_write : list byte → S → Z * Z * S;
  sys_shutdown : S → S
}.

Record io (S : Type) : Type := mk_io { io_fd : S; io_errno : Z }.
Arguments mk_io {S} _ _.
Arguments io_fd {S} _.
Arguments io_errno {S} _.

Definition set_errno {S} (e : Z) : M (io S) unit := modify (fun s => mk_io (io_fd s) e).

(** [strtoul(s, nullptr, base)]; a minus sign negates the value modulo 2^64. *)
Definition strtoul (s : list byte) (base : Z) : Z :=
  match skip_space s with
  | b :: s' =>
      if b2z b =? 45 then
        match s' with
        | c :: _ =>
            if isspace c || (b2z c =? 43) || (b2z c =? 45) then 0
            else let r := strtoull s' base in
                 if st_erange r then ULLONG_MAX else u64 (- st_val r)
        | [] => 0
        end
      else st_val (strtoull s base)
  | [] => 0
  end.

(** [%04x] of an unsigned 32-bit value. *)
Definition fmt_04x (z : Z) : list byte := pad_left 4 (z2b 48) (show_base 8 16 z []).

(** [std::string::resize] throws above [max_size()] or when the memory cannot be
    had; nothing catches it. *)
Definition string_limit : Z := 2 ^ 62.

Section adb_io.
Context {S : Type} `{AdbFd S}.

(** [TEMP_FAILURE_RETRY(read(fd, buf, len))] *)
Fixpoint adb_read (fuel : nat) (len : Z) : M (io S) (Z * list byte) := fun s =>
  match fuel with
  | O => OutOfFuel
  | Datatypes.S fuel =>
      let '(r, e, l, w) := sys_read len (io_fd s) in
      let s := mk_io w (if r =? -1 then e else io_errno s) in
      if (r =? -1) && (io_errno s =? EINTR) then adb_read fuel len s else Ret ((i32 r, l), s)
  end.

Fixpoint adb_write (fuel : nat) (buf : list byte) : M (io S) Z := fun s =>
  match fuel with
  | O => OutOfFuel
  | Datatypes.S fuel =>
      let '(r, e, w) := sys_write buf (io_fd s) in
      let s := mk_io w (if r =? -1 then e else io_errno s) in
      if (r =? -1) && (io_errno s =? EINTR) then adb_write fuel buf s else Ret (i32 r, s)
  end.

(** [ReadFdExactly]: the result and the bytes that were stored in the buffer. *)
Fixpoint ReadFdExactly_loop (fuel : nat) (len : Z) (got : list byte)
    : M (io S) (bool * list byte) :=
  if 0 <? len then
    match fuel with
    | O => out_of_fuel
    | Datatypes.S fuel =>
        '(r, l) ← adb_read fuel len;
        if 0 <? r then ReadFdExactly_loop fuel (len - r) (got ++ l)
        else if r =? -1 then mret (false, got)
        else set_errno 0;; mret (false, got)
    end
  else mret (true, got).

Definition ReadFdExactly (fuel : nat) (len : Z) : M (io S) (bool * list byte) :=
  ReadFdExactly_loop fuel len [].

Fixpoint WriteFdExactly (fuel : nat) (buf : list byte) : M (io S) bool :=
  if 0 <? zlen buf then
    match fuel with
    | O => out_of_fuel
    | Datatypes.S fuel =>
        r ← adb_write fuel buf;
        if r =? -1 then
          s ← get;
          if io_errno s =? EAGAIN then WriteFdExactly fuel buf
          else if io_errno s =? EPIPE then set_errno 0;; mret false
          else mret false
        else WriteFdExactly fuel (zdrop r buf)
    end
  else mret true.

Definition SendProtocolString (fuel : nat) (s : list byte) : M (io S) bool :=
  let length := u32 (zlen s) in
  if MAX_PAYLOAD - 4 <? length then set_errno EMSGSIZE;; mret false
  else WriteFdExactly fuel (fmt_04x length ++ s).

Definition SendOkay (fuel : nat) : M (io S) bool := WriteFdExactly fuel (bs "OKAY").

Definition SendFail (fuel : nat) (reason : list byte) : M (io S) bool :=
  ok ← WriteFdExactly fuel (bs "FAIL");
  if ok : bool then SendProtocolString fuel reason else mret false.

Variable strerror : Z → list byte.

Definition perror_str (msg : string) : M (io S) (list byte) := fun s =>
  Ret (bs msg ++ bs ": " ++ strerror (io_errno s), s).

(** [ReadProtocolString]: the result, [*s] ([None] when it is not touched) and
    [*error] ([None] when it is not touched). *)
Definition ReadProtocolString (fuel : nat)
    : M (io S) (bool * option (list byte) * option (list byte)) :=
  '(ok, buf) ← ReadFdExactly fuel 4;
  if negb ok then
    e ← perror_str "protocol fault (couldn't read status length)";
    mret (false, None, Some e)
  else
    let len := strtoul (c_str buf) 16 in
    m_assert (len <? string_limit);;
    '(ok, l) ← ReadFdExactly fuel len;
    if negb ok then
      e ← perror_str "protocol fault (couldn't read status message)";
      mret (false, Some (l ++ zeros (len - zlen l)), Some e)
    else mret (true, Some l, None).

(** [ReadOrderlyShutdown]; the [CHECK_NE] stops the program. *)
Definition ReadOrderlyShutdown (fuel : nat) : M (io S) bool :=
  '(result, _) ← adb_read fuel 16;
  if result =? -1 then
    s ← get;
    m_assert (negb (io_errno s =? EAGAIN));; mret false
  else if result =? 0 then mret true
  else
    modify (fun s => mk_io (sys_shutdown (io_fd s)) (io_errno s));;
    set_errno EINVAL;; mret false.

End adb_io.

(** ** Blocking byte streams

    [fd_rx] is what can be read before the end of the stream, [fd_tx] what was
    written; [fd_retries] bounds the calls that still fail transiently. *)
Class StreamFd (S : Type) `{AdbFd S} := {
  fd_rx : S → list byte;
  fd_tx : S → list byte;
  fd_retries : S → nat;
  read_law : ∀ n s r e l s', 0 < n → sys_read n s = (r, e, l, s') → fd_tx s' = fd_tx s ∧
    ((r = -1 ∧ e = EINTR ∧ fd_rx s' = fd_rx s ∧ (fd_retries s' < fd_retries s)%nat) ∨
     (r = 0 ∧ fd_rx s = [] ∧ fd_rx s' = [] ∧ (fd_retries s' ≤ fd_retries s)%nat) ∨
     (0 < r < 2 ^ 31 ∧ r ≤ n ∧ zlen l = r ∧ fd_rx s = l ++ fd_rx s' ∧
      (fd_retries s' ≤ fd_retries s)%nat));
  write_law : ∀ b s r e s', b ≠ [] → sys_write b s = (r, e, s') → fd_rx s' = fd_rx s ∧
    ((r = -1 ∧ (e = EINTR ∨ e = EAGAIN) ∧ fd_tx s' = fd_tx s ∧
      (fd_retries s' < fd_retries s)%nat) ∨
     (0 < r < 2 ^ 31 ∧ r ≤ zlen b ∧ fd_tx s' = fd_tx s ++ ztake r b ∧
      (fd_retries s' ≤ fd_retries s)%nat))
}.

(** The two ends of a pipe with a schedule of what the next calls do. *)
Inductive event : Type := Interrupted | WouldBlock | Piece (k : Z).

Record pipe : Type := mk_pipe { p_rx : list byte; p_tx : list byte; p_sched : list event }.

(** Linux transfers at most 0x7ffff000 bytes in one call. *)
Definition piece (k n : Z) : Z := Z.min n (Z.min 2147479552 (Z.max 1 k)).

Definition pipe_read (n : Z) (p : pipe) : Z * Z * list byte * pipe :=
  let give k := let r := piece k (Z.min n (zlen (p_rx p))) in
    (r, 0, ztake r (p_rx p), mk_pipe (zdrop r (p_rx p)) (p_tx p) (tail (p_sched p))) in
  match p_sched p with
  | Interrupted :: es => (-1, EINTR, [], mk_pipe (p_rx p) (p_tx p) es)
  | Piece k :: _ => give k
  | _ => give n
  end.

Definition pipe_write (b : list byte) (p : pipe) : Z * Z * pipe :=
  let take_ k := let r := piece k (zlen b) in
    (r, 0, mk_pipe (p_rx p) (p_tx p ++ ztake r b) (tail (p_sched p))) in
  match p_sched p with
  | Interrupted :: es => (-1, EINTR, mk_pipe (p_rx p) (p_tx p) es)
  | WouldBlock :: es => (-1, EAGAIN, mk_pipe (p_rx p) (p_tx p) es)
  | Piece k :: _ => take_ k
  | [] => take_ (zlen b)
  end.

#[export] Instance pipe_fd : AdbFd pipe := {|
  sys_read := pipe_read; sys_write := pipe_write; sys_shutdown p := mk_pipe [] (p_tx p) []
|}.

#[export] Program Instance pipe_stream : @StreamFd pipe pipe_fd := {|
  fd_rx := p_rx; fd_tx := p_tx; fd_retries p := length (p_sched p)
|}.
Next Obligation.
  intros n [rx tx es] r e l s' Hn HR. cbn [sys_read pipe_fd] in HR. unfold pipe_read in HR.
  cbn [p_rx p_tx p_sched] in *.
  assert (∀ k, (piece k (Z.min n (zlen rx)), 0, ztake (piece k (Z.min n (zlen rx))) rx,
      mk_pipe (zdrop (piece k (Z.min n (zlen rx))) rx) tx (tail es)) = (r, e, l, s') →
    p_tx s' = tx ∧
    ((r = -1 ∧ e = EINTR ∧ p_rx s' = rx ∧ (length (p_sched s') < length es)%nat) ∨
     (r = 0 ∧ rx = [] ∧ p_rx s' = [] ∧ (length (p_sched s') ≤ length es)%nat) ∨
     (0 < r < 2 ^ 31 ∧ r ≤ n ∧ zlen l = r ∧ rx = l ++ p_rx s' ∧
      (length (p_sched s') ≤ length es)%nat))) as Hgive.
  { intros k [= <- <- <- <-]. cbn [p_rx p_tx p_sched]. split; [done|]. right.
    pose proof (zlen_nonneg rx). set (q := piece k _). assert (q = piece k (Z.min n (zlen rx))) as Hq by done. unfold piece in Hq.
    clearbody q.
    assert (length (tail es) ≤ length es)%nat by (destruct es; simpl; lia).
    destruct rx as [|b rx].
    - left. change (zlen []) with 0 in Hq. assert (q = 0) as -> by lia. done.
    - right. rewrite zlen_cons in *. pose proof (zlen_nonneg rx).
      split_and!; [lia|lia|lia| |by rewrite ztake_zdrop|done].
      apply zlen_ztake. rewrite zlen_cons. lia. }
  destruct es as [|[| |k] es]; eauto.
  injection HR as <- <- <- <-. split; [done|]. left. cbn [p_rx p_sched length].
  split_and!; [done|done|done|lia].
Qed.
Next Obligation.
  intros b [rx tx es] r e s' Hb HR. cbn [sys_write pipe_fd] in HR. unfold pipe_write in HR.
  cbn [p_rx p_tx p_sched] in *.
  assert (∀ k, (piece k (zlen b), 0, mk_pipe rx (tx ++ ztake (piece k (zlen b)) b) (tail es)) = (r, e, s') →
    p_rx s' = rx ∧
    ((r = -1 ∧ (e = EINTR ∨ e = EAGAIN) ∧ p_tx s' = tx ∧ (length (p_sched s') < length es)%nat) ∨
     (0 < r < 2 ^ 31 ∧ r ≤ zlen b ∧ p_tx s' = tx ++ ztake r b ∧
      (length (p_sched s') ≤ length es)%nat))) as Htake.
  { intros k [= <- <- <-]. cbn [p_rx p_tx p_sched]. split; [done|]. right.
    assert (length (tail es) ≤ length es)%nat by (destruct es; simpl; lia).
    destruct b as [|c b]; [done|]. rewrite zlen_cons. pose proof (zlen_nonneg b).
    unfold piece. split_and!; [lia|lia|lia|done|done]. }
  destruct es as [|[| |k] es]; eauto; injection HR as <- <- <-; (split; [done|]); left;
    cbn [p_tx p_sched length]; (split_and!; [done|auto|done|lia]).
Qed.

(** ** Exact transfers *)

Section stream.
Context {S : Type} `{StreamFd S}.

(** The state of a descriptor from which [l] was read. *)
Definition consumed (s s' : S) (l : list byte) : Prop :=
  fd_rx s = l ++ fd_rx s' ∧ fd_tx s' = fd_tx s ∧ (fd_retries s' ≤ fd_retries s)%nat.

Definition produced (s s' : S) (l : list byte) : Prop :=
  fd_rx s' = fd_rx s ∧ fd_tx s' = fd_tx s ++ l ∧ (fd_retries s' ≤ fd_retries s)%nat.

Lemma adb_read_spec fuel n s e : 0 < n → (fd_retries s < fuel)%nat →
  ∃ r l s' e', adb_read fuel n (mk_io s e) = Ret ((r, l), mk_io s' e') ∧
    (r = 0 ∧ fd_rx s = [] ∧ consumed s s' [] ∨ 0 < r ≤ n ∧ zlen l = r ∧ consumed s s' l).
Proof.
  intros Hn. revert s e. induction fuel as [|fuel IH]; intros s e Hf; [lia|].
  cbn [adb_read io_fd io_errno]. destruct (sys_read n s) as [[[r er] l] s1] eqn:HR.
  destruct (read_law _ _ _ _ _ _ Hn HR) as (Htx & [(-> & -> & Hrx & Hr)|[(-> & He & He' & Hr)|Hok]]).
  - change ((-1 =? -1) && _) with true. cbv beta iota.
    destruct (IH s1 EINTR ltac:(lia)) as (r & l' & s' & e' & E & Hc).
    exists r, l', s', e'. split; [exact E|]. unfold consumed in *. rewrite <- Hrx, <- Htx.
    destruct Hc as [(? & ? & ? & ? & ?)|(? & ? & ? & ? & ?)]; [left|right]; split_and!; (done || lia).
  - change ((0 =? -1) && _) with false. cbv beta iota.
    exists 0, l, s1, e. split; [done|]. left. unfold consumed. by rewrite He, He'.
  - destruct Hok as (Hr & Hrn & Hl & Hrx & Hret).
    destruct (Z.eqb_spec r (-1)); [lia|]. cbn [andb]. rewrite i32_small by lia.
    exists r, l, s1, e. split; [done|]. right. unfold consumed. split_and!; (done || lia).
Qed.

Lemma adb_write_spec fuel b s e : b ≠ [] → (fd_retries s < fuel)%nat →
  ∃ r s' e', adb_write fuel b (mk_io s e) = Ret (r, mk_io s' e') ∧
    (r = -1 ∧ e' = EAGAIN ∧ produced s s' [] ∧ (fd_retries s' < fd_retries s)%nat ∨
     0 < r ≤ zlen b ∧ produced s s' (ztake r b)).
Proof.
  intros Hb. revert s e. induction fuel as [|fuel IH]; intros s e Hf; [lia|].
  cbn [adb_write io_fd io_errno]. destruct (sys_write b s) as [[r er] s1] eqn:HR.
  destruct (write_law _ _ _ _ _ Hb HR) as (Hrx & [(-> & [-> | ->] & Htx & Hr)|Hok]).
  - change ((-1 =? -1) && _) with true. cbv beta iota.
    destruct (IH s1 EINTR ltac:(lia)) as (r & s' & e' & E & Hc).
    exists r, s', e'. split; [exact E|]. unfold produced in *. rewrite <- Hrx, <- Htx.
    destruct Hc as [(? & ? & (? & ? & ?) & ?)|(? & ? & ? & ?)]; [left|right]; split_and!; (done || lia).
  - change ((-1 =? -1) && _) with false. cbv beta iota.
    exists (-1), s1, EAGAIN. split; [done|]. left. unfold produced. rewrite app_nil_r.
    split_and!; (done || lia).
  - destruct Hok as (Hr & Hrn & Htx & Hret).
    destruct (Z.eqb_spec r (-1)); [lia|]. cbn [andb]. rewrite i32_small by lia.
    exists r, s1, e. split; [done|]. right. unfold produced. split_and!; (done || lia).
Qed.

Lemma ReadFdExactly_loop_spec fuel n got s e : 0 ≤ n → Z.of_nat (fd_retries s) + n < Z.of_nat fuel →
  ∃ l s' e', ReadFdExactly_loop fuel n got (mk_io s e)
      = Ret ((bool_decide (n ≤ zlen (fd_rx s)), got ++ l), mk_io s' e') ∧
    consumed s s' l ∧ l = ztake n (fd_rx s) ∧ (zlen (fd_rx s) < n → e' = 0).
Proof.
  revert n got s e. induction fuel as [|fuel IH]; intros n got s e Hn Hf; [lia|].
  cbn [ReadFdExactly_loop]. destruct (Z.ltb_spec 0 n) as [Hp|Hp].
  2: { assert (n = 0) as -> by lia. pose proof (zlen_nonneg (fd_rx s)).
       rewrite bool_decide_eq_true_2 by lia. exists [], s, e. rewrite app_nil_r. mred.
       split_and!; [done|by unfold consumed|by rewrite ztake_0|lia]. }
  unfold mbind, M_bind.
  destruct (adb_read_spec fuel n s e Hp ltac:(lia)) as (r & l & s1 & e1 & -> & Hc).
  destruct Hc as [(-> & He & Hc)|(Hr & Hl & Hc)].
  - change (0 <? 0) with false. change (0 =? -1) with false. unfold set_errno. mred.
    exists [], s1, 0. rewrite He. change (zlen []) with 0.
    rewrite bool_decide_eq_false_2 by lia. rewrite app_nil_r.
    split_and!; [done|exact Hc|unfold ztake; by rewrite take_nil|done].
  - destruct (Z.ltb_spec 0 r); [|lia]. destruct Hc as (Hrx & Htx & Hret).
    destruct (IH (n - r) (got ++ l) s1 e1 ltac:(lia) ltac:(lia)) as (l' & s' & e' & E & Hc' & Hl' & He').
    exists (l ++ l'), s', e'. rewrite E. rewrite Hrx, zlen_app, Hl, <- app_assoc.
    split_and!.
    + do 3 f_equal. apply bool_decide_ext. lia.
    + destruct Hc' as (K1 & K2 & K3). unfold consumed. rewrite Hrx, K1, <- app_assoc.
      split_and!; [done|congruence|lia].
    + rewrite Hl'. replace n with (r + (n - r)) at 2 by lia.
      rewrite ztake_split, ztake_app_exact, zdrop_app_exact by lia. done.
    + intros. apply He'. lia.
Qed.

(** [ReadFdExactly] either stores the next [n] bytes, or reports the end of the
    stream with [errno] 0. *)
Lemma ReadFdExactly_spec fuel n s e : 0 ≤ n → Z.of_nat (fd_retries s) + n < Z.of_nat fuel →
  ∃ s' e', ReadFdExactly fuel n (mk_io s e)
      = Ret ((bool_decide (n ≤ zlen (fd_rx s)), ztake n (fd_rx s)), mk_io s' e') ∧
    consumed s s' (ztake n (fd_rx s)) ∧ (zlen (fd_rx s) < n → e' = 0).
Proof.
  intros Hn Hf. destruct (ReadFdExactly_loop_spec fuel n [] s e Hn Hf) as (l & s' & e' & E & Hc & -> & He).
  by exists s', e'.
Qed.

Lemma WriteFdExactly_spec fuel b s e : Z.of_nat (fd_retries s) + zlen b < Z.of_nat fuel →
  ∃ s' e', WriteFdExactly fuel b (mk_io s e) = Ret (true, mk_io s' e') ∧ produced s s' b.
Proof.
  revert b s e. induction fuel as [|fuel IH]; intros b s e Hf; [pose proof (zlen_nonneg b); lia|].
  cbn [WriteFdExactly]. destruct (Z.ltb_spec 0 (zlen b)) as [Hp|Hp].
  2: { destruct b as [|c b]; [|rewrite zlen_cons in Hp; pose proof (zlen_nonneg b); lia].
       exists s, e. unfold produced. by rewrite app_nil_r. }
  assert (b ≠ []) as Hb by (intros ->; change (zlen []) with 0 in Hp; lia).
  unfold mbind, M_bind.
  destruct (adb_write_spec fuel b s e Hb ltac:(lia)) as (r & s1 & e1 & -> & Hc).
  destruct Hc as [(-> & -> & (K1 & K2 & _) & Hr)|(Hr & K1 & K2 & K3)].
  - change (-1 =? -1) with true. mred. cbn [io_errno]. change (EAGAIN =? EAGAIN) with true. cbv beta iota.
    destruct (IH b s1 EAGAIN ltac:(lia)) as (s' & e' & E & K4 & K5 & K6).
    exists s', e'. split; [exact E|]. unfold produced. rewrite app_nil_r in K2.
    split_and!; [congruence|congruence|lia].
  - destruct (Z.eqb_spec r (-1)); [lia|].
    destruct (IH (zdrop r b) s1 e1) as (s' & e' & E & K4 & K5 & K6).
    { rewrite zlen_zdrop by lia. lia. }
    exists s', e'. split; [exact E|]. unfold produced.
    rewrite K5, K2, <- app_assoc, ztake_zdrop. split_and!; [congruence|done|lia].
Qed.

End stream.

(** ** Lengths in four hexadecimal digits *)

Lemma show_base_app base n z acc : show_base n base z acc = show_base n base z [] ++ acc.
Proof.
  revert z acc. induction n as [|n IH]; intros z acc; [done|]. cbn [show_base].
  destruct (z / base =? 0); [done|]. rewrite IH, (IH _ [_]), <- app_assoc. done.
Qed.

(** [k] digits are needed between [base^(k-1)] and [base^k]. *)
Lemma length_show_base base n (k : nat) z :
  2 ≤ base → (0 < k ≤ n)%nat → (k = 1%nat ∨ base ^ (Z.of_nat k - 1) ≤ z) → 0 ≤ z < base ^ Z.of_nat k →
  length (show_base n base z []) = k.
Proof.
  intros Hb. revert n z. induction k as [|k IH]; intros n z Hk Hlo Hz; [lia|].
  destruct n as [|n]; [lia|]. cbn [show_base].
  rewrite Nat2Z.inj_succ, Z.pow_succ_r in Hz by lia.
  destruct (Z.eqb_spec (z / base) 0) as [E|E].
  - destruct Hlo as [Hlo|Hlo]; [done|]. apply Z.div_small_iff in E; [|lia].
    destruct k as [|k]; [done|]. exfalso.
    replace (Z.of_nat (S (S k)) - 1) with (Z.succ (Z.of_nat k)) in Hlo by lia.
    rewrite Z.pow_succ_r in Hlo by lia. pose proof (Z.pow_pos_nonneg base (Z.of_nat k)). nia.
  - rewrite show_base_app, length_app. cbn [length].
    destruct k as [|k].
    { exfalso. apply E. apply Z.div_small. cbn in Hz. lia. }
    rewrite (IH n (z / base)); [lia|lia| |].
    + right. destruct Hlo as [Hlo|Hlo]; [lia|].
      replace (Z.of_nat (S (S k)) - 1) with (Z.succ (Z.of_nat (S k) - 1)) in Hlo by lia.
      rewrite Z.pow_succ_r in Hlo by lia. apply Z.div_le_lower_bound; lia.
    + split; [apply Z.div_pos; lia|]. apply Z.div_lt_upper_bound; lia.
Qed.

Lemma strtoul_hex l : Forall (is_digit 16) l → l ≠ [] → 0 ≤ (digits 16 0 l).1 ≤ ULLONG_MAX →
  strtoul (c_str l) 16 = (digits 16 0 l).1.
Proof.
  intros Hd Hne Hr.
  assert (c_str l = l) as ->.
  { clear Hne Hr. induction Hd as [|b l Hb Hd IH]; [done|]. cbn [c_str]. rewrite IH.
    destruct (digit_16_byte b Hb) as (_ & _ & _ & _ & _ & H0).
    by apply Z.eqb_neq in H0 as ->. }
  destruct l as [|b l]; [done|]. apply Forall_cons in Hd as [Hb Hl].
  destruct (digit_16_byte b Hb) as (Hsp & H1 & H2 & _).
  apply Z.eqb_neq in H1, H2.
  unfold strtoul. cbn [skip_space]. rewrite Hsp, H1.
  unfold strtoull. cbn [skip_space]. rewrite Hsp, H2.
  assert (skip_0x 16 (b :: l) = b :: l) as ->.
  { destruct l as [|c l]; [done|]. destruct l as [|d l]; [done|].
    apply Forall_cons in Hl as [Hc _].
    destruct (digit_16_byte c Hc) as (_ & _ & _ & H3 & H4 & _).
    apply Z.eqb_neq in H3, H4. cbn [skip_0x]. rewrite H3, H4. by rewrite andb_false_r. }
  destruct Hb as [v Hv]. rewrite Hv.
  destruct (digits 16 0 (b :: l)) as [r rest]. cbn [fst] in Hr |- *.
  destruct (Z.ltb_spec ULLONG_MAX r); [lia|done].
Qed.

Lemma strtoul_show n z : (0 < n ≤ 16)%nat → 0 ≤ z < 16 ^ Z.of_nat n → ∀ m,
  strtoul (c_str (replicate m (z2b 48) ++ show_base n 16 z [])) 16 = z.
Proof.
  intros Hn Hz m.
  assert (z ≤ ULLONG_MAX) as Hmax.
  { unfold ULLONG_MAX. assert (16 ^ Z.of_nat n ≤ 16 ^ 16) by (apply Z.pow_le_mono_r; lia).
    change (16 ^ 16) with (2 ^ 64) in *. lia. }
  assert (digits 16 0 (replicate m (z2b 48) ++ show_base n 16 z []) = (z, [])) as Hd.
  { rewrite digits_pad by lia.
    destruct (digits_show_base 16 n z 0 []) as (k & Hk & ->); [lia|lia|lia|]. done. }
  rewrite strtoul_hex; rewrite ?Hd; [done| | |cbn [fst]; lia].
  - apply Forall_app. split; [apply Forall_replicate; by exists 0|].
    apply show_base_digits; [lia|lia|constructor].
  - intros [_ E]%app_eq_nil. by apply (show_base_nonempty 16 n z) in E; [|lia].
Qed.

(** The printed length has exactly four digits up to 0xffff, and reads back. *)
Lemma fmt_04x_small z : 0 ≤ z ≤ 65535 → zlen (fmt_04x z) = 4 ∧ strtoul (c_str (fmt_04x z)) 16 = z.
Proof.
  intros Hz. split.
  2: { unfold fmt_04x, pad_left. apply strtoul_show; [lia|]. change (16 ^ Z.of_nat 8) with (2 ^ 32). lia. }
  assert (∃ k : nat, (0 < k ≤ 4)%nat ∧ length (show_base 8 16 z []) = k) as (k & Hk & HL).
  { destruct (decide (z < 16)).
    { exists 1%nat. split; [lia|]. apply length_show_base; cbn; lia. }
    destruct (decide (z < 256)).
    { exists 2%nat. split; [lia|]. apply length_show_base; cbn; lia. }
    destruct (decide (z < 4096)).
    { exists 3%nat. split; [lia|]. apply length_show_base; cbn; lia. }
    exists 4%nat. split; [lia|]. apply length_show_base; cbn; lia. }
  unfold fmt_04x, pad_left. rewrite zlen_app. unfold zlen at 1. rewrite length_replicate.
  unfold zlen. rewrite HL. lia.
Qed.

(** From 0x10000 on it has five digits; the first four denote a sixteenth of
    the length. *)
Lemma fmt_04x_large z : 65536 ≤ z < 1048576 →
  ∃ h, fmt_04x z = h ++ [digit_char (z mod 16)] ∧ zlen h = 4 ∧ strtoul (c_str h) 16 = z / 16.
Proof.
  intros Hz.
  assert (4096 ≤ z / 16 < 65536) as Hq.
  { split; [apply Z.div_le_lower_bound|apply Z.div_lt_upper_bound]; lia. }
  assert (length (show_base 7 16 (z / 16) []) = 4%nat) as HL by (apply length_show_base; cbn; lia).
  exists (show_base 7 16 (z / 16) []). split_and!.
  - unfold fmt_04x. change (show_base 8 16 z []) with
      (let acc := [digit_char (z mod 16)] in if z / 16 =? 0 then acc else show_base 7 16 (z / 16) acc).
    cbv zeta. destruct (Z.eqb_spec (z / 16) 0); [lia|]. rewrite show_base_app.
    unfold pad_left. rewrite zlen_app. unfold zlen. rewrite HL. done.
  - unfold zlen. by rewrite HL.
  - apply (strtoul_show 7 (z / 16)) with (m := 0%nat); [lia|].
    change (16 ^ Z.of_nat 7) with (2 ^ 28). lia.
Qed.

(** ** Sequences of protocol strings *)

Section strings.
Context {S : Type} `{AdbFd S}.
Variable strerror : Z → list byte.

(** A client that sends the strings one after the other until one fails. *)
Fixpoint send_strings (fuel : nat) (ss : list (list byte)) : M (io S) bool :=
  match ss with
  | [] => mret true
  | s :: ss =>
      ok ← SendProtocolString fuel s;
      if ok : bool then send_strings fuel ss else mret false
  end.

(** A client that reads [n] strings; [None] when one cannot be read. *)
Fixpoint read_strings (fuel n : nat) : M (io S) (option (list (list byte))) :=
  match n with
  | O => mret (Some [])
  | Datatypes.S n =>
      '(ok, s, _) ← ReadProtocolString strerror fuel;
      match (ok : bool), s with
      | true, Some s => r ← read_strings fuel n; mret (cons s <$> r)
      | _, _ => mret None
      end
  end.

End strings.

Section protocol.
Context {S : Type} `{StreamFd S}.

Lemma SendProtocolString_spec fuel str s e :
  zlen str ≤ MAX_PAYLOAD - 4 → Z.of_nat (fd_retries s) + zlen str + 8 < Z.of_nat fuel →
  ∃ s' e', SendProtocolString fuel str (mk_io s e) = Ret (true, mk_io s' e') ∧
    produced s s' (fmt_04x (zlen str) ++ str).
Proof.
  intros Hl Hf. pose proof (zlen_nonneg str). unfold SendProtocolString, MAX_PAYLOAD in *.
  rewrite u32_small by lia. destruct (Z.ltb_spec (1024 * 1024 - 4) (zlen str)); [lia|].
  assert (zlen (fmt_04x (zlen str)) ≤ 5).
  { destruct (decide (zlen str ≤ 65535)).
    - destruct (fmt_04x_small (zlen str)) as [-> _]; lia.
    - destruct (fmt_04x_large (zlen str)) as (h & -> & Hh & _); [lia|].
      rewrite zlen_app, Hh. change (zlen [_]) with 1. lia. }
  apply WriteFdExactly_spec. rewrite zlen_app. lia.
Qed.

(** What [ReadProtocolString] makes of four bytes of length and what follows. *)
Lemma ReadProtocolString_spec strerror fuel h n tail s e :
  zlen h = 4 → strtoul (c_str h) 16 = n → 0 ≤ n ≤ zlen tail → n < string_limit →
  fd_rx s = h ++ tail → Z.of_nat (fd_retries s) + n + 4 < Z.of_nat fuel →
  ∃ s' e', ReadProtocolString strerror fuel (mk_io s e)
      = Ret ((true, Some (ztake n tail), None), mk_io s' e') ∧
    consumed s s' (h ++ ztake n tail).
Proof.
  intros Hh Hn Hr Hlim Hrx Hf. unfold ReadProtocolString, mbind, M_bind.
  destruct (ReadFdExactly_spec fuel 4 s e) as (s1 & e1 & -> & Hc1 & _); [lia|lia|].
  rewrite Hrx, ztake_app_exact in Hc1 |- * by lia. rewrite zlen_app.
  rewrite bool_decide_eq_true_2 by lia. cbn [negb]. rewrite Hn. unfold m_assert. destruct (Z.ltb_spec n string_limit); [|lia].
  destruct Hc1 as (K1 & K2 & K3). rewrite Hrx in K1. apply app_inv_head in K1.
  destruct (ReadFdExactly_spec fuel n s1 e1) as (s2 & e2 & -> & (K4 & K5 & K6) & _); [lia|lia|].
  rewrite <- K1 in K4 |- *. rewrite bool_decide_eq_true_2 by lia. cbn [negb]. exists s2, e2. split; [done|].
  unfold consumed. rewrite Hrx, <- app_assoc, <- K4. split_and!; [done|congruence|lia].
Qed.

End protocol.

Definition wire_of (ss : list (list byte)) : list byte := ss ≫= λ s, fmt_04x (zlen s) ++ s.

Definition string_ok (fuel : nat) (r1 r2 : nat) (s : list byte) : Prop :=
  zlen s ≤ 65535 ∧ Z.of_nat (Nat.max r1 r2) + zlen s + 8 < Z.of_nat fuel.

(** C25: strings of up to 65535 bytes sent with [SendProtocolString] are read
    back, one by one and unchanged, with [ReadProtocolString].  This holds for
    any two descriptors that behave like blocking byte streams, however they
    cut, interrupt or postpone the calls; what follows on the stream is left for
    the next reader. *)
Theorem protocol_strings_roundtrip {S1 S2} `{StreamFd S1} `{StreamFd S2} strerror fuel ss
    (s1 : S1) (s2 : S2) e1 e2 rest :
  Forall (string_ok fuel (fd_retries s1) (fd_retries s2)) ss → fd_rx s2 = wire_of ss ++ rest →
  ∃ s1' s2' e1' e2',
    send_strings fuel ss (mk_io s1 e1) = Ret (true, mk_io s1' e1') ∧
    fd_tx s1' = fd_tx s1 ++ wire_of ss ∧
    read_strings strerror fuel (length ss) (mk_io s2 e2) = Ret (Some ss, mk_io s2' e2') ∧
    fd_rx s2' = rest.
Proof.
  revert s1 s2 e1 e2. induction ss as [|str ss IH]; intros s1 s2 e1 e2 Hok Hrx.
  { exists s1, s2, e1, e2. cbn. by rewrite app_nil_r. }
  apply Forall_cons in Hok as [[Hl Hf] Hok]. pose proof (zlen_nonneg str).
  unfold wire_of in Hrx |- *. cbn [mbind list_bind] in Hrx |- *. fold (wire_of ss) in *.
  rewrite <- !app_assoc in Hrx.
  destruct (SendProtocolString_spec fuel str s1 e1) as (s1a & e1a & E1 & A1 & A2 & A3);
    [unfold MAX_PAYLOAD; lia|lia|].
  destruct (fmt_04x_small (zlen str)) as [Hh Hn]; [lia|].
  destruct (ReadProtocolString_spec strerror fuel (fmt_04x (zlen str)) (zlen str)
              (str ++ wire_of ss ++ rest) s2 e2)
    as (s2a & e2a & E2 & B1 & B2 & B3); [done|done| |unfold string_limit; lia|done|lia|].
  { rewrite zlen_app. pose proof (zlen_nonneg (wire_of ss ++ rest)). lia. }
  rewrite ztake_app_exact in E2, B1 by done.
  rewrite Hrx, <- !app_assoc in B1. apply app_inv_head, app_inv_head in B1.
  destruct (IH s1a s2a e1a e2a) as (s1' & s2' & e1' & e2' & E3 & C1 & E4 & C2).
  { eapply Forall_impl; [exact Hok|]. intros x [? ?]. split; [done|]. lia. }
  { done. }
  exists s1', s2', e1', e2'. cbn [send_strings read_strings length]. unfold mbind, M_bind.
  rewrite E1, E2. cbv beta iota. rewrite E3, E4. rewrite C1, A2, <- !app_assoc. done.
Qed.

Lemma protocol_strings_roundtrip_witness :
  let ss := [bs "host:version"; []; bs "shell:ls"] in
  let p1 := mk_pipe [] [] [Piece 3; WouldBlock; Interrupted; Piece 1] in
  let p2 := mk_pipe (wire_of ss ++ bs "OKAY") [] [Piece 2; Interrupted; Piece 1; Piece 5] in
  ∃ p1' p2' e1' e2',
    send_strings 40 ss (mk_io p1 0) = Ret (true, mk_io p1' e1') ∧
    fd_tx p1' = fd_tx p1 ++ wire_of ss ∧
    read_strings (λ _, []) 40 (length ss) (mk_io p2 0) = Ret (Some ss, mk_io p2' e2') ∧
    fd_rx p2' = bs "OKAY".
Proof.
  intros ss p1 p2.
  apply (protocol_strings_roundtrip (λ _, []) 40 ss p1 p2 0 0 (bs "OKAY")); [|reflexivity].
  repeat (apply Forall_cons; split; [split; vm_compute; congruence|]). apply Forall_nil. exact I.
Defined.

(** A string of 65536 bytes or more is accepted by [SendProtocolString] and
    misread by [ReadProtocolString].  The length is printed in five digits of
    which the reader takes four: it returns success with a string of a sixteenth
    of the length that starts with the fifth digit, and leaves the rest of the
    string on the stream, where it is taken for the next message. *)
Theorem protocol_string_long_misread {S1 S2} `{StreamFd S1} `{StreamFd S2} strerror fuel str
    (s1 : S1) (s2 : S2) e1 e2 rest :
  65536 ≤ zlen str ≤ MAX_PAYLOAD - 4 →
  Z.of_nat (fd_retries s1) + zlen str + 8 < Z.of_nat fuel →
  Z.of_nat (fd_retries s2) + zlen str + 8 < Z.of_nat fuel →
  fd_rx s2 = fmt_04x (zlen str) ++ str ++ rest →
  ∃ s1' e1' s2' e2' str',
    SendProtocolString fuel str (mk_io s1 e1) = Ret (true, mk_io s1' e1') ∧
    fd_tx s1' = fd_tx s1 ++ fmt_04x (zlen str) ++ str ∧
    ReadProtocolString strerror fuel (mk_io s2 e2) = Ret ((true, Some str', None), mk_io s2' e2') ∧
    str' = digit_char (zlen str mod 16) :: ztake (zlen str / 16 - 1) str ∧ str' ≠ str ∧
    fd_rx s2' = zdrop (zlen str / 16 - 1) str ++ rest.
Proof.
  intros Hl Hf1 Hf2 Hrx.
  destruct (SendProtocolString_spec fuel str s1 e1) as (s1' & e1' & E1 & A1 & A2 & A3); [lia|lia|].
  unfold MAX_PAYLOAD in Hl. destruct (fmt_04x_large (zlen str)) as (h & Hh & Hh4 & Hn); [lia|].
  rewrite Hh, <- !app_assoc in Hrx.
  assert (0 < zlen str / 16 < zlen str) as Hq.
  { split; [apply Z.div_str_pos|apply Z.div_lt]; lia. }
  destruct (ReadProtocolString_spec strerror fuel h (zlen str / 16)
              ([digit_char (zlen str mod 16)] ++ str ++ rest) s2 e2)
    as (s2' & e2' & E2 & B1 & B2 & B3); [done|done| |unfold string_limit; lia|done|lia|].
  { rewrite !zlen_app. change (zlen [_]) with 1. pose proof (zlen_nonneg rest). lia. }
  assert (ztake (zlen str / 16) ([digit_char (zlen str mod 16)] ++ str ++ rest)
          = digit_char (zlen str mod 16) :: ztake (zlen str / 16 - 1) str) as Ht.
  { replace (zlen str / 16) with (1 + (zlen str / 16 - 1)) at 1 by lia.
    rewrite ztake_split, ztake_app_exact, zdrop_app_exact by (done || lia).
    cbn [app]. f_equal. unfold ztake, zlen in *. apply take_app_le. lia. }
  rewrite Ht in E2, B1. exists s1', e1', s2', e2'. eexists. split; [exact E1|]. split; [exact A2|].
  split; [exact E2|]. split; [done|]. split.
  - intros E. apply (f_equal zlen) in E. rewrite zlen_cons, zlen_ztake in E by lia. lia.
  - rewrite Hrx, <- !app_assoc in B1. apply app_inv_head in B1.
    cbn [app] in B1. injection B1 as B1. symmetry.
    apply (app_inv_head (ztake (zlen str / 16 - 1) str)). by rewrite app_assoc, ztake_zdrop.
Qed.

Lemma protocol_string_long_misread_witness :
  let str := zeros 65536 in
  let p1 := mk_pipe [] [] [Piece 9] in
  let p2 := mk_pipe (fmt_04x (zlen str) ++ str ++ []) [] [Interrupted] in
  ∃ s1' e1' s2' e2' str',
    SendProtocolString (Z.to_nat 65600) str (mk_io p1 0) = Ret (true, mk_io s1' e1') ∧
    fd_tx s1' = fd_tx p1 ++ fmt_04x (zlen str) ++ str ∧
    ReadProtocolString (λ _, []) (Z.to_nat 65600) (mk_io p2 0)
      = Ret ((true, Some str', None), mk_io s2' e2') ∧
    str' = digit_char (zlen str mod 16) :: ztake (zlen str / 16 - 1) str ∧ str' ≠ str ∧
    fd_rx s2' = zdrop (zlen str / 16 - 1) str ++ [].
Proof.
  intros str p1 p2.
  assert (zlen str = 65536) as Hl by (apply zlen_zeros; lia).
  apply (protocol_string_long_misread (λ _, []) (Z.to_nat 65600) str p1 p2 0 0 []);
    [unfold MAX_PAYLOAD; lia|cbn [fd_retries pipe_stream p_sched length p1]; lia
    |cbn [fd_retries pipe_stream p_sched length p2]; lia|reflexivity].
Defined.

(** Four bytes that start with a minus sign are read as a huge length; growing
    the string to it ends the program. *)
Lemma negative_length_aborts {S} `{StreamFd S} strerror fuel tail (s : S) e :
  fd_rx s = bs "-001" ++ tail → Z.of_nat (fd_retries s) + 4 < Z.of_nat fuel →
  ReadProtocolString strerror fuel (mk_io s e) = AssertFail.
Proof.
  intros Hrx Hf. unfold ReadProtocolString, mbind, M_bind.
  destruct (ReadFdExactly_spec fuel 4 s e) as (s1 & e1 & -> & _ & _); [lia|lia|].
  rewrite Hrx, zlen_app, ztake_app_exact by done.
  pose proof (zlen_nonneg tail). change (zlen (bs "-001")) with 4.
  rewrite bool_decide_eq_true_2 by lia. reflexivity.
Qed.
