(* ===== verification/ShellProtocol.v ===== *)
(** The packets of "adb shell" (packages/modules/adb/shell_protocol.h and
    shell_service_protocol.cpp): one byte of id, four bytes of length, data.

    The model keeps the fixed buffer of the class, so that every store and every
    read of it is checked against its size; a reader whose buffer is smaller than
    a packet returns it in pieces. *)

From Stdlib Require Import Strings.String.
From S2P Require Import Prelude LibBase AdbIo.
Open Scope Z_scope.

(** ** The class *)

Definition kIdStdin : Z := 0.
Definition kIdStdout : Z := 1.
Definition kIdStderr : Z := 2.
Definition kIdExit : Z := 3.
Definition kIdCloseStdin : Z := 4.
Definition kIdWindowSizeChange : Z := 5.
Definition kIdInvalid : Z := 255.

Definition kBufferSize : Z := MAX_PAYLOAD.
Definition kHeaderSize : Z := 1 + 4.

(** [buffer_end_] is kept as its distance from [buffer_]. *)
Record ShellProtocol (S : Type) : Type := mk_shell {
  fd_ : io S;
  buffer_ : list byte;
  data_length_ : Z;
  bytes_left_ : Z;
  buffer_end_ : Z
}.
Arguments mk_shell {S} _ _ _ _ _.
Arguments fd_ {S} _.
Arguments buffer_ {S} _.
Arguments data_length_ {S} _.
Arguments bytes_left_ {S} _.
Arguments buffer_end_ {S} _.

(** [buffer_] is not initialised but for its first byte. *)
Definition ShellProtocol_new {S} (garbage : list byte) (fd : io S) : ShellProtocol S :=
  mk_shell fd (z2b kIdInvalid :: garbage) 0 0 kBufferSize.

Section shell.
Context {S : Type} `{AdbFd S}.

Definition data_capacity (p : ShellProtocol S) : Z := buffer_end_ p - kHeaderSize.

(** [buffer_[0]] as an [int], where [char] is signed. *)
Definition id (p : ShellProtocol S) : Z :=
  match buffer_ p with b :: _ => sgn 8 (b2z b) | [] => 0 end.

(** The bytes [data()] points to, as far as [data_length()] goes. *)
Definition data (p : ShellProtocol S) : list byte := ztake (data_length_ p) (zdrop kHeaderSize (buffer_ p)).

Definition on_fd {A} (m : M (io S) A) : M (ShellProtocol S) A := fun p =>
  match m (fd_ p) with
  | Ret (a, fd) => Ret (a, mk_shell fd (buffer_ p) (data_length_ p) (bytes_left_ p) (buffer_end_ p))
  | AssertFail => AssertFail
  | OutOfFuel => OutOfFuel
  end.

(** A store of bytes at an offset of the buffer, which must lie inside it. *)
Definition store (off : Z) (l : list byte) : M (ShellProtocol S) unit := fun p =>
  if off + zlen l <=? zlen (buffer_ p) then
    Ret (tt, mk_shell (fd_ p) (ztake off (buffer_ p) ++ l ++ zdrop (off + zlen l) (buffer_ p))
               (data_length_ p) (bytes_left_ p) (buffer_end_ p))
  else AssertFail.

Definition set_lengths (data_length bytes_left : Z) : M (ShellProtocol S) unit :=
  modify (fun p => mk_shell (fd_ p) (buffer_ p) data_length bytes_left (buffer_end_ p)).

Definition Read_header (fuel : nat) : M (ShellProtocol S) bool :=
  p ← get;
  if bytes_left_ p =? 0 then
    '(ok, l) ← on_fd (ReadFdExactly fuel kHeaderSize);
    store 0 l;;
    if ok : bool then
      p ← get;
      let packet_length := le_val (ztake 4 (zdrop 1 (buffer_ p))) in
      set_lengths 0 packet_length;; mret true
    else mret false
  else mret true.

Definition Read_data (fuel : nat) : M (ShellProtocol S) bool :=
  p ← get;
  let read_length := Z.min (bytes_left_ p) (data_capacity p) in
  ok ← (if negb (read_length =? 0) then
          '(ok, l) ← on_fd (ReadFdExactly fuel read_length);
          store kHeaderSize l;; mret ok
        else mret true);
  if negb ok then mret false
  else set_lengths read_length (bytes_left_ p - read_length);; mret true.

Definition Read (fuel : nat) : M (ShellProtocol S) bool :=
  ok ← Read_header fuel;
  if negb ok then mret false else Read_data fuel.

Definition Write (fuel : nat) (id length : Z) : M (ShellProtocol S) bool :=
  store 0 [z2b id];;
  store 1 (le_bytes 4 (u32 length));;
  p ← get;
  m_assert (kHeaderSize + length <=? zlen (buffer_ p));;
  on_fd (WriteFdExactly fuel (ztake (kHeaderSize + length) (buffer_ p))).

End shell.

(** ** Users of the class *)

(** A sender copies its bytes to [data()] and calls [Write]. *)
Definition send_packet {S} `{AdbFd S} (fuel : nat) (pk : Z * list byte) : M (ShellProtocol S) bool :=
  store kHeaderSize pk.2;; Write fuel pk.1 (zlen pk.2).

Fixpoint send_packets {S} `{AdbFd S} (fuel : nat) (pks : list (Z * list byte)) : M (ShellProtocol S) bool :=
  match pks with
  | [] => mret true
  | pk :: pks => ok ← send_packet fuel pk; if ok : bool then send_packets fuel pks else mret false
  end.

(** A receiver that calls [Read] [n] times and looks at [id()] and [data()]. *)
Fixpoint read_packets {S} `{AdbFd S} (fuel n : nat) : M (ShellProtocol S) (option (list (Z * list byte))) :=
  match n with
  | O => mret (Some [])
  | Datatypes.S n =>
      ok ← Read fuel;
      if ok : bool then
        p ← get;
        r ← read_packets fuel n; mret (cons (id p, data p) <$> r)
      else mret None
  end.

(** ** What they mean *)

Definition packet_bytes (pk : Z * list byte) : list byte :=
  z2b pk.1 :: le_bytes 4 (zlen pk.2) ++ pk.2.

(** The pieces in which a receiver with room for [c] bytes gets [d]. *)
Fixpoint pieces (n : nat) (c : Z) (d : list byte) : list (list byte) :=
  match n with
  | O => [d]
  | S n => if zlen d <=? c then [d] else ztake c d :: pieces n c (zdrop c d)
  end.

Definition fragments (c : Z) (d : list byte) : list (list byte) := pieces (length d) c d.

Definition received (c : Z) (pk : Z * list byte) : list (Z * list byte) := pair pk.1 <$> fragments c pk.2.

(** The state of a receiver with room for [c] bytes. *)
Record shell_ok {S} (c : Z) (p : ShellProtocol S) : Prop := {
  sh_cap : 0 < c;
  sh_end : buffer_end_ p = kHeaderSize + c;
  sh_buf : kHeaderSize + c ≤ zlen (buffer_ p);
  sh_len : 0 ≤ data_length_ p ≤ c;
  sh_left : 0 ≤ bytes_left_ p < 2 ^ 32
}.

Lemma kHeaderSize_eq : kHeaderSize = 5.
Proof. done. Qed.

(** The bounds of a state given by its fields. *)
Ltac shell_lia :=
  split; cbn [buffer_end_ buffer_ data_length_ bytes_left_]; pose proof kHeaderSize_eq; lia.

Section reading.
Context {S : Type} `{StreamFd S}.

Definition rx (p : ShellProtocol S) : list byte := fd_rx (io_fd (fd_ p)).
Definition tx (p : ShellProtocol S) : list byte := fd_tx (io_fd (fd_ p)).
Definition retries (p : ShellProtocol S) : nat := fd_retries (io_fd (fd_ p)).

Lemma on_fd_read fuel n (p : ShellProtocol S) : 0 ≤ n → Z.of_nat (retries p) + n < Z.of_nat fuel →
  ∃ fd', on_fd (ReadFdExactly fuel n) p
      = Ret ((bool_decide (n ≤ zlen (rx p)), ztake n (rx p)),
             mk_shell fd' (buffer_ p) (data_length_ p) (bytes_left_ p) (buffer_end_ p)) ∧
    consumed (io_fd (fd_ p)) (io_fd fd') (ztake n (rx p)) ∧ (zlen (rx p) < n → io_errno fd' = 0).
Proof.
  intros Hn Hf. unfold on_fd, rx, retries in *. destruct p as [[s e] b dl bl be].
  cbn [fd_ io_fd] in *.
  destruct (ReadFdExactly_spec fuel n s e Hn Hf) as (s' & e' & -> & Hc & He).
  by exists (mk_io s' e').
Qed.

Lemma store_ok off l (p : ShellProtocol S) : off + zlen l ≤ zlen (buffer_ p) →
  store off l p = Ret (tt, mk_shell (fd_ p) (ztake off (buffer_ p) ++ l ++ zdrop (off + zlen l) (buffer_ p))
                             (data_length_ p) (bytes_left_ p) (buffer_end_ p)).
Proof. intros. unfold store. destruct (Z.leb_spec (off + zlen l) (zlen (buffer_ p))); [done|lia]. Qed.

Lemma zlen_stored off l (b : list byte) : 0 ≤ off → off + zlen l ≤ zlen b →
  zlen (ztake off b ++ l ++ zdrop (off + zlen l) b) = zlen b.
Proof.
  intros. pose proof (zlen_nonneg l). rewrite !zlen_app, zlen_ztake, zlen_zdrop by lia. lia.
Qed.

Lemma zlen_ztake_min {A} n (l : list A) : 0 ≤ n → zlen (ztake n l) = Z.min n (zlen l).
Proof. intros. unfold zlen, ztake. rewrite length_take. lia. Qed.

Lemma window_app {A} a n (l r : list A) : 0 ≤ a → 0 ≤ n → a + n ≤ zlen l →
  ztake n (zdrop a (l ++ r)) = ztake n (zdrop a l).
Proof.
  intros. unfold ztake, zdrop, zlen in *. rewrite drop_app_le by lia. apply take_app_le.
  rewrite length_drop. lia.
Qed.

(** *** A packet that is under way

    [Read_data] hands out the next bytes of a packet, as many as there is room
    for, or stops at the end of the stream. *)
Lemma Read_data_spec fuel c (p : ShellProtocol S) :
  shell_ok c p → Z.of_nat (retries p) + c < Z.of_nat fuel →
  let n := Z.min (bytes_left_ p) c in
  ∃ p', Read_data fuel p = Ret (bool_decide (n ≤ zlen (rx p)), p') ∧ shell_ok c p' ∧
    rx p = ztake n (rx p) ++ rx p' ∧ tx p' = tx p ∧ (retries p' ≤ retries p)%nat ∧
    (if bool_decide (n ≤ zlen (rx p))
     then data p' = ztake n (rx p) ∧ id p' = id p ∧ bytes_left_ p' = bytes_left_ p - n
     else io_errno (fd_ p') = 0).
Proof.
  intros [Hc He Hb Hl Hbl] Hf n. unfold Read_data. mred.
  assert (data_capacity p = c) as -> by (unfold data_capacity; lia). fold n.
  assert (0 ≤ n ≤ c ∧ n ≤ bytes_left_ p) as Hn by lia. pose proof (zlen_nonneg (rx p)) as Hrx. pose proof kHeaderSize_eq.
  destruct (Z.eqb_spec n 0) as [E|E].
  - rewrite bool_decide_eq_true_2 by lia. unfold set_lengths. mred. eexists. split; [done|].
    rewrite E, ztake_0. split; [shell_lia|]. split_and!; [done|done|done|done|done|].
    cbn. lia.
  - destruct (on_fd_read fuel n p) as (fd' & -> & (K1 & K2 & K3) & He'); [lia|lia|]. cbv beta iota.
    rewrite store_ok by (cbn [buffer_]; rewrite zlen_ztake_min by lia; lia).
    cbv beta iota. cbn [buffer_ fd_ data_length_ bytes_left_ buffer_end_].
    set (l := ztake n (rx p)) in *.
    set (b' := ztake kHeaderSize (buffer_ p) ++ l ++ zdrop (kHeaderSize + zlen l) (buffer_ p)).
    assert (zlen l ≤ n) as Hll by (subst l; rewrite zlen_ztake_min; lia).
    assert (zlen b' = zlen (buffer_ p)) as Hb'.
    { subst b'. apply zlen_stored; lia. }
    destruct (bool_decide_reflect (n ≤ zlen (rx p))) as [Hle|Hgt]; cbv beta iota.
    + unfold set_lengths. mred. eexists. split; [done|]. cbn [bytes_left_].
      split; [shell_lia|]. split; [exact K1|]. split; [exact K2|]. split; [exact K3|].
      assert (zlen l = n) as Hln by (subst l; rewrite zlen_ztake_min; lia).
      split_and!; [| |cbn; lia].
      * unfold data. cbn [data_length_ buffer_]. subst b'.
        rewrite zdrop_app_exact by (rewrite zlen_ztake; lia).
        by rewrite ztake_app_exact.
      * unfold id. cbn [buffer_]. subst b'. destruct (buffer_ p) as [|x b]; [|done].
        change (zlen []) with 0 in Hb. lia.
    + eexists. split; [done|]. split; [shell_lia|]. split; [exact K1|].
      split; [exact K2|]. split; [exact K3|]. apply He'. lia.
Qed.

(** *** A new packet *)
Lemma Read_header_spec fuel c (p : ShellProtocol S) :
  shell_ok c p → Z.of_nat (retries p) + kHeaderSize < Z.of_nat fuel → bytes_left_ p = 0 →
  ∃ p', Read_header fuel p = Ret (bool_decide (kHeaderSize ≤ zlen (rx p)), p') ∧ shell_ok c p' ∧
    rx p = ztake kHeaderSize (rx p) ++ rx p' ∧ tx p' = tx p ∧ (retries p' ≤ retries p)%nat ∧
    (if bool_decide (kHeaderSize ≤ zlen (rx p))
     then bytes_left_ p' = le_val (ztake 4 (zdrop 1 (rx p))) ∧
          ∃ b l, rx p = b :: l ∧ id p' = sgn 8 (b2z b)
     else io_errno (fd_ p') = 0).
Proof.
  intros [Hc He Hb Hl Hbl] Hf Hb0. pose proof kHeaderSize_eq. unfold Read_header. mred. rewrite Hb0, Z.eqb_refl. cbv iota.
  destruct (on_fd_read fuel kHeaderSize p) as (fd' & -> & (K1 & K2 & K3) & He');
    [lia|lia|]. cbv beta iota.
  set (l := ztake kHeaderSize (rx p)) in *.
  assert (zlen l = Z.min kHeaderSize (zlen (rx p))) as Hll.
  { subst l. apply zlen_ztake_min. lia. }
  rewrite store_ok by (cbn [buffer_]; lia). cbv beta iota.
  cbn [buffer_ fd_ data_length_ bytes_left_ buffer_end_].
  rewrite ztake_0, Z.add_0_l, app_nil_l.
  assert (zlen (l ++ zdrop (zlen l) (buffer_ p)) = zlen (buffer_ p)) as Hb'.
  { pose proof (zlen_nonneg l). rewrite zlen_app, zlen_zdrop by lia. lia. }
  destruct (bool_decide_reflect (kHeaderSize ≤ zlen (rx p))) as [Hle|Hgt]; cbv beta iota.
  2: { eexists. split; [done|]. split; [shell_lia|]. split; [exact K1|].
       split; [exact K2|]. split; [exact K3|]. apply He'. lia. }
  unfold set_lengths. mred. cbn [buffer_]. eexists. split; [done|].
  assert (ztake 4 (zdrop 1 (l ++ zdrop (zlen l) (buffer_ p))) = ztake 4 (zdrop 1 (rx p))) as ->.
  { change (rx p) with (fd_rx (io_fd (fd_ p))). rewrite K1, !window_app by lia. done. }
  pose proof (le_val_range (ztake 4 (zdrop 1 (rx p)))) as Hv.
  assert (zlen (ztake 4 (zdrop 1 (rx p))) = 4) as H4.
  { rewrite zlen_ztake_min, zlen_zdrop by lia. lia. }
  rewrite H4 in Hv. change (256 ^ 4) with (2 ^ 32) in Hv.
  split; [shell_lia|]. split; [exact K1|]. split; [exact K2|]. split; [exact K3|].
  split; [done|]. subst l. destruct (rx p) as [|b r]; [change (zlen []) with 0 in Hle; lia|].
  exists b, r. done.
Qed.

Lemma Read_under_way fuel (p : ShellProtocol S) : bytes_left_ p ≠ 0 → Read fuel p = Read_data fuel p.
Proof. intros Hb. unfold Read, Read_header. mred. by apply Z.eqb_neq in Hb as ->. Qed.

(** What a receiver has reached after [l] was read. *)
Record reached (c : Z) (p p' : ShellProtocol S) (l : list byte) : Prop := {
  re_ok : shell_ok c p';
  re_rx : rx p = l ++ rx p';
  re_tx : tx p' = tx p;
  re_retries : (retries p' ≤ retries p)%nat
}.

Lemma reached_trans c p p1 p2 l1 l2 :
  reached c p p1 l1 → reached c p1 p2 l2 → reached c p p2 (l1 ++ l2).
Proof.
  intros [? A1 A2 ?] [? B1 B2 ?]. split; [done| |congruence|lia]. by rewrite A1, B1, app_assoc.
Qed.

Lemma read_pieces fuel c n d tail (p : ShellProtocol S) :
  shell_ok c p → Z.of_nat (retries p) + c < Z.of_nat fuel → (length d ≤ n)%nat →
  bytes_left_ p = zlen d → rx p = d ++ tail →
  ∃ d1 ds p1 p', pieces n c d = d1 :: ds ∧ Read_data fuel p = Ret (true, p1) ∧
    id p1 = id p ∧ data p1 = d1 ∧
    read_packets fuel (length ds) p1 = Ret (Some (pair (id p) <$> ds), p') ∧
    reached c p p' d ∧ bytes_left_ p' = 0.
Proof.
  revert d p. induction n as [|n IH]; intros d p Hok Hf Hn Hb Hrx;
    destruct (Read_data_spec fuel c p Hok Hf) as (p1 & E & Hok1 & K1 & K2 & K3 & Hp1);
    rewrite Hb, Hrx in *; pose proof (zlen_nonneg tail); pose proof (zlen_nonneg d);
    rewrite zlen_app, bool_decide_eq_true_2 in E, Hp1 by lia;
    destruct Hp1 as (Hd & Hid & Hleft).
  - assert (d = []) as -> by (destruct d; [done|simpl in Hn; lia]).
    change (zlen []) with 0 in *. rewrite Z.min_l in Hd, K1, Hleft by (destruct Hok; lia).
    rewrite ztake_0 in Hd, K1.
    exists [], [], p1, p1. split_and!; [done|done|done|done|done| |lia].
    split; [done| |done|lia]. cbn [app] in *. by rewrite Hrx.
  - cbn [pieces]. destruct (Z.leb_spec (zlen d) c) as [Hle|Hgt].
    + rewrite Z.min_l in Hd, K1, Hleft by lia. rewrite ztake_app_exact in Hd, K1 by done.
      apply app_inv_head in K1.
      exists d, [], p1, p1. split_and!; [done|done|done|done|done| |lia].
      split; [done| |done|lia]. by rewrite Hrx, K1.
    + rewrite Z.min_r in Hd, K1, Hleft by lia. destruct (sh_cap c p Hok).
      assert (ztake c (d ++ tail) = ztake c d) as Hc.
      { unfold ztake, zlen in *. apply take_app_le. lia. }
      rewrite Hc in Hd, K1. rewrite <- (ztake_zdrop c d) in K1 at 1.
      rewrite <- app_assoc in K1. apply app_inv_head in K1.
      destruct (IH (zdrop c d) p1) as (d1 & ds & p2 & p' & Ep & E2 & Hid2 & Hd2 & E3 & Hre & Hl);
        [done|lia| |rewrite zlen_zdrop by (destruct Hok; lia); lia|done|].
      { unfold zdrop. rewrite length_drop. destruct Hok. unfold zlen in *. lia. }
      exists (ztake c d), (pieces n c (zdrop c d)), p1, p'. split_and!; [done|done|done|done| | |done].
      * rewrite Ep. cbn [read_packets length]. unfold mbind, M_bind.
        rewrite Read_under_way by (destruct Hok; rewrite Hleft; lia). rewrite E2. cbv beta iota.
        unfold get. cbv beta iota. rewrite E3. cbv beta iota. rewrite Hid2, Hid, Hd2. done.
      * rewrite <- (ztake_zdrop c d). eapply reached_trans; [|exact Hre]. split; [done| |done|lia].
        rewrite Hrx, <- K1, app_assoc, ztake_zdrop. done.
Qed.

Lemma pieces_spec n c d : 0 < c → (length d ≤ n)%nat →
  concat (pieces n c d) = d ∧ Forall (λ x, zlen x ≤ c) (pieces n c d).
Proof.
  intros Hc. revert d. induction n as [|n IH]; intros d Hn; cbn [pieces].
  { assert (d = []) as -> by (destruct d; [done|simpl in Hn; lia]).
    split; [done|]. constructor; [|constructor]. change (zlen []) with 0. lia. }
  destruct (Z.leb_spec (zlen d) c) as [Hle|Hgt].
  { split; [apply app_nil_r|]. by constructor. }
  destruct (IH (zdrop c d)) as [H1 H2].
  { unfold zdrop. rewrite length_drop. unfold zlen in *. lia. }
  split; [cbn [concat]; rewrite H1; apply ztake_zdrop|].
  constructor; [|done]. rewrite zlen_ztake_min by lia. lia.
Qed.

(** One whole packet, in as many pieces as it takes. *)
Lemma read_packet fuel c i d tail (p : ShellProtocol S) :
  shell_ok c p → Z.of_nat (retries p) + Z.max c kHeaderSize < Z.of_nat fuel → bytes_left_ p = 0 →
  0 ≤ i < 128 → zlen d < 2 ^ 32 → rx p = packet_bytes (i, d) ++ tail →
  ∃ p', read_packets fuel (length (received c (i, d))) p = Ret (Some (received c (i, d)), p') ∧
    reached c p p' (packet_bytes (i, d)) ∧ bytes_left_ p' = 0.
Proof.
  intros Hok Hf Hb Hi Hd Hrx. pose proof kHeaderSize_eq. pose proof (zlen_nonneg d).
  destruct (Read_header_spec fuel c p Hok ltac:(lia) Hb) as (p1 & E & Hok1 & K1 & K2 & K3 & Hp1).
  unfold packet_bytes in Hrx. cbn [fst snd] in Hrx.
  set (h := z2b i :: le_bytes 4 (zlen d)) in *.
  assert (zlen h = kHeaderSize) as Hh.
  { subst h. rewrite zlen_cons, zlen_le_bytes. done. }
  assert (rx p = h ++ d ++ tail) as Hrx' by (rewrite Hrx; subst h; cbn [app]; by rewrite <- app_assoc).
  rewrite bool_decide_eq_true_2 in E, Hp1.
  2,3: rewrite Hrx', zlen_app; pose proof (zlen_nonneg (d ++ tail)); lia.
  destruct Hp1 as (Hl & b & l & Hbl & Hid).
  rewrite Hrx', ztake_app_exact in K1 by done. apply app_inv_head in K1.
  assert (bytes_left_ p1 = zlen d) as Hl1.
  { rewrite Hl, Hrx. subst h. cbn [app]. change (zdrop 1 (z2b i :: ?x)) with x.
    change (zdrop 1 (z2b i :: (le_bytes 4 (zlen d) ++ d) ++ tail)) with ((le_bytes 4 (zlen d) ++ d) ++ tail).
    rewrite <- app_assoc, ztake_app_exact by (by rewrite zlen_le_bytes).
    rewrite le_val_le_bytes. apply Z.mod_small. change (256 ^ Z.of_nat 4) with (2 ^ 32). lia. }
  assert (id p1 = i) as Hid1.
  { rewrite Hrx in Hbl. cbn [app] in Hbl. injection Hbl as <- _. rewrite Hid, b2z_z2b.
    rewrite Z.mod_small by lia. unfold sgn. rewrite Z.mod_small by (cbn; lia).
    destruct (Z.ltb_spec i (2 ^ (8 - 1))) as [|Hge]; [done|]. change (2 ^ (8 - 1)) with 128 in Hge. lia. }
  destruct (read_pieces fuel c (length d) d tail p1)
    as (d1 & ds & p2 & p' & Ep & E2 & Hid2 & Hd2 & E3 & Hre & Hl'); [done|lia|lia|done|done|].
  exists p'. split_and!; [|apply (reached_trans c p p1 p' h d); [split; [done|by rewrite Hrx', K1|done|done]|done]|done].
  unfold received, fragments. cbn [fst snd]. rewrite Ep. cbn [fmap list_fmap length read_packets].
  rewrite length_fmap. unfold mbind, M_bind, Read. unfold mbind, M_bind. rewrite E. cbv beta iota.
  cbn [negb]. rewrite E2. cbv beta iota. unfold get. cbv beta iota.
  rewrite E3. cbv beta iota. rewrite Hid2, Hid1, Hd2. done.
Qed.

Lemma read_packets_app fuel a b (p p1 p2 : ShellProtocol S) l1 l2 :
  read_packets fuel a p = Ret (Some l1, p1) → read_packets fuel b p1 = Ret (Some l2, p2) →
  read_packets fuel (a + b) p = Ret (Some (l1 ++ l2), p2).
Proof.
  revert p l1. induction a as [|a IH]; intros p l1 E1 E2.
  { cbn in E1. injection E1 as <- <-. exact E2. }
  cbn [read_packets Nat.add] in *. unfold mbind, M_bind in *.
  destruct (Read fuel p) as [[[|] q]| |]; try discriminate. unfold get in *. cbv beta iota in *.
  destruct (read_packets fuel a q) as [[[l|] q']| |] eqn:E; try discriminate.
  cbn in E1. injection E1 as <- ->. rewrite (IH q l E E2). done.
Qed.

(** *** Sending *)
Lemma send_packet_spec fuel i d (p : ShellProtocol S) :
  zlen d < 2 ^ 32 → kHeaderSize + zlen d ≤ zlen (buffer_ p) →
  Z.of_nat (retries p) + kHeaderSize + zlen d < Z.of_nat fuel →
  ∃ p', send_packet fuel (i, d) p = Ret (true, p') ∧ zlen (buffer_ p') = zlen (buffer_ p) ∧
    rx p' = rx p ∧ tx p' = tx p ++ packet_bytes (i, d) ∧ (retries p' ≤ retries p)%nat.
Proof.
  intros Hd Hb Hf. pose proof kHeaderSize_eq. pose proof (zlen_nonneg d).
  unfold send_packet, Write, mbind, M_bind. cbn [fst snd].
  rewrite store_ok by lia. cbv beta iota. rewrite u32_small by lia.
  set (B1 := ztake kHeaderSize (buffer_ p) ++ d ++ zdrop (kHeaderSize + zlen d) (buffer_ p)).
  assert (zlen B1 = zlen (buffer_ p)) as HB1z by (apply zlen_stored; lia).
  rewrite store_ok by (cbn [buffer_]; change (zlen [_]) with 1; lia). cbv beta iota.
  cbn [buffer_ fd_ data_length_ bytes_left_ buffer_end_]. change (zlen [z2b i]) with 1.
  rewrite ztake_0, Z.add_0_l, app_nil_l. set (B2 := [z2b i] ++ zdrop 1 B1).
  assert (zlen B2 = zlen (buffer_ p)) as HB2z.
  { subst B2. rewrite zlen_app, zlen_zdrop by lia. change (zlen [_]) with 1. lia. }
  rewrite store_ok by (cbn [buffer_]; rewrite zlen_le_bytes; lia). cbv beta iota.
  cbn [buffer_ fd_ data_length_ bytes_left_ buffer_end_]. rewrite zlen_le_bytes.
  set (B3 := ztake 1 B2 ++ le_bytes 4 (zlen d) ++ zdrop (1 + Z.of_nat 4) B2).
  assert (B3 = packet_bytes (i, d) ++ zdrop (kHeaderSize + zlen d) (buffer_ p)) as HB3.
  { subst B3 B2. rewrite ztake_app_exact by done. unfold packet_bytes. cbn [fst snd app]. f_equal.
    rewrite <- app_assoc. f_equal. change (zdrop (1 + Z.of_nat 4) (z2b i :: ?x)) with (zdrop 4 x).
    change (zdrop (1 + Z.of_nat 4) (z2b i :: zdrop 1 B1)) with (zdrop 4 (zdrop 1 B1)).
    rewrite zdrop_zdrop by lia. subst B1. apply zdrop_app_exact. rewrite zlen_ztake; lia. }
  assert (zlen (packet_bytes (i, d)) = kHeaderSize + zlen d) as HP.
  { unfold packet_bytes. cbn [fst snd]. rewrite zlen_cons, zlen_app, zlen_le_bytes. lia. }
  assert (zlen B3 = zlen (buffer_ p)) as HB3z.
  { rewrite HB3, zlen_app, HP, zlen_zdrop by lia. lia. }
  unfold get, m_assert. cbv beta iota. cbn [buffer_]. rewrite HB3z.
  destruct (Z.leb_spec (kHeaderSize + zlen d) (zlen (buffer_ p))); [|lia].
  assert (ztake (kHeaderSize + zlen d) B3 = packet_bytes (i, d)) as -> by (rewrite HB3; by apply ztake_app_exact). unfold on_fd. cbn [fd_].
  unfold retries, rx, tx in *. destruct (fd_ p) as [s e]. cbn [io_fd] in *.
  destruct (WriteFdExactly_spec fuel (packet_bytes (i, d)) s e) as (s' & e' & -> & A1 & A2 & A3);
    [lia|].
  eexists. split; [reflexivity|]. cbn [fd_ buffer_ io_fd]. done.
Qed.

End reading.

(** ** Claims *)

Definition packet_ok (cap : Z) (pk : Z * list byte) : Prop :=
  0 ≤ pk.1 < 128 ∧ kHeaderSize + zlen pk.2 ≤ cap ∧ zlen pk.2 < 2 ^ 32.

(** C12: shell packets arrive as they were sent, in pieces the receiver has room
    for.  For any two descriptors that behave like byte streams, any packets
    that fit the sender's buffer and a receiver with room for [c] bytes of data:
    every [Write] succeeds, and the [Read]s return for each packet, in order, its
    id with consecutive pieces of its data, each at most [c] bytes long and
    together the data; a packet without data is returned once. *)
Theorem shell_packets_roundtrip {S1 S2} `{StreamFd S1} `{StreamFd S2} fuel c pks rest
    (w : ShellProtocol S1) (r : ShellProtocol S2) :
  Forall (packet_ok (zlen (buffer_ w))) pks → shell_ok c r → bytes_left_ r = 0 →
  Z.of_nat (retries w) + zlen (buffer_ w) < Z.of_nat fuel →
  Z.of_nat (retries r) + Z.max c kHeaderSize < Z.of_nat fuel →
  rx r = (pks ≫= packet_bytes) ++ rest →
  ∃ w' r', send_packets fuel pks w = Ret (true, w') ∧ tx w' = tx w ++ (pks ≫= packet_bytes) ∧
    read_packets fuel (length (pks ≫= received c)) r = Ret (Some (pks ≫= received c), r') ∧
    rx r' = rest ∧
    ∀ i d, (i, d) ∈ pks → concat (fragments c d) = d ∧ Forall (λ x, zlen x ≤ c) (fragments c d).
Proof.
  revert w r. induction pks as [|[i d] pks IH]; intros w r Hpk Hok Hb Hfw Hfr Hrx.
  { exists w, r. cbn [mbind list_bind] in *. rewrite app_nil_r.
    split_and!; [done|done|done|done|]. intros ? ? Hin. by apply not_elem_of_nil in Hin. }
  apply Forall_cons in Hpk as [(Hi & Hcap & Hlen) Hpk]. cbn [fst snd] in *.
  cbn [mbind list_bind] in Hrx |- *. rewrite <- app_assoc in Hrx.
  destruct (send_packet_spec fuel i d w) as (w1 & Ew & Hbw & _ & Htx & Hrw); [done|done|lia|].
  destruct (read_packet fuel c i d (mbind packet_bytes pks ++ rest) r)
    as (r1 & Er & [Hok1 K1 K2 K3] & Hb1); [done|lia|done|done|done|done|].
  rewrite Hrx in K1. apply app_inv_head in K1.
  destruct (IH w1 r1) as (w' & r' & Ew' & Htx' & Er' & Hrx' & Hfrag);
    [by rewrite Hbw|done|done|lia|lia|done|].
  exists w', r'. cbn [send_packets]. unfold mbind at 1, M_bind. rewrite Ew. cbv beta iota.
  split; [exact Ew'|]. split; [by rewrite Htx', Htx, <- app_assoc|].
  rewrite length_app. split; [by eapply read_packets_app|]. split; [exact Hrx'|].
  intros i' d' [[= -> ->]|Hin]%elem_of_cons; [|by eapply Hfrag].
  apply pieces_spec; [apply (sh_cap c r Hok)|lia].
Qed.

Definition ex_shell (cap : nat) (p : pipe) : ShellProtocol pipe :=
  mk_shell (mk_io p 0) (replicate (5 + cap) x00) 0 0 (5 + Z.of_nat cap).

Lemma shell_packets_roundtrip_witness :
  let pks := [(kIdStdin, bs "ls -l"); (kIdCloseStdin, []); (kIdStdout, bs "ab")] in
  let w := ex_shell 8 (mk_pipe [] [] [Piece 3; WouldBlock]) in
  let r := ex_shell 2 (mk_pipe ((pks ≫= packet_bytes) ++ bs "x") [] [Interrupted; Piece 1]) in
  ∃ w' r', send_packets 40 pks w = Ret (true, w') ∧ tx w' = tx w ++ (pks ≫= packet_bytes) ∧
    read_packets 40 5 r
      = Ret (Some [(0, bs "ls"); (0, bs " -"); (0, bs "l"); (4, []); (1, bs "ab")], r') ∧
    rx r' = bs "x".
Proof.
  intros pks w r.
  destruct (shell_packets_roundtrip 40 2 pks (bs "x") w r) as (w' & r' & E1 & H1 & E2 & H2 & _).
  - repeat (apply Forall_cons; split; [split_and!; vm_compute; congruence|]). apply Forall_nil. exact I.
  - split; vm_compute; (split; congruence) || congruence.
  - reflexivity.
  - vm_compute. reflexivity.
  - vm_compute. reflexivity.
  - reflexivity.
  - exists w', r'. split; [exact E1|]. split; [exact H1|]. split; [exact E2|exact H2].
Defined.

(** The bytes of the stream [s] that one [Read] wants when [left] bytes of a
    packet are still to come: the next piece of that packet, or the header of a
    new one with its first piece. *)
Definition needed (c left : Z) (s : list byte) : Z :=
  if left =? 0 then kHeaderSize + Z.min (le_val (ztake 4 (zdrop 1 s))) c else Z.min left c.

Lemma rx_ended {A} n (s s' : list A) : s = ztake n s ++ s' → zlen s < n → s' = [].
Proof.
  intros E Hn. rewrite ztake_all in E by lia. apply (f_equal length) in E.
  rewrite length_app in E. apply length_zero_iff_nil. lia.
Qed.

(** C15: no peer can make [Read] overrun its buffer, hang or lose its place.
    Whatever bytes are on the stream, [Read] returns and leaves the object
    consistent, with at most [data_capacity()] bytes of data.  It returns true
    if and only if the stream holds all the bytes it needs (the header of a new
    packet and the first piece of its data, or the next piece of a packet under
    way); then it has consumed exactly these, [data()] is that piece, [id()] the
    id of the packet, and what is left of the packet is counted.  It returns
    false if and only if the stream ends before, and then the whole stream is
    consumed and [errno] is 0. *)
Theorem shell_read_safe {S} `{StreamFd S} fuel c (p : ShellProtocol S) :
  shell_ok c p → Z.of_nat (retries p) + Z.max c kHeaderSize < Z.of_nat fuel →
  let fresh := bytes_left_ p =? 0 in
  let n := needed c (bytes_left_ p) (rx p) in
  ∃ ok p', Read fuel p = Ret (ok, p') ∧ reached c p p' (ztake n (rx p)) ∧
    (ok = true ↔ n ≤ zlen (rx p)) ∧
    (ok = true →
       data p' = zdrop (if fresh then kHeaderSize else 0) (ztake n (rx p)) ∧
       id p' = (if fresh then match rx p with b :: _ => sgn 8 (b2z b) | [] => 0 end else id p) ∧
       bytes_left_ p' + zlen (data p') =
         (if fresh then le_val (ztake 4 (zdrop 1 (rx p))) else bytes_left_ p)) ∧
    (ok = false → rx p' = [] ∧ io_errno (fd_ p') = 0).
Proof.
  intros Hok Hf fresh n. unfold needed in n. pose proof (sh_cap c p Hok) as Hc.
  pose proof (sh_left c p Hok) as Hl. pose proof kHeaderSize_eq as H5.
  unfold fresh, n in *. destruct (Z.eqb_spec (bytes_left_ p) 0) as [Hb|Hb].
  - destruct (Read_header_spec fuel c p Hok) as (p1 & E & Hok1 & K1 & K2 & K3 & Hp1); [lia|done|].
    unfold Read, mbind, M_bind. rewrite E. cbv beta iota. set (L := le_val _) in *.
    assert (0 ≤ L) as HL by apply le_val_range.
    destruct (bool_decide_reflect (kHeaderSize ≤ zlen (rx p))) as [Hle|Hgt]; cbn [negb].
    + destruct Hp1 as (HL1 & b & r & Hrx & Hid1).
      destruct (Read_data_spec fuel c p1 Hok1) as (p' & E' & Hok' & J1 & J2 & J3 & Hp'); [lia|].
      rewrite HL1 in E', J1, Hp'. set (k := Z.min L c) in *.
      assert (zlen (rx p1) = zlen (rx p) - kHeaderSize) as Hz.
      { pose proof (f_equal zlen K1) as K. rewrite zlen_app, zlen_ztake in K by lia. lia. }
      assert (ztake (kHeaderSize + k) (rx p) = ztake kHeaderSize (rx p) ++ ztake k (rx p1)) as Htk.
      { pose proof K1 as K. rewrite <- (ztake_zdrop kHeaderSize (rx p)) in K at 1.
        apply app_inv_head in K. rewrite <- K. apply ztake_split; lia. }
      eexists _, p'. split; [exact E'|]. rewrite Htk.
      split; [apply (reached_trans c p p1 p'); by split|]. rewrite bool_decide_eq_true.
      split; [lia|]. split; intros Hd.
      * rewrite bool_decide_eq_true_2 in Hp' by done. destruct Hp' as (Hd' & Hid' & Hleft).
        rewrite Hd', zdrop_app_exact by (rewrite zlen_ztake; lia). split; [done|].
        rewrite Hid', Hid1, Hrx. split; [done|]. rewrite zlen_ztake by lia. lia.
      * rewrite Hd in Hp'. apply bool_decide_eq_false in Hd. split; [|done].
        by apply (rx_ended k (rx p1)); [|lia].
    + exists false, p1. split; [done|]. pose proof (rx_ended _ _ _ K1 ltac:(lia)) as Hnil.
      split.
      { split; try done. rewrite ztake_all by lia. rewrite ztake_all in K1 by lia. done. }
      split; [split; [done|lia]|]. by split.
  - rewrite Read_under_way by done.
    destruct (Read_data_spec fuel c p Hok) as (p' & E & Hok' & K1 & K2 & K3 & Hp'); [lia|].
    eexists _, p'. split; [exact E|]. split; [by split|]. rewrite bool_decide_eq_true.
    split; [done|]. split; intros Hd.
    + rewrite bool_decide_eq_true_2 in Hp' by done. destruct Hp' as (Hd' & Hid' & Hleft).
      rewrite Hd', zdrop_0, zlen_ztake by lia. split_and!; [done|done|lia].
    + rewrite Hd in Hp'. apply bool_decide_eq_false in Hd. split; [|done].
      by apply (rx_ended _ (rx p) _ K1); lia.
Qed.

(** One piece of a packet of six bytes for a receiver with room for four. *)
Lemma shell_read_safe_witness :
  let p := ex_shell 4 (mk_pipe (packet_bytes (1, bs "abcdef")) [] [Piece 1; Interrupted]) in
  ∃ p', Read 20 p = Ret (true, p') ∧ reached 4 p p' (ztake 9 (packet_bytes (1, bs "abcdef"))) ∧
    data p' = bs "abcd" ∧ id p' = 1 ∧ bytes_left_ p' + 4 = 6.
Proof.
  intros p. destruct (shell_read_safe 20 4 p) as (ok & p' & E & Hre & [_ Hok] & Htrue & _).
  - split; vm_compute; (split; congruence) || congruence.
  - vm_compute. reflexivity.
  - specialize (Hok ltac:(vm_compute; congruence)). subst ok.
    destruct (Htrue eq_refl) as (Hd & Hid & Hleft). exists p'.
    assert (data p' = bs "abcd") as Hd' by (rewrite Hd; vm_compute; reflexivity).
    rewrite Hd' in Hleft. split_and!; [exact E|exact Hre|exact Hd'|exact Hid|exact Hleft].
Defined.

(** A new object does not report [kIdInvalid] where [char] is signed. *)
Example fresh_id garbage (fd : io pipe) : id (ShellProtocol_new garbage fd) = -1.
Proof. reflexivity. Qed.
