(* ===== verification/AdbPackets.v ===== *)
(** Packets and transports of adb (packages/modules/adb: types.h, adb.h, adb.cpp,
    transport.h, transport.cpp): the message header and its checks, the state a
    transport negotiates with CNXN (version, payload size, features, delayed
    acknowledgements), the banner both sides exchange, the list of reverse
    forwards, and packets on a stream ([FdConnection]).

    A payload is the list of its bytes.  [config] gathers what the build and the
    environment fix: host or daemon, ADB_DELAYED_ACK, the banner, the product
    properties of the device and whether it asks for keys. *)

From Stdlib Require Import Strings.String.
From stdpp Require Import gmap.
From S2P Require Import Prelude LibBase AdbIo.
Open Scope Z_scope.

#[export] Instance byte_countable : Countable byte :=
  inj_countable' (λ b, Byte.to_N b) (λ n, default x00 (Byte.of_N n))
    (λ b, f_equal (default x00) (Byte.of_to_N b)).

(** ** Constants *)

Definition MAX_PAYLOAD_V1 : Z := 4 * 1024.
Definition INITIAL_DELAYED_ACK_BYTES : Z := 32 * 1024 * 1024.
Definition A_SYNC : Z := 0x434e5953.
Definition A_CNXN : Z := 0x4e584e43.
Definition A_OPEN : Z := 0x4e45504f.
Definition A_OKAY : Z := 0x59414b4f.
Definition A_CLSE : Z := 0x45534c43.
Definition A_WRTE : Z := 0x45545257.
Definition A_AUTH : Z := 0x48545541.
Definition A_STLS : Z := 0x534C5453.
Definition A_VERSION_MIN : Z := 0x01000000.
Definition A_VERSION_SKIP_CHECKSUM : Z := 0x01000001.
Definition A_VERSION : Z := 0x01000001.
Definition A_STLS_VERSION : Z := 0x01000000.
Definition ADB_AUTH_TOKEN : Z := 1.
Definition ADB_AUTH_SIGNATURE : Z := 2.
Definition ADB_AUTH_RSAPUBLICKEY : Z := 3.

(** ** Packets *)

Record amessage : Type := mk_amessage {
  command : Z;
  arg0 : Z;
  arg1 : Z;
  data_length : Z;
  data_check : Z;
  magic : Z
}.

Record apacket : Type := mk_apacket { msg : amessage; payload : list byte }.

(** [get_apacket] followed by the assignments of the callers. *)
Definition packet (cmd a0 a1 : Z) (data : list byte) : apacket :=
  mk_apacket (mk_amessage cmd a0 a1 (u32 (zlen data)) 0 0) data.

(** The payload is indexed up to [data_length], which callers keep within it. *)
Definition calculate_apacket_checksum (p : apacket) : Z :=
  foldl (fun sum b => u32 (sum + b2z b)) 0 (ztake (data_length (msg p)) (payload p)).

(** What [send_packet] fills in. *)
Definition finish_packet (protocol_version : Z) (p : apacket) : apacket :=
  let m := msg p in
  mk_apacket
    (mk_amessage (command m) (arg0 m) (arg1 m) (data_length m)
       (if protocol_version >=? A_VERSION_SKIP_CHECKSUM then 0 else calculate_apacket_checksum p)
       (Z.lxor (command m) 0xffffffff))
    (payload p).

(** ** Strings of libbase *)

(** [Split] for one delimiter. *)
Fixpoint Split (s : list byte) (delim : byte) : list (list byte) :=
  match s with
  | [] => [[]]
  | c :: s =>
      if decide (c = delim) then [] :: Split s delim
      else match Split s delim with
           | piece :: rest => (c :: piece) :: rest
           | [] => [[c]]
           end
  end.

Fixpoint Join (things : list (list byte)) (separator : byte) : list byte :=
  match things with
  | [] => []
  | [x] => x
  | x :: rest => x ++ separator :: Join rest separator
  end.

Definition ConsumePrefix (s prefix : list byte) : option (list byte) :=
  if StartsWith s prefix then Some (zdrop (zlen prefix) s) else None.

(** [find(c)]: the position of the first [c]. *)
Fixpoint find_byte (c : byte) (s : list byte) : option nat :=
  match s with
  | [] => None
  | x :: s => if decide (x = c) then Some O else S <$> find_byte c s
  end.

Fixpoint strip_front_nulls (s : list byte) : list byte :=
  match s with
  | c :: s' => if decide (c = x00) then strip_front_nulls s' else s
  | [] => []
  end.

Definition StripTrailingNulls (s : list byte) : list byte :=
  reverse (strip_front_nulls (reverse s)).

(** ** Build and environment *)

Record config : Type := mk_config {
  ADB_HOST : bool;
  delayed_ack_enabled : bool;             (* ADB_DELAYED_ACK=1, host only *)
  adb_device_banner : list byte;
  cnxn_values : list byte * list byte * list byte;  (* the three properties, device only *)
  auth_required : bool
}.

(** ** Features *)

Definition kFeatureDelayedAck : list byte := bs "delayed_ack".

Definition supported_features (c : config) : list (list byte) :=
  [bs "shell_v2"; bs "cmd"; bs "stat_v2"; bs "ls_v2"; bs "fixed_push_mkdir"; bs "apex"; bs "abb";
   bs "fixed_push_symlink_timestamp"; bs "abb_exec"; bs "remount_shell"; bs "track_app";
   bs "sendrecv_v2"; bs "sendrecv_v2_brotli"; bs "sendrecv_v2_lz4"; bs "sendrecv_v2_zstd";
   bs "sendrecv_v2_dry_run_send"; bs "openscreen_mdns"]
  ++ (if ADB_HOST c then if delayed_ack_enabled c then [kFeatureDelayedAck] else []
      else [kFeatureDelayedAck]).

Definition FeatureSetToString (features : list (list byte)) : list byte := Join features x2c.

Definition StringToFeatureSet (s : list byte) : list (list byte) :=
  if decide (s = []) then [] else Split s x2c.

Definition CanUseFeature (c : config) (feature_set : list (list byte)) (f : list byte) : bool :=
  bool_decide (f ∈ feature_set) && bool_decide (f ∈ supported_features c).

(** ** [class atransport] *)

Inductive ConnectionState : Type :=
| kCsAny | kCsConnecting | kCsAuthorizing | kCsUnauthorized | kCsNoPerm | kCsDetached | kCsOffline
| kCsBootloader | kCsDevice | kCsHost | kCsRecovery | kCsSideload | kCsRescue.

#[export] Instance ConnectionState_eq_dec : EqDecision ConnectionState.
Proof. solve_decision. Defined.

Definition ConnectionStateIsOnline (s : ConnectionState) : bool :=
  match s with
  | kCsBootloader | kCsDevice | kCsHost | kCsRecovery | kCsSideload | kCsRescue => true
  | _ => false
  end.

(** [to_string]; the text for kCsNoPerm depends on the platform. *)
Definition ConnectionState_to_string (no_perm : list byte) (s : ConnectionState) : list byte :=
  match s with
  | kCsOffline => bs "offline"
  | kCsBootloader => bs "bootloader"
  | kCsDevice => bs "device"
  | kCsHost => bs "host"
  | kCsRecovery => bs "recovery"
  | kCsRescue => bs "rescue"
  | kCsNoPerm => no_perm
  | kCsSideload => bs "sideload"
  | kCsUnauthorized => bs "unauthorized"
  | kCsAuthorizing => bs "authorizing"
  | kCsConnecting => bs "connecting"
  | kCsAny | kCsDetached => bs "unknown"
  end.

(** [keys_] are the private keys still to try, [outbox] the packets handed to the
    connection; [write_ok] says whether the connection takes packets. *)
Record atransport : Type := mk_atransport {
  connection_state : ConnectionState;
  online : bool;
  IsTcpDevice : bool;
  protocol_version : Z;
  max_payload : Z;
  features_ : list (list byte);
  delayed_ack_ : bool;
  product : list byte;
  model : list byte;
  device : list byte;
  use_tls : bool;
  token : list byte;
  failed_auth_attempts : Z;
  auth_key : list byte;
  auth_id : option Z;
  keys_ : list Z;
  reverse_forwards_ : gmap (list byte) (list byte);
  kicked_ : bool;
  write_ok : bool;
  outbox : list apacket
}.

Definition new_transport (s : ConnectionState) (tcp : bool) : atransport :=
  mk_atransport s false tcp A_VERSION_MIN MAX_PAYLOAD [] false [] [] [] false (zeros 20) 0 [] None [] ∅
    false true [].

(** Updates of one or two fields. *)
Definition set_connection_state (s : ConnectionState) (t : atransport) : atransport :=
  mk_atransport s (online t) (IsTcpDevice t) (protocol_version t) (max_payload t) (features_ t) (delayed_ack_ t)
    (product t) (model t) (device t) (use_tls t) (token t) (failed_auth_attempts t) (auth_key t)
    (auth_id t) (keys_ t) (reverse_forwards_ t) (kicked_ t) (write_ok t) (outbox t).
Definition set_online (b : bool) (t : atransport) : atransport :=
  mk_atransport (connection_state t) b (IsTcpDevice t) (protocol_version t) (max_payload t) (features_ t)
    (delayed_ack_ t) (product t) (model t) (device t) (use_tls t) (token t)
    (failed_auth_attempts t) (auth_key t) (auth_id t) (keys_ t) (reverse_forwards_ t) (kicked_ t)
    (write_ok t) (outbox t).
Definition set_features (f : list (list byte)) (d : bool) (t : atransport) : atransport :=
  mk_atransport (connection_state t) (online t) (IsTcpDevice t) (protocol_version t) (max_payload t) f d
    (product t) (model t) (device t) (use_tls t) (token t) (failed_auth_attempts t) (auth_key t)
    (auth_id t) (keys_ t) (reverse_forwards_ t) (kicked_ t) (write_ok t) (outbox t).
Definition set_names (n : list byte * list byte * list byte) (t : atransport) : atransport :=
  mk_atransport (connection_state t) (online t) (IsTcpDevice t) (protocol_version t) (max_payload t) (features_ t)
    (delayed_ack_ t) n.1.1 n.1.2 n.2 (use_tls t) (token t) (failed_auth_attempts t) (auth_key t)
    (auth_id t) (keys_ t) (reverse_forwards_ t) (kicked_ t) (write_ok t) (outbox t).
Definition set_use_tls (b : bool) (t : atransport) : atransport :=
  mk_atransport (connection_state t) (online t) (IsTcpDevice t) (protocol_version t) (max_payload t) (features_ t)
    (delayed_ack_ t) (product t) (model t) (device t) b (token t) (failed_auth_attempts t)
    (auth_key t) (auth_id t) (keys_ t) (reverse_forwards_ t) (kicked_ t) (write_ok t) (outbox t).
Definition set_auth (tok : list byte) (failed : Z) (key : list byte) (i : option Z) (t : atransport)
    : atransport :=
  mk_atransport (connection_state t) (online t) (IsTcpDevice t) (protocol_version t) (max_payload t) (features_ t)
    (delayed_ack_ t) (product t) (model t) (device t) (use_tls t) tok failed key i (keys_ t)
    (reverse_forwards_ t) (kicked_ t) (write_ok t) (outbox t).
Definition set_keys (k : list Z) (t : atransport) : atransport :=
  mk_atransport (connection_state t) (online t) (IsTcpDevice t) (protocol_version t) (max_payload t) (features_ t)
    (delayed_ack_ t) (product t) (model t) (device t) (use_tls t) (token t)
    (failed_auth_attempts t) (auth_key t) (auth_id t) k (reverse_forwards_ t) (kicked_ t)
    (write_ok t) (outbox t).
Definition set_reverse (r : gmap (list byte) (list byte)) (t : atransport) : atransport :=
  mk_atransport (connection_state t) (online t) (IsTcpDevice t) (protocol_version t) (max_payload t) (features_ t)
    (delayed_ack_ t) (product t) (model t) (device t) (use_tls t) (token t)
    (failed_auth_attempts t) (auth_key t) (auth_id t) (keys_ t) r (kicked_ t) (write_ok t) (outbox t).
Definition set_sent (kicked : bool) (o : list apacket) (t : atransport) : atransport :=
  mk_atransport (connection_state t) (online t) (IsTcpDevice t) (protocol_version t) (max_payload t) (features_ t)
    (delayed_ack_ t) (product t) (model t) (device t) (use_tls t) (token t)
    (failed_auth_attempts t) (auth_key t) (auth_id t) (keys_ t) (reverse_forwards_ t) kicked
    (write_ok t) o.

Definition update_version (version payload : Z) (t : atransport) : atransport :=
  mk_atransport (connection_state t) (online t) (IsTcpDevice t) (Z.min (i32 version) A_VERSION)
    (Z.min payload MAX_PAYLOAD) (features_ t) (delayed_ack_ t) (product t) (model t) (device t)
    (use_tls t) (token t) (failed_auth_attempts t) (auth_key t) (auth_id t) (keys_ t)
    (reverse_forwards_ t) (kicked_ t) (write_ok t) (outbox t).

Definition SetFeatures (c : config) (s : list byte) (t : atransport) : atransport :=
  let f := StringToFeatureSet s in
  set_features f (CanUseFeature c f kFeatureDelayedAck) t.

(** [send_packet] on a transport that exists. *)
Definition transport_send (p : apacket) (t : atransport) : atransport :=
  let p := finish_packet (protocol_version t) p in
  if write_ok t then set_sent (kicked_ t) (outbox t ++ [p]) t
  else set_sent true (outbox t) t.

Definition check_header (p : apacket) (t : atransport) : bool :=
  (magic (msg p) =? Z.lxor (command (msg p)) 0xffffffff)
  && negb (data_length (msg p) >? max_payload t).

(** ** The banner *)

Definition get_connection_string (c : config) : list byte :=
  let props :=
    if ADB_HOST c then []
    else [bs "ro.product.name=" ++ (cnxn_values c).1.1;
          bs "ro.product.model=" ++ (cnxn_values c).1.2;
          bs "ro.product.device=" ++ (cnxn_values c).2] in
  let props := props ++ [bs "features=" ++ FeatureSetToString (supported_features c)] in
  adb_device_banner c ++ bs "::" ++ Join props x3b.

Definition parse_prop (c : config) (t : atransport) (prop : list byte) : atransport :=
  if decide (prop = []) then t
  else match Split prop x3d with
       | [key; value] =>
           if decide (key = bs "ro.product.name") then set_names (value, model t, device t) t
           else if decide (key = bs "ro.product.model") then set_names (product t, value, device t) t
           else if decide (key = bs "ro.product.device") then set_names (product t, model t, value) t
           else if decide (key = bs "features") then SetFeatures c value t
           else t
       | _ => t
       end.

Definition banner_state (type : list byte) : ConnectionState :=
  if decide (type = bs "bootloader") then kCsBootloader
  else if decide (type = bs "device") then kCsDevice
  else if decide (type = bs "recovery") then kCsRecovery
  else if decide (type = bs "sideload") then kCsSideload
  else if decide (type = bs "rescue") then kCsRescue
  else kCsHost.

Definition parse_banner (c : config) (banner : list byte) (t : atransport) : atransport :=
  let pieces := Split banner x3a in
  let t := SetFeatures c [] t in
  let t := match pieces !! 2%nat with
           | Some props => foldl (parse_prop c) t (Split props x3b)
           | None => t
           end in
  set_connection_state (banner_state (default [] (pieces !! 0%nat))) t.

(** ** Reverse forwards *)

(** [None] is [LOG(FATAL)]. *)
Definition UpdateReverseConfig (service_addr : list byte) (t : atransport) : option atransport :=
  match ConsumePrefix service_addr (bs "reverse:") with
  | None => Some t
  | Some a =>
      match ConsumePrefix a (bs "forward:") with
      | Some a =>
          let '(norebind, a) := match ConsumePrefix a (bs "norebind:") with
                                | Some a => (true, a)
                                | None => (false, a)
                                end in
          match find_byte x3b a with
          | None => Some t
          | Some it =>
              let remote := take it a in
              if norebind && bool_decide (is_Some (reverse_forwards_ t !! remote)) then Some t
              else Some (set_reverse (<[remote := drop (S it) a]> (reverse_forwards_ t)) t)
          end
      | None =>
          match ConsumePrefix a (bs "killforward:") with
          | Some a =>
              match find_byte x3b a with
              | Some _ => Some t
              | None => Some (set_reverse (delete a (reverse_forwards_ t)) t)
              end
          | None =>
              if decide (a = bs "killforward-all") then Some (set_reverse ∅ t)
              else if decide (a = bs "list-forward") then Some t
              else None
          end
      end
  end.

Definition IsReverseConfigured (local_addr : list byte) (t : atransport) : bool :=
  existsb (fun kv => bool_decide (kv.2 = local_addr)) (map_to_list (reverse_forwards_ t)).

(** ** [FdConnection] without TLS *)

Section fd_connection.
Context {S : Type} `{AdbFd S}.

(** [amessage] in memory. *)
Definition msg_bytes (m : amessage) : list byte :=
  le_bytes 4 (command m) ++ le_bytes 4 (arg0 m) ++ le_bytes 4 (arg1 m)
  ++ le_bytes 4 (data_length m) ++ le_bytes 4 (data_check m) ++ le_bytes 4 (magic m).

Definition msg_of_bytes (b : list byte) : amessage :=
  let w i := le_val (ztake 4 (zdrop (4 * i) b)) in
  mk_amessage (w 0) (w 1) (w 2) (w 3) (w 4) (w 5).

Definition FdConnection_Read (fuel : nat) : M (io S) (option apacket) :=
  '(ok, b) ← ReadFdExactly fuel 24;
  if negb ok then mret None
  else
    let m := msg_of_bytes b in
    if data_length m >? MAX_PAYLOAD then mret None
    else
      '(ok, d) ← ReadFdExactly fuel (data_length m);
      if negb ok then mret None else mret (Some (mk_apacket m d)).

Definition FdConnection_Write (fuel : nat) (p : apacket) : M (io S) bool :=
  ok ← WriteFdExactly fuel (msg_bytes (msg p));
  if negb ok then mret false
  else if data_length (msg p) =? 0 then mret true
  else WriteFdExactly fuel (ztake (data_length (msg p)) (payload p)).
End fd_connection.
