(* ===== verification/AdbEnv.v ===== *)
(** The environment of the socket layer of adb: the monad of its handlers, the
    transports and file descriptors of a process, and the functions that only touch
    these (packages/modules/adb: adb.cpp, transport.cpp, client/auth.cpp,
    daemon/auth.cpp).

    The kernel decides every result of read and writev: a descriptor carries the
    results still to come ([rx], [tx]), what was written ([out]) and what was read
    from it so far ([consumed]).  Calls into parts that are not modelled are
    recorded in [calls]. *)

From Stdlib Require Import Strings.String.
From stdpp Require Import gmap.
From S2P Require Import Prelude LibBase AdbIo AdbPackets.
Open Scope Z_scope.

(** ** State passing with stops

    A run stops in a failed CHECK, in LOG(FATAL), with an access through a null or
    dangling pointer or beyond a buffer, in exit(0), or for lack of fuel. *)
Inductive stop : Type := StopCheck | StopFatal | StopBadPointer | StopExit | StopFuel.

(** State passing with these stops. *)
Definition SP (S A : Type) : Type := S → stop + A * S.
#[export] Instance SP_ret {S} : MRet (SP S) := fun A a s => inr (a, s).
#[export] Instance SP_bind {S} : MBind (SP S) := fun A B f m s =>
  match m s with inl e => inl e | inr (a, s') => f a s' end.

Definition halt {S A} (e : stop) : SP S A := fun _ => inl e.
Definition gets {S A} (f : S → A) : SP S A := fun s => inr (f s, s).
Definition modp {S} (f : S → S) : SP S unit := fun s => inr (tt, f s).
Definition check {S} (b : bool) : SP S unit := if b then mret tt else halt StopCheck.
Definition ofopt {S A} (e : stop) (o : option A) : SP S A :=
  match o with Some a => mret a | None => halt e end.
Definition ofout {S A} (o : outcome A) : SP S A :=
  match o with Ret a => mret a | AssertFail => halt StopCheck | OutOfFuel => halt StopFuel end.

(** ** Transports and descriptors *)

Inductive rd_result : Type := RdData (d : list byte) | RdAgain | RdErr.
Inductive wr_result : Type := WrTake (n : Z) | WrAgain | WrErr.
Inductive fd_out : Type := OutData (d : list byte) | OutOkay | OutFail (reason : list byte).

Record kfd : Type := mk_kfd {
  rx : list rd_result;
  tx : list wr_result;
  consumed : list byte;
  out : list fd_out
}.

Inductive extcall : Type :=
| deferred_close (f : Z)
| RunDisconnects (t : Z)
| auth_tls_handshake (t : Z)
| notify_connected_key (t : Z)
| prompt_user (t : Z)
| sleep_1s.

Record env : Type := mk_env {
  transports : gmap Z atransport;
  fds : gmap Z kfd;
  calls : list extcall
}.

Abbreviation ENV := (SP env).

Definition get_transport (t : Z) : ENV atransport :=
  m ← gets transports; ofopt StopBadPointer (m !! t).
Definition mod_transport (t : Z) (f : atransport → atransport) : ENV unit :=
  a ← get_transport t; modp (fun e => mk_env (<[t := f a]> (transports e)) (fds e) (calls e)).

Definition call (c : extcall) : ENV unit :=
  modp (fun e => mk_env (transports e) (fds e) (calls e ++ [c])).

Definition get_fd (f : Z) : ENV kfd := m ← gets fds; ofopt StopBadPointer (m !! f).
Definition put_fd (f : Z) (k : kfd) : ENV unit :=
  modp (fun e => mk_env (transports e) (<[f := k]> (fds e)) (calls e)).

(** The result of a system call: a count, or -1 with errno EAGAIN or another. *)
Inductive sysret : Type := SysN (n : Z) | SysAgain | SysErr.

Definition adb_read (f avail : Z) : ENV (sysret * list byte) :=
  k ← get_fd f;
  match rx k with
  | [] => mret (SysAgain, [])
  | RdAgain :: r => put_fd f (mk_kfd r (tx k) (consumed k) (out k));; mret (SysAgain, [])
  | RdErr :: r => put_fd f (mk_kfd r (tx k) (consumed k) (out k));; mret (SysErr, [])
  | RdData d :: r =>
      let got := ztake avail d in
      let r := if zlen d <=? avail then r else RdData (zdrop avail d) :: r in
      put_fd f (mk_kfd r (tx k) (consumed k ++ got) (out k));;
      mret (SysN (zlen got), got)
  end.

(** Linux transfers at most 0x7ffff000 bytes at once. *)
Definition adb_writev (f : Z) (b : list byte) : ENV sysret :=
  k ← get_fd f;
  match tx k with
  | [] => mret SysAgain
  | WrAgain :: w => put_fd f (mk_kfd (rx k) w (consumed k) (out k));; mret SysAgain
  | WrErr :: w => put_fd f (mk_kfd (rx k) w (consumed k) (out k));; mret SysErr
  | WrTake n :: w =>
      let put := ztake (Z.min n 0x7ffff000) b in
      put_fd f (mk_kfd (rx k) w (consumed k) (out k ++ [OutData put]));;
      mret (SysN (zlen put))
  end.

(** The read loop of [local_socket_flush_outgoing]; [true] for the end of the stream or an error.  Every round but
    the last uses up one result of the kernel. *)
Fixpoint read_loop (fuel : nat) (f avail : Z) (data : list byte) : ENV (list byte * bool) :=
  if avail >? 0 then
    match fuel with
    | O => halt StopFuel
    | S fuel =>
        '(r, d) ← adb_read f avail;
        match r with
        | SysAgain => mret (data, false)
        | SysErr => mret (data, true)
        | SysN n =>
            if n >? 0 then read_loop fuel f (avail - n) (data ++ d) else mret (data, true)
        end
    end
  else mret (data, false).

(** [SendOkay] and [SendFail] (their bytes are those of AdbIo). *)
Definition send_status (f : Z) (o : fd_out) : ENV unit :=
  k ← get_fd f; put_fd f (mk_kfd (rx k) (tx k) (consumed k) (out k ++ [o])).

Section env_ops.
Context (c : config).

(** ** Packets sent *)

Definition send_packet (p : apacket) (t : Z) : ENV unit := mod_transport t (transport_send p).

Definition send_ready (local remote t ack_bytes : Z) : ENV unit :=
  a ← get_transport t;
  send_packet (packet A_OKAY local remote (if delayed_ack_ a then le_bytes 4 ack_bytes else [])) t.

Definition send_close (local remote t : Z) : ENV unit :=
  send_packet (packet A_CLSE local remote []) t.

Definition send_tls_request (t : Z) : ENV unit :=
  send_packet (packet A_STLS A_STLS_VERSION 0 []) t.

Definition send_connect (t : Z) : ENV unit :=
  a ← get_transport t;
  let s := get_connection_string c in
  if zlen s >? MAX_PAYLOAD_V1 then halt StopFatal
  else send_packet (packet A_CNXN A_VERSION (max_payload a) s) t.

Definition handle_online (t : Z) : ENV unit := mod_transport t (set_online true).

(** ** Authentication *)

(** Private keys of the host with the signatures they make ([None]: signing
    failed), the public key it offers, the token of the daemon (or no entropy) and
    its verification. *)
Context (private_keys : list Z) (sign : Z → list byte → option (list byte)).
Context (user_key : list byte).
Context (fresh_token : option (list byte)) (verify : list byte → list byte → option (list byte)).
Context (new_auth_id : Z).

(** [NextKey] *)
Definition NextKey (t : Z) : ENV (option Z) :=
  a ← get_transport t;
  keys ← (match keys_ a with
          | [] => check (negb (bool_decide (private_keys = [])));; mret private_keys
          | _ :: ks => mret ks
          end);
  mod_transport t (set_keys keys);;
  mret (head keys).

Definition send_auth_publickey (t : Z) : ENV unit :=
  if bool_decide (user_key = []) || (zlen user_key >=? MAX_PAYLOAD_V1) then mret tt
  else send_packet (packet A_AUTH ADB_AUTH_RSAPUBLICKEY 0 (user_key ++ [x00])) t.

Definition send_auth_response (tok : list byte) (t : Z) : ENV unit :=
  k ← NextKey t;
  match k with
  | None => mod_transport t (set_connection_state kCsUnauthorized);; send_auth_publickey t
  | Some k =>
      match sign k tok with
      | None => mret tt
      | Some sig => send_packet (packet A_AUTH ADB_AUTH_SIGNATURE 0 sig) t
      end
  end.

Definition send_auth_request (t : Z) : ENV unit :=
  match fresh_token with
  | None => mret tt
  | Some tok =>
      mod_transport t (fun a => set_auth tok (failed_auth_attempts a) (auth_key a) (auth_id a) a);;
      send_packet (packet A_AUTH ADB_AUTH_TOKEN 0 tok) t
  end.

Definition adbd_auth_verified (t : Z) : ENV unit := handle_online t;; send_connect t.
End env_ops.

(** ** States that contain an environment *)

Class HasEnv (S : Type) := {
  env_of : S → env;
  with_env : env → S → S
}.

Definition on_env {S} `{HasEnv S} {A} (m : ENV A) : SP S A := fun s =>
  match m (env_of s) with inl e => inl e | inr (a, v) => inr (a, with_env v s) end.
