(* ===== verification/AdbSockets.v ===== *)
(** The sockets of adb (packages/modules/adb/sockets.cpp, socket.h): local sockets
    bound to a file descriptor, remote sockets bound to a transport, and the queues
    between them.

    The state [proc] is that of one adb process: a heap of [asocket]s addressed by
    pointers (an access to a freed or null pointer stops the run with
    [StopBadPointer]), the two socket lists, and the environment.  Virtual calls go
    through the function pointers stored in the socket. *)

From Stdlib Require Import Strings.String.
From stdpp Require Import gmap.
From S2P Require Import Prelude LibBase AdbIo IOVector AdbPackets AdbEnv.
Open Scope Z_scope.

(** ** State *)

Abbreviation ptr := Z (only parsing).

Inductive enqueue_fn : Type := local_socket_enqueue_fn | remote_socket_enqueue_fn.
Inductive ready_fn : Type :=
| local_socket_ready_fn | local_socket_ready_notify_fn | remote_socket_ready_fn.
Inductive shutdown_fn : Type := remote_socket_shutdown_fn.
Inductive close_fn : Type :=
| local_socket_close_fn | local_socket_close_notify_fn | remote_socket_close_fn.

(** [fde_read] and [fde_write] are the bits of [fde->state]. *)
Record asocket : Type := mk_asocket {
  as_id : Z;
  closing : bool;
  has_write_error : bool;
  exit_on_close : bool;
  peer : option ptr;
  enqueue : enqueue_fn;
  ready : ready_fn;
  shutdown : option shutdown_fn;
  close : close_fn;
  transport : option Z;
  fde_read : bool;
  fde_write : bool;
  fd : Z;
  packet_queue : IOVector;
  available_send_bytes : option Z     (* int64_t *)
}.

Record proc : Type := mk_proc {
  heap : gmap ptr asocket;
  next_ptr : ptr;
  local_socket_list : list ptr;
  local_socket_closing_list : list ptr;
  local_socket_next_id : Z;           (* unsigned *)
  next_fd : Z;
  proc_env : env
}.

Definition set_heap (h : gmap ptr asocket) (s : proc) : proc :=
  mk_proc h (next_ptr s) (local_socket_list s) (local_socket_closing_list s)
    (local_socket_next_id s) (next_fd s) (proc_env s).
Definition set_lists (l cl : list ptr) (s : proc) : proc :=
  mk_proc (heap s) (next_ptr s) l cl (local_socket_next_id s) (next_fd s) (proc_env s).

#[export] Instance proc_HasEnv : HasEnv proc := {|
  env_of := proc_env;
  with_env v s := mk_proc (heap s) (next_ptr s) (local_socket_list s)
    (local_socket_closing_list s) (local_socket_next_id s) (next_fd s) v
|}.

(** Updates of an [asocket]. *)
Definition set_flags (cl err : bool) (s : asocket) : asocket :=
  mk_asocket (as_id s) cl err (exit_on_close s) (peer s) (enqueue s) (ready s) (shutdown s) (close s)
    (transport s) (fde_read s) (fde_write s) (fd s) (packet_queue s) (available_send_bytes s).
Definition set_peer (p : option ptr) (s : asocket) : asocket :=
  mk_asocket (as_id s) (closing s) (has_write_error s) (exit_on_close s) p (enqueue s) (ready s)
    (shutdown s) (close s) (transport s) (fde_read s) (fde_write s) (fd s) (packet_queue s)
    (available_send_bytes s).
Definition set_fns (r : ready_fn) (sh : option shutdown_fn) (c : close_fn) (s : asocket) : asocket :=
  mk_asocket (as_id s) (closing s) (has_write_error s) (exit_on_close s) (peer s) (enqueue s) r sh c
    (transport s) (fde_read s) (fde_write s) (fd s) (packet_queue s) (available_send_bytes s).
Definition set_transport (t : option Z) (s : asocket) : asocket :=
  mk_asocket (as_id s) (closing s) (has_write_error s) (exit_on_close s) (peer s) (enqueue s)
    (ready s) (shutdown s) (close s) t (fde_read s) (fde_write s) (fd s) (packet_queue s)
    (available_send_bytes s).
Definition set_fde (r w : bool) (s : asocket) : asocket :=
  mk_asocket (as_id s) (closing s) (has_write_error s) (exit_on_close s) (peer s) (enqueue s)
    (ready s) (shutdown s) (close s) (transport s) r w (fd s) (packet_queue s)
    (available_send_bytes s).
Definition set_queue (q : IOVector) (s : asocket) : asocket :=
  mk_asocket (as_id s) (closing s) (has_write_error s) (exit_on_close s) (peer s) (enqueue s)
    (ready s) (shutdown s) (close s) (transport s) (fde_read s) (fde_write s) (fd s) q
    (available_send_bytes s).
Definition set_available (a : option Z) (s : asocket) : asocket :=
  mk_asocket (as_id s) (closing s) (has_write_error s) (exit_on_close s) (peer s) (enqueue s)
    (ready s) (shutdown s) (close s) (transport s) (fde_read s) (fde_write s) (fd s)
    (packet_queue s) a.
Definition set_exit_on_close (s : asocket) : asocket :=
  mk_asocket (as_id s) (closing s) (has_write_error s) true (peer s) (enqueue s) (ready s)
    (shutdown s) (close s) (transport s) (fde_read s) (fde_write s) (fd s) (packet_queue s)
    (available_send_bytes s).

Abbreviation P := (SP proc).

(** [*s] *)
Definition deref (l : ptr) : P asocket := h ← gets heap; ofopt StopBadPointer (h !! l).
(** An assignment to fields of [*s]. *)
Definition assign (l : ptr) (f : asocket → asocket) : P unit :=
  s ← deref l; modp (fun st => set_heap (<[l := f s]> (heap st)) st).
(** [new asocket()] *)
Definition new_asocket (s : asocket) : P ptr := fun st =>
  inr (next_ptr st,
       mk_proc (<[next_ptr st := s]> (heap st)) (next_ptr st + 1) (local_socket_list st)
         (local_socket_closing_list st) (local_socket_next_id st) (next_fd st) (proc_env st)).
(** [delete s] *)
Definition delete_asocket (l : ptr) : P unit :=
  _ ← deref l; modp (fun st => set_heap (delete l (heap st)) st).

(** ** The socket lists *)

(** The loop of [find_local_socket]: the first socket with the id decides. *)
Fixpoint find_in (l : list ptr) (local_id peer_id : Z) : P (option ptr) :=
  match l with
  | [] => mret None
  | p :: l =>
      s ← deref p;
      if negb (as_id s =? local_id) then find_in l local_id peer_id
      else if peer_id =? 0 then mret (Some p)
      else match peer s with
           | None => mret None
           | Some q => r ← deref q; mret (if as_id r =? peer_id then Some p else None)
           end
  end.

Definition find_local_socket (local_id peer_id : Z) : P (option ptr) :=
  l ← gets local_socket_list; find_in l local_id peer_id.

Definition install_local_socket (p : ptr) : P unit :=
  n ← gets local_socket_next_id;
  assign p (fun s => mk_asocket n (closing s) (has_write_error s) (exit_on_close s) (peer s)
    (enqueue s) (ready s) (shutdown s) (close s) (transport s) (fde_read s) (fde_write s) (fd s)
    (packet_queue s) (available_send_bytes s));;
  if u32 (n + 1) =? 0 then halt StopFatal
  else modp (fun st => mk_proc (heap st) (next_ptr st) (local_socket_list st ++ [p])
    (local_socket_closing_list st) (u32 (n + 1)) (next_fd st) (proc_env st)).

Definition remove_socket (p : ptr) : P unit :=
  modp (fun st => set_lists (filter (fun x => x ≠ p) (local_socket_list st))
                            (filter (fun x => x ≠ p) (local_socket_closing_list st)) st).

(** ** fdevent *)

Definition fdevent_read (b : bool) (p : ptr) : P unit :=
  assign p (fun s => set_fde b (fde_write s) s).
Definition fdevent_write (b : bool) (p : ptr) : P unit :=
  assign p (fun s => set_fde (fde_read s) b s).

(** ** Remote sockets *)

(** [s->peer->id] *)
Definition peer_id (s : asocket) : P Z :=
  q ← ofopt StopBadPointer (peer s); r ← deref q; mret (as_id r).

(** [send_packet(p, s->transport)] *)
Definition send_on (s : asocket) (p : apacket) : P unit :=
  t ← ofopt StopFatal (transport s); on_env (send_packet p t).

Definition remote_socket_enqueue (p : ptr) (data : list byte) : P Z :=
  s ← deref p;
  i ← peer_id s;
  if zlen data >? MAX_PAYLOAD then mret (-1)
  else send_on s (packet A_WRTE i (as_id s) data);; mret 1.

Definition remote_socket_ready (p : ptr) : P unit :=
  s ← deref p; i ← peer_id s; send_on s (packet A_OKAY i (as_id s) []).

Definition remote_socket_shutdown (p : ptr) : P unit :=
  s ← deref p;
  i ← (match peer s with Some q => r ← deref q; mret (as_id r) | None => mret 0 end);
  send_on s (packet A_CLSE i (as_id s) []).

Definition remote_socket_close (close_peer : ptr → P unit) (p : ptr) : P unit :=
  s ← deref p;
  (match peer s with
   | Some q => assign q (set_peer None);; close_peer q
   | None => mret tt
   end);;
  delete_asocket p.

Definition create_remote_socket (id t : Z) : P ptr :=
  if id =? 0 then halt StopFatal
  else new_asocket (mk_asocket id false false false None remote_socket_enqueue_fn
    remote_socket_ready_fn (Some remote_socket_shutdown_fn) remote_socket_close_fn (Some t)
    false false (-1) iov_new None).

(** ** Local sockets: closing *)

Definition asocket_shutdown (p : ptr) : P unit :=
  s ← deref p;
  match shutdown s with
  | Some remote_socket_shutdown_fn => remote_socket_shutdown p
  | None => mret tt
  end.

Definition local_socket_destroy (p : ptr) : P unit :=
  s ← deref p;
  on_env (call (deferred_close (fd s)));;
  remove_socket p;;
  delete_asocket p;;
  if exit_on_close s then halt StopExit else mret tt.

(** Destroy the socket, or keep it until its queue is written. *)
Definition close_or_linger (p : ptr) : P unit :=
  s ← deref p;
  if closing s || has_write_error s || (iov_size (packet_queue s) =? 0)
  then local_socket_destroy p
  else
    assign p (set_flags true (has_write_error s));;
    fdevent_read false p;;
    remove_socket p;;
    modp (fun st => set_lists (local_socket_list st) (local_socket_closing_list st ++ [p]) st);;
    s ← deref p;
    check (fde_write s).

Definition local_socket_close (close_peer : ptr → P unit) (p : ptr) : P unit :=
  s ← deref p;
  (match peer s with
   | Some q =>
       asocket_shutdown q;;
       assign q (set_peer None);;
       close_peer q;;
       assign p (set_peer None)
   | None => mret tt
   end);;
  close_or_linger p.

Definition local_socket_close_notify (close_self : ptr → P unit) (p : ptr) : P unit :=
  assign p (set_fns local_socket_ready_fn None local_socket_close_fn);;
  s ← deref p;
  on_env (send_status (fd s) (OutFail (bs "closed")));;
  close_self p.

(** [s->close(s)].  The calls nest at most three deep (notify, local, remote). *)
Fixpoint asocket_close_fuel (fuel : nat) (p : ptr) : P unit :=
  match fuel with
  | O => halt StopFuel
  | S fuel =>
      s ← deref p;
      match close s with
      | local_socket_close_fn => local_socket_close (asocket_close_fuel fuel) p
      | local_socket_close_notify_fn => local_socket_close_notify (asocket_close_fuel fuel) p
      | remote_socket_close_fn => remote_socket_close (asocket_close_fuel fuel) p
      end
  end.

Definition asocket_close : ptr → P unit := asocket_close_fuel 4.

(** ** Local sockets: ready and flow control *)

Definition local_socket_ready (p : ptr) : P unit := fdevent_read true p.

Definition local_socket_ready_notify (p : ptr) : P unit :=
  assign p (set_fns local_socket_ready_fn None local_socket_close_fn);;
  s ← deref p;
  on_env (send_status (fd s) OutOkay);;
  local_socket_ready p.

Definition asocket_ready (p : ptr) : P unit :=
  s ← deref p;
  match ready s with
  | local_socket_ready_fn => local_socket_ready p
  | local_socket_ready_notify_fn => local_socket_ready_notify p
  | remote_socket_ready_fn => remote_socket_ready p
  end.

Definition local_socket_ack (p : ptr) (acked_bytes : option Z) : P unit :=
  s ← deref p;
  match available_send_bytes s, acked_bytes with
  | Some a, Some n =>
      assign p (set_available (Some (i64 (a + n))));;
      if i64 (a + n) >? 0 then asocket_ready p else mret tt
  | None, None => asocket_ready p
  | _, _ => mret tt
  end.

(** ** Local sockets: data *)

Inductive SocketFlushResult : Type := Destroyed | TryAgain | Completed.

(** The first half of [local_socket_flush_incoming]: write the queue to the descriptor; the number of bytes taken. *)
Definition flush_queue (p : ptr) : P Z :=
  s ← deref p;
  if iov_size (packet_queue s) =? 0 then mret 0
  else
    iov ← ofout (iovecs (packet_queue s));
    rc ← on_env (adb_writev (fd s) (concat iov));
    match rc with
    | SysN n =>
        if n >? 0 then
          q ← (if n =? iov_size (packet_queue s) then mret (clear (packet_queue s)).2
               else ofout (drop_front (packet_queue s) n));
          assign p (set_queue q);;
          mret (u32 n)
        else assign p (fun s => set_flags (closing s) true s);; mret 0
    | SysAgain => mret 0
    | SysErr => assign p (fun s => set_flags (closing s) true s);; mret 0
    end.

Definition local_socket_flush_incoming (p : ptr) : P SocketFlushResult :=
  bytes_flushed ← flush_queue p;
  s ← deref p;
  let fd_full := negb (iov_size (packet_queue s) =? 0) && negb (has_write_error s) in
  (match transport s, peer s with
   | Some t, Some _ =>
       i ← peer_id s;
       match available_send_bytes s with
       | Some _ => on_env (send_ready (as_id s) i t bytes_flushed)
       | None => if bytes_flushed =? 0 then mret tt else on_env (send_ready (as_id s) i t 0)
       end
   | _, _ => mret tt
   end);;
  if closing s && negb fd_full then asocket_close p;; mret Destroyed
  else if fd_full then fdevent_write true p;; mret TryAgain
  else fdevent_write false p;; mret Completed.

Definition local_socket_enqueue (p : ptr) (data : list byte) : P Z :=
  assign p (fun s => set_queue (append (packet_queue s) (block_of data)) s);;
  r ← local_socket_flush_incoming p;
  match r with
  | Destroyed => mret (-1)
  | TryAgain => mret 1
  | Completed => mret 0
  end.

Definition asocket_enqueue (p : ptr) (data : list byte) : P Z :=
  s ← deref p;
  match enqueue s with
  | local_socket_enqueue_fn => local_socket_enqueue p data
  | remote_socket_enqueue_fn => remote_socket_enqueue p data
  end.

Definition get_max_payload (p : ptr) : P Z :=
  s ← deref p;
  m1 ← (match transport s with
        | Some t => a ← on_env (get_transport t); mret (Z.min MAX_PAYLOAD (max_payload a))
        | None => mret MAX_PAYLOAD
        end);
  match peer s with
  | Some q =>
      r ← deref q;
      match transport r with
      | Some t => a ← on_env (get_transport t); mret (Z.min m1 (max_payload a))
      | None => mret m1
      end
  | None => mret m1
  end.

(** The middle of [local_socket_flush_outgoing]: pass the bytes on; [false] when the peer closed this socket. *)
Definition send_outgoing (p : ptr) (data : list byte) : P bool :=
  s ← deref p;
  match data, peer s with
  | _ :: _, Some q =>
      (match available_send_bytes s with
       | Some a => assign p (set_available (Some (i64 (a - zlen data))))
       | None => mret tt
       end);;
      r ← asocket_enqueue q data;
      if r <? 0 then mret false
      else if r >? 0 then
        s ← deref p;
        (match available_send_bytes s with
         | Some a => if a <=? 0 then fdevent_read false p else mret tt
         | None => fdevent_read false p
         end);;
        mret true
      else mret true
  | _, _ => mret true
  end.

Definition local_socket_flush_outgoing (p : ptr) : P bool :=
  max_payload ← get_max_payload p;
  s ← deref p;
  k ← on_env (get_fd (fd s));
  '(data, is_eof) ← on_env (read_loop (S (length (rx k))) (fd s) max_payload []);
  go_on ← send_outgoing p data;
  if negb go_on then mret false
  else if is_eof : bool then asocket_close p;; mret false
  else mret true.

(** [ev]: whether FDE_READ and FDE_WRITE are set.  FDE_ERROR only logs. *)
Definition local_socket_event_func (p : ptr) (ev_read ev_write : bool) : P unit :=
  destroyed ← (if ev_write then
                 r ← local_socket_flush_incoming p;
                 mret (match r with Destroyed => true | _ => false end)
               else mret false);
  if destroyed : bool then mret tt
  else if ev_read then local_socket_flush_outgoing p;; mret tt
  else mret tt.

(** ** Local sockets: creation *)

(** [k] is the descriptor that is passed in: the kernel numbers it freshly. *)
Definition create_local_socket (k : kfd) : P ptr :=
  f ← gets next_fd;
  modp (fun st => mk_proc (heap st) (next_ptr st) (local_socket_list st)
    (local_socket_closing_list st) (local_socket_next_id st) (f + 1) (proc_env st));;
  on_env (put_fd f k);;
  p ← new_asocket (mk_asocket 0 false false false None local_socket_enqueue_fn
    local_socket_ready_fn None local_socket_close_fn None false false f iov_new None);
  install_local_socket p;;
  mret p.

(** ** Closing the sockets of a transport *)

Fixpoint first_on (l : list ptr) (t : Z) : P (option ptr) :=
  match l with
  | [] => mret None
  | p :: l =>
      s ← deref p;
      if bool_decide (transport s = Some t) then mret (Some p)
      else match peer s with
           | None => first_on l t
           | Some q =>
               r ← deref q;
               if bool_decide (transport r = Some t) then mret (Some p) else first_on l t
           end
  end.

Fixpoint close_all_loop (fuel : nat) (t : Z) : P unit :=
  l ← gets local_socket_list;
  f ← first_on l t;
  match f with
  | None => mret tt
  | Some p =>
      match fuel with
      | O => halt StopFuel
      | S fuel => asocket_close p;; close_all_loop fuel t
      end
  end.

(** Every round takes one socket off the list. *)
Definition close_all_sockets (t : Z) : P unit :=
  l ← gets local_socket_list; close_all_loop (length l) t.

