(* ===== verification/AdbMain.v ===== *)
(** [handle_packet] and the event loop of adb (packages/modules/adb: adb.cpp, the
    parts of sockets.cpp and transport.cpp that open and take down connections,
    fdevent), written against [SocketLayer], the operations on local sockets they
    use.  Host and daemon are the two values of [ADB_HOST].  The sockets of
    AdbSockets are one instance; the connection table of AdbConn is the other. *)

From Stdlib Require Import Strings.String.
From stdpp Require Import gmap.
From S2P Require Import Prelude LibBase AdbIo IOVector AdbPackets AdbEnv AdbSockets.
Open Scope Z_scope.

(** ** The interface *)

Class SocketLayer (S : Type) `{HasEnv S} := {
  sl_find : Z → Z → SP S (option ptr);          (* find_local_socket *)
  sl_create : kfd → SP S ptr;                   (* create_local_socket *)
  sl_id : ptr → SP S Z;                         (* s->id *)
  sl_fd : ptr → SP S Z;                         (* s->fd *)
  sl_transport : ptr → SP S (option Z);         (* s->transport *)
  sl_peer : ptr → SP S (option (Z * option Z)); (* s->peer->id and s->peer->transport *)
  sl_set_transport : ptr → Z → SP S unit;
  sl_set_exit : ptr → SP S unit;                (* s->exit_on_close = 1 *)
  sl_set_available : ptr → Z → SP S unit;
  sl_instrument : ptr → SP S unit;              (* ready and close report to the client *)
  sl_attach : ptr → Z → Z → SP S unit;          (* s->peer = create_remote_socket(id, t) *)
  sl_ready : ptr → SP S unit;                   (* s->ready(s) *)
  sl_ack : ptr → option Z → SP S unit;          (* local_socket_ack *)
  sl_close : ptr → SP S unit;                   (* s->close(s) *)
  sl_enqueue : ptr → list byte → SP S Z;        (* s->enqueue(s, data) *)
  sl_max_payload : ptr → SP S Z;                (* s->get_max_payload() *)
  sl_close_all : Z → SP S unit;                 (* close_all_sockets *)
  sl_fde : ptr → SP S (option (bool * bool));   (* FDE_READ and FDE_WRITE of s->fde *)
  sl_event : ptr → bool → bool → SP S unit      (* local_socket_event_func *)
}.

(** ** The sockets of the program *)

(** [s->peer = create_remote_socket(id, t); s->peer->peer = s;] *)
Definition attach_remote (p : ptr) (id t : Z) : P unit :=
  q ← create_remote_socket id t;
  assign p (set_peer (Some q));;
  assign q (set_peer (Some p)).

Definition peer_info (p : ptr) : P (option (Z * option Z)) :=
  s ← deref p;
  match peer s with
  | None => mret None
  | Some q => r ← deref q; mret (Some (as_id r, transport r))
  end.

(** [None]: no socket of that address has a descriptor any more. *)
Definition fde_state (p : ptr) : P (option (bool * bool)) :=
  h ← gets heap;
  mret (match h !! p with
        | Some s => match close s with
                    | remote_socket_close_fn => None
                    | _ => Some (fde_read s, fde_write s)
                    end
        | None => None
        end).

Definition instrument (p : ptr) : P unit :=
  assign p (set_fns local_socket_ready_notify_fn None local_socket_close_notify_fn);;
  assign p (set_peer None).

#[export] Instance proc_SocketLayer : SocketLayer proc := {|
  sl_find := find_local_socket;
  sl_create := create_local_socket;
  sl_id p := s ← deref p; mret (as_id s);
  sl_fd p := s ← deref p; mret (fd s);
  sl_transport p := s ← deref p; mret (transport s);
  sl_peer := peer_info;
  sl_set_transport p t := assign p (set_transport (Some t));
  sl_set_exit p := assign p set_exit_on_close;
  sl_set_available p n := assign p (set_available (Some n));
  sl_instrument := instrument;
  sl_attach := attach_remote;
  sl_ready := asocket_ready;
  sl_ack := local_socket_ack;
  sl_close := asocket_close;
  sl_enqueue := asocket_enqueue;
  sl_max_payload := get_max_payload;
  sl_close_all := close_all_sockets;
  sl_fde := fde_state;
  sl_event := local_socket_event_func
|}.

(** ** What surrounds the process

    [service_to_fd] starts a service and gives the descriptor it is reached by
    (services of the daemon that bring a socket of their own kind,
    [daemon_service_to_socket], are not covered); the user id and whether the build
    is debuggable; the private keys of the host, the signatures they make ([None]:
    signing failed) and the public key it offers; the token of the daemon (or no
    entropy), the verification of signatures and the ids of its key prompts. *)
Record world : Type := mk_world {
  cfg : config;
  service_to_fd : list byte → Z → option kfd;
  uid : Z;
  debuggable : bool;
  private_keys : list Z;
  sign : Z → list byte → option (list byte);
  user_key : list byte;
  fresh_token : option (list byte);
  verify : list byte → list byte → option (list byte);
  new_auth_id : Z
}.

Section main.
Context (w : world) {S : Type} `{SocketLayer S}.
Abbreviation c := (cfg w).
Abbreviation PS := (SP S).

(** ** Opening connections *)

Definition wants_exit_on_close (name : list byte) : bool :=
  (StartsWith name (bs "root:") && negb (uid w =? 0) && debuggable w)
  || (StartsWith name (bs "unroot:") && (uid w =? 0))
  || StartsWith name (bs "usb:") || StartsWith name (bs "tcpip:").

Definition create_local_service_socket (name : list byte) (t : Z) : PS (option ptr) :=
  match service_to_fd w name t with
  | None => mret None
  | Some k =>
      p ← sl_create k;
      sl_set_transport p t;;
      (if negb (ADB_HOST c) && wants_exit_on_close name then sl_set_exit p else mret tt);;
      mret (Some p)
  end.

Definition connect_to_remote (p : ptr) (destination : list byte) : PS unit :=
  o ← sl_transport p;
  t ← ofopt StopBadPointer o;
  (if ADB_HOST c then
     a ← on_env (get_transport t);
     a' ← ofopt StopFatal (UpdateReverseConfig destination a);
     on_env (mod_transport t (fun _ => a'))
   else mret tt);;
  i ← sl_id p;
  a ← on_env (get_transport t);
  (if delayed_ack_ a then sl_set_available p 0 else mret tt);;
  let pkt := packet A_OPEN i (if delayed_ack_ a then INITIAL_DELAYED_ACK_BYTES else 0)
               (destination ++ [x00]) in
  m ← sl_max_payload p;
  check (data_length (msg pkt) <=? m);;
  on_env (send_packet pkt t).

(** The end of [smart_socket_enqueue], for a client whose request names a device
    service: the client's socket is handed the transport and instrumented to report
    the outcome of the connection. *)
Definition smart_socket_connect (p : ptr) (t : Z) (service : list byte) : PS unit :=
  a ← on_env (get_transport t);
  if negb (ConnectionStateIsOnline (connection_state a)) then
    f ← sl_fd p;
    on_env (send_status f (OutFail (bs "device offline (transport offline)")));;
    sl_close p
  else
    sl_instrument p;;
    sl_set_transport p t;;
    connect_to_remote p service.

(** ** Transports going down *)

Definition handle_offline (t : Z) : PS unit :=
  a ← on_env (get_transport t);
  if decide (connection_state a = kCsOffline) then mret tt
  else
    on_env (mod_transport t (set_connection_state kCsOffline));;
    on_env (mod_transport t (set_online false));;
    sl_close_all t;;
    on_env (call (RunDisconnects t)).

(** A TCP device that was not kicked is kept for another attempt.  The removal is
    requested from the looper itself, which deletes the transport in a later
    iteration; here it is gone at once. *)
Definition transport_destroy (t : Z) : ENV unit :=
  a ← get_transport t;
  if ADB_HOST c && IsTcpDevice a && negb (kicked_ a) then mod_transport t (set_keys [])
  else modp (fun e => mk_env (delete t (transports e)) (fds e) (calls e)).

Definition HandleError (t : Z) : PS unit := handle_offline t;; on_env (transport_destroy t).

(** ** [handle_packet] *)

Definition handle_auth_host (p : apacket) (t : Z) : PS unit :=
  if arg0 (msg p) =? ADB_AUTH_TOKEN then
    a ← on_env (get_transport t);
    (if decide (connection_state a = kCsAuthorizing) then mret tt
     else on_env (mod_transport t (set_connection_state kCsAuthorizing)));;
    on_env (send_auth_response (private_keys w) (sign w) (user_key w) (payload p) t)
  else on_env (mod_transport t (set_connection_state kCsOffline));; handle_offline t.

Definition handle_auth_daemon (p : apacket) (t : Z) : PS unit :=
  if arg0 (msg p) =? ADB_AUTH_SIGNATURE then
    a ← on_env (get_transport t);
    match verify w (token a) (payload p) with
    | Some key =>
        on_env (adbd_auth_verified c t);;
        on_env (mod_transport t (fun a => set_auth (token a) 0 key (Some (new_auth_id w)) a));;
        on_env (call (notify_connected_key t))
    | None =>
        (if failed_auth_attempts a >? 256 then on_env (call sleep_1s) else mret tt);;
        on_env (mod_transport t (fun a => set_auth (token a) (u64 (failed_auth_attempts a + 1))
                                            (auth_key a) (auth_id a) a));;
        on_env (send_auth_request (fresh_token w) t)
    end
  else if arg0 (msg p) =? ADB_AUTH_RSAPUBLICKEY then
    (* a std::string from an array: it must contain its terminator *)
    if bool_decide (x00 ∈ payload p) then
      on_env (mod_transport t (fun a => set_auth (token a) (failed_auth_attempts a)
                                (c_str (payload p)) (Some (new_auth_id w)) a));;
      on_env (call (prompt_user t))
    else halt StopBadPointer
  else on_env (mod_transport t (set_connection_state kCsOffline));; handle_offline t.

Definition handle_new_connection (t : Z) (p : apacket) : PS unit :=
  handle_offline t;;
  on_env (mod_transport t (update_version (arg0 (msg p)) (arg1 (msg p))));;
  on_env (mod_transport t (parse_banner c (payload p)));;
  if ADB_HOST c then on_env (handle_online t)
  else
    a ← on_env (get_transport t);
    if use_tls a then on_env (send_tls_request t)
    else if negb (auth_required c) then on_env (handle_online t);; on_env (send_connect c t)
    else on_env (send_auth_request (fresh_token w) t).

Definition handle_open (p : apacket) (t : Z) : PS unit :=
  a ← on_env (get_transport t);
  if negb (online a) || (arg0 (msg p) =? 0) then mret tt
  else
    let send_bytes := arg1 (msg p) in
    if negb (Bool.eqb (delayed_ack_ a) (negb (send_bytes =? 0)))
    then on_env (send_close 0 (arg0 (msg p)) t)
    else
      let address := StripTrailingNulls (payload p) in
      (if ADB_HOST c then
         (* address.data() becomes a std::string: it must contain its terminator *)
         if negb (bool_decide (x00 ∈ payload p)) then halt StopBadPointer
         else if negb (IsReverseConfigured (c_str (payload p)) a) then halt StopFatal
         else mret tt
       else mret tt);;
      o ← create_local_service_socket address t;
      match o with
      | None => on_env (send_close 0 (arg0 (msg p)) t)
      | Some s =>
          sl_attach s (arg0 (msg p)) t;;
          i ← sl_id s;
          (if delayed_ack_ a then
             sl_set_available s send_bytes;;
             on_env (send_ready i (arg0 (msg p)) t INITIAL_DELAYED_ACK_BYTES)
           else on_env (send_ready i (arg0 (msg p)) t 0));;
          sl_ready s
      end.

(** [None]: the payload has a size no acknowledgement has. *)
Definition acked (p : apacket) : option (option Z) :=
  if zlen (payload p) =? 4 then Some (Some (i32 (le_val (payload p))))
  else if zlen (payload p) =? 0 then Some None
  else None.

Definition handle_okay (p : apacket) (t : Z) : PS unit :=
  a ← on_env (get_transport t);
  if negb (online a) || (arg0 (msg p) =? 0) || (arg1 (msg p) =? 0) then mret tt
  else
    o ← sl_find (arg1 (msg p)) 0;
    match o with
    | None => on_env (send_close (arg1 (msg p)) (arg0 (msg p)) t)
    | Some s =>
        match acked p with
        | None => mret tt
        | Some ack =>
            q ← sl_peer s;
            match q with
            | None => sl_attach s (arg0 (msg p)) t;; sl_ack s ack;; sl_ready s
            | Some (i, _) => if i =? arg0 (msg p) then sl_ack s ack else mret tt
            end
        end
    end.

Definition handle_clse (p : apacket) (t : Z) : PS unit :=
  a ← on_env (get_transport t);
  if negb (online a) || (arg1 (msg p) =? 0) then mret tt
  else
    o ← sl_find (arg1 (msg p)) (arg0 (msg p));
    match o with
    | None => mret tt
    | Some s =>
        q ← sl_peer s;
        let other := match q with
                     | Some (_, t') => negb (bool_decide (t' = Some t))
                     | None => false
                     end in
        if (arg0 (msg p) =? 0) && other then mret tt else sl_close s
    end.

Definition handle_wrte (p : apacket) (t : Z) : PS unit :=
  a ← on_env (get_transport t);
  if negb (online a) || (arg0 (msg p) =? 0) || (arg1 (msg p) =? 0) then mret tt
  else
    o ← sl_find (arg1 (msg p)) (arg0 (msg p));
    match o with
    | None => mret tt
    | Some s => sl_enqueue s (payload p);; mret tt
    end.

Definition handle_packet (p : apacket) (t : Z) : PS unit :=
  check (zlen (payload p) =? data_length (msg p));;
  let cmd := command (msg p) in
  if cmd =? A_CNXN then handle_new_connection t p
  else if cmd =? A_STLS then
    on_env (mod_transport t (set_use_tls true));;
    (if ADB_HOST c then on_env (send_tls_request t) else mret tt);;
    on_env (call (auth_tls_handshake t))
  else if cmd =? A_AUTH then
    a ← on_env (get_transport t);
    if use_tls a then mret tt
    else if ADB_HOST c then handle_auth_host p t else handle_auth_daemon p t
  else if cmd =? A_OPEN then handle_open p t
  else if cmd =? A_OKAY then handle_okay p t
  else if cmd =? A_CLSE then handle_clse p t
  else if cmd =? A_WRTE then handle_wrte p t
  else mret tt.

(** ** The event loop *)

(** What the looper thread is woken for: a packet from a connection, a descriptor
    with poll results (IN, OUT, and hang-up or error), a client that asks for a
    service, and the end of a connection.  [EvKernel] is the kernel having more
    results ready. *)
Inductive event : Type :=
| EvPacket (t : Z) (p : apacket)
| EvPoll (p : ptr) (pin pout hup : bool)
| EvConnect (k : kfd) (t : Z) (service : list byte)
| EvKernel (f : Z) (r : list rd_result) (x : list wr_result)
| EvHandleError (t : Z).

(** epoll reports IN and OUT only when asked for; hang-ups and errors are always
    reported and turned into a read. *)
Definition poll_event (p : ptr) (pin pout hup : bool) : PS unit :=
  o ← sl_fde p;
  match o with
  | None => mret tt
  | Some (r, x) => sl_event p ((pin && r) || hup) (pout && x)
  end.

(** The header is checked when the packet is read and the packet handled when the
    looper gets to it. *)
Definition HandleRead (t : Z) (p : apacket) : PS unit :=
  a ← on_env (get_transport t);
  if check_header p a then handle_packet p t else mret tt.

Definition kernel_event (f : Z) (r : list rd_result) (x : list wr_result) : ENV unit :=
  k ← get_fd f; put_fd f (mk_kfd (rx k ++ r) (tx k ++ x) (consumed k) (out k)).

Definition handle_event (e : event) : PS unit :=
  match e with
  | EvPacket t p => HandleRead t p
  | EvPoll p pin pout hup => poll_event p pin pout hup
  | EvConnect k t service => p ← sl_create k; smart_socket_connect p t service
  | EvKernel f r x => on_env (kernel_event f r x)
  | EvHandleError t => HandleError t
  end.

Fixpoint run (es : list event) : PS unit :=
  match es with
  | [] => mret tt
  | e :: es => handle_event e;; run es
  end.
End main.

Definition new_proc (ts : gmap Z atransport) : proc := mk_proc ∅ 1 [] [] 1 3 (mk_env ts ∅ []).
