(* ===== verification/AdbConn.v ===== *)
(** The connection table: what the sockets of adb promise to the packet handlers,
    without pointers.  A local socket and the remote socket it is connected to are
    one entry: the remote socket is the id and the transport of [c_peer], the packet
    queue is the bytes it holds, the two sets of callbacks are [c_notify].

    [table] is an instance of [SocketLayer], so that the handlers of AdbMain run on
    it unchanged; AdbRefine shows that the sockets of AdbSockets implement it. *)

From Stdlib Require Import Strings.String.
From stdpp Require Import gmap.
From S2P Require Import Prelude LibBase AdbIo AdbPackets AdbEnv AdbSockets AdbMain.
Open Scope Z_scope.

Record conn : Type := mk_conn {
  c_id : Z;
  c_closing : bool;
  c_werr : bool;
  c_exit : bool;
  c_peer : option (Z * Z);        (* id on the other side, transport *)
  c_notify : bool;                (* still to report to the client *)
  c_transport : option Z;
  c_read : bool;
  c_write : bool;
  c_fd : Z;
  c_queue : list byte;
  c_avail : option Z
}.

Record table : Type := mk_table {
  t_conns : gmap ptr conn;
  t_next_ptr : ptr;
  t_list : list ptr;
  t_closing : list ptr;
  t_next_id : Z;
  t_next_fd : Z;
  t_env : env
}.

#[export] Instance table_HasEnv : HasEnv table := {|
  env_of := t_env;
  with_env v s := mk_table (t_conns s) (t_next_ptr s) (t_list s) (t_closing s) (t_next_id s)
    (t_next_fd s) v
|}.

Abbreviation T := (SP table).

Definition set_conns (m : gmap ptr conn) (s : table) : table :=
  mk_table m (t_next_ptr s) (t_list s) (t_closing s) (t_next_id s) (t_next_fd s) (t_env s).
Definition set_tlists (l cl : list ptr) (s : table) : table :=
  mk_table (t_conns s) (t_next_ptr s) l cl (t_next_id s) (t_next_fd s) (t_env s).

Definition c_set_werr (c : conn) : conn :=
  mk_conn (c_id c) (c_closing c) true (c_exit c) (c_peer c) (c_notify c) (c_transport c) (c_read c)
    (c_write c) (c_fd c) (c_queue c) (c_avail c).
Definition c_set_peer (p : option (Z * Z)) (c : conn) : conn :=
  mk_conn (c_id c) (c_closing c) (c_werr c) (c_exit c) p (c_notify c) (c_transport c) (c_read c)
    (c_write c) (c_fd c) (c_queue c) (c_avail c).
Definition c_set_notify (b : bool) (c : conn) : conn :=
  mk_conn (c_id c) (c_closing c) (c_werr c) (c_exit c) (c_peer c) b (c_transport c) (c_read c)
    (c_write c) (c_fd c) (c_queue c) (c_avail c).
Definition c_set_transport (t : option Z) (c : conn) : conn :=
  mk_conn (c_id c) (c_closing c) (c_werr c) (c_exit c) (c_peer c) (c_notify c) t (c_read c)
    (c_write c) (c_fd c) (c_queue c) (c_avail c).
Definition c_set_fde (r x : bool) (c : conn) : conn :=
  mk_conn (c_id c) (c_closing c) (c_werr c) (c_exit c) (c_peer c) (c_notify c) (c_transport c) r x
    (c_fd c) (c_queue c) (c_avail c).
Definition c_set_queue (q : list byte) (c : conn) : conn :=
  mk_conn (c_id c) (c_closing c) (c_werr c) (c_exit c) (c_peer c) (c_notify c) (c_transport c)
    (c_read c) (c_write c) (c_fd c) q (c_avail c).
Definition c_set_avail (a : option Z) (c : conn) : conn :=
  mk_conn (c_id c) (c_closing c) (c_werr c) (c_exit c) (c_peer c) (c_notify c) (c_transport c)
    (c_read c) (c_write c) (c_fd c) (c_queue c) a.
Definition c_set_exit (c : conn) : conn :=
  mk_conn (c_id c) (c_closing c) (c_werr c) true (c_peer c) (c_notify c) (c_transport c) (c_read c)
    (c_write c) (c_fd c) (c_queue c) (c_avail c).
(** A connection that only waits for its queue to drain. *)
Definition c_linger (c : conn) : conn :=
  mk_conn (c_id c) true (c_werr c) (c_exit c) (c_peer c) (c_notify c) (c_transport c) false
    (c_write c) (c_fd c) (c_queue c) (c_avail c).

Definition find_conn (p : ptr) : T conn := m ← gets t_conns; ofopt StopBadPointer (m !! p).
Definition update (p : ptr) (f : conn → conn) : T unit :=
  c ← find_conn p; modp (fun s => set_conns (<[p := f c]> (t_conns s)) s).

Fixpoint t_find_in (l : list ptr) (i j : Z) : T (option ptr) :=
  match l with
  | [] => mret None
  | p :: l =>
      c ← find_conn p;
      if negb (c_id c =? i) then t_find_in l i j
      else if j =? 0 then mret (Some p)
      else mret (match c_peer c with
                 | Some (j', _) => if j' =? j then Some p else None
                 | None => None
                 end)
  end.

Definition t_find (i j : Z) : T (option ptr) := l ← gets t_list; t_find_in l i j.

Definition t_create (k : kfd) : T ptr := fun s =>
  let p := t_next_ptr s in
  let f := t_next_fd s in
  if u32 (t_next_id s + 1) =? 0 then inl StopFatal
  else inr (p, mk_table
    (<[p := mk_conn (t_next_id s) false false false None false None false false f [] None]>
       (t_conns s)) (p + 1) (t_list s ++ [p]) (t_closing s) (u32 (t_next_id s + 1)) (f + 1)
    (mk_env (transports (t_env s)) (<[f := k]> (fds (t_env s))) (calls (t_env s)))).

Definition t_unlist (p : ptr) : T unit :=
  modp (fun s => set_tlists (filter (fun x => x ≠ p) (t_list s))
                            (filter (fun x => x ≠ p) (t_closing s)) s).

Definition t_forget (p : ptr) : T unit :=
  _ ← find_conn p; modp (fun s => set_conns (delete p (t_conns s)) s).

Definition t_close_or_linger (p : ptr) : T unit :=
  c ← find_conn p;
  if c_closing c || c_werr c || bool_decide (c_queue c = []) then
    on_env (call (deferred_close (c_fd c)));;
    t_unlist p;;
    t_forget p;;
    if c_exit c then halt StopExit else mret tt
  else
    update p c_linger;;
    t_unlist p;;
    modp (fun s => set_tlists (t_list s) (t_closing s ++ [p]) s);;
    check (c_write c).

(** Closing: the other side is told, queued bytes are kept until they are
    written. *)
Definition t_close (p : ptr) : T unit :=
  c ← find_conn p;
  (if c_notify c then update p (c_set_notify false);;
                      on_env (send_status (c_fd c) (OutFail (bs "closed"))) else mret tt);;
  (match c_peer c with
   | Some (j, t) => on_env (send_packet (packet A_CLSE (c_id c) j []) t);;
                    update p (c_set_peer None)
   | None => mret tt
   end);;
  t_close_or_linger p.

Definition t_ready (p : ptr) : T unit :=
  c ← find_conn p;
  (if c_notify c then update p (c_set_notify false);; on_env (send_status (c_fd c) OutOkay)
   else mret tt);;
  update p (fun c => c_set_fde true (c_write c) c).

Definition t_ack (p : ptr) (acked_bytes : option Z) : T unit :=
  c ← find_conn p;
  match c_avail c, acked_bytes with
  | Some a, Some n =>
      update p (c_set_avail (Some (i64 (a + n))));;
      if i64 (a + n) >? 0 then t_ready p else mret tt
  | None, None => t_ready p
  | _, _ => mret tt
  end.

Definition t_flush_queue (p : ptr) : T Z :=
  c ← find_conn p;
  if bool_decide (c_queue c = []) then mret 0
  else
    rc ← on_env (adb_writev (c_fd c) (c_queue c));
    match rc with
    | SysN n =>
        if n >? 0 then update p (c_set_queue (zdrop n (c_queue c)));; mret (u32 n)
        else update p c_set_werr;; mret 0
    | SysAgain => mret 0
    | SysErr => update p c_set_werr;; mret 0
    end.

Definition t_flush_incoming (p : ptr) : T SocketFlushResult :=
  n ← t_flush_queue p;
  c ← find_conn p;
  let fd_full := negb (bool_decide (c_queue c = [])) && negb (c_werr c) in
  (match c_transport c, c_peer c with
   | Some t, Some (j, _) =>
       match c_avail c with
       | Some _ => on_env (send_ready (c_id c) j t n)
       | None => if n =? 0 then mret tt else on_env (send_ready (c_id c) j t 0)
       end
   | _, _ => mret tt
   end);;
  if c_closing c && negb fd_full then t_close p;; mret Destroyed
  else if fd_full then update p (fun c => c_set_fde (c_read c) true c);; mret TryAgain
  else update p (fun c => c_set_fde (c_read c) false c);; mret Completed.

Definition t_enqueue (p : ptr) (data : list byte) : T Z :=
  update p (fun c => c_set_queue (c_queue c ++ data) c);;
  r ← t_flush_incoming p;
  match r with
  | Destroyed => mret (-1)
  | TryAgain => mret 1
  | Completed => mret 0
  end.

Definition t_max_payload (p : ptr) : T Z :=
  c ← find_conn p;
  m1 ← (match c_transport c with
        | Some t => a ← on_env (get_transport t); mret (Z.min MAX_PAYLOAD (max_payload a))
        | None => mret MAX_PAYLOAD
        end);
  match c_peer c with
  | Some (_, t) => a ← on_env (get_transport t); mret (Z.min m1 (max_payload a))
  | None => mret m1
  end.

Definition t_send_outgoing (p : ptr) (data : list byte) : T bool :=
  c ← find_conn p;
  match data, c_peer c with
  | _ :: _, Some (j, t) =>
      (match c_avail c with
       | Some a => update p (c_set_avail (Some (i64 (a - zlen data))))
       | None => mret tt
       end);;
      if zlen data >? MAX_PAYLOAD then mret false
      else
        on_env (send_packet (packet A_WRTE (c_id c) j data) t);;
        (match c_avail c with
         | Some a =>
             if i64 (a - zlen data) <=? 0 then update p (fun c => c_set_fde false (c_write c) c)
             else mret tt
         | None => update p (fun c => c_set_fde false (c_write c) c)
         end);;
        mret true
  | _, _ => mret true
  end.

Definition t_flush_outgoing (p : ptr) : T bool :=
  m ← t_max_payload p;
  c ← find_conn p;
  k ← on_env (get_fd (c_fd c));
  '(data, is_eof) ← on_env (read_loop (S (length (rx k))) (c_fd c) m []);
  go_on ← t_send_outgoing p data;
  if negb go_on then mret false
  else if is_eof : bool then t_close p;; mret false
  else mret true.

Definition t_event (p : ptr) (ev_read ev_write : bool) : T unit :=
  destroyed ← (if ev_write then
                 r ← t_flush_incoming p;
                 mret (match r with Destroyed => true | _ => false end)
               else mret false);
  if destroyed : bool then mret tt
  else if ev_read then t_flush_outgoing p;; mret tt
  else mret tt.

(** The first connection of the list that uses the transport. *)
Fixpoint t_first_on (l : list ptr) (t : Z) : T (option ptr) :=
  match l with
  | [] => mret None
  | p :: l =>
      c ← find_conn p;
      if bool_decide (c_transport c = Some t) || bool_decide (snd <$> c_peer c = Some t)
      then mret (Some p)
      else t_first_on l t
  end.

Fixpoint t_close_all_loop (fuel : nat) (t : Z) : T unit :=
  l ← gets t_list;
  f ← t_first_on l t;
  match f with
  | None => mret tt
  | Some p =>
      match fuel with
      | O => halt StopFuel
      | S fuel => t_close p;; t_close_all_loop fuel t
      end
  end.

Definition t_close_all (t : Z) : T unit := l ← gets t_list; t_close_all_loop (length l) t.

Definition t_attach (p : ptr) (id t : Z) : T unit :=
  if id =? 0 then halt StopFatal
  else
    modp (fun s => mk_table (t_conns s) (t_next_ptr s + 1) (t_list s) (t_closing s) (t_next_id s)
                     (t_next_fd s) (t_env s));;
    update p (c_set_peer (Some (id, t))).

#[export] Instance table_SocketLayer : SocketLayer table := {|
  sl_find := t_find;
  sl_create := t_create;
  sl_id p := c ← find_conn p; mret (c_id c);
  sl_fd p := c ← find_conn p; mret (c_fd c);
  sl_transport p := c ← find_conn p; mret (c_transport c);
  sl_peer p := c ← find_conn p; mret ((fun jt => (jt.1, Some jt.2)) <$> c_peer c);
  sl_set_transport p t := update p (c_set_transport (Some t));
  sl_set_exit p := update p c_set_exit;
  sl_set_available p n := update p (c_set_avail (Some n));
  sl_instrument p := update p (c_set_notify true);;  update p (c_set_peer None);
  sl_attach := t_attach;
  sl_ready := t_ready;
  sl_ack := t_ack;
  sl_close := t_close;
  sl_enqueue := t_enqueue;
  sl_max_payload := t_max_payload;
  sl_close_all := t_close_all;
  sl_fde p := m ← gets t_conns; mret ((fun c => (c_read c, c_write c)) <$> m !! p);
  sl_event := t_event
|}.
