(* ===== verification/AdbRefine.v ===== *)
(** The sockets of adb implement the connection table: on every well-formed state
    the handlers of AdbMain do the same on the heap of sockets (AdbSockets) as on
    the table of AdbConn, stop for stop and packet for packet.

    [sim st m am] relates one operation of each; it is closed under sequencing, so
    that the handlers follow from the operations of [SocketLayer]. *)

From Stdlib Require Import Strings.String.
From stdpp Require Import gmap.
From S2P Require Import Prelude LibBase AdbIo IOVector AdbPackets AdbEnv AdbSockets AdbMain AdbConn.
Open Scope Z_scope.

(** ** Abstraction *)

Definition is_local (s : asocket) : bool :=
  match close s with remote_socket_close_fn => false | _ => true end.

Definition is_notify (f : close_fn) : bool :=
  match f with local_socket_close_notify_fn => true | _ => false end.

Definition peer_of (h : gmap ptr asocket) (s : asocket) : option (Z * Z) :=
  q ← peer s; r ← h !! q; t ← transport r; Some (as_id r, t).

Definition conn_of (h : gmap ptr asocket) (s : asocket) : conn :=
  mk_conn (as_id s) (closing s) (has_write_error s) (exit_on_close s) (peer_of h s)
    (is_notify (close s)) (transport s) (fde_read s) (fde_write s) (fd s) (view (packet_queue s))
    (available_send_bytes s).

Definition conns (h : gmap ptr asocket) : gmap ptr conn :=
  omap (fun s => if is_local s then Some (conn_of h s) else None) h.

Arguments conns _ : simpl never.

Definition abs (st : proc) : table :=
  mk_table (conns (heap st)) (next_ptr st) (local_socket_list st) (local_socket_closing_list st)
    (local_socket_next_id st) (next_fd st) (proc_env st).

(** ** Well-formed states *)

Definition queue_ok (q : IOVector) : Prop := iov_ok q ∧ chain_length_ q < 2 ^ 63.

(** What holds of a local socket by itself. *)
Record local_body (s : asocket) : Prop := {
  lb_local : is_local s = true;
  lb_enqueue : enqueue s = local_socket_enqueue_fn;
  lb_shutdown : shutdown s = None;
  lb_fns : (ready s = local_socket_ready_fn ∧ close s = local_socket_close_fn)
           ∨ (ready s = local_socket_ready_notify_fn ∧ close s = local_socket_close_notify_fn);
  lb_queue : queue_ok (packet_queue s)
}.

Record remote_body (r : asocket) : Prop := {
  rb_local : is_local r = false;
  rb_enqueue : enqueue r = remote_socket_enqueue_fn;
  rb_ready : ready r = remote_socket_ready_fn;
  rb_shutdown : shutdown r = Some remote_socket_shutdown_fn;
  rb_close : close r = remote_socket_close_fn;
  rb_transport : is_Some (transport r)
}.

(** A pointer that was given to a local socket, alive or not. *)
Definition lptr (st : proc) (p : ptr) : Prop :=
  p < next_ptr st ∧ ∀ s, heap st !! p = Some s → is_local s = true.

Record ok (st : proc) : Prop := {
  ok_alloc : ∀ p s, heap st !! p = Some s → p < next_ptr st;
  ok_local : ∀ p s, heap st !! p = Some s → is_local s = true →
    local_body s ∧
    ∀ q, peer s = Some q → ∃ r, heap st !! q = Some r ∧ is_local r = false ∧ peer r = Some p;
  ok_remote : ∀ q r, heap st !! q = Some r → is_local r = false →
    remote_body r ∧
    ∃ p s, peer r = Some p ∧ heap st !! p = Some s ∧ is_local s = true ∧ peer s = Some q;
  ok_lists : ∀ p, p ∈ local_socket_list st ∨ p ∈ local_socket_closing_list st → lptr st p
}.

(** Pointers of local sockets stay such. *)
Definition extends (st st' : proc) : Prop := ∀ p, lptr st p → lptr st' p.

#[export] Instance extends_preorder : PreOrder extends.
Proof. split; [by intros st p|]. intros a b c H1 H2 p Hp. by apply H2, H1. Qed.

(** ** Simulation *)

Definition sim {A} (st : proc) (m : P A) (am : T A) : Prop :=
  match m st, am (abs st) with
  | inr (x, st'), inr (y, a') => x = y ∧ ok st' ∧ extends st st' ∧ abs st' = a'
  | inl e, inl e' => e = e'
  | _, _ => False
  end.

(** What a binding knows of the first step. *)
Lemma sim_bind_eq {A B} st (m : P A) am (k : A → P B) ak :
  sim st m am →
  (∀ x st', m st = inr (x, st') → ok st' → extends st st' → am (abs st) = inr (x, abs st') →
     sim st' (k x) (ak x)) →
  sim st (m ≫= k) (am ≫= ak).
Proof.
  unfold sim, mbind, SP_bind. intros Hm Hk.
  destruct (m st) as [e|[x st']], (am (abs st)) as [e'|[y a']]; try done.
  destruct Hm as (-> & Hok & Hext & <-). specialize (Hk y st' eq_refl Hok Hext eq_refl).
  destruct (k y st') as [e|[z st'']], (ak y (abs st')) as [e'|[z' a'']]; try done.
  destruct Hk as (-> & Hok' & Hext' & <-). split_and!; try done. by trans st'.
Qed.

Lemma sim_bind {A B} st (m : P A) am (k : A → P B) ak :
  sim st m am →
  (∀ x st', ok st' → extends st st' → am (abs st) = inr (x, abs st') → sim st' (k x) (ak x)) →
  sim st (m ≫= k) (am ≫= ak).
Proof. intros Hm Hk. by eapply sim_bind_eq; eauto. Qed.

Lemma sim_ret {A} st (x : A) : ok st → sim st (mret x) (mret x).
Proof. by intros. Qed.

Lemma sim_ret_bind {A B A'} st (x : A) (y : A') (k : A → P B) ak :
  sim st (k x) (ak y) → sim st (mret x ≫= k) (mret y ≫= ak).
Proof. done. Qed.

Lemma sim_halt {A} st e : sim (A:=A) st (halt e) (halt e).
Proof. done. Qed.

Lemma sim_ofopt {A} st e (o : option A) : ok st → sim st (ofopt e o) (ofopt e o).
Proof. intros. by destruct o. Qed.

Lemma sim_check st b : ok st → sim st (check b) (check b).
Proof. intros. by destruct b. Qed.

Lemma lptr_env st v p : lptr st p → lptr (with_env v st) p.
Proof. done. Qed.

Lemma ok_env st v : ok st → ok (with_env v st).
Proof. intros [H1 H2 H3 H4]. by split. Qed.

Lemma sim_env {A} st (m : ENV A) : ok st → sim st (on_env m) (on_env m).
Proof.
  intros Hok. unfold sim, on_env. cbn [env_of proc_HasEnv table_HasEnv abs t_env].
  destruct (m (proc_env st)) as [e|[x v]]; [done|].
  split_and!; [done|by apply ok_env| |done]. by intros p.
Qed.

Lemma conns_lookup h p : conns h !! p =
  match h !! p with Some s => if is_local s then Some (conn_of h s) else None | None => None end.
Proof. unfold conns. rewrite lookup_omap. by destruct (h !! p). Qed.

(** Reading a local socket. *)
Lemma sim_deref {A} st p (k : asocket → P A) ak :
  ok st → lptr st p →
  (∀ s, heap st !! p = Some s → local_body s → sim st (k s) (ak (conn_of (heap st) s))) →
  sim st (deref p ≫= k) (find_conn p ≫= ak).
Proof.
  intros Hok [Hlt Hp] Hk. unfold sim, deref, find_conn, gets, ofopt, mbind, SP_bind.
  cbn [abs t_conns]. rewrite conns_lookup.
  destruct (heap st !! p) as [s|] eqn:E; [|done].
  rewrite (Hp s eq_refl). cbn. apply (Hk s eq_refl).
  by apply (ok_local st Hok p s E (Hp s eq_refl)).
Qed.

(** Assignments to a local socket that leave its links alone. *)
Lemma peer_of_insert h p s s' x :
  h !! p = Some s → is_local s = true → is_local s' = true →
  (∀ q, peer x = Some q → ∃ r, h !! q = Some r ∧ is_local r = false) →
  peer_of (<[p := s']> h) x = peer_of h x.
Proof.
  intros Hp Hl Hl' Hx. unfold peer_of. destruct (peer x) as [q|]; [|done]. cbn.
  destruct (Hx q eq_refl) as (r & Hr & Hrl).
  rewrite lookup_insert_ne; [done|]. intros ->. congruence.
Qed.

Lemma conn_of_insert h p s s' x :
  h !! p = Some s → is_local s = true → is_local s' = true →
  (∀ q, peer x = Some q → ∃ r, h !! q = Some r ∧ is_local r = false) →
  conn_of (<[p := s']> h) x = conn_of h x.
Proof. intros. unfold conn_of. by erewrite peer_of_insert. Qed.

Lemma ok_peer st p s q : ok st → heap st !! p = Some s → is_local s = true → peer s = Some q →
  ∃ r, heap st !! q = Some r ∧ is_local r = false.
Proof.
  intros Hok Hp Hl Hq. destruct (ok_local st Hok p s Hp Hl) as [_ H].
  destruct (H q Hq) as (r & ? & ? & _). by exists r.
Qed.

Lemma update_local st p s s' :
  ok st → heap st !! p = Some s → is_local s = true → local_body s' → peer s' = peer s →
  let st' := set_heap (<[p := s']> (heap st)) st in
  ok st' ∧ extends st st' ∧ conns (heap st') = <[p := conn_of (heap st) s']> (conns (heap st)).
Proof.
  intros Hok Hp Hl Hb Hpeer st'. assert (is_local s' = true) as Hl' by apply Hb.
  assert (extends st st') as Hext.
  { intros x [Hlt Hx]. split; [done|]. intros y. subst st'. cbn.
    destruct (decide (x = p)) as [->|]; [rewrite lookup_insert_eq; by intros [= <-]|].
    rewrite lookup_insert_ne by done. apply Hx. }
  split_and!; [|done|].
  - split; subst st'; cbn.
    + intros x y Hx. destruct (decide (x = p)) as [->|]; [by eapply (ok_alloc st)|].
      rewrite lookup_insert_ne in Hx by done. by eapply (ok_alloc st).
    + intros x y Hx Hy. destruct (decide (x = p)) as [->|Hne].
      * rewrite lookup_insert_eq in Hx. injection Hx as <-. split; [done|]. intros q Hq.
        rewrite Hpeer in Hq. destruct (ok_local st Hok p s Hp Hl) as [_ H].
        destruct (H q Hq) as (r & Hr & Hrl & Hrp). exists r.
        rewrite lookup_insert_ne; [done|]. intros ->. congruence.
      * rewrite lookup_insert_ne in Hx by done. destruct (ok_local st Hok x y Hx Hy) as [H1 H2].
        split; [done|]. intros q Hq. destruct (H2 q Hq) as (r & Hr & Hrl & Hrp). exists r.
        rewrite lookup_insert_ne; [done|]. intros ->. congruence.
    + intros q r Hq Hr. destruct (decide (q = p)) as [->|Hne].
      { rewrite lookup_insert_eq in Hq. congruence. }
      rewrite lookup_insert_ne in Hq by done. destruct (ok_remote st Hok q r Hq Hr) as [H1 (x & y & ? & Hx & ? & ?)].
      split; [done|]. destruct (decide (x = p)) as [->|].
      * exists p, s'. rewrite lookup_insert_eq. split_and!; try done. congruence.
      * exists x, y. by rewrite lookup_insert_ne by done.
    + intros x Hx. apply Hext. by apply (ok_lists st Hok).
  - apply map_eq. intros x. rewrite conns_lookup. subst st'. cbn.
    destruct (decide (x = p)) as [->|Hne].
    + rewrite !lookup_insert_eq, Hl'. f_equal. eapply conn_of_insert; try done.
      rewrite Hpeer. intros q. by eapply ok_peer.
    + rewrite !lookup_insert_ne by done. rewrite conns_lookup.
      destruct (heap st !! x) as [y|] eqn:Hx; [|done]. destruct (is_local y) eqn:Hy; [|done].
      f_equal. eapply conn_of_insert; try done. intros q. by eapply ok_peer.
Qed.

(** The two sides of an assignment. *)
Lemma sim_assign st p f g :
  ok st → lptr st p →
  (∀ s, heap st !! p = Some s → local_body s →
     local_body (f s) ∧ peer (f s) = peer s ∧
     conn_of (heap st) (f s) = g (conn_of (heap st) s)) →
  sim st (assign p f) (update p g).
Proof.
  intros Hok Hp Hf. unfold assign, update. apply sim_deref; [done..|].
  intros s Hs Hb. destruct (Hf s Hs Hb) as (Hb' & Hpeer & Hc).
  destruct (update_local st p s (f s)) as (Hok' & Hext & Hcs); try done; [apply Hb|].
  unfold sim, modp. split_and!; [done..|].
  unfold abs, set_conns. cbn in *. rewrite Hcs. by rewrite Hc.
Qed.

Lemma sim_modp st f g : ok (f st) → extends st (f st) → abs (f st) = g (abs st) →
  sim st (modp f) (modp g).
Proof. by unfold sim, modp. Qed.

Lemma ok_set_lists st l cl : ok st → (∀ p, p ∈ l ∨ p ∈ cl → lptr st p) → ok (set_lists l cl st).
Proof. intros [H1 H2 H3 _] Hl. by split. Qed.

Lemma sim_remove st p : ok st → sim st (remove_socket p) (t_unlist p).
Proof.
  intros Hok. apply sim_modp; [|by intros x|done].
  apply ok_set_lists; [done|]. intros x Hx. apply (ok_lists st Hok).
  rewrite !list_elem_of_filter in Hx. tauto.
Qed.

(** Forgetting a local socket that is not connected. *)
Lemma delete_local st p s :
  ok st → heap st !! p = Some s → is_local s = true → peer s = None →
  let st' := set_heap (delete p (heap st)) st in
  ok st' ∧ extends st st' ∧ conns (heap st') = delete p (conns (heap st)).
Proof.
  intros Hok Hp Hl Hpeer st'.
  assert (∀ x y, delete p (heap st) !! x = Some y → x ≠ p ∧ heap st !! x = Some y) as Hd.
  { intros x y. rewrite lookup_delete_Some. naive_solver. }
  assert (extends st st') as Hext.
  { intros x [Hlt Hx]. split; [done|]. intros y [_ Hy]%Hd. by apply Hx. }
  split_and!; [|done|].
  - split; subst st'; cbn.
    + intros x y [_ Hx]%Hd. by eapply (ok_alloc st).
    + intros x y [Hne Hx]%Hd Hy. destruct (ok_local st Hok x y Hx Hy) as [H1 H2].
      split; [done|]. intros q Hq. destruct (H2 q Hq) as (r & Hr & Hrl & Hrp). exists r.
      rewrite lookup_delete_ne; [done|]. intros ->. congruence.
    + intros q r [Hne Hq]%Hd Hr. destruct (ok_remote st Hok q r Hq Hr) as [H1 (x & y & ? & Hx & ? & ?)].
      split; [done|]. exists x, y. rewrite lookup_delete_ne; [done|]. intros ->. congruence.
    + intros x Hx. apply Hext. by apply (ok_lists st Hok).
  - apply map_eq. intros x. rewrite conns_lookup. subst st'. cbn.
    destruct (decide (x = p)) as [->|Hne]; [by rewrite !lookup_delete_eq|].
    rewrite !lookup_delete_ne by done. rewrite conns_lookup.
    destruct (heap st !! x) as [y|] eqn:Hx; [|done]. destruct (is_local y) eqn:Hy; [|done].
    f_equal. unfold conn_of, peer_of. destruct (peer y) as [q|] eqn:Hq; [|done]. cbn.
    destruct (ok_peer st x y q Hok Hx Hy Hq) as (r & Hr & Hrl).
    rewrite lookup_delete_ne; [done|]. intros ->. congruence.
Qed.

Lemma sim_delete st p :
  ok st → lptr st p → (∀ s, heap st !! p = Some s → peer s = None) →
  sim st (delete_asocket p) (t_forget p).
Proof.
  intros Hok Hp Hpeer. unfold delete_asocket. apply sim_deref; [done..|]. intros s Hs Hb.
  destruct (delete_local st p s) as (H1 & H2 & H3); [done..|apply Hb|by apply Hpeer|].
  apply sim_modp; [done..|]. unfold abs, set_conns. cbn in *. by rewrite H3.
Qed.

(** Cutting a connection: the remote socket is gone, the local one has no peer. *)
Definition cut (p q : ptr) (s : asocket) (st : proc) : proc :=
  set_heap (<[p := set_peer None s]> (delete q (heap st))) st.

Lemma cut_ok st p q s :
  ok st → heap st !! p = Some s → is_local s = true → peer s = Some q →
  ok (cut p q s st) ∧ extends st (cut p q s st) ∧
  conns (heap (cut p q s st)) = <[p := c_set_peer None (conn_of (heap st) s)]> (conns (heap st)).
Proof.
  intros Hok Hp Hl Hpeer.
  destruct (ok_local st Hok p s Hp Hl) as [Hb Hlink].
  destruct (Hlink q Hpeer) as (r & Hr & Hrl & Hrp).
  assert (p ≠ q) as Hpq by (intros ->; congruence).
  assert (∀ x y, heap (cut p q s st) !! x = Some y →
            (x = p ∧ y = set_peer None s) ∨ (x ≠ p ∧ x ≠ q ∧ heap st !! x = Some y)) as Hd.
  { intros x y. cbn. destruct (decide (x = p)) as [->|].
    - rewrite lookup_insert_eq. intros [= <-]. by left.
    - rewrite lookup_insert_ne, lookup_delete_Some by done. naive_solver. }
  assert (∀ x y, x ≠ p → x ≠ q → heap st !! x = Some y → heap (cut p q s st) !! x = Some y) as Hi.
  { intros x y ???. cbn. by rewrite lookup_insert_ne, lookup_delete_ne. }
  assert (extends st (cut p q s st)) as Hext.
  { intros x [Hlt Hx]. split; [done|]. intros y [[-> ->]|(_ & _ & Hy)]%Hd; [done|by apply Hx]. }
  assert (∀ x y z, x ≠ p → heap st !! x = Some y → is_local y = true → peer y = Some z → z ≠ q) as Hother.
  { intros x y z Hne Hx Hy Hz ->. destruct (ok_local st Hok x y Hx Hy) as [_ H].
    destruct (H q Hz) as (r' & ? & _ & ?). congruence. }
  split_and!; [|done|].
  - split.
    + intros x y [[-> _]|(_ & _ & Hx)]%Hd; by eapply (ok_alloc st).
    + intros x y [[-> ->]|(Hne & _ & Hx)]%Hd Hy; [split; [by destruct Hb; split|done]|].
      destruct (ok_local st Hok x y Hx Hy) as [H1 H2]. split; [done|].
      intros z Hz. destruct (H2 z Hz) as (r' & Hr' & ? & ?). exists r'. split_and!; try done.
      apply Hi; [|by eapply Hother|done]. intros ->. congruence.
    + intros x y [[-> ->]|(Hne & Hnq & Hx)]%Hd Hy; [by change (is_local s = false) in Hy; congruence|].
      destruct (ok_remote st Hok x y Hx Hy) as [H1 (p' & s' & ? & Hp' & ? & ?)].
      split; [done|]. exists p', s'. split_and!; try done. apply Hi; [|by intros ->; congruence|done].
      intros ->. congruence.
    + intros x Hx. apply Hext. by apply (ok_lists st Hok).
  - apply map_eq. intros x. rewrite conns_lookup. cbn [cut heap set_heap].
    destruct (decide (x = p)) as [->|Hne].
    + rewrite !lookup_insert_eq. change (is_local (set_peer None s)) with (is_local s). by rewrite Hl.
    + rewrite !lookup_insert_ne by done. rewrite conns_lookup.
      destruct (decide (x = q)) as [->|Hnq]; [by rewrite lookup_delete_eq, Hr, Hrl|].
      rewrite lookup_delete_ne by done.
      destruct (heap st !! x) as [y|] eqn:Hx; [|done]. destruct (is_local y) eqn:Hy; [|done].
      f_equal. unfold conn_of, peer_of. destruct (peer y) as [z|] eqn:Hz; [|done]. cbn.
      assert (z ≠ q) by by eapply Hother.
      destruct (ok_peer st x y z Hok Hx Hy Hz) as (r' & ? & ?).
      rewrite lookup_insert_ne, lookup_delete_ne; [done..|]. intros ->. congruence.
Qed.

(** Side conditions of [sim_assign] for the setters of single fields. *)
Ltac field_update :=
  intros ? ? [? ? ? ? ?]; split_and!; [split; try done; tauto|done|done].

Lemma queue_empty q : queue_ok q → (iov_size q =? 0) = bool_decide (view q = []).
Proof.
  intros [Hq _]. rewrite iov_size_view by done. unfold zlen.
  destruct (view q); [done|]. rewrite bool_decide_eq_false_2 by done. by apply Z.eqb_neq.
Qed.

Definition unpeered (st : proc) (p : ptr) : Prop := ∀ s, heap st !! p = Some s → peer s = None.

Lemma unpeered_abs st p c : ok st → lptr st p → t_conns (abs st) !! p = Some c → c_peer c = None →
  unpeered st p.
Proof.
  intros Hok [_ Hp] Hc Hn s Hs. cbn in Hc. rewrite conns_lookup, Hs, (Hp s Hs) in Hc.
  injection Hc as <-. cbn in Hn. unfold peer_of in Hn. destruct (peer s) as [q|] eqn:E; [|done].
  destruct (ok_local st Hok p s Hs (Hp s Hs)) as [_ H]. destruct (H q E) as (r & Hr & Hrl & _).
  destruct (ok_remote st Hok q r Hr Hrl) as [[? ? ? ? ? [t Ht]] _]. cbn in Hn.
  rewrite Hr in Hn. cbn in Hn. by rewrite Ht in Hn.
Qed.

Lemma lptr_ext st st' p : lptr st p → extends st st' → lptr st' p.
Proof. intros H1 H2. by apply H2. Qed.

(** Steps of one side only, and steps whose result is explicit. *)
Lemma sim_deref_l {A} st p s (k : asocket → P A) am :
  heap st !! p = Some s → sim st (k s) am → sim st (deref p ≫= k) am.
Proof.
  intros Hs. unfold sim, deref, gets, ofopt, mbind, SP_bind. by rewrite Hs.
Qed.

Lemma sim_find_r {A} st p s (m : P A) ak :
  heap st !! p = Some s → is_local s = true → sim st m (ak (conn_of (heap st) s)) →
  sim st m (find_conn p ≫= ak).
Proof.
  intros Hs Hl. unfold sim, find_conn, gets, ofopt, mbind, SP_bind. cbn [abs t_conns].
  by rewrite conns_lookup, Hs, Hl.
Qed.

(** Both sides reach a state from which they go on alike. *)
Lemma sim_step {B} st st1 (m k : P B) am ak :
  m st = k st1 → am (abs st) = ak (abs st1) → extends st st1 → sim st1 k ak → sim st m am.
Proof.
  intros Hm Ham Hext. unfold sim. rewrite Hm, Ham.
  destruct (k st1) as [e|[x st']], (ak (abs st1)) as [e'|[y a']]; try done.
  intros (-> & ? & ? & <-). split_and!; try done. by trans st1.
Qed.

Lemma sim_env_bind {A B} st (m : ENV A) (k : A → P B) ak :
  ok st → (∀ x v, ok (with_env v st) → sim (with_env v st) (k x) (ak x)) →
  sim st (on_env m ≫= k) (on_env m ≫= ak).
Proof.
  intros Hok Hk. destruct (m (proc_env st)) as [e|[x v]] eqn:E.
  { unfold sim, mbind, SP_bind, on_env. cbn [env_of proc_HasEnv table_HasEnv abs t_env]. by rewrite E. }
  eapply (sim_step st (with_env v st) _ (k x) _ (ak x)); [..|by apply Hk, ok_env].
  - unfold mbind, SP_bind, on_env. cbn [env_of proc_HasEnv]. by rewrite E.
  - unfold mbind, SP_bind, on_env. cbn [env_of table_HasEnv abs t_env]. by rewrite E.
  - by intros p.
Qed.

Lemma sim_modp_bind {B} st f g (k : unit → P B) ak :
  extends st (f st) → abs (f st) = g (abs st) → sim (f st) (k tt) (ak tt) →
  sim st (modp f ≫= k) (modp g ≫= ak).
Proof.
  intros Hext Habs Hk. eapply (sim_step st (f st)); [done| |done|done].
  unfold mbind, SP_bind, modp. by rewrite Habs.
Qed.

Lemma update_abs st p s s' g :
  heap st !! p = Some s → is_local s = true →
  conns (<[p := s']> (heap st)) = <[p := conn_of (heap st) s']> (conns (heap st)) →
  conn_of (heap st) s' = g (conn_of (heap st) s) →
  update p g (abs st) = inr (tt, abs (set_heap (<[p := s']> (heap st)) st)).
Proof.
  intros Hs Hl Hcs Hc. unfold update, find_conn, gets, ofopt, modp, mbind, SP_bind.
  cbn [abs t_conns]. rewrite conns_lookup, Hs, Hl. cbn. unfold abs, set_conns. cbn.
  by rewrite Hcs, Hc.
Qed.

Lemma assign_eq st p s f : heap st !! p = Some s →
  assign p f st = inr (tt, set_heap (<[p := f s]> (heap st)) st).
Proof. intros Hs. unfold assign, deref, gets, ofopt, modp, mbind, SP_bind. by rewrite Hs. Qed.

Lemma sim_assign_bind {B} st p s f g (k : unit → P B) ak :
  ok st → heap st !! p = Some s → local_body s → local_body (f s) → peer (f s) = peer s →
  conn_of (heap st) (f s) = g (conn_of (heap st) s) →
  (ok (set_heap (<[p := f s]> (heap st)) st) → extends st (set_heap (<[p := f s]> (heap st)) st) →
   sim (set_heap (<[p := f s]> (heap st)) st) (k tt) (ak tt)) →
  sim st (assign p f ≫= k) (update p g ≫= ak).
Proof.
  intros Hok Hs Hb Hb' Hpeer Hc Hk.
  destruct (update_local st p s (f s)) as (Hok' & Hext & Hcs); try done; [apply Hb|].
  eapply (sim_step st (set_heap (<[p := f s]> (heap st)) st)); [..|by apply Hk]; [..|done].
  - unfold mbind, SP_bind. by rewrite (assign_eq st p s).
  - unfold mbind, SP_bind. erewrite update_abs; [done..|apply Hb|done|done].
Qed.

Create HintDb sim discriminated.
#[export] Hint Resolve lptr_ext sim_ret sim_halt sim_env sim_check sim_ofopt sim_remove : sim.

Ltac sbind := eapply sim_bind; [|intros ? ? ? ? ?].

Lemma ok_remove st p : ok st →
  ok (set_lists (filter (λ x, x ≠ p) (local_socket_list st))
        (filter (λ x, x ≠ p) (local_socket_closing_list st)) st).
Proof.
  intros Hok. apply ok_set_lists; [done|]. intros x Hx. apply (ok_lists st Hok).
  rewrite !list_elem_of_filter in Hx. tauto.
Qed.

Lemma sim_destroy st p s : ok st → lptr st p → heap st !! p = Some s → local_body s → peer s = None →
  sim st (local_socket_destroy p)
    (on_env (call (deferred_close (fd s)));; t_unlist p;; t_forget p;;
     if exit_on_close s then halt StopExit else mret tt).
Proof.
  intros Hok Hp Hs Hb Hpeer. unfold local_socket_destroy. eapply sim_deref_l; [done|].
  apply sim_env_bind; [done|]. intros _ v Hok1.
  apply sim_modp_bind; [by intros x|done|].
  eapply sim_bind.
  - apply sim_delete; [by apply (ok_remove (with_env v st))|done|]. cbn. intros s' Hs'. congruence.
  - intros [] st' ???. destruct (exit_on_close s); auto with sim.
Qed.

Lemma sim_close_or_linger st p :
  ok st → lptr st p → unpeered st p → sim st (close_or_linger p) (t_close_or_linger p).
Proof.
  intros Hok Hp Hu. unfold close_or_linger, t_close_or_linger. apply sim_deref; [done..|].
  intros s Hs Hb. rewrite queue_empty by apply Hb. cbn [conn_of c_closing c_werr c_queue].
  destruct (closing s || has_write_error s || _) eqn:E.
  { apply sim_destroy; try done. by apply Hu. }
  (* three assignments on one side are one on the other *)
  set (s2 := set_fde false (fde_write s) (set_flags true (has_write_error s) s)).
  assert (local_body s2) as Hb2 by (destruct Hb; split; done).
  destruct (update_local st p s s2) as (Hok2 & Hext2 & Hcs2); try done; [apply Hb|].
  set (st2 := set_heap (<[p := s2]> (heap st)) st) in *.
  assert (heap st2 !! p = Some s2) as Hs2 by (cbn; by rewrite lookup_insert_eq).
  eapply (sim_step st st2 _ (remove_socket p;; _)); [| |done|].
  { unfold mbind at 1, SP_bind at 1. rewrite (assign_eq st p s) by done.
    unfold mbind at 1, SP_bind at 1, fdevent_read. erewrite assign_eq by (cbn; by rewrite lookup_insert_eq).
    cbn. rewrite insert_insert_eq. done. }
  { unfold mbind at 1, SP_bind at 1. erewrite (update_abs st p s s2); [done..|apply Hb|done|done]. }
  apply sim_modp_bind; [by intros x|done|].
  apply sim_modp_bind; [by intros x|done|].
  eapply sim_deref_l; [done|]. apply sim_check.
  apply ok_set_lists; [by apply ok_remove|]. intros x Hx. cbn in Hx.
  rewrite elem_of_app, list_elem_of_singleton, !list_elem_of_filter in Hx.
  destruct Hx as [[_ Hx]|[[_ Hx]| ->]]; [apply (ok_lists st2 Hok2); auto..|by apply Hext2].
Qed.

(** What is known of the two ends of a connection. *)
Lemma connected st p s q : ok st → heap st !! p = Some s → is_local s = true → peer s = Some q →
  ∃ r t, heap st !! q = Some r ∧ remote_body r ∧ transport r = Some t ∧ peer r = Some p ∧ q ≠ p ∧
    peer_of (heap st) s = Some (as_id r, t).
Proof.
  intros Hok Hs Hl Hq. destruct (ok_local st Hok p s Hs Hl) as [_ H].
  destruct (H q Hq) as (r & Hr & Hrl & Hrp). destruct (ok_remote st Hok q r Hr Hrl) as [Hrb _].
  destruct (rb_transport r Hrb) as [t Ht]. exists r, t. split_and!; try done; [by intros ->; congruence|].
  unfold peer_of. rewrite Hq. cbn. rewrite Hr. cbn. by rewrite Ht.
Qed.

Lemma deref_eq st p s : heap st !! p = Some s → deref p st = inr (s, st).
Proof. intros Hs. unfold deref, gets, ofopt, mbind, SP_bind. by rewrite Hs. Qed.

Lemma bind_eq {S A B} (m : SP S A) (k : A → SP S B) st x st' :
  m st = inr (x, st') → (m ≫= k) st = k x st'.
Proof. intros H. unfold mbind, SP_bind. by rewrite H. Qed.

Lemma cut_run n st p q s r : heap st !! p = Some s → heap st !! q = Some r → q ≠ p →
  close r = remote_socket_close_fn →
  (assign q (set_peer None);; asocket_close_fuel (S n) q;; assign p (set_peer None)) st
  = inr (tt, cut p q s st).
Proof.
  intros Hs Hr Hne Hc. rewrite (bind_eq _ _ _ _ _ (assign_eq st q r _ Hr)).
  set (st1 := set_heap _ _).
  assert (heap st1 !! q = Some (set_peer None r)) as H1 by (cbn; by rewrite lookup_insert_eq).
  assert (asocket_close_fuel (S n) q st1 = inr (tt, set_heap (delete q (heap st)) st)) as H2.
  { cbn [asocket_close_fuel]. rewrite (bind_eq _ _ _ _ _ (deref_eq st1 q _ H1)).
    change (close (set_peer None r)) with (close r). rewrite Hc. unfold remote_socket_close.
    rewrite (bind_eq _ _ _ _ _ (deref_eq st1 q _ H1)). cbn [peer set_peer].
    rewrite (bind_eq _ _ _ _ _ eq_refl). unfold delete_asocket.
    rewrite (bind_eq _ _ _ _ _ (deref_eq st1 q _ H1)). unfold modp. subst st1. cbn.
    by rewrite delete_insert_eq. }
  rewrite (bind_eq _ _ _ _ _ H2). rewrite (assign_eq _ p s); [done|].
  cbn. by rewrite lookup_delete_ne.
Qed.

Lemma cut_abs st p q s : ok st → heap st !! p = Some s → is_local s = true → peer s = Some q →
  update p (c_set_peer None) (abs st) = inr (tt, abs (cut p q s st)).
Proof.
  intros Hok Hs Hl Hq. destruct (cut_ok st p q s Hok Hs Hl Hq) as (_ & _ & Hcs).
  unfold update, find_conn, gets, ofopt, modp, mbind, SP_bind.
  cbn [abs t_conns]. rewrite conns_lookup, Hs, Hl. cbn. unfold abs, set_conns. cbn [cut heap set_heap].
  cbn [cut heap set_heap] in Hcs. by rewrite Hcs.
Qed.

Lemma bind_assoc {S A B C} (m : SP S A) (f : A → SP S B) (g : B → SP S C) st :
  ((m ≫= f) ≫= g) st = (m ≫= λ x, f x ≫= g) st.
Proof. unfold mbind, SP_bind. by destruct (m st) as [|[??]]. Qed.

Lemma bind_cong {S A B} (m m' : SP S A) (k : A → SP S B) st :
  m st = m' st → (m ≫= k) st = (m' ≫= k) st.
Proof. unfold mbind, SP_bind. by intros ->. Qed.

Lemma sim_eq {A} st (m m' : P A) am am' :
  m st = m' st → am (abs st) = am' (abs st) → sim st m' am' → sim st m am.
Proof. unfold sim. by intros -> ->. Qed.

Lemma sim_assoc {A B C A' B'} st (m : P A) (f : A → P B) (g : B → P C) (m' : T A') (f' : A' → T B') g' :
  sim st (m ≫= λ x, f x ≫= g) (m' ≫= λ x, f' x ≫= g') →
  sim st ((m ≫= f) ≫= g) ((m' ≫= f') ≫= g').
Proof. apply sim_eq; apply bind_assoc. Qed.

Lemma shutdown_eq st p q s r t : heap st !! p = Some s → heap st !! q = Some r → remote_body r →
  transport r = Some t → peer r = Some p →
  asocket_shutdown q st = on_env (send_packet (packet A_CLSE (as_id s) (as_id r) []) t) st.
Proof.
  intros Hs Hr Hrb Ht Hrp. unfold asocket_shutdown. rewrite (bind_eq _ _ _ _ _ (deref_eq st q _ Hr)).
  rewrite (rb_shutdown r Hrb). unfold remote_socket_shutdown.
  rewrite (bind_eq _ _ _ _ _ (deref_eq st q _ Hr)), Hrp.
  rewrite (bind_eq _ _ st (as_id s) st).
  - unfold send_on. rewrite Ht. by rewrite (bind_eq _ _ st t st).
  - by rewrite (bind_eq _ _ _ _ _ (deref_eq st p _ Hs)).
Qed.

Lemma sim_local_close n st p s : ok st → lptr st p → heap st !! p = Some s → local_body s →
  sim st (local_socket_close (asocket_close_fuel (S n)) p)
    ((match c_peer (conn_of (heap st) s) with
      | Some (j, t) => on_env (send_packet (packet A_CLSE (as_id s) j []) t);;
                       update p (c_set_peer None)
      | None => mret tt
      end);; t_close_or_linger p).
Proof.
  intros Hok Hp Hs Hb. unfold local_socket_close. eapply sim_deref_l; [done|].
  cbn [conn_of c_peer]. destruct (peer s) as [q|] eqn:Hq.
  - destruct (connected st p s q Hok Hs (lb_local s Hb) Hq) as (r & t & Hr & Hrb & Ht & Hrp & Hne & ->).
    apply sim_assoc. eapply sim_eq; [by apply bind_cong, (shutdown_eq st p q s r t)|reflexivity|].
    apply sim_env_bind; [done|]. intros _ v Hok1. set (st1 := with_env v st) in *.
    destruct (cut_ok st1 p q s Hok1 Hs (lb_local s Hb) Hq) as (Hok2 & Hext & _).
    eapply (sim_step st1 (cut p q s st1)); [..|done|apply sim_close_or_linger].
    + apply (bind_eq _ (λ _, close_or_linger p) _ tt).
      apply (cut_run _ _ _ _ _ r); try done. apply Hrb.
    + apply (bind_eq _ (λ _, t_close_or_linger p) _ tt). apply cut_abs; try done. apply Hb.
    + done.
    + by apply Hext.
    + intros s' Hs'. cbn in Hs'. rewrite lookup_insert_eq in Hs'. by injection Hs' as <-.
  - replace (peer_of (heap st) s) with (@None (Z * Z)) by (unfold peer_of; by rewrite Hq).
    apply sim_ret_bind. apply sim_close_or_linger; [done..|].
    intros s' Hs'. congruence.
Qed.

Lemma local_close_is st p s : heap st !! p = Some s → close s = local_socket_close_fn → ∀ n,
  asocket_close_fuel (S n) p st = local_socket_close (asocket_close_fuel n) p st.
Proof.
  intros Hs Hc n. cbn [asocket_close_fuel]. rewrite (bind_eq _ _ _ _ _ (deref_eq st p s Hs)).
  by rewrite Hc.
Qed.

(** [s->close(s)] *)
Lemma sim_close st p : ok st → lptr st p → sim st (asocket_close p) (t_close p).
Proof.
  intros Hok Hp. unfold asocket_close, t_close.
  change (asocket_close_fuel 4 p) with
    (s ← deref p;
     match close s with
     | local_socket_close_fn => local_socket_close (asocket_close_fuel 3) p
     | local_socket_close_notify_fn => local_socket_close_notify (asocket_close_fuel 3) p
     | remote_socket_close_fn => remote_socket_close (asocket_close_fuel 3) p
     end).
  apply sim_deref; [done..|]. intros s Hs Hb.
  destruct (lb_fns s Hb) as [[_ Hc]|[_ Hc]]; cbn [conn_of c_notify]; rewrite Hc; cbn [is_notify].
  - apply sim_ret_bind. by apply sim_local_close.
  - unfold local_socket_close_notify. apply sim_eq with
      (m' := (assign p (set_fns local_socket_ready_fn None local_socket_close_fn);;
              s ← deref p; on_env (send_status (fd s) (OutFail (bs "closed")));;
              asocket_close_fuel 3 p)) (am' := (update p (c_set_notify false);;
       (on_env (send_status (fd s) (OutFail (bs "closed")));;
       (match c_peer (conn_of (heap st) s) with
        | Some (j, t) => on_env (send_packet (packet A_CLSE (as_id s) j []) t);;
                       update p (c_set_peer None)
        | None => mret tt
        end);; t_close_or_linger p))); [done|by rewrite bind_assoc|].
    assert (local_body (set_fns local_socket_ready_fn None local_socket_close_fn s)) as Hb1
      by (destruct Hb; split; auto).
    eapply sim_assign_bind; [done..| |]; [done|]. intros Hok1 Hext1. set (st1 := set_heap _ _) in *.
    assert (heap st1 !! p = Some (set_fns local_socket_ready_fn None local_socket_close_fn s)) as Hs1
      by (cbn; by rewrite lookup_insert_eq).
    eapply sim_deref_l; [done|]. apply sim_env_bind; [done|]. intros _ v Hok2.
    pose proof (Hs1 : heap (with_env v st1) !! p = Some (set_fns _ _ _ s)) as Hs2.
    eapply sim_eq; [by apply (local_close_is (with_env v st1) p _ Hs2 eq_refl 2)
      | |apply (sim_local_close 1 _ _ _ Hok2 (Hext1 p Hp) Hs2 Hb1)].
    cbn [conn_of c_peer]. rewrite <- (peer_of_insert (heap st) p s
      (set_fns local_socket_ready_fn None local_socket_close_fn s) s); try done; [apply Hb|].
    intros q. apply (ok_peer st p s q Hok Hs (lb_local s Hb)).
Qed.

(** ** Ready and acknowledgements *)

Lemma sim_local_ready st p : ok st → lptr st p →
  sim st (local_socket_ready p) (update p (fun c => c_set_fde true (c_write c) c)).
Proof. intros. apply sim_assign; [done..|field_update]. Qed.

Lemma sim_ready st p : ok st → lptr st p → sim st (asocket_ready p) (t_ready p).
Proof.
  intros Hok Hp. unfold asocket_ready, t_ready. apply sim_deref; [done..|]. intros s Hs Hb.
  destruct (lb_fns s Hb) as [[Hr Hc]|[Hr Hc]]; cbn [conn_of c_notify c_fd]; rewrite Hr, Hc; cbn [is_notify].
  - eapply sim_step; [done|done|by intros x|]. by apply sim_local_ready.
  - eapply sim_eq; [done|apply bind_assoc|]. unfold local_socket_ready_notify.
    eapply sim_assign_bind; [done..| | | |].
    + destruct Hb; split; auto.
    + done.
    + done.
    + intros Hok1 Hext1. set (st1 := set_heap _ _) in *.
      eapply sim_deref_l; [cbn; by rewrite lookup_insert_eq|]. cbn [fd set_fns].
      apply sim_env_bind; [done|]. intros _ v Hok2. apply sim_local_ready; [done|].
      apply lptr_env. by apply Hext1.
Qed.

Lemma sim_ack st p a : ok st → lptr st p → sim st (local_socket_ack p a) (t_ack p a).
Proof.
  intros Hok Hp. unfold local_socket_ack, t_ack. apply sim_deref; [done..|]. intros s Hs Hb.
  cbn [conn_of c_avail]. destruct (available_send_bytes s) as [n|], a as [m|]; try by apply sim_ret.
  - sbind; [apply sim_assign; [done..|field_update]|].
    destruct (_ >? 0); [apply sim_ready; eauto with sim|eauto with sim].
  - by apply sim_ready.
Qed.

(** ** Data *)

Lemma sim_peer_payload st p s m : ok st → heap st !! p = Some s → local_body s →
  sim st (match peer s with
          | Some q =>
              r ← deref q;
              match transport r with
              | Some t => a ← on_env (get_transport t); mret (Z.min m (max_payload a))
              | None => mret m
              end
          | None => mret m
          end)
    (match peer_of (heap st) s with
     | Some (_, t) => a ← on_env (get_transport t); mret (Z.min m (max_payload a))
     | None => mret m
     end).
Proof.
  intros Hok Hs Hb. destruct (peer s) as [q|] eqn:Hq.
  - destruct (connected st p s q Hok Hs (lb_local s Hb) Hq) as (r & t & Hr & Hrb & Ht & _ & _ & ->).
    eapply sim_deref_l; [done|]. rewrite Ht. sbind; auto with sim.
  - unfold peer_of. rewrite Hq. cbn. by apply sim_ret.
Qed.

Lemma sim_max_payload st p : ok st → lptr st p → sim st (get_max_payload p) (t_max_payload p).
Proof.
  intros Hok Hp. unfold get_max_payload, t_max_payload. apply sim_deref; [done..|]. intros s Hs Hb.
  cbn [conn_of c_transport c_peer]. destruct (transport s) as [t|].
  - apply sim_assoc. apply sim_env_bind; [done|]. intros a v Hok1.
    apply sim_ret_bind. exact (sim_peer_payload (with_env v st) p s _ Hok1 Hs Hb).
  - apply sim_ret_bind. by apply (sim_peer_payload st p).
Qed.

Lemma adb_writev_count f b e n e' : adb_writev f b e = inr (SysN n, e') →
  0 ≤ n ≤ zlen b ∧ n < 2 ^ 32.
Proof.
  unfold adb_writev, get_fd, gets, ofopt, put_fd, modp, mbind, SP_bind.
  destruct (fds e !! f) as [k|]; [|done]. cbn. destruct (tx k) as [|[m| |] w]; try done.
  cbn. intros [= <- <-]. unfold ztake, zlen. rewrite length_take. lia.
Qed.

Lemma sim_flush_queue st p : ok st → lptr st p → sim st (flush_queue p) (t_flush_queue p).
Proof.
  intros Hok Hp. unfold flush_queue, t_flush_queue. apply sim_deref; [done..|]. intros s Hs Hb.
  pose proof (lb_queue s Hb) as Hq. rewrite queue_empty by done. cbn [conn_of c_queue c_fd].
  destruct (bool_decide _); [by apply sim_ret|].
  destruct Hq as [Hq H63]. destruct (iterate_blocks_ok _ Hq) as (ps & Hps & Hview).
  unfold iovecs. rewrite Hps. cbn [ofout].
  eapply sim_eq; [by apply (bind_eq _ _ st ps st)|reflexivity|]. cbv beta. rewrite Hview.
  destruct (adb_writev (fd s) (view (packet_queue s)) (proc_env st)) as [e|[rc v]] eqn:E.
  { unfold sim, mbind, SP_bind, on_env. cbn [env_of proc_HasEnv table_HasEnv abs t_env]. by rewrite E. }
  eapply (sim_step st (with_env v st)).
  { unfold mbind at 1, SP_bind at 1, on_env at 1. cbn [env_of proc_HasEnv]. rewrite E. reflexivity. }
  { unfold mbind at 1, SP_bind at 1, on_env at 1. cbn [env_of table_HasEnv abs t_env]. rewrite E. reflexivity. }
  { by intros x. }
  assert (ok (with_env v st)) as Hok1 by by apply ok_env.
  destruct rc as [n| |].
  - apply adb_writev_count in E as [Hn H32]. destruct (Z.gtb_spec n 0).
    + assert (∃ q, (if n =? iov_size (packet_queue s) then mret (clear (packet_queue s)).2
                    else ofout (drop_front (packet_queue s) n)) = mret (M:=SP proc) q ∧ queue_ok q
                    ∧ view q = zdrop n (view (packet_queue s))) as (q & -> & Hqok & Hqv).
      { rewrite iov_size_view by done. destruct (Z.eqb_spec n (zlen (view (packet_queue s)))) as [->|].
        - exists iov_new. split_and!; [done|by split; [apply iov_new_ok|]|].
          unfold zdrop, zlen. by rewrite Nat2Z.id, drop_all.
        - destruct (drop_front_ok (packet_queue s) n) as (q & -> & ? & ? & ?); try done; try lia.
          exists q. split_and!; try done. split; [done|lia]. }
      eapply sim_eq; [by apply (bind_eq _ _ _ q (with_env v st))|reflexivity|].
      sbind; [|by apply sim_ret]. apply sim_assign; [done..|]. intros s' Hs' _.
      assert (s' = s) as -> by (cbn in Hs'; congruence).
      split_and!; [by destruct Hb; split|done|]. unfold conn_of, c_set_queue. cbn. by rewrite Hqv.
    + sbind; [|by apply sim_ret]. apply sim_assign; [done..|field_update].
  - by apply sim_ret.
  - sbind; [|by apply sim_ret]. apply sim_assign; [done..|field_update].
Qed.

Lemma sim_flush_incoming st p : ok st → lptr st p →
  sim st (local_socket_flush_incoming p) (t_flush_incoming p).
Proof.
  intros Hok Hp. unfold local_socket_flush_incoming, t_flush_incoming.
  eapply sim_bind; [by apply sim_flush_queue|]. intros n st1 Hok1 Hext1 _.
  assert (lptr st1 p) as Hp1 by eauto with sim.
  apply sim_deref; [done..|]. intros s Hs Hb.
  rewrite queue_empty by apply Hb. cbn [conn_of c_queue c_werr c_transport c_peer c_avail c_id c_closing].
  set (full := negb _ && negb _).
  eapply (sim_bind _ _ _ (λ _, if closing s && negb full then _ else _)).
  - destruct (transport s) as [t|]; [|by apply sim_ret].
    destruct (peer s) as [q|] eqn:Hq.
    + destruct (connected st1 p s q Hok1 Hs (lb_local s Hb) Hq) as (r & t' & Hr & Hrb & Ht & _ & _ & ->).
      eapply sim_eq; [|reflexivity|].
      { unfold peer_id. rewrite Hq. cbn [ofopt]. unfold mbind at 1, SP_bind at 1.
        unfold mbind at 1, SP_bind at 1. cbn [mret SP_ret].
        rewrite (bind_eq _ _ _ _ _ (deref_eq st1 q r Hr)). reflexivity. }
      destruct (available_send_bytes s); [by apply sim_env|].
      destruct (n =? 0); [by apply sim_ret|by apply sim_env].
    + replace (peer_of (heap st1) s) with (@None (Z * Z)) by (unfold peer_of; by rewrite Hq).
      by apply sim_ret.
  - intros [] st2 Hok2 Hext2 _. assert (lptr st2 p) by eauto with sim.
    destruct (closing s && negb full).
    { sbind; [by apply sim_close|by apply sim_ret]. }
    destruct full; (sbind; [apply sim_assign; [done..|field_update]|by apply sim_ret]).
Qed.

Lemma chain_view v : iov_ok v → chain_length_ v = zlen (view v) + begin_offset_ v ∧ 0 ≤ chain_length_ v.
Proof.
  intros Hok. split; [|rewrite (iov_length v Hok); apply zlen_nonneg].
  destruct (live v) as [|b l] eqn:Hl; [by rewrite (iov_empty v Hok Hl)|].
  destruct (iov_parts v b l Hok Hl) as (? & _ & _ & _ & Hoff & Hb & _ & Hlen & Hview).
  rewrite Hview, zlen_app, Hlen. rewrite zlen_zdrop by (rewrite zlen_contents by done; lia).
  rewrite zlen_contents by done. lia.
Qed.

Lemma append_queue v d : queue_ok v → chain_length_ v + zlen d < 2 ^ 63 →
  queue_ok (append v (block_of d)) ∧ view (append v (block_of d)) = view v ++ d.
Proof.
  intros [Hok H63] Hd. destruct (chain_view v Hok) as [Hc H0]. pose proof (zlen_nonneg d).
  destruct (append_ok v (block_of d)) as (H1 & H2 & _); try done.
  { cbn [size_ data_ block_of]. lia. }
  rewrite contents_block_of in H2. split; [|done]. split; [done|].
  unfold append. cbn [size_ block_of]. destruct (Z.eqb_spec (zlen d) 0); [done|].
  cbn [chain_length_]. rewrite u64_small; lia.
Qed.

(** There is memory for [data] in the queue of the socket. *)
Definition room (st : proc) (p : ptr) (data : list byte) : Prop :=
  ∀ s, heap st !! p = Some s → chain_length_ (packet_queue s) + zlen data < 2 ^ 63.

Lemma sim_enqueue st p data : ok st → lptr st p → room st p data →
  sim st (asocket_enqueue p data) (t_enqueue p data).
Proof.
  intros Hok Hp Hroom. unfold asocket_enqueue.
  assert (sim st (local_socket_enqueue p data) (t_enqueue p data)) as Hl.
  { unfold local_socket_enqueue, t_enqueue. sbind.
    - apply sim_assign; [done..|]. intros s Hs Hb.
      destruct (append_queue (packet_queue s) data) as [Hq Hv]; [apply Hb|by apply Hroom|].
      split_and!; [by destruct Hb; split|done|]. unfold conn_of, c_set_queue. cbn. by rewrite Hv.
    - sbind; [apply sim_flush_incoming; eauto with sim|]. destruct x0; eauto with sim. }
  destruct (heap st !! p) as [s|] eqn:Hs.
  - eapply sim_deref_l; [done|]. destruct (ok_local st Hok p s Hs) as [Hb _]; [by apply Hp|].
    by rewrite (lb_enqueue s Hb).
  - eapply sim_eq; [|reflexivity|exact Hl]. unfold local_socket_enqueue, assign, deref, gets, ofopt.
    unfold mbind, SP_bind. by rewrite Hs.
Qed.

Lemma sim_send_outgoing st p data : ok st → lptr st p →
  sim st (send_outgoing p data) (t_send_outgoing p data).
Proof.
  intros Hok Hp. unfold send_outgoing, t_send_outgoing. apply sim_deref; [done..|]. intros s Hs Hb.
  cbn [conn_of c_peer c_avail c_id]. destruct data as [|b data]; [by apply sim_ret|].
  set (d := b :: data). clearbody d.
  destruct (peer s) as [q|] eqn:Hq.
  2:{ replace (peer_of (heap st) s) with (@None (Z * Z)) by (unfold peer_of; by rewrite Hq).
      by apply sim_ret. }
  destruct (connected st p s q Hok Hs (lb_local s Hb) Hq) as (r & t & Hr & Hrb & Ht & Hrp & Hne & ->).
  (* the rest, once [available_send_bytes] has its new value [s'] *)
  assert (∀ s', s' = s ∨ (∃ a, s' = set_available a s) →
    ok (set_heap (<[p := s']> (heap st)) st) → extends st (set_heap (<[p := s']> (heap st)) st) →
    sim (set_heap (<[p := s']> (heap st)) st)
      (r ← asocket_enqueue q d;
       if r <? 0 then mret false
       else if r >? 0 then
         s ← deref p;
         (match available_send_bytes s with
          | Some a => if a <=? 0 then fdevent_read false p else mret tt
          | None => fdevent_read false p
          end);; mret true
       else mret true)
      (if zlen d >? MAX_PAYLOAD then mret false
       else
         on_env (send_packet (packet A_WRTE (as_id s) (as_id r) d) t);;
         (match available_send_bytes s' with
          | Some a => if a <=? 0 then update p (fun c => c_set_fde false (c_write c) c) else mret tt
          | None => update p (fun c => c_set_fde false (c_write c) c)
          end);; mret true)) as Hrest.
  { intros s' Hs' Hok1 Hext1. set (st1 := set_heap _ _) in *.
    assert (heap st1 !! p = Some s') as Hs1 by (cbn; by rewrite lookup_insert_eq).
    assert (heap st1 !! q = Some r) as Hr1 by (cbn; by rewrite lookup_insert_ne).
    assert (as_id s' = as_id s) as Hid by (destruct Hs' as [->|[a ->]]; done).
    assert (asocket_enqueue q d st1 =
      (if zlen d >? MAX_PAYLOAD then mret (-1)
       else on_env (send_packet (packet A_WRTE (as_id s) (as_id r) d) t);; mret 1) st1) as Henq.
    { unfold asocket_enqueue. rewrite (bind_eq _ _ _ _ _ (deref_eq st1 q r Hr1)), (rb_enqueue r Hrb).
      unfold remote_socket_enqueue. rewrite (bind_eq _ _ _ _ _ (deref_eq st1 q r Hr1)).
      rewrite (bind_eq _ _ st1 (as_id s) st1).
      - destruct (_ >? _); [done|]. apply bind_cong. unfold send_on. by rewrite Ht.
      - unfold peer_id. rewrite Hrp. rewrite (bind_eq _ _ st1 p st1) by done.
        rewrite (bind_eq _ _ _ _ _ (deref_eq st1 p s' Hs1)). by rewrite Hid. }
    eapply sim_eq; [by apply bind_cong, Henq|reflexivity|].
    destruct (zlen d >? MAX_PAYLOAD).
    { eapply sim_eq; [by apply (bind_eq _ _ _ (-1) st1)|reflexivity|]. by apply sim_ret. }
    eapply sim_eq; [apply bind_assoc|reflexivity|]. apply sim_env_bind; [done|]. intros _ v Hok2.
    eapply sim_eq; [by apply (bind_eq _ _ _ 1 (with_env v st1))|reflexivity|].
    change (1 <? 0) with false. change (1 >? 0) with true. cbv iota.
    eapply sim_deref_l; [exact Hs1|].
    assert (lptr (with_env v st1) p) by (apply lptr_env; by apply Hext1).
    destruct (available_send_bytes s') as [a|]; [destruct (a <=? 0)|];
      (sbind; [first [by apply sim_ret|apply sim_assign; [done..|field_update]]|by apply sim_ret]). }
  destruct (available_send_bytes s) as [a|] eqn:Ha.
  - assert (local_body (set_available (Some (i64 (a - zlen d))) s)) as Hb' by (by destruct Hb; split).
    eapply (sim_assign_bind st p s (set_available (Some (i64 (a - zlen d)))) _); [done..|].
    intros Hok1 Hext1.
    apply (Hrest (set_available (Some (i64 (a - zlen d))) s)); eauto.
  - eapply (sim_step st (set_heap (<[p := s]> (heap st)) st)); [| | |apply (Hrest s)].
    + cbn [mret SP_ret]. unfold mbind at 1, SP_bind at 1. rewrite insert_id by done. by destruct st.
    + unfold mbind at 1, SP_bind at 1. cbn [mret SP_ret]. unfold abs. cbn. rewrite insert_id by done.
      by rewrite Ha.
    + intros x [Hx Hy]. split; [done|]. cbn. by rewrite insert_id.
    + by left.
    + rewrite insert_id by done. by destruct st.
    + rewrite insert_id by done. by destruct st.
Qed.

Lemma sim_flush_outgoing st p : ok st → lptr st p →
  sim st (local_socket_flush_outgoing p) (t_flush_outgoing p).
Proof.
  intros Hok Hp. unfold local_socket_flush_outgoing, t_flush_outgoing.
  eapply sim_bind; [by apply sim_max_payload|]. intros m st1 Hok1 Hext1 _.
  assert (lptr st1 p) as Hp1 by eauto with sim.
  apply sim_deref; [done..|]. intros s Hs Hb. cbn [conn_of c_fd].
  eapply sim_bind; [by apply sim_env|]. intros k st2 Hok2 Hext2 _.
  eapply sim_bind; [by apply sim_env|]. intros [data eof] st3 Hok3 Hext3 _.
  assert (lptr st3 p) as Hp3 by eauto with sim.
  eapply sim_bind; [by apply sim_send_outgoing|]. intros go st4 Hok4 Hext4 _.
  destruct (negb go); [by apply sim_ret|]. destruct eof; [|by apply sim_ret].
  sbind; [apply sim_close|]; eauto with sim.
Qed.

Lemma sim_event st p r w : ok st → lptr st p →
  sim st (local_socket_event_func p r w) (t_event p r w).
Proof.
  intros Hok Hp. unfold local_socket_event_func, t_event. sbind.
  { destruct w; [|by apply sim_ret]. sbind; [by apply sim_flush_incoming|]. eauto with sim. }
  destruct x; [eauto with sim|]. destruct r; [|eauto with sim].
  sbind; [apply sim_flush_outgoing|]; eauto with sim.
Qed.

(** ** The lists *)

Lemma sim_find st i j : ok st → sim st (find_local_socket i j) (t_find i j).
Proof.
  intros Hok. unfold find_local_socket, t_find.
  apply (sim_eq st _ (find_in (local_socket_list st) i j) _ (t_find_in (local_socket_list st) i j));
    [done|done|].
  assert (∀ p, p ∈ local_socket_list st → lptr st p) as Hl by (intros; apply (ok_lists st Hok); auto).
  induction (local_socket_list st) as [|p l IH]; [by apply sim_ret|].
  cbn [find_in t_find_in]. apply sim_deref; [done|by apply Hl; left|]. intros s Hs Hb.
  cbn [conn_of c_id c_peer]. destruct (negb _); [apply IH; intros; apply Hl; by right|].
  destruct (j =? 0); [by apply sim_ret|]. destruct (peer s) as [q|] eqn:Hq.
  - destruct (connected st p s q Hok Hs (lb_local s Hb) Hq) as (r & t & Hr & _ & _ & _ & _ & ->).
    eapply sim_deref_l; [done|]. by apply sim_ret.
  - replace (peer_of (heap st) s) with (@None (Z * Z)) by (unfold peer_of; by rewrite Hq).
    by apply sim_ret.
Qed.

Lemma sim_first_on st t : ok st →
  sim st (l ← gets local_socket_list; first_on l t) (l ← gets t_list; t_first_on l t).
Proof.
  intros Hok.
  apply (sim_eq st _ (first_on (local_socket_list st) t) _ (t_first_on (local_socket_list st) t));
    [done|done|].
  assert (∀ p, p ∈ local_socket_list st → lptr st p) as Hl by (intros; apply (ok_lists st Hok); auto).
  induction (local_socket_list st) as [|p l IH]; [by apply sim_ret|].
  cbn [first_on t_first_on]. apply sim_deref; [done|by apply Hl; left|]. intros s Hs Hb.
  cbn [conn_of c_transport c_peer].
  assert (sim st (first_on l t) (t_first_on l t)) as IH' by (apply IH; intros; apply Hl; by right).
  destruct (bool_decide (transport s = Some t)); [by apply sim_ret|]. cbn [orb].
  destruct (peer s) as [q|] eqn:Hq.
  - destruct (connected st p s q Hok Hs (lb_local s Hb) Hq) as (r & t' & Hr & _ & Ht & _ & _ & ->).
    eapply sim_deref_l; [done|]. rewrite Ht. cbn. destruct (bool_decide _); [by apply sim_ret|done].
  - replace (peer_of (heap st) s) with (@None (Z * Z)) by (unfold peer_of; by rewrite Hq).
    rewrite bool_decide_eq_false_2 by done. done.
Qed.

Lemma t_find_in_elem l i j a p a' : t_find_in l i j a = inr (Some p, a') → p ∈ l ∧ a' = a.
Proof.
  induction l as [|x l IH]; cbn; [done|].
  unfold find_conn, gets, ofopt, mbind, SP_bind. destruct (t_conns a !! x) as [c|]; [|done]. cbn.
  destruct (negb _); [intros [? ?]%IH; split; [by right|done]|].
  destruct (j =? 0); [intros [= <- <-]; split; [by left|done]|].
  destruct (c_peer c) as [[j' t]|]; [|done]. destruct (j' =? j); [|done].
  intros [= <- <-]; split; [by left|done].
Qed.

Lemma t_first_on_elem l t a p a' : t_first_on l t a = inr (Some p, a') → p ∈ l ∧ a' = a.
Proof.
  induction l as [|x l IH]; cbn; [done|].
  unfold find_conn, gets, ofopt, mbind, SP_bind. destruct (t_conns a !! x) as [c|]; [|done]. cbn.
  destruct (_ || _); [intros [= <- <-]; split; [by left|done]|].
  intros [? ?]%IH; split; [by right|done].
Qed.

Lemma sim_close_all st t : ok st → sim st (close_all_sockets t) (t_close_all t).
Proof.
  intros Hok. unfold close_all_sockets, t_close_all.
  apply (sim_eq st _ (close_all_loop (length (local_socket_list st)) t) _
    (t_close_all_loop (length (local_socket_list st)) t)); [done|done|].
  generalize (length (local_socket_list st)) as n. intros n. revert st Hok.
  induction n as [|n IH]; intros st Hok; cbn [close_all_loop t_close_all_loop].
  - eapply sim_eq; [symmetry; apply bind_assoc|symmetry; apply bind_assoc|].
    eapply sim_bind; [by apply sim_first_on|]. intros [p|] st' ???; auto with sim.
  - eapply sim_eq; [symmetry; apply bind_assoc|symmetry; apply bind_assoc|].
    eapply sim_bind; [by apply sim_first_on|]. intros [p|] st' Hok' Hext' Hf; [|auto with sim].
    unfold gets, mbind, SP_bind in Hf. apply t_first_on_elem in Hf as [Hin Heq].
    sbind; [|by apply IH]. apply sim_close; [done|]. apply Hext'. apply (ok_lists st Hok). by left.
Qed.

(** ** Creation *)

Lemma new_local_ok st s :
  ok st → local_body s → peer s = None → ∀ l i f v,
  let p := next_ptr st in
  let st' := mk_proc (<[p := s]> (heap st)) (p + 1) (l ++ [p]) (local_socket_closing_list st) i f v in
  (∀ x, x ∈ l → lptr st x) →
  ok st' ∧ extends st st' ∧ lptr st' p ∧ conns (heap st') = <[p := conn_of (heap st) s]> (conns (heap st)).
Proof.
  intros Hok Hb Hpeer l i f v p st' Hl.
  assert (heap st !! p = None) as Hfresh.
  { destruct (heap st !! p) eqn:E; [|done]. apply (ok_alloc st Hok) in E. subst p. lia. }
  assert (∀ x y, heap st' !! x = Some y → (x = p ∧ y = s) ∨ (x ≠ p ∧ heap st !! x = Some y)) as Hd.
  { intros x y. cbn. destruct (decide (x = p)) as [->|]; [rewrite lookup_insert_eq; by intros [= <-]; left|].
    rewrite lookup_insert_ne by done. by right. }
  assert (∀ x y, heap st !! x = Some y → heap st' !! x = Some y) as Hi.
  { intros x y Hx. cbn. rewrite lookup_insert_ne; [done|]. intros ->. congruence. }
  assert (extends st st') as Hext.
  { intros x [Hlt Hx]. split; [cbn; lia|]. intros y [[-> ->]|[_ Hy]]%Hd; [apply Hb|by apply Hx]. }
  assert (lptr st' p) as Hp by (split; [cbn; lia|]; intros y [[_ ->]|[? _]]%Hd; [apply Hb|done]).
  split_and!; [|done|done|].
  - split.
    + intros x y [[-> _]|[_ Hx]]%Hd; [cbn; lia|]. apply (ok_alloc st Hok) in Hx. cbn. lia.
    + intros x y [[-> ->]|[_ Hx]]%Hd Hy; [split; [done|by rewrite Hpeer]|].
      destruct (ok_local st Hok x y Hx Hy) as [H1 H2]. split; [done|].
      intros q Hq. destruct (H2 q Hq) as (r & ? & ? & ?). exists r. auto.
    + intros x y [[-> ->]|[_ Hx]]%Hd Hy; [destruct Hb; congruence|].
      destruct (ok_remote st Hok x y Hx Hy) as [H1 (p' & s' & ? & ? & ? & ?)].
      split; [done|]. exists p', s'. auto.
    + intros x Hx. cbn in Hx. rewrite elem_of_app, list_elem_of_singleton in Hx.
      destruct Hx as [[Hx| ->]|Hx]; [by apply Hext, Hl|done|].
      apply Hext, (ok_lists st Hok). by right.
  - apply map_eq. intros x. rewrite conns_lookup. cbn. destruct (decide (x = p)) as [->|Hne].
    + rewrite !lookup_insert_eq, (lb_local s Hb). f_equal. unfold conn_of, peer_of. by rewrite Hpeer.
    + rewrite !lookup_insert_ne by done. rewrite conns_lookup.
      destruct (heap st !! x) as [y|] eqn:Hx; [|done]. destruct (is_local y) eqn:Hy; [|done].
      f_equal. unfold conn_of, peer_of. destruct (peer y) as [q|] eqn:Hq; [|done]. cbn.
      destruct (ok_peer st x y q Hok Hx Hy Hq) as (r & Hr & _).
      rewrite lookup_insert_ne; [done|]. intros ->. congruence.
Qed.

Lemma sim_create st k : ok st → sim st (create_local_socket k) (t_create k).
Proof.
  intros Hok. unfold sim, create_local_socket, t_create, new_asocket, install_local_socket, assign, deref,
    put_fd, on_env, gets, ofopt, modp, halt, mbind, SP_bind, mret, SP_ret. cbn -[u32].
  rewrite lookup_insert_eq. cbn -[u32]. destruct (u32 (local_socket_next_id st + 1) =? 0); [done|].
  rewrite insert_insert_eq. cbn -[u32].
  set (s := mk_asocket (local_socket_next_id st) _ _ _ _ _ _ _ _ _ _ _ _ _ _).
  destruct (new_local_ok st s Hok) with (l := local_socket_list st)
    (i := u32 (local_socket_next_id st + 1)) (f := next_fd st + 1)
    (v := mk_env (transports (proc_env st)) (<[next_fd st:=k]> (fds (proc_env st))) (calls (proc_env st)))
    as (H1 & H2 & _ & H3).
  - split; try done; by left.
  - done.
  - intros x Hx. apply (ok_lists st Hok). by left.
  - split_and!; try done. unfold abs. cbn in *. by rewrite H3.
Qed.

Lemma create_lptr k a p a' : t_create k a = inr (p, a') →
  t_conns a' !! p = Some (mk_conn (t_next_id a) false false false None false None false false
                            (t_next_fd a) [] None).
Proof.
  unfold t_create. destruct (_ =? 0); [done|]. intros [= <- <-]. cbn. by rewrite lookup_insert_eq.
Qed.

Lemma conn_lptr st p c : ok st → t_conns (abs st) !! p = Some c → lptr st p.
Proof.
  intros Hok Hc. cbn in Hc. rewrite conns_lookup in Hc. destruct (heap st !! p) as [s|] eqn:Hs; [|done].
  destruct (is_local s) eqn:Hl; [|done]. split; [by eapply (ok_alloc st)|]. intros s' Hs'. congruence.
Qed.

Lemma attach_ok st p s id t : ok st → heap st !! p = Some s → is_local s = true → peer s = None →
  let q := next_ptr st in
  let r := mk_asocket id false false false (Some p) remote_socket_enqueue_fn remote_socket_ready_fn
    (Some remote_socket_shutdown_fn) remote_socket_close_fn (Some t) false false (-1) iov_new None in
  let st' := mk_proc (<[q := r]> (<[p := set_peer (Some q) s]> (heap st))) (q + 1)
    (local_socket_list st) (local_socket_closing_list st) (local_socket_next_id st) (next_fd st)
    (proc_env st) in
  ok st' ∧ extends st st' ∧
  conns (heap st') = <[p := c_set_peer (Some (id, t)) (conn_of (heap st) s)]> (conns (heap st)).
Proof.
  intros Hok Hs Hl Hpeer q r st'. destruct (ok_local st Hok p s Hs Hl) as [Hb _].
  assert (heap st !! q = None) as Hfresh.
  { destruct (heap st !! q) eqn:E; [|done]. apply (ok_alloc st Hok) in E. subst q. lia. }
  assert (q ≠ p) as Hqp by (intros ->; congruence).
  assert (∀ x y, heap st' !! x = Some y → (x = q ∧ y = r) ∨ (x = p ∧ y = set_peer (Some q) s)
            ∨ (x ≠ p ∧ x ≠ q ∧ heap st !! x = Some y)) as Hd.
  { intros x y. cbn. destruct (decide (x = q)) as [->|]; [rewrite lookup_insert_eq; by intros [= <-]; left|].
    rewrite lookup_insert_ne by done.
    destruct (decide (x = p)) as [->|]; [rewrite lookup_insert_eq; by intros [= <-]; right; left|].
    rewrite lookup_insert_ne by done. by right; right. }
  assert (∀ x y, x ≠ p → heap st !! x = Some y → heap st' !! x = Some y) as Hi.
  { intros x y ? Hx. cbn. rewrite !lookup_insert_ne; [done|done|]. intros ->. congruence. }
  assert (heap st' !! q = Some r) as Hq' by (cbn; by rewrite lookup_insert_eq).
  assert (heap st' !! p = Some (set_peer (Some q) s)) as Hp'
    by (cbn; by rewrite lookup_insert_ne, lookup_insert_eq).
  assert (extends st st') as Hext.
  { intros x [Hlt Hx]. split; [cbn; lia|].
    intros y [[-> _]|[[-> ->]|(_ & _ & Hy)]]%Hd; [subst q; lia|done|by apply Hx]. }
  split_and!; [|done|].
  - split.
    + intros x y [[-> _]|[[-> _]|(_ & _ & Hx)]]%Hd; [cbn; lia|apply (ok_alloc st Hok) in Hs; cbn; lia|].
      apply (ok_alloc st Hok) in Hx. cbn. lia.
    + intros x y [[-> ->]|[[-> ->]|(Hne & _ & Hx)]]%Hd Hy; [done| |].
      * split; [by destruct Hb; split|]. intros z [= <-]. exists r. done.
      * destruct (ok_local st Hok x y Hx Hy) as [H1 H2]. split; [done|].
        intros z Hz. destruct (H2 z Hz) as (r' & Hr' & ? & ?). exists r'. split_and!; try done.
        apply Hi; [|done]. intros ->. congruence.
    + intros x y [[-> ->]|[[-> ->]|(Hne & _ & Hx)]]%Hd Hy;
        [split; [by split|]; by exists p, (set_peer (Some q) s)|change (is_local s = false) in Hy; congruence|].
      destruct (ok_remote st Hok x y Hx Hy) as [H1 (p' & s' & ? & Hp2 & ? & ?)].
      split; [done|]. exists p', s'. split_and!; try done. apply Hi; [|done]. intros ->. congruence.
    + intros x Hx. apply Hext, (ok_lists st Hok), Hx.
  - apply map_eq. intros x. rewrite conns_lookup. destruct (decide (x = p)) as [->|Hne].
    + rewrite Hp', lookup_insert_eq. change (is_local (set_peer (Some q) s)) with (is_local s). rewrite Hl.
      unfold conn_of, peer_of, c_set_peer. cbn [peer set_peer mbind option_bind]. rewrite Hq'. done.
    + rewrite lookup_insert_ne by done. rewrite conns_lookup.
      destruct (decide (x = q)) as [->|Hnq]; [by rewrite Hq', Hfresh|].
      assert (heap st' !! x = heap st !! x) as -> by (cbn; by rewrite !lookup_insert_ne by done).
      destruct (heap st !! x) as [y|] eqn:Hx; [|done]. destruct (is_local y) eqn:Hy; [|done].
      f_equal. unfold conn_of, peer_of. destruct (peer y) as [z|] eqn:Hz; [|done]. cbn [mbind option_bind].
      destruct (ok_peer st x y z Hok Hx Hy Hz) as (r' & Hr' & Hrl).
      rewrite (Hi z r'); [by rewrite Hr'| |done]. intros ->. congruence.
Qed.

Lemma insert_around (m : gmap ptr asocket) q p a b x : q ≠ p →
  <[q := a]> (<[p := b]> (<[q := x]> m)) = <[q := a]> (<[p := b]> m).
Proof.
  intros Hne. apply map_eq. intros i. destruct (decide (i = q)) as [->|]; [by rewrite !lookup_insert_eq|].
  rewrite !(lookup_insert_ne _ q) by done.
  destruct (decide (i = p)) as [->|]; [by rewrite !lookup_insert_eq|]. by rewrite !lookup_insert_ne.
Qed.

Lemma sim_attach st p id t : ok st → lptr st p → unpeered st p → is_Some (heap st !! p) →
  sim st (attach_remote p id t) (t_attach p id t).
Proof.
  intros Hok Hp Hu [s Hs]. assert (is_local s = true) as Hl by by apply Hp.
  unfold attach_remote, t_attach, create_remote_socket. destruct (id =? 0); [done|].
  destruct (attach_ok st p s id t Hok Hs Hl (Hu s Hs)) as (H1 & H2 & H3).
  assert (next_ptr st ≠ p) as Hne.
  { intros <-. apply (ok_alloc st Hok) in Hs. lia. }
  eapply (sim_step st (mk_proc _ _ _ _ _ _ _) _ (mret tt) _ (mret tt)); [| |exact H2|by apply sim_ret].
  - unfold new_asocket. unfold mbind at 1, SP_bind at 1.
    erewrite (bind_eq _ _ _ tt);
      [|apply (assign_eq _ p s); cbn [heap]; by rewrite lookup_insert_ne].
    erewrite assign_eq by (cbn [heap set_heap]; by rewrite lookup_insert_ne, lookup_insert_eq).
    cbn [heap set_heap]. by rewrite insert_around.
  - unfold modp. unfold mbind, SP_bind. unfold update, find_conn, gets, ofopt, mbind, SP_bind, modp.
    cbn [t_conns abs]. rewrite conns_lookup, Hs, Hl. cbn [mret SP_ret].
    unfold abs, set_conns. cbn [t_conns t_next_ptr t_list t_closing t_next_id t_next_fd t_env heap
      next_ptr local_socket_list local_socket_closing_list local_socket_next_id next_fd proc_env] in *.
    by rewrite H3.
Qed.

(** ** The handlers *)

(** ** The handlers *)

Lemma update_eq a p c g : t_conns a !! p = Some c →
  update p g a = inr (tt, set_conns (<[p := g c]> (t_conns a)) a).
Proof. intros Hc. unfold update, find_conn, gets, ofopt, modp, mbind, SP_bind. by rewrite Hc. Qed.

Lemma update_inv a p g a' : update p g a = inr (tt, a') →
  ∃ c, t_conns a !! p = Some c ∧ a' = set_conns (<[p := g c]> (t_conns a)) a.
Proof.
  destruct (t_conns a !! p) as [c|] eqn:Hc.
  - rewrite (update_eq a p c g Hc). intros [= <-]. by exists c.
  - unfold update, find_conn, gets, ofopt, modp, mbind, SP_bind. by rewrite Hc.
Qed.

Lemma conn_heap st p c : t_conns (abs st) !! p = Some c → is_Some (heap st !! p).
Proof. cbn. rewrite conns_lookup. by destruct (heap st !! p). Qed.

Lemma sim_instrument st p : ok st → lptr st p → unpeered st p →
  sim st (instrument p) (update p (c_set_notify true);; update p (c_set_peer None)).
Proof.
  intros Hok Hp Hu. unfold instrument. eapply sim_bind_eq.
  { apply sim_assign; [done..|]. intros s Hs Hb. destruct Hb. split_and!; [split; auto|done|done]. }
  intros [] st1 Hm Hok1 Hext1 _. apply sim_assign; [done|by apply Hext1|]. intros s Hs Hb.
  assert (peer s = None) as Hn.
  { destruct (heap st !! p) as [s0|] eqn:Hs0.
    - rewrite (assign_eq st p s0 _ Hs0) in Hm. injection Hm as <-. cbn in Hs.
      rewrite lookup_insert_eq in Hs. injection Hs as <-. exact (Hu s0 Hs0).
    - unfold assign, deref, gets, ofopt, mbind, SP_bind in Hm. by rewrite Hs0 in Hm. }
  split_and!; [by destruct Hb; split|by rewrite Hn|done].
Qed.

Lemma sim_peer_info st p : ok st → lptr st p →
  sim st (sl_peer p) (sl_peer p).
Proof.
  intros Hok Hp. cbn [sl_peer proc_SocketLayer table_SocketLayer]. unfold peer_info.
  apply sim_deref; [done..|]. intros s Hs Hb. cbn [conn_of c_peer]. destruct (peer s) as [q|] eqn:Hq.
  - destruct (connected st p s q Hok Hs (lb_local s Hb) Hq) as (r & t & Hr & _ & Ht & _ & _ & ->).
    eapply sim_deref_l; [done|]. rewrite Ht. by apply sim_ret.
  - replace (peer_of (heap st) s) with (@None (Z * Z)) by (unfold peer_of; by rewrite Hq).
    by apply sim_ret.
Qed.

Lemma sim_fde st p : ok st → sim st (sl_fde p) (sl_fde p).
Proof.
  intros Hok. cbn [sl_fde proc_SocketLayer table_SocketLayer]. unfold fde_state, sim, gets, mbind, SP_bind.
  cbn [abs t_conns]. rewrite conns_lookup. cbn. split_and!; try done. unfold is_local.
  destruct (heap st !! p) as [s|]; [|done]. by destruct (close s).
Qed.

Section handlers.
Context (w : world).

Lemma sim_field {A} st p (f : asocket → A) (g : conn → A) : ok st → lptr st p →
  (∀ h s, f s = g (conn_of h s)) →
  sim st (s ← deref p; mret (f s)) (c ← find_conn p; mret (g c)).
Proof.
  intros Hok Hp Hfg. apply sim_deref; [done..|]. intros s Hs Hb. rewrite <- Hfg. by apply sim_ret.
Qed.

Lemma sim_sl_id st p : ok st → lptr st p → sim st (sl_id p) (sl_id p).
Proof. intros. by apply sim_field. Qed.
Lemma sim_sl_fd st p : ok st → lptr st p → sim st (sl_fd p) (sl_fd p).
Proof. intros. by apply sim_field. Qed.
Lemma sim_sl_transport st p : ok st → lptr st p → sim st (sl_transport p) (sl_transport p).
Proof. intros. by apply sim_field. Qed.
Lemma sim_sl_set_transport st p t : ok st → lptr st p →
  sim st (sl_set_transport p t) (sl_set_transport p t).
Proof. intros. apply sim_assign; [done..|field_update]. Qed.
Lemma sim_sl_set_exit st p : ok st → lptr st p → sim st (sl_set_exit p) (sl_set_exit p).
Proof. intros. apply sim_assign; [done..|field_update]. Qed.
Lemma sim_sl_set_available st p n : ok st → lptr st p →
  sim st (sl_set_available p n) (sl_set_available p n).
Proof. intros. apply sim_assign; [done..|field_update]. Qed.

Lemma sim_sl_ready st p : ok st → lptr st p → sim st (sl_ready p) (sl_ready p).
Proof. apply sim_ready. Qed.
Lemma sim_sl_ack st p a : ok st → lptr st p → sim st (sl_ack p a) (sl_ack p a).
Proof. apply sim_ack. Qed.
Lemma sim_sl_close st p : ok st → lptr st p → sim st (sl_close p) (sl_close p).
Proof. apply sim_close. Qed.
Lemma sim_sl_max st p : ok st → lptr st p → sim st (sl_max_payload p) (sl_max_payload p).
Proof. apply sim_max_payload. Qed.
Lemma sim_sl_close_all st t : ok st → sim st (sl_close_all t) (sl_close_all t).
Proof. apply sim_close_all. Qed.
Lemma sim_sl_event st p r x : ok st → lptr st p → sim st (sl_event p r x) (sl_event p r x).
Proof. apply sim_event. Qed.
Lemma sim_sl_create st k : ok st → sim st (sl_create k) (sl_create k).
Proof. apply sim_create. Qed.
Lemma sim_sl_find st i j : ok st → sim st (sl_find i j) (sl_find i j).
Proof. apply sim_find. Qed.

#[local] Hint Resolve sim_sl_id sim_sl_fd sim_sl_transport sim_sl_set_transport sim_sl_set_exit
  sim_sl_set_available sim_sl_ready sim_sl_ack sim_sl_close sim_sl_max sim_sl_close_all sim_sl_event
  sim_sl_create sim_sl_find sim_peer_info sim_fde : sim.

(** Pointers known in one state are known in the next. *)
Ltac carry :=
  repeat match goal with
  | Hp : lptr ?a ?p, He : extends ?a ?b |- _ =>
      lazymatch goal with
      | _ : lptr b p |- _ => fail
      | _ => assert (lptr b p) by (by apply He)
      end
  end.

(** Follows both sides through the same program. *)
Ltac follow :=
  repeat first
    [ solve [auto with sim]
    | apply sim_bind; [|intros ? ? ? ? ?; carry]
    | match goal with |- sim _ (if ?b then _ else _) _ => destruct b end
    | match goal with |- sim _ (match ?b with _ => _ end) _ => destruct b end ].

Lemma sim_handle_offline st t : ok st → sim st (handle_offline t) (handle_offline t).
Proof. intros Hok. unfold handle_offline. follow. Qed.
#[local] Hint Resolve sim_handle_offline : sim.

Lemma sim_connect st p d : ok st → lptr st p → sim st (connect_to_remote w p d) (connect_to_remote w p d).
Proof. intros Hok Hp. unfold connect_to_remote. follow. Qed.
#[local] Hint Resolve sim_connect : sim.

Lemma sim_smart_connect st p t d : ok st → lptr st p → unpeered st p →
  sim st (smart_socket_connect w p t d) (smart_socket_connect w p t d).
Proof.
  intros Hok Hp Hu. unfold smart_socket_connect. apply sim_env_bind; [done|]. intros a v Hok1.
  assert (lptr (with_env v st) p) by by apply lptr_env.
  destruct (negb _); [follow|].
  sbind; [by apply (sim_instrument (with_env v st))|]. follow.
Qed.

Lemma sim_auth_host st p t : ok st → sim st (handle_auth_host w p t) (handle_auth_host w p t).
Proof. intros Hok. unfold handle_auth_host. follow. Qed.
Lemma sim_auth_daemon st p t : ok st → sim st (handle_auth_daemon w p t) (handle_auth_daemon w p t).
Proof. intros Hok. unfold handle_auth_daemon. follow. Qed.
Lemma sim_new_connection st p t : ok st →
  sim st (handle_new_connection w t p) (handle_new_connection w t p).
Proof. intros Hok. unfold handle_new_connection. follow. Qed.

Lemma find_lptr st i j o st' : ok st → t_find i j (abs st) = inr (Some o, abs st') →
  extends st st' → lptr st' o.
Proof.
  intros Hok Hf Hext. unfold t_find, gets, mbind, SP_bind in Hf.
  apply t_find_in_elem in Hf as [Hin _]. apply Hext, (ok_lists st Hok). by left.
Qed.

Lemma sim_clse st p t : ok st → sim st (handle_clse p t) (handle_clse p t).
Proof.
  intros Hok. unfold handle_clse. sbind; [auto with sim|]. destruct (_ || _); [auto with sim|].
  eapply sim_bind; [by apply sim_sl_find|]. intros [s|] st2 Hok2 Hext2 Hf; [|auto with sim].
  assert (lptr st2 s) by by eapply (find_lptr st'). follow.
Qed.

Lemma find_in_same l i j st o st' : find_in l i j st = inr (o, st') → st' = st.
Proof.
  revert o. induction l as [|p l IH]; intros o; cbn [find_in]; [by intros [= _ <-]|].
  destruct (heap st !! p) as [s|] eqn:Hs; [|by unfold deref, gets, ofopt, mbind, SP_bind; rewrite Hs].
  rewrite (bind_eq _ _ _ _ _ (deref_eq st p s Hs)). destruct (negb _); [apply IH|].
  destruct (j =? 0); [by intros [= _ <-]|]. destruct (peer s) as [q|]; [|by intros [= _ <-]].
  destruct (heap st !! q) as [r|] eqn:Hr; [|by unfold deref, gets, ofopt, mbind, SP_bind; rewrite Hr].
  rewrite (bind_eq _ _ _ _ _ (deref_eq st q r Hr)). by intros [= _ <-].
Qed.

Lemma sim_wrte st p t : ok st → (∀ x, room st x (payload p)) → sim st (handle_wrte p t) (handle_wrte p t).
Proof.
  intros Hok Hroom. unfold handle_wrte. apply sim_env_bind; [done|]. intros a v Hok1.
  destruct (_ || _); [auto with sim|].
  eapply sim_bind_eq; [by apply sim_sl_find|]. intros [s|] st2 Hm Hok2 Hext2 Hf; [|auto with sim].
  apply find_in_same in Hm as ->. sbind; [|auto with sim].
  apply sim_enqueue; [done| |exact (Hroom s)]. by eapply (find_lptr (with_env v st)).
Qed.

Lemma ack_keeps a p n a' x : t_ack p n a = inr (x, a') → is_Some (t_conns a !! p).
Proof.
  unfold t_ack, find_conn, gets, ofopt, mbind, SP_bind. destruct (t_conns a !! p); [done|].
  cbn. done.
Qed.

Lemma sim_okay st p t : ok st → sim st (handle_okay p t) (handle_okay p t).
Proof.
  intros Hok. unfold handle_okay. sbind; [auto with sim|]. destruct (_ || _); [auto with sim|].
  eapply sim_bind; [by apply sim_sl_find|]. intros [s|] st2 Hok2 Hext2 Hf; [|auto with sim].
  assert (lptr st2 s) by by eapply (find_lptr st').
  destruct (acked p) as [ack|]; [|auto with sim].
  eapply sim_bind; [by apply sim_peer_info|]. intros [[i t']|] st3 Hok3 Hext3 Hq.
  { destruct (_ =? _); eauto with sim. }
  cbn [sl_peer table_SocketLayer] in Hq. unfold find_conn, gets, ofopt, mbind, SP_bind in Hq.
  destruct (t_conns (abs st2) !! s) as [c|] eqn:Hc; [|done]. unfold mret, SP_ret in Hq.
  assert (c_peer c = None ∧ abs st2 = abs st3) as [Hpeer Habs].
  { split; [by destruct (c_peer c)|congruence]. }
  rewrite Habs in Hc.
  assert (lptr st3 s) by eauto with sim.
  sbind; [|follow]. apply sim_attach; [done..| |by eapply conn_heap].
  by eapply unpeered_abs.
Qed.

Lemma service_socket_fresh name t a p a' :
  create_local_service_socket w (S:=table) name t a = inr (Some p, a') →
  ∃ c, t_conns a' !! p = Some c ∧ c_peer c = None.
Proof.
  unfold create_local_service_socket. destruct (service_to_fd w name t) as [k|]; [|done].
  cbn [sl_create sl_set_transport sl_set_exit table_SocketLayer]. unfold mbind at 1, SP_bind at 1.
  destruct (t_create k a) as [e|[x a1]] eqn:Hk; [done|]. apply create_lptr in Hk.
  erewrite bind_eq by (by apply update_eq). destruct (_ && _).
  - erewrite bind_eq by (apply update_eq; cbn; by rewrite lookup_insert_eq).
    intros [= <- <-]. cbn. rewrite lookup_insert_eq. by eexists.
  - erewrite bind_eq by done. intros [= <- <-]. cbn. rewrite lookup_insert_eq. by eexists.
Qed.

Lemma sim_service_socket st name t : ok st →
  sim st (create_local_service_socket w name t) (create_local_service_socket w name t).
Proof.
  intros Hok. unfold create_local_service_socket. destruct (service_to_fd w name t); [|auto with sim].
  eapply sim_bind; [by apply sim_sl_create|]. intros p st1 Hok1 Hext1 Hk. apply create_lptr in Hk.
  assert (lptr st1 p) by by eapply conn_lptr. follow.
Qed.

Lemma sim_open st p t : ok st → sim st (handle_open w p t) (handle_open w p t).
Proof.
  intros Hok. unfold handle_open. sbind; [auto with sim|]. destruct (_ || _); [auto with sim|].
  destruct (negb _); [auto with sim|]. sbind; [follow|].
  eapply sim_bind; [by apply sim_service_socket|]. intros [s|] st2 Hok2 Hext2 Hs; [|auto with sim].
  apply service_socket_fresh in Hs as (c & Hc & Hpeer).
  assert (lptr st2 s) by by eapply conn_lptr.
  sbind; [|follow]. apply sim_attach; [done..| |by eapply conn_heap]. by eapply unpeered_abs.
Qed.

#[local] Hint Resolve sim_auth_host sim_auth_daemon sim_new_connection sim_clse sim_okay sim_open : sim.

(** Memory for the payload of a packet. *)
Definition event_room (st : proc) (e : event) : Prop :=
  match e with EvPacket _ p => ∀ x, room st x (payload p) | _ => True end.

Lemma sim_packet st p t : ok st → (∀ x, room st x (payload p)) →
  sim st (handle_packet w p t) (handle_packet w p t).
Proof.
  intros Hok Hroom. unfold handle_packet.
  destruct (zlen (payload p) =? data_length (msg p)); [|done].
  apply (sim_ret_bind st tt tt).
  repeat match goal with |- sim _ (if ?b then _ else _) _ => destruct b; [solve [follow]|] end.
  destruct (_ =? A_WRTE); [by apply sim_wrte|auto with sim].
Qed.

Lemma sim_handle_event st e : ok st → event_room st e →
  sim st (handle_event w e) (handle_event w e).
Proof.
  intros Hok Hroom. destruct e as [t p|p pin pout hup|k t d|f r x|t]; cbn [handle_event].
  - unfold HandleRead. apply sim_env_bind; [done|]. intros a v Hok1.
    destruct (check_header p a); [|auto with sim]. by apply sim_packet.
  - unfold poll_event. eapply sim_bind; [by apply sim_fde|].
    intros [[r x]|] st1 Hok1 Hext1 Hf; [|auto with sim].
    cbn [sl_fde table_SocketLayer] in Hf. unfold gets, mbind, SP_bind in Hf.
    destruct (t_conns (abs st) !! p) as [c|] eqn:Hc; [|done].
    apply conn_lptr in Hc; [|done]. follow.
  - eapply sim_bind; [by apply sim_sl_create|]. intros p st1 Hok1 Hext1 Hk. apply create_lptr in Hk.
    assert (lptr st1 p) by by eapply conn_lptr.
    apply sim_smart_connect; [done..|]. by eapply unpeered_abs.
  - auto with sim.
  - unfold HandleError. follow.
Qed.
End handlers.

(** ** Runs *)

(** No queue outgrows the memory. *)
Definition has_room (st : proc) (e : event) : Prop :=
  match e with
  | EvPacket _ p =>
      map_Forall (fun _ s => chain_length_ (packet_queue s) + zlen (payload p) < 2 ^ 63) (heap st)
  | _ => True
  end.

#[export] Instance has_room_dec st e : Decision (has_room st e).
Proof. destruct e; cbn; apply _. Defined.

Lemma has_room_event st e : has_room st e → event_room st e.
Proof. destruct e; cbn; [|done..]. intros H x s Hs. by apply (H x s). Qed.

Fixpoint roomy (w : world) (es : list event) (st : proc) : Prop :=
  match es with
  | [] => True
  | e :: es =>
      has_room st e ∧
      match handle_event w e st with inr (_, st') => roomy w es st' | inl _ => True end
  end.

Lemma sim_run w es : ∀ st, ok st → roomy w es st → sim st (run w es) (run w es).
Proof.
  induction es as [|e es IH]; intros st Hok Hroom; cbn [run]; [by apply sim_ret|].
  destruct Hroom as [Hr Hrest]. eapply sim_bind_eq.
  - apply sim_handle_event; [done|]. by apply has_room_event.
  - intros [] st' Hm Hok' _ _. rewrite Hm in Hrest. by apply IH.
Qed.

Lemma new_proc_ok ts : ok (new_proc ts).
Proof. split; cbn; intros *; rewrite ?lookup_empty; try done. by intros [?%not_elem_of_nil|?%not_elem_of_nil]. Qed.

(** C5: The sockets of adb implement the connection table.  Whatever packets arrive
    on whatever transports, whatever the descriptors do and whatever clients ask
    for: processing the events on the heap of [asocket]s and on the table of
    connections ends in the same way (the same packets sent, bytes written and read,
    descriptors closed, or the same stop), and the heap stays well formed: every
    socket on a list is alive, and every remote socket is connected to exactly the
    local socket that points to it. *)
Theorem sockets_refine_table w es st :
  ok st → roomy w es st →
  match run w es st, run w es (abs st) with
  | inr (_, st'), inr (_, a') => ok st' ∧ abs st' = a'
  | inl e, inl e' => e = e'
  | _, _ => False
  end.
Proof.
  intros Hok Hroom. pose proof (sim_run w es st Hok Hroom) as H. unfold sim in H.
  destruct (run w es st) as [e|[x st']], (run w es (abs st)) as [e'|[y a']]; try done. naive_solver.
Qed.
