(* ===== verification/AdbTable.v ===== *)
(** Invariants of the connection table of AdbConn and what each of its operations
    does to them: no operation on a well-formed table fails a CHECK, looks up a
    connection, transport or descriptor that is gone, or runs out of fuel. *)

From Stdlib Require Import Strings.String.
From stdpp Require Import gmap.
From S2P Require Import Prelude LibBase AdbIo IOVector AdbPackets AdbEnv AdbSockets AdbMain AdbConn AdbRefine.
Open Scope Z_scope.

(** ** Specifications *)

(** [m] ends in [Q], in LOG(FATAL) or in exit. *)
Definition spec {S A} (m : SP S A) (s : S) (Q : A → S → Prop) : Prop :=
  match m s with
  | inr (x, s') => Q x s'
  | inl e => e = StopFatal ∨ e = StopExit
  end.

Lemma spec_bind {S A B} (m : SP S A) (k : A → SP S B) s Q R :
  spec m s R → (∀ x s', R x s' → spec (k x) s' Q) → spec (m ≫= k) s Q.
Proof. unfold spec, mbind, SP_bind. destruct (m s) as [e|[x s']]; [done|]. intros H Hk. by apply Hk. Qed.

Lemma spec_mono {S A} (m : SP S A) s (Q R : A → S → Prop) :
  spec m s R → (∀ x s', R x s' → Q x s') → spec m s Q.
Proof. unfold spec. destruct (m s) as [e|[x s']]; auto. Qed.

Lemma spec_ret {S A} (x : A) (s : S) (Q : A → S → Prop) : Q x s → spec (mret x) s Q.
Proof. done. Qed.

Lemma spec_fatal {S A} (s : S) (Q : A → S → Prop) : spec (halt StopFatal) s Q.
Proof. by left. Qed.

(** ** Environments *)

(** The part of a transport the socket layer never changes. *)
Definition tmeta (a : atransport) : ConnectionState * bool * Z * bool * bool :=
  (connection_state a, online a, max_payload a, delayed_ack_ a, use_tls a).

Record env_le (e e' : env) : Prop := {
  le_fds : ∀ f, is_Some (fds e !! f) → is_Some (fds e' !! f);
  le_transports : ∀ t, tmeta <$> transports e' !! t = tmeta <$> transports e !! t
}.

#[export] Instance env_le_preorder : PreOrder env_le.
Proof.
  split; [by split|]. intros a b c [H1 H2] [H3 H4]. split; [auto|]. intros t. by rewrite H4.
Qed.

Lemma le_present e e' t : env_le e e' → is_Some (transports e !! t) → is_Some (transports e' !! t).
Proof.
  intros [_ H] [a Ha]. specialize (H t). rewrite Ha in H. destruct (transports e' !! t); [done|].
  discriminate.
Qed.

Lemma get_transport_spec e t : is_Some (transports e !! t) →
  spec (get_transport t) e (λ a e', e' = e ∧ transports e !! t = Some a).
Proof.
  intros [a Ha]. unfold spec, get_transport, gets, ofopt, mbind, SP_bind. by rewrite Ha.
Qed.

Lemma mod_transport_spec e t f : is_Some (transports e !! t) →
  spec (mod_transport t f) e (λ _ e', ∃ a, transports e !! t = Some a ∧
    e' = mk_env (<[t := f a]> (transports e)) (fds e) (calls e)).
Proof.
  intros [a Ha]. unfold spec, mod_transport, get_transport, gets, ofopt, modp, mbind, SP_bind.
  rewrite Ha. by exists a.
Qed.

Lemma mod_le e t f a : transports e !! t = Some a → tmeta (f a) = tmeta a →
  env_le e (mk_env (<[t := f a]> (transports e)) (fds e) (calls e)).
Proof.
  intros Ha Hf. split; [done|]. intros t'. cbn. destruct (decide (t' = t)) as [->|].
  - rewrite lookup_insert_eq, Ha. cbn. by rewrite Hf.
  - by rewrite lookup_insert_ne.
Qed.

Lemma transport_send_meta p a : tmeta (transport_send p a) = tmeta a.
Proof. unfold transport_send. by destruct (write_ok a). Qed.

Lemma env_send_spec e p t : is_Some (transports e !! t) →
  spec (send_packet p t) e (λ _ e', env_le e e').
Proof.
  intros Ht. eapply spec_mono; [by apply mod_transport_spec|]. intros _ e' (a & Ha & ->).
  apply mod_le; [done|]. apply transport_send_meta.
Qed.

Lemma send_ready_spec e i j t n : is_Some (transports e !! t) →
  spec (send_ready i j t n) e (λ _ e', env_le e e').
Proof.
  intros Ht. eapply spec_bind; [by apply get_transport_spec|]. intros a e' [-> _].
  by apply env_send_spec.
Qed.

Lemma call_spec e c : spec (call c) e (λ _ e', env_le e e').
Proof. by split. Qed.

Lemma put_le e f k : env_le e (mk_env (transports e) (<[f := k]> (fds e)) (calls e)).
Proof.
  split; [|done]. intros g Hg. cbn. destruct (decide (g = f)) as [->|]; [by rewrite lookup_insert_eq|].
  by rewrite lookup_insert_ne.
Qed.

Lemma send_status_spec e f o : is_Some (fds e !! f) → spec (send_status f o) e (λ _ e', env_le e e').
Proof.
  intros [k Hk]. unfold spec, send_status, get_fd, put_fd, gets, ofopt, modp, mbind, SP_bind.
  rewrite Hk. apply put_le.
Qed.

Lemma get_fd_spec e f : is_Some (fds e !! f) →
  spec (get_fd f) e (λ k e', e' = e ∧ fds e !! f = Some k).
Proof. intros [k Hk]. unfold spec, get_fd, gets, ofopt, mbind, SP_bind. by rewrite Hk. Qed.

Lemma adb_writev_spec e f b : is_Some (fds e !! f) → spec (adb_writev f b) e (λ _ e', env_le e e').
Proof.
  intros [k Hk]. unfold spec, adb_writev, get_fd, put_fd, gets, ofopt, modp, mbind, SP_bind.
  rewrite Hk. cbn. destruct (tx k) as [|[n| |] w]; cbn; try apply put_le. by split.
Qed.

(** The read loop ends, with at most the bytes asked for. *)
Lemma fd_read_spec fuel f : ∀ avail data e k, fds e !! f = Some k → (length (rx k) < fuel)%nat →
  spec (read_loop fuel f avail data) e (λ r e', env_le e e' ∧ zlen r.1 ≤ zlen data + Z.max 0 avail).
Proof.
  induction fuel as [|fuel IH]; intros avail data e k Hk Hf; [lia|]. cbn [read_loop].
  destruct (Z.gtb_spec avail 0); [|apply spec_ret; split; [done|cbn; lia]].
  unfold adb_read. unfold spec, get_fd, put_fd, gets, ofopt, modp, mbind, SP_bind. rewrite Hk. cbn.
  destruct (rx k) as [|[d| |] r] eqn:Hrx; cbn.
  - split; [done|lia].
  - assert (0 ≤ zlen (ztake avail d) ≤ avail) as Hlen
      by (unfold ztake, zlen; rewrite length_take; lia).
    destruct (Z.gtb_spec (zlen (ztake avail d)) 0); [|split; [apply put_le|cbn; lia]].
    set (e1 := mk_env _ _ _).
    destruct (Z.leb_spec (zlen d) avail).
    + eapply (spec_mono (read_loop fuel f _ _) e1);
        [apply (IH _ _ _ (mk_kfd r (tx k) (consumed k ++ ztake avail d) (out k)))|].
      * cbn. by rewrite lookup_insert_eq.
      * cbn in *. lia.
      * intros x e2 [Hle Hx]. split; [trans e1; [apply put_le|done]|]. rewrite zlen_app in Hx. lia.
    + assert (zlen (ztake avail d) = avail) as Hall.
      { unfold ztake, zlen in *. rewrite length_take. lia. }
      rewrite Hall. replace (avail - avail) with 0 by lia.
      destruct fuel; cbn; (split; [apply put_le|]; rewrite zlen_app, Hall; lia).
  - split; [apply put_le|cbn; lia].
  - split; [apply put_le|cbn; lia].
Qed.

(** ** Well-formed tables *)

Definition on_transport (c : conn) (t : Z) : Prop :=
  c_transport c = Some t ∨ snd <$> c_peer c = Some t.

(** [x] is a connection whose queue was just extended. *)
Record conn_good (e : env) (fresh : bool) (c : conn) : Prop := {
  cg_fd : is_Some (fds e !! c_fd c);
  cg_write : fresh = false → c_queue c ≠ [] → c_werr c = false → c_write c = true;
  cg_closing : c_closing c = true → c_peer c = None ∧ c_read c = false;
  cg_open : c_closing c = false → ∀ t, on_transport c t → is_Some (transports e !! t)
}.

Record tok (x : option ptr) (a : table) : Prop := {
  tk_nodup : NoDup (t_list a);
  tk_listed : ∀ p c, t_conns a !! p = Some c → (c_closing c = false ↔ p ∈ t_list a);
  tk_list : ∀ p, p ∈ t_list a → is_Some (t_conns a !! p);
  tk_conn : ∀ p c, t_conns a !! p = Some c → conn_good (t_env a) (bool_decide (x = Some p)) c;
  tk_alloc : ∀ p, is_Some (t_conns a !! p) → p < t_next_ptr a
}.

(** What operations on connections leave alone. *)
Record quiet (a a' : table) : Prop := {
  q_env : env_le (t_env a) (t_env a');
  q_list : ∀ p, p ∈ t_list a' → p ∈ t_list a;
  q_conn : ∀ p c', t_conns a' !! p = Some c' → ∃ c, t_conns a !! p = Some c ∧
    c_id c' = c_id c ∧ c_transport c' = c_transport c ∧ (c_peer c' = c_peer c ∨ c_peer c' = None)
}.

#[export] Instance quiet_preorder : PreOrder quiet.
Proof.
  split.
  - intros a. split; [done|done|]. intros p c' Hc. exists c'. auto.
  - intros a b d [H1 H2 H3] [H4 H5 H6]. split; [by trans (t_env b)|auto|].
    intros p c' Hc. destruct (H6 p c' Hc) as (c1 & Hc1 & E1 & E2 & E3).
    destruct (H3 p c1 Hc1) as (c & Hc0 & E4 & E5 & E6). exists c. split_and!; try congruence.
    destruct E3 as [->|]; [|by right]. done.
Qed.

Lemma conn_good_env e e' b c : conn_good e b c → env_le e e' → conn_good e' b c.
Proof.
  intros [H1 H2 H3 H4] Hle. split; [by apply (le_fds e)|done|done|].
  intros Hc t Ht. eapply le_present; [done|]. by apply H4.
Qed.

Lemma tok_env x a e : tok x a → env_le (t_env a) e → tok x (with_env e a) ∧ quiet a (with_env e a).
Proof.
  intros [H1 H2 H3 H4 H5] Hle. split.
  - split; [done|done|done| |done]. intros p c Hc. eapply conn_good_env; [by apply H4|done].
  - split; [done|done|]. intros p c Hc. exists c. auto.
Qed.

Lemma spec_env {A} (m : ENV A) (a : table) Q :
  spec m (t_env a) Q → spec (on_env m) a (λ y a', ∃ e, Q y e ∧ a' = with_env e a).
Proof.
  unfold spec, on_env. cbn [env_of table_HasEnv]. destruct (m (t_env a)) as [e|[y e]]; [done|]. eauto.
Qed.

(** An environment step that leaves the transports up. *)
Lemma spec_env_le {A} (m : ENV A) (a : table) x : tok x a →
  spec m (t_env a) (λ _ e, env_le (t_env a) e) →
  spec (on_env m) a (λ _ a', tok x a' ∧ quiet a a' ∧ t_conns a' = t_conns a ∧ t_list a' = t_list a).
Proof.
  intros Hok Hm. eapply spec_mono; [by apply spec_env|]. intros _ a' (e & He & ->).
  destruct (tok_env x a e Hok He). auto.
Qed.

Lemma find_conn_spec a p : is_Some (t_conns a !! p) →
  spec (find_conn p) a (λ c a', a' = a ∧ t_conns a !! p = Some c).
Proof. intros [c Hc]. unfold spec, find_conn, gets, ofopt, mbind, SP_bind. by rewrite Hc. Qed.

Lemma conn_update_spec a p g : is_Some (t_conns a !! p) →
  spec (update p g) a (λ _ a', ∃ c, t_conns a !! p = Some c ∧
    a' = set_conns (<[p := g c]> (t_conns a)) a).
Proof. intros [c Hc]. unfold spec. rewrite (update_eq a p c g Hc). eauto. Qed.

(** Changes of one connection that keep it where it is. *)
Definition same_place (c c' : conn) : Prop :=
  c_id c' = c_id c ∧ c_closing c' = c_closing c ∧ c_fd c' = c_fd c ∧ c_transport c' = c_transport c ∧
  (c_peer c' = c_peer c ∨ c_peer c' = None) ∧
  (c_closing c = true → c_read c = false → c_read c' = false).

Lemma tok_update x y a p c c' : tok x a → t_conns a !! p = Some c → same_place c c' →
  (∀ q, q ≠ p → (y = Some q ↔ x = Some q)) →
  (y ≠ Some p → c_queue c' ≠ [] → c_werr c' = false → c_write c' = true) →
  let a' := set_conns (<[p := c']> (t_conns a)) a in tok y a' ∧ quiet a a'.
Proof.
  intros [H1 H2 H3 H4 H5] Hc (Eid & Ecl & Efd & Etr & Epeer & Eread) Hxy Hw a'.
  split.
  - split; [done| | | |]; subst a'; cbn.
    + intros q d Hd. destruct (decide (q = p)) as [->|].
      * rewrite lookup_insert_eq in Hd. injection Hd as <-. rewrite Ecl. by apply H2.
      * rewrite lookup_insert_ne in Hd by done. by apply H2.
    + intros q Hq. destruct (decide (q = p)) as [->|]; [by rewrite lookup_insert_eq|].
      rewrite lookup_insert_ne by done. by apply H3.
    + intros q d Hd. destruct (decide (q = p)) as [->|Hne].
      * rewrite lookup_insert_eq in Hd. injection Hd as <-. destruct (H4 p c Hc) as [G1 G2 G3 G4].
        split; [by rewrite Efd| | |].
        -- intros Hy. apply Hw. by apply bool_decide_eq_false in Hy.
        -- rewrite Ecl. intros Hcl. destruct (G3 Hcl). split; [|by apply Eread].
           by destruct Epeer as [->| ->].
        -- rewrite Ecl. intros Hcl t [Ht|Ht]; [apply G4; [done|]; left; congruence|].
           destruct Epeer as [E|E]; rewrite E in Ht; [apply G4; [done|]; by right|done].
      * rewrite lookup_insert_ne in Hd by done.
        replace (bool_decide (y = Some q)) with (bool_decide (x = Some q)); [by apply H4|].
        apply bool_decide_ext. symmetry. by apply Hxy.
    + intros q. destruct (decide (q = p)) as [->|]; [intros _; apply H5; eauto|].
      rewrite lookup_insert_ne by done. apply H5.
  - split; [done|done|]. intros q d Hd. subst a'. cbn in Hd. destruct (decide (q = p)) as [->|].
    + rewrite lookup_insert_eq in Hd. injection Hd as <-. exists c. auto.
    + rewrite lookup_insert_ne in Hd by done. exists d. auto.
Qed.

(** ** Closing *)

Definition unlisted (p : ptr) (m : gmap ptr conn) (cl : list ptr) (a : table) : table :=
  mk_table m (t_next_ptr a) (filter (fun x => x ≠ p) (t_list a)) cl (t_next_id a) (t_next_fd a) (t_env a).

Lemma tok_forget x a p cl : tok x a → (x = None ∨ x = Some p) →
  let a' := unlisted p (delete p (t_conns a)) cl a in
  tok None a' ∧ quiet a a' ∧ p ∉ t_list a'.
Proof.
  intros [H1 H2 H3 H4 H5] Hx a'. split_and!.
  - split; subst a'; cbn.
    + by apply NoDup_filter.
    + intros q d [Hne Hd]%lookup_delete_Some. rewrite list_elem_of_filter. rewrite (H2 q d Hd).
      naive_solver.
    + intros q [Hne Hq]%list_elem_of_filter. rewrite lookup_delete_ne by done. by apply H3.
    + intros q d [Hne Hd]%lookup_delete_Some. specialize (H4 q d Hd).
      rewrite bool_decide_eq_false_2 in H4; [done|]. destruct Hx as [->| ->]; [done|]. by intros [= ->].
    + intros q [d [_ Hd]%lookup_delete_Some]. apply H5. eauto.
  - split; subst a'; cbn; [done|by intros q [_ Hq]%list_elem_of_filter|].
    intros q d [_ Hd]%lookup_delete_Some. exists d. auto.
  - subst a'. cbn. rewrite list_elem_of_filter. naive_solver.
Qed.

Lemma tok_linger a p c cl : tok None a → t_conns a !! p = Some c → c_peer c = None →
  let a' := unlisted p (<[p := c_linger c]> (t_conns a)) cl a in
  tok None a' ∧ quiet a a' ∧ p ∉ t_list a'.
Proof.
  intros [H1 H2 H3 H4 H5] Hc Hpeer a'.
  assert (p ∉ t_list a') as Hp by (subst a'; cbn; rewrite list_elem_of_filter; naive_solver).
  split_and!; [| |done].
  - split.
    + subst a'. cbn. by apply NoDup_filter.
    + intros q d Hd. subst a'. cbn in Hd |- *. destruct (decide (q = p)) as [->|].
      * rewrite lookup_insert_eq in Hd. injection Hd as <-. cbn. by split.
      * rewrite lookup_insert_ne in Hd by done. rewrite list_elem_of_filter, (H2 q d Hd). naive_solver.
    + subst a'. cbn. intros q [Hne Hq]%list_elem_of_filter. rewrite lookup_insert_ne by done. by apply H3.
    + intros q d Hd. subst a'. cbn in Hd |- *. destruct (decide (q = p)) as [->|].
      * rewrite lookup_insert_eq in Hd. injection Hd as <-. destruct (H4 p c Hc) as [G1 G2 G3 G4].
        split; [done|done|by split|done].
      * rewrite lookup_insert_ne in Hd by done. by apply (H4 q d).
    + intros q. subst a'. cbn. destruct (decide (q = p)) as [->|]; [intros _; apply H5; eauto|].
      rewrite lookup_insert_ne by done. apply H5.
  - split; subst a'; cbn; [done|by intros q [_ Hq]%list_elem_of_filter|].
    intros q d Hd. destruct (decide (q = p)) as [->|].
    + rewrite lookup_insert_eq in Hd. injection Hd as <-. exists c. auto.
    + rewrite lookup_insert_ne in Hd by done. exists d. auto.
Qed.

Lemma close_or_linger_spec x a p c : tok x a → t_conns a !! p = Some c → c_peer c = None →
  x = None ∨ (x = Some p ∧ c_closing c = true) →
  spec (t_close_or_linger p) a (λ _ a', tok None a' ∧ quiet a a' ∧ p ∉ t_list a').
Proof.
  intros Hok Hc Hpeer Hx. unfold t_close_or_linger.
  eapply spec_bind; [apply find_conn_spec; eauto|]. intros c' a0 [-> Hc'].
  assert (c' = c) as -> by congruence. clear Hc'.
  destruct (c_closing c || c_werr c || bool_decide (c_queue c = [])) eqn:E.
  - eapply spec_bind; [eapply (spec_env_le _ a x Hok), call_spec|].
    intros _ a1 (Hok1 & Hq1 & Hm1 & Hl1).
    unfold t_unlist, modp. eapply (spec_bind _ _ _ _ (λ _ a2, a2 = set_tlists _ _ a1)); [done|].
    intros _ a2 ->. eapply (spec_bind _ _ _ _ (λ _ a3, a3 = unlisted p (delete p (t_conns a1))
      (filter (λ x, x ≠ p) (t_closing a1)) a1)).
    { unfold t_forget. eapply spec_bind; [apply find_conn_spec; cbn; rewrite Hm1; eauto|].
      intros c1 a3 [-> _]. done. }
    intros _ a3 ->. destruct (c_exit c); [by right|].
    destruct (tok_forget x a1 p (filter (λ x, x ≠ p) (t_closing a1)) Hok1) as (G1 & G2 & G3); [naive_solver|].
    apply spec_ret. split_and!; [done|by trans a1|done].
  - apply orb_false_iff in E as [[Ecl Ew]%orb_false_iff Eq]. apply bool_decide_eq_false in Eq.
    destruct Hx as [->|[_ Hcl]]; [|congruence].
    eapply spec_bind; [apply conn_update_spec; eauto|]. intros _ a1 (c' & Hc' & ->).
    assert (c' = c) as -> by congruence. clear Hc'.
    unfold t_unlist, modp. eapply (spec_bind _ _ _ _ (λ _ a2, a2 = set_tlists _ _ _)); [done|].
    intros _ a2 ->. eapply (spec_bind _ _ _ _ (λ _ a2, a2 = set_tlists _ _ _)); [done|].
    intros _ a2 ->. rewrite (cg_write _ _ _ (tk_conn None a Hok p c Hc)) by done.
    apply spec_ret. by apply (tok_linger a p c).
Qed.

Lemma close_spec x a p c : tok x a → t_conns a !! p = Some c →
  x = None ∨ (x = Some p ∧ c_closing c = true) →
  spec (t_close p) a (λ _ a', tok None a' ∧ quiet a a' ∧ p ∉ t_list a').
Proof.
  intros Hok Hc Hx. unfold t_close.
  eapply spec_bind; [apply find_conn_spec; eauto|]. intros c' a0 [-> Hc'].
  assert (c' = c) as -> by congruence. clear Hc'.
  destruct (tk_conn x a Hok p c Hc) as [G1 G2 G3 G4].
  assert (∀ c', c_queue c' = c_queue c → c_werr c' = c_werr c → c_write c' = c_write c →
    x ≠ Some p → c_queue c' ≠ [] → c_werr c' = false → c_write c' = true) as Hw.
  { intros c' -> -> -> Hne. apply G2. by apply bool_decide_eq_false. }
  eapply (spec_bind _ _ _ _ (λ _ a1, tok x a1 ∧ quiet a a1 ∧ ∃ c1, t_conns a1 !! p = Some c1 ∧
    c_peer c1 = c_peer c ∧ c_closing c1 = c_closing c ∧ c_queue c1 = c_queue c ∧ c_werr c1 = c_werr c
    ∧ c_write c1 = c_write c)).
  { destruct (c_notify c); [|apply spec_ret; split_and!; [done|done|by exists c]].
    eapply spec_bind; [apply conn_update_spec; eauto|]. intros _ a1 (c' & Hc' & ->).
    assert (c' = c) as -> by congruence.
    destruct (tok_update x x a p c (c_set_notify false c) Hok Hc) as [Hok1 Hq1]; [split_and!; auto|done|by apply Hw|].
    eapply spec_mono; [eapply (spec_env_le _ _ x Hok1), send_status_spec; done|].
    intros _ a2 (Hok2 & Hq2 & Hm2 & _). split_and!; [done|by etrans|].
    exists (c_set_notify false c). rewrite Hm2. cbn. by rewrite lookup_insert_eq. }
  intros _ a1 (Hok1 & Hq1 & c1 & Hc1 & Ep & Ecl & Eq & Ew & Ewr).
  eapply (spec_bind _ _ _ _ (λ _ a2, tok x a2 ∧ quiet a a2 ∧ ∃ c2, t_conns a2 !! p = Some c2 ∧
    c_peer c2 = None ∧ c_closing c2 = c_closing c)).
  { destruct (c_peer c) as [[j t]|] eqn:Hpeer; [|apply spec_ret; split_and!; [done|done|by exists c1]].
    assert (c_closing c = false) as Hcl by (destruct (c_closing c); [by destruct (G3 eq_refl)|done]).
    eapply spec_bind.
    { eapply (spec_env_le _ a1 x Hok1), env_send_spec.
      apply (cg_open _ _ _ (tk_conn x a1 Hok1 p c1 Hc1)); [congruence|]. right. by rewrite Ep. }
    intros _ a2 (Hok2 & Hq2 & Hm2 & _).
    eapply spec_mono; [apply conn_update_spec; rewrite Hm2; eauto|]. intros _ a3 (c' & Hc' & ->).
    assert (c' = c1) as -> by congruence.
    destruct (tok_update x x a2 p c1 (c_set_peer None c1) Hok2 Hc') as [Hok3 Hq3];
      [split_and!; auto|done|by apply Hw|].
    split_and!; [done|by etrans; [|etrans]|]. exists (c_set_peer None c1). cbn.
    by rewrite lookup_insert_eq. }
  intros _ a2 (Hok2 & Hq2 & c2 & Hc2 & Ep2 & Ecl2).
  eapply spec_mono; [eapply close_or_linger_spec; eauto; rewrite Ecl2; done|].
  intros _ a3 (? & ? & ?). split_and!; try done. by trans a2.
Qed.

(** ** Data and acknowledgements *)

Lemma tok_weaken a p : tok None a → tok (Some p) a.
Proof.
  intros [H1 H2 H3 H4 H5]. split; [done|done|done| |done]. intros q c Hc. destruct (H4 q c Hc).
  split; try done. intros _. auto.
Qed.

(** Updates that change neither the place of a connection nor its queue. *)
Lemma update_quiet_spec x a p c g : tok x a → t_conns a !! p = Some c →
  same_place c (g c) → c_queue (g c) = c_queue c → c_werr (g c) = c_werr c → c_write (g c) = c_write c →
  spec (update p g) a (λ _ a', tok x a' ∧ quiet a a' ∧ t_conns a' !! p = Some (g c) ∧ t_env a' = t_env a).
Proof.
  intros Hok Hc Hs E1 E2 E3. eapply spec_mono; [apply conn_update_spec; eauto|]. intros _ a' (c' & Hc' & ->).
  assert (c' = c) as -> by congruence.
  destruct (tok_update x x a p c (g c) Hok Hc Hs) as [H1 H2]; [done| |].
  { intros Hne. rewrite E1, E2, E3. apply (cg_write _ _ _ (tk_conn x a Hok p c Hc)).
    by apply bool_decide_eq_false. }
  split_and!; try done. cbn. by rewrite lookup_insert_eq.
Qed.

Ltac same := unfold same_place; split_and!; auto; try congruence.

Definition keeps (x : option ptr) (p : ptr) (a a' : table) : Prop :=
  tok x a' ∧ quiet a a' ∧ is_Some (t_conns a' !! p).

(** A connection that is not closing. *)
Definition opened (a : table) (p : ptr) : Prop := ∃ c, t_conns a !! p = Some c ∧ c_closing c = false.

Definition keeps_open (x : option ptr) (p : ptr) (a a' : table) : Prop :=
  tok x a' ∧ quiet a a' ∧ opened a' p.

Lemma ready_spec x a p : tok x a → opened a p →
  spec (t_ready p) a (λ _ a', keeps_open x p a a').
Proof.
  intros Hok (c & Hc & Hcl). unfold t_ready.
  eapply spec_bind; [apply find_conn_spec; eauto|]. intros c' a0 [-> Hc'].
  assert (c' = c) as -> by congruence. clear Hc'.
  eapply (spec_bind _ _ _ _ (λ _ a1, keeps_open x p a a1)).
  - destruct (c_notify c); [|apply spec_ret; split_and!; [done|done|by eexists]].
    eapply spec_bind; [eapply (update_quiet_spec x a p c); [done|done|same|done..]|].
    intros _ a1 (Hok1 & Hq1 & Hc1 & He1).
    eapply spec_mono; [eapply (spec_env_le _ _ x Hok1), send_status_spec; rewrite He1;
      apply (cg_fd _ _ _ (tk_conn x a Hok p c Hc))|].
    intros _ a2 (Hok2 & Hq2 & Hm2 & _). split_and!; [done|by trans a1|].
    eexists. by rewrite Hm2.
  - intros _ a1 (Hok1 & Hq1 & c1 & Hc1 & Hcl1).
    eapply spec_mono; [eapply (update_quiet_spec x a1 p c1); [done|done|same|done..]|].
    intros _ a2 (Hok2 & Hq2 & Hc2 & _). split_and!; [done|by trans a1|by eexists].
Qed.

Lemma ack_spec x a p n : tok x a → opened a p →
  spec (t_ack p n) a (λ _ a', keeps_open x p a a').
Proof.
  intros Hok (c & Hc & Hcl). unfold t_ack.
  eapply spec_bind; [apply find_conn_spec; eauto|]. intros c' a0 [-> Hc'].
  assert (c' = c) as -> by congruence. clear Hc'.
  assert (opened a p) as Hop by by exists c.
  assert (keeps_open x p a a) as Hsame by by split_and!.
  destruct (c_avail c), n; try by apply spec_ret.
  - eapply spec_bind; [eapply (update_quiet_spec x a p c); [done|done|same|done..]|].
    intros _ a1 (Hok1 & Hq1 & Hc1 & _). destruct (_ >? 0); [|apply spec_ret; split_and!; [done|done|by eexists]].
    eapply spec_mono; [apply ready_spec; [done|by eexists]|]. intros _ a2 (? & ? & ?).
    split_and!; [done|by trans a1|done].
  - by apply ready_spec.
Qed.

Lemma flush_queue_spec x a p c : tok x a → t_conns a !! p = Some c →
  spec (t_flush_queue p) a (λ _ a', tok x a' ∧ quiet a a' ∧
    ∃ c', t_conns a' !! p = Some c' ∧ same_place c c').
Proof.
  intros Hok Hc. unfold t_flush_queue.
  eapply spec_bind; [apply find_conn_spec; eauto|]. intros c' a0 [-> Hc'].
  assert (c' = c) as -> by congruence. clear Hc'.
  destruct (tk_conn x a Hok p c Hc) as [G1 G2 G3 G4].
  assert (same_place c c) by (split_and!; auto).
  destruct (bool_decide (c_queue c = [])) eqn:Eq; [apply spec_ret; split_and!; [done|done|by exists c]|].
  apply bool_decide_eq_false in Eq.
  eapply spec_bind; [by eapply (spec_env_le _ a x Hok), adb_writev_spec|].
  intros rc a1 (Hok1 & Hq1 & Hm1 & _).
  assert (∀ g n, same_place c (g c) →
    (x ≠ Some p → c_queue (g c) ≠ [] → c_werr (g c) = false → c_write (g c) = true) →
    spec (update p g;; mret n) a1 (λ (_ : Z) a', tok x a' ∧ quiet a a' ∧
      ∃ c', t_conns a' !! p = Some c' ∧ same_place c c')) as Hupd.
  { intros g n Hs Hw. eapply spec_bind; [apply conn_update_spec; rewrite Hm1; eauto|].
    intros _ a2 (c' & Hc' & ->). assert (c' = c) as -> by congruence.
    destruct (tok_update x x a1 p c (g c) Hok1 Hc') as [H1 H2]; try done.
    apply spec_ret. split_and!; [done|by trans a1|]. exists (g c). cbn. by rewrite lookup_insert_eq. }
  assert (x ≠ Some p → c_werr c = false → c_write c = true) as Hw.
  { intros Hne Hwe. apply G2; [by apply bool_decide_eq_false|done|done]. }
  assert (spec (update p c_set_werr;; mret 0) a1 (λ (_ : Z) a', tok x a' ∧ quiet a a' ∧
      ∃ c', t_conns a' !! p = Some c' ∧ same_place c c')) as Herr by (apply Hupd; [split_and!; auto|done]).
  destruct rc as [n| |]; [|apply spec_ret; split_and!; [done|done|exists c; by rewrite Hm1]|done].
  destruct (n >? 0); [|done]. apply Hupd; [split_and!; auto|]. intros Hne _. by apply Hw.
Qed.

Definition flushed (p : ptr) (a : table) (r : SocketFlushResult) (a' : table) : Prop :=
  tok None a' ∧ quiet a a' ∧ (r = Destroyed ∨ is_Some (t_conns a' !! p)).

Lemma flush_incoming_spec a p : tok (Some p) a → is_Some (t_conns a !! p) →
  spec (t_flush_incoming p) a (flushed p a).
Proof.
  intros Hok [c0 Hc0]. unfold t_flush_incoming.
  eapply spec_bind; [by eapply flush_queue_spec|]. intros n a1 (Hok1 & Hq1 & c & Hc & _).
  eapply spec_bind; [apply find_conn_spec; eauto|]. intros c' a0 [-> Hc'].
  assert (c' = c) as -> by congruence. clear Hc'.
  destruct (tk_conn _ a1 Hok1 p c Hc) as [G1 G2 G3 G4].
  set (full := negb _ && negb _).
  eapply (spec_bind _ _ _ _ (λ _ a2, tok (Some p) a2 ∧ quiet a1 a2 ∧ t_conns a2 = t_conns a1)).
  { assert (∀ m : ENV unit, spec m (t_env a1) (λ _ e, env_le (t_env a1) e) →
      spec (on_env m) a1 (λ _ a2, tok (Some p) a2 ∧ quiet a1 a2 ∧ t_conns a2 = t_conns a1)) as Henv.
    { intros m Hm. eapply spec_mono; [by apply (spec_env_le _ a1 (Some p) Hok1)|]. naive_solver. }
    destruct (c_transport c) as [t|] eqn:Et; [|by apply spec_ret].
    destruct (c_peer c) as [[j t']|] eqn:Ep; [|by apply spec_ret].
    assert (c_closing c = false) as Hcl by (destruct (c_closing c); [by destruct (G3 eq_refl)|done]).
    assert (is_Some (transports (t_env a1) !! t)) by (apply G4; [done|by left]).
    destruct (c_avail c); [by apply Henv, send_ready_spec|].
    destruct (n =? 0); [by apply spec_ret|by apply Henv, send_ready_spec]. }
  intros _ a2 (Hok2 & Hq2 & Hm2). rewrite <- Hm2 in Hc.
  destruct (c_closing c && negb full) eqn:Ecl.
  { apply andb_true_iff in Ecl as [Ecl _].
    eapply spec_bind; [eapply (close_spec (Some p)); eauto|]. intros _ a3 (? & ? & _).
    apply spec_ret. split_and!; [done|by etrans; [|etrans]|by left]. }
  assert (∀ b r, (full = true → b = true) →
    spec (update p (λ c, c_set_fde (c_read c) b c);; mret r) a2 (flushed p a)) as Hupd.
  { intros b r Hb. eapply spec_bind; [apply conn_update_spec; eauto|]. intros _ a3 (c' & Hc' & ->).
    assert (c' = c) as -> by congruence.
    destruct (tok_update (Some p) None a2 p c (c_set_fde (c_read c) b c) Hok2 Hc') as [H1 H2].
    - split_and!; auto.
    - intros q Hne. split; [done|]. by intros [= ->].
    - intros _ Hq Hw. apply Hb. subst full. cbn in Hq, Hw. rewrite Hw.
      by rewrite bool_decide_eq_false_2.
    - apply spec_ret. split_and!; [done|by etrans; [|etrans]|]. right. cbn. by rewrite lookup_insert_eq. }
  destruct full; by apply Hupd.
Qed.

Lemma enqueue_spec a p d : tok None a → is_Some (t_conns a !! p) →
  spec (t_enqueue p d) a (λ _ a', tok None a' ∧ quiet a a').
Proof.
  intros Hok [c Hc]. unfold t_enqueue.
  eapply spec_bind; [apply conn_update_spec; eauto|]. intros _ a1 (c' & Hc' & ->).
  assert (c' = c) as -> by congruence.
  destruct (tok_update None (Some p) a p c (c_set_queue (c_queue c ++ d) c) Hok Hc) as [H1 H2].
  - split_and!; auto.
  - intros q Hne. split; [by intros [= ->]|done].
  - done.
  - eapply spec_bind; [apply flush_incoming_spec; [done|]; cbn; by rewrite lookup_insert_eq|].
    intros r a2 (? & ? & _). destruct r; apply spec_ret; (split; [done|by etrans]).
Qed.

(** Both transports of the connection exist. *)
Definition attached (a : table) (p : ptr) : Prop :=
  ∀ c t, t_conns a !! p = Some c → on_transport c t → is_Some (transports (t_env a) !! t).

Lemma attached_quiet a a' p : attached a p → quiet a a' → attached a' p.
Proof.
  intros H [Q1 _ Q3] c' t Hc' Ht. destruct (Q3 p c' Hc') as (c & Hc & _ & E1 & E2).
  eapply le_present; [done|]. apply (H c t Hc). unfold on_transport in *. rewrite E1 in Ht.
  destruct E2 as [E2|E2]; rewrite E2 in Ht; [done|]. by destruct Ht; [left|].
Qed.

Lemma attached_open a p : tok None a → p ∈ t_list a → attached a p.
Proof.
  intros Hok Hp c t Hc Ht. apply (cg_open _ _ _ (tk_conn _ a Hok p c Hc)); [|done].
  by apply (tk_listed _ a Hok p c Hc).
Qed.

Lemma max_payload_spec a p : is_Some (t_conns a !! p) → attached a p →
  spec (t_max_payload p) a (λ _ a', a' = a).
Proof.
  intros [c Hc] Hat. unfold t_max_payload.
  eapply spec_bind; [apply find_conn_spec; eauto|]. intros c' a0 [-> Hc'].
  assert (c' = c) as -> by congruence. clear Hc'.
  assert (∀ t (k : atransport → Z), on_transport c t →
    spec (x ← on_env (get_transport t); mret (k x)) a (λ _ a', a' = a)) as Hget.
  { intros t k Ht. destruct (Hat c t Hc Ht) as [x Hx].
    unfold spec, on_env, get_transport, gets, ofopt, mbind, SP_bind. cbn [env_of table_HasEnv].
    rewrite Hx. cbn. by destruct a. }
  eapply (spec_bind _ _ _ _ (λ _ a', a' = a)).
  - destruct (c_transport c) eqn:E; [|done]. apply Hget. by left.
  - intros m a' ->. destruct (c_peer c) as [[j t]|] eqn:E; [|done].
    apply (Hget t (λ x, m `min` max_payload x)). right. by rewrite E.
Qed.

Lemma send_outgoing_spec a p d : tok None a → is_Some (t_conns a !! p) → attached a p →
  spec (t_send_outgoing p d) a (λ _ a', keeps None p a a').
Proof.
  intros Hok [c Hc] Hat. unfold t_send_outgoing.
  eapply spec_bind; [apply find_conn_spec; eauto|]. intros c' a0 [-> Hc'].
  assert (c' = c) as -> by congruence. clear Hc'.
  assert (keeps None p a a) as Hsame by (split_and!; by eauto).
  destruct d as [|b d]; [done|]. set (data := b :: d). clearbody data.
  destruct (c_peer c) as [[j t]|] eqn:Ep; [|done].
  eapply (spec_bind _ _ _ _ (λ _ a1, keeps None p a a1)).
  { destruct (c_avail c); [|by apply spec_ret].
    eapply spec_mono; [eapply (update_quiet_spec None a p c); [done|done|same|done..]|].
    intros _ a1 (? & ? & ? & _). split_and!; by eauto. }
  intros _ a1 (Hok1 & Hq1 & c1 & Hc1). destruct (_ >? _); [apply spec_ret; split_and!; by eauto|].
  eapply spec_bind.
  { eapply (spec_env_le _ a1 None Hok1), env_send_spec. eapply le_present; [apply Hq1|].
    apply (Hat c t Hc). right. by rewrite Ep. }
  intros _ a2 (Hok2 & Hq2 & Hm2 & _). rewrite <- Hm2 in Hc1.
  assert (quiet a a2) as Hq by by trans a1.
  eapply (spec_bind _ _ _ _ (λ _ a3, keeps None p a a3)); [|by intros _ a3 Ha3].
  assert (spec (update p (λ c, c_set_fde false (c_write c) c)) a2 (λ _ a3, keeps None p a a3)) as Hupd.
  { eapply spec_mono; [eapply (update_quiet_spec None a2 p c1); [done|done|same|done..]|].
    intros _ a3 (? & ? & ? & _). split_and!; [done|by trans a2|eauto]. }
  destruct (c_avail c); [|done]. destruct (_ <=? 0); [done|]. apply spec_ret. split_and!; by eauto.
Qed.

Lemma flush_outgoing_spec a p : tok None a → is_Some (t_conns a !! p) → attached a p →
  spec (t_flush_outgoing p) a (λ _ a', tok None a' ∧ quiet a a').
Proof.
  intros Hok [c Hc] Hat. unfold t_flush_outgoing.
  eapply spec_bind; [apply max_payload_spec; eauto|]. intros m a1 ->.
  eapply spec_bind; [apply find_conn_spec; eauto|]. intros c' a0 [-> Hc'].
  assert (c' = c) as -> by congruence. clear Hc'.
  destruct (cg_fd _ _ _ (tk_conn None a Hok p c Hc)) as [k Hk].
  eapply spec_bind; [apply spec_env, get_fd_spec; eauto|]. intros k' a1 (e & [-> Hk'] & ->).
  assert (k' = k) as -> by congruence. replace (with_env (t_env a) a) with a by by destruct a.
  eapply spec_bind.
  { eapply (spec_env_le _ a None Hok). eapply spec_mono; [eapply fd_read_spec; [exact Hk|lia]|].
    intros x e [He _]. exact He. }
  intros [data eof] a1 (Hok1 & Hq1 & Hm1 & _).
  eapply spec_bind; [apply send_outgoing_spec; [done|rewrite Hm1; eauto|by eapply attached_quiet]|].
  intros go a2 (Hok2 & Hq2 & c2 & Hc2).
  assert (quiet a a2) by by trans a1.
  destruct (negb go); [by apply spec_ret|]. destruct eof; [|by apply spec_ret].
  eapply spec_bind; [eapply (close_spec None); eauto|]. intros _ a3 (? & ? & _).
  apply spec_ret. split; [done|by trans a2].
Qed.

Lemma event_spec a p r x : tok None a → is_Some (t_conns a !! p) → (r = true → attached a p) →
  spec (t_event p r x) a (λ _ a', tok None a' ∧ quiet a a').
Proof.
  intros Hok Hc Hat. unfold t_event.
  eapply (spec_bind _ _ _ _ (λ b a', tok None a' ∧ quiet a a' ∧ (b = true ∨ is_Some (t_conns a' !! p)))).
  - destruct x; [|apply spec_ret; split_and!; [done|done|by right]].
    eapply spec_bind; [apply flush_incoming_spec; [by apply tok_weaken|done]|].
    intros res a1 (? & ? & Hres). apply spec_ret. split_and!; try done. destruct res; naive_solver.
  - intros b a1 (Hok1 & Hq1 & Hp). destruct b; [by apply spec_ret|]. destruct Hp as [|Hp]; [done|].
    destruct r; [|by apply spec_ret].
    eapply spec_bind; [apply flush_outgoing_spec; [done|done|]; eapply attached_quiet; eauto|].
    intros _ a2 [? ?]. apply spec_ret. split; [done|by trans a1].
Qed.
