(* ===== verification/AdbSafe.v ===== *)
(** Safety of the connection layer of adb: whatever the other sides of the
    transports send, no handler fails a CHECK, uses a dead socket or transport or
    reads beyond a payload, and every loop ends - apart from the situations listed
    in [hazard].  AdbScenarios runs through most of them.

    The proofs are on the connection table (AdbConn, AdbTable) and carry over to the
    sockets by AdbRefine. *)

From Stdlib Require Import Strings.String.
From stdpp Require Import gmap.
From S2P Require Import Prelude LibBase AdbIo IOVector AdbPackets AdbEnv AdbSockets AdbMain AdbConn AdbRefine AdbTable.
Open Scope Z_scope.

(** ** Searching and closing *)

Lemma find_in_spec a i j : ∀ l, (∀ p, p ∈ l → is_Some (t_conns a !! p)) →
  spec (t_find_in l i j) a (λ o a', a' = a ∧ ∀ p, o = Some p → p ∈ l).
Proof.
  induction l as [|p l IH]; intros Hl; cbn [t_find_in]; [by apply spec_ret|].
  eapply spec_bind; [apply find_conn_spec, Hl; by left|]. intros c a' [-> _].
  destruct (negb _).
  - eapply spec_mono; [apply IH; intros; apply Hl; by right|]. intros o a' [-> Ho].
    split; [done|]. intros q Hq. right. auto.
  - destruct (j =? 0); [apply spec_ret; split; [done|]; intros q [= <-]; by left|].
    apply spec_ret. split; [done|]. intros q. destruct (c_peer c) as [[j' t]|]; [|done].
    destruct (j' =? j); [|done]. intros [= <-]. by left.
Qed.

Lemma find_spec a i j : tok None a →
  spec (t_find i j) a (λ o a', a' = a ∧ ∀ p, o = Some p → p ∈ t_list a).
Proof. intros Hok. apply (find_in_spec a i j (t_list a)). apply (tk_list _ a Hok). Qed.

Lemma first_on_spec a t : ∀ l, (∀ p, p ∈ l → is_Some (t_conns a !! p)) →
  spec (t_first_on l t) a (λ o a', a' = a ∧
    match o with
    | Some p => p ∈ l
    | None => ∀ p c, p ∈ l → t_conns a !! p = Some c → ¬ on_transport c t
    end).
Proof.
  induction l as [|p l IH]; intros Hl; cbn [t_first_on].
  { apply spec_ret. split; [done|]. by intros p c ?%not_elem_of_nil. }
  eapply spec_bind; [apply find_conn_spec, Hl; by left|]. intros c a' [-> Hc].
  destruct (_ || _) eqn:E; [apply spec_ret; split; [done|by left]|].
  apply orb_false_iff in E as [E1%bool_decide_eq_false E2%bool_decide_eq_false].
  eapply spec_mono; [apply IH; intros; apply Hl; by right|]. intros [q|] a' [-> Ho]; split; try done.
  - by right.
  - intros q d [->|Hq]%elem_of_cons Hd; [|by eapply Ho]. rewrite Hc in Hd. injection Hd as <-.
    by intros [?|?].
Qed.

Lemma shorter (l l' : list ptr) p : NoDup l' → (∀ q, q ∈ l' → q ∈ l) → p ∈ l → p ∉ l' →
  (length l' < length l)%nat.
Proof.
  intros Hnd Hsub Hp Hp'. assert (length (p :: l') ≤ length l)%nat; [|cbn in *; lia].
  apply submseteq_length, NoDup_submseteq; [by constructor|].
  intros q [->|Hq]%elem_of_cons; auto.
Qed.

(** [close_all_sockets] ends, and leaves no socket on the transport. *)
Lemma close_all_spec t : ∀ n a, tok None a → (length (t_list a) ≤ n)%nat →
  spec (t_close_all_loop n t) a (λ _ a', tok None a' ∧ quiet a a' ∧
    ∀ p c, p ∈ t_list a' → t_conns a' !! p = Some c → ¬ on_transport c t).
Proof.
  induction n as [|n IH]; intros a Hok Hn; cbn [t_close_all_loop];
    (eapply (spec_bind _ _ _ _ (λ l a', l = t_list a ∧ a' = a)); [done|]; intros l a' [-> ->];
     eapply spec_bind; [apply first_on_spec, (tk_list _ a Hok)|]; intros [p|] a' [-> Ho];
     [|apply spec_ret; by split_and!]).
  - destruct (t_list a); [by apply not_elem_of_nil in Ho|cbn in Hn; lia].
  - destruct (tk_list _ a Hok p Ho) as [c Hc].
    eapply spec_bind; [eapply (close_spec None); eauto|]. intros _ a1 (Hok1 & Hq1 & Hp1).
    eapply spec_mono; [apply IH; [done|]|].
    + pose proof (shorter (t_list a) (t_list a1) p (tk_nodup _ a1 Hok1) (q_list _ _ Hq1) Ho Hp1). lia.
    + intros _ a2 (? & ? & ?). split_and!; [done|by trans a1|done].
Qed.

(** ** States between events *)

(** No open socket is on a transport that is offline, and such a transport takes
    no packets.  [t_list] is [local_socket_list]: a socket that lingers on
    [local_socket_closing_list] keeps its pointer to the transport. *)
Record good (a : table) : Prop := {
  gd_tok : tok None a;
  gd_offline : ∀ t x p c, transports (t_env a) !! t = Some x → connection_state x = kCsOffline →
    p ∈ t_list a → t_conns a !! p = Some c → ¬ on_transport c t;
  gd_online : ∀ t x, transports (t_env a) !! t = Some x → online x = true →
    connection_state x ≠ kCsOffline
}.

Lemma le_meta e e' t x' : env_le e e' → transports e' !! t = Some x' →
  ∃ x, transports e !! t = Some x ∧ tmeta x = tmeta x'.
Proof.
  intros [_ H] Hx. specialize (H t). rewrite Hx in H. destruct (transports e !! t) as [x|]; [|done].
  cbn in H. injection H as H. exists x. split; [done|]. unfold tmeta. congruence.
Qed.

Lemma good_quiet a a' : good a → tok None a' → quiet a a' → good a'.
Proof.
  intros [H1 H2 H3] Hok [Q1 Q2 Q3]. split; [done| |].
  - intros t x' p c' Hx' Hs Hp Hc' Ht. destruct (le_meta _ _ t x' Q1 Hx') as (x & Hx & [= E1 E2 E3 E4 E5]).
    destruct (Q3 p c' Hc') as (c & Hc & _ & Etr & Ep).
    apply (H2 t x p c Hx); [congruence|by apply Q2|done|]. unfold on_transport in *. rewrite Etr in Ht.
    destruct Ep as [Ep|Ep]; rewrite Ep in Ht; [done|]. by destruct Ht; [left|].
  - intros t x' Hx' Hon. destruct (le_meta _ _ t x' Q1 Hx') as (x & Hx & [= E1 E2 E3 E4 E5]).
    rewrite <- E1. apply (H3 t x Hx). congruence.
Qed.

Lemma spec_quiet {A} (m : T A) a : good a → spec m a (λ _ a', tok None a' ∧ quiet a a') →
  spec m a (λ _ a', good a' ∧ quiet a a').
Proof.
  intros Hg Hm. eapply spec_mono; [exact Hm|]. intros x a' [? ?]. split; [by eapply good_quiet|done].
Qed.

Definition has_transport (a : table) (t : Z) : Prop := is_Some (transports (t_env a) !! t).

Lemma has_quiet a a' t : quiet a a' → has_transport a t → has_transport a' t.
Proof. intros [Q _ _]. by apply le_present. Qed.

(** Environment steps that do not touch the state of a transport. *)
Lemma good_env {A} (m : ENV A) a : good a → spec m (t_env a) (λ _ e, env_le (t_env a) e) →
  spec (on_env m) a (λ _ a', good a' ∧ quiet a a').
Proof.
  intros Hg Hm. apply spec_quiet; [done|].
  eapply spec_mono; [apply (spec_env_le m a None (gd_tok a Hg) Hm)|]. naive_solver.
Qed.

(** Changes of a transport that keep [good]. *)
Definition stays_up (f : atransport → atransport) : Prop :=
  ∀ x, connection_state (f x) ≠ kCsOffline ∨
       (connection_state (f x) = connection_state x ∧ (online (f x) = true → online x = true)).

Lemma insert_present e t f x : transports e !! t = Some x →
  ∀ t', is_Some (transports e !! t') →
    is_Some (transports (mk_env (<[t := f x]> (transports e)) (fds e) (calls e)) !! t').
Proof.
  intros Hx t' Ht'. cbn. destruct (decide (t' = t)) as [->|]; [by rewrite lookup_insert_eq|].
  by rewrite lookup_insert_ne.
Qed.

Lemma good_mod a t f : good a → has_transport a t → stays_up f →
  spec (on_env (mod_transport t f)) a (λ _ a', good a' ∧
    (∃ x, transports (t_env a) !! t = Some x ∧ transports (t_env a') !! t = Some (f x)) ∧
    t_conns a' = t_conns a ∧ t_list a' = t_list a ∧ (∀ t', has_transport a t' → has_transport a' t')).
Proof.
  intros [H1 H2 H3] Ht Hf. eapply spec_mono; [by apply spec_env, mod_transport_spec|].
  intros _ a' (e & (x & Hx & ->) & ->). destruct H1 as [K1 K2 K3 K4 K5]. split_and!; try done.
  - split.
    + split; try done. intros p c Hc. destruct (K4 p c Hc) as [G1 G2 G3 G4]. split; try done.
      intros Hcl t' Ht'. apply insert_present; [done|]. by apply G4.
    + cbn. intros t' x' p c Hx' Hs Hp Hc. destruct (decide (t' = t)) as [->|].
      * rewrite lookup_insert_eq in Hx'. injection Hx' as <-. destruct (Hf x) as [?|[E _]]; [done|].
        apply (H2 t x p c Hx); congruence.
      * rewrite lookup_insert_ne in Hx' by done. by eapply H2.
    + cbn. intros t' x' Hx' Hon. destruct (decide (t' = t)) as [->|].
      * rewrite lookup_insert_eq in Hx'. injection Hx' as <-. destruct (Hf x) as [?|[E E']]; [done|].
        rewrite E. apply (H3 t x Hx). auto.
      * rewrite lookup_insert_ne in Hx' by done. by eapply H3.
  - exists x. split; [done|]. cbn. by rewrite lookup_insert_eq.
  - intros t'. by apply insert_present.
Qed.

(** Going offline. *)
Lemma handle_offline_spec a t : good a → has_transport a t →
  spec (handle_offline t) a (λ _ a', good a' ∧ (∀ t', has_transport a t' → has_transport a' t') ∧
    ∃ x, transports (t_env a') !! t = Some x ∧ connection_state x = kCsOffline ∧ online x = false).
Proof.
  intros Hg Ht. unfold handle_offline.
  eapply spec_bind; [by apply spec_env, get_transport_spec|]. intros x a' (e & [-> Hx] & ->).
  replace (with_env (t_env a) a) with a by by destruct a.
  destruct (decide (connection_state x = kCsOffline)) as [Hs|Hs].
  { apply spec_ret. split_and!; [done|done|]. exists x. split_and!; try done.
    destruct (online x) eqn:E; [|done]. by destruct (gd_online a Hg t x Hx E). }
  (* the two assignments: only the clause about this transport is suspended *)
  set (y := set_online false (set_connection_state kCsOffline x)).
  set (e1 := mk_env (<[t := y]> (transports (t_env a))) (fds (t_env a)) (calls (t_env a))).
  eapply (spec_bind _ _ _ _ (λ _ a', a' = with_env (mk_env (<[t := set_connection_state kCsOffline x]>
    (transports (t_env a))) (fds (t_env a)) (calls (t_env a))) a)).
  { eapply spec_mono; [by apply spec_env, mod_transport_spec|]. intros _ a' (e & (x' & Hx' & ->) & ->).
    by assert (x' = x) as -> by congruence. }
  intros _ a' ->. eapply (spec_bind _ _ _ _ (λ _ a', a' = with_env e1 a)).
  { eapply spec_mono; [apply spec_env, mod_transport_spec; cbn; by rewrite lookup_insert_eq|].
    intros _ a' (e & (x' & Hx' & ->) & ->). cbn in Hx'. rewrite lookup_insert_eq in Hx'.
    injection Hx' as <-. cbn. by rewrite insert_insert_eq. }
  intros _ a' ->. destruct Hg as [H1 H2 H3].
  assert (tok None (with_env e1 a)) as Hok1.
  { destruct H1 as [K1 K2 K3 K4 K5]. split; try done. intros p c Hc. destruct (K4 p c Hc) as [G1 G2 G3 G4].
    split; try done. intros Hcl t' Ht'. by apply (insert_present (t_env a) t (λ _, y) x Hx), G4. }
  eapply spec_bind; [by apply (close_all_spec t (length (t_list (with_env e1 a))) (with_env e1 a) Hok1)|].
  intros _ a2 (Hok2 & Hq2 & Hnone).
  eapply spec_mono; [eapply (spec_env_le _ a2 None Hok2), call_spec|].
  intros _ a3 (Hok3 & Hq3 & Hm3 & Hl3).
  assert (quiet (with_env e1 a) a3) as Hq by by trans a2.
  split_and!.
  - split; [done| |].
    + intros t' x' p c' Hx' Hs' Hp Hc' Ht'. destruct (le_meta _ _ t' x' (q_env _ _ Hq) Hx') as (x0 & Hx0 & [= E1 _ _ _ _]).
      cbn in Hx0. destruct (decide (t' = t)) as [->|Hne].
      * rewrite Hl3 in Hp. rewrite Hm3 in Hc'. by apply (Hnone p c').
      * rewrite lookup_insert_ne in Hx0 by done.
        destruct (q_conn _ _ Hq p c' Hc') as (c & Hc & _ & Etr & Ep).
        apply (H2 t' x0 p c Hx0); [congruence|by apply (q_list _ _ Hq)|done|].
        unfold on_transport in *. rewrite Etr in Ht'.
        destruct Ep as [Ep|Ep]; rewrite Ep in Ht'; [done|]. by destruct Ht'; [left|].
    + intros t' x' Hx' Hon. destruct (le_meta _ _ t' x' (q_env _ _ Hq) Hx') as (x0 & Hx0 & [= E1 E2 _ _ _]).
      cbn in Hx0. destruct (decide (t' = t)) as [->|Hne].
      * rewrite lookup_insert_eq in Hx0. injection Hx0 as <-. cbn in E2. congruence.
      * rewrite lookup_insert_ne in Hx0 by done. rewrite <- E1. apply (H3 t' x0 Hx0). congruence.
  - intros t' Ht'. eapply has_quiet; [done|]. by apply (insert_present (t_env a) t (λ _, y) x Hx).
  - destruct (le_present _ _ t (q_env _ _ Hq)) as [z Hz]; [cbn; by rewrite lookup_insert_eq|].
    exists z. split; [done|]. destruct (le_meta _ _ t z (q_env _ _ Hq) Hz) as (x0 & Hx0 & [= E1 E2 _ _ _]).
    cbn in Hx0. rewrite lookup_insert_eq in Hx0. injection Hx0 as <-. by rewrite <- E1, <- E2.
Qed.

(** ** Opening *)

Definition up (a : table) (t : Z) : Prop :=
  ∃ x, transports (t_env a) !! t = Some x ∧ connection_state x ≠ kCsOffline.

Lemma up_has a t : up a t → has_transport a t.
Proof. intros (x & Hx & _). by exists x. Qed.

Lemma up_quiet a a' t : quiet a a' → up a t → up a' t.
Proof.
  intros Hq (x & Hx & Hs). destruct (le_present _ _ t (q_env _ _ Hq)) as [x' Hx']; [eauto|].
  destruct (le_meta _ _ t x' (q_env _ _ Hq) Hx') as (x0 & Hx0 & [= E1 _ _ _ _]).
  exists x'. split; [done|]. congruence.
Qed.

(** Giving a connection to a transport that is up. *)
Lemma good_give a p c g t : good a → t_conns a !! p = Some c → c_closing c = false → up a t →
  (∀ t', on_transport (g c) t' → t' = t ∨ on_transport c t') →
  c_closing (g c) = false → c_fd (g c) = c_fd c → c_queue (g c) = c_queue c →
  c_werr (g c) = c_werr c → c_write (g c) = c_write c →
  good (set_conns (<[p := g c]> (t_conns a)) a).
Proof.
  intros [[K1 K2 K3 K4 K5] H2 H3] Hc Hcl (x & Hx & Hs) Hon Ecl Efd Eq Ew Ewr.
  assert (p ∈ t_list a) as Hp by by apply (K2 p c Hc).
  split; [split| |]; cbn.
  - done.
  - intros q d Hd. destruct (decide (q = p)) as [->|].
    + rewrite lookup_insert_eq in Hd. injection Hd as <-. by split.
    + rewrite lookup_insert_ne in Hd by done. by apply K2.
  - intros q Hq. destruct (decide (q = p)) as [->|]; [by rewrite lookup_insert_eq|].
    rewrite lookup_insert_ne by done. by apply K3.
  - intros q d Hd. destruct (decide (q = p)) as [->|].
    + rewrite lookup_insert_eq in Hd. injection Hd as <-. destruct (K4 p c Hc) as [G1 G2 G3 G4].
      split; [by rewrite Efd|by rewrite Eq, Ew, Ewr|by rewrite Ecl|].
      intros _ t' [->|Ht']%Hon; [by exists x|by apply G4].
    + rewrite lookup_insert_ne in Hd by done. by apply K4.
  - intros q. destruct (decide (q = p)) as [->|]; [intros _; apply K5; eauto|].
    rewrite lookup_insert_ne by done. apply K5.
  - intros t' x' q d Hx' Hs' Hq Hd. destruct (decide (q = p)) as [->|].
    + rewrite lookup_insert_eq in Hd. injection Hd as <-.
      intros [->|Ht']%Hon; [congruence|by eapply (H2 t' x' p c)].
    + rewrite lookup_insert_ne in Hd by done. by eapply H2.
  - done.
Qed.

Lemma attach_spec a p t id : good a → opened a p → up a t →
  spec (t_attach p id t) a (λ _ a', good a' ∧ opened a' p ∧ t_env a' = t_env a).
Proof.
  intros Hg (c & Hc & Hcl) Ht. unfold t_attach. destruct (id =? 0); [apply spec_fatal|].
  set (a1 := mk_table (t_conns a) (t_next_ptr a + 1) (t_list a) (t_closing a) (t_next_id a)
                     (t_next_fd a) (t_env a)).
  eapply (spec_bind _ _ _ _ (λ _ a', a' = a1)); [done|]. intros _ a' ->.
  assert (good a1) as Hg1.
  { destruct Hg as [[K1 K2 K3 K4 K5] H2 H3]. split; [split|done|done]; try done. intros q Hq.
    specialize (K5 q Hq). subst a1. cbn. lia. }
  eapply spec_mono; [by apply conn_update_spec; exists c|]. intros _ a' (c' & Hc' & ->).
  assert (c' = c) as -> by (subst a1; cbn in Hc'; congruence). split_and!.
  - eapply (good_give a1 p c (c_set_peer (Some (id, t))) t); try done.
    intros t' [?|[= <-]]; [by right; left|by left].
  - exists (c_set_peer (Some (id, t)) c). cbn. by rewrite lookup_insert_eq.
  - done.
Qed.

Lemma set_transport_spec a p t : good a → opened a p → up a t →
  spec (sl_set_transport p t) a (λ _ a', good a' ∧ opened a' p ∧ t_env a' = t_env a).
Proof.
  intros Hg (c & Hc & Hcl) Ht. eapply spec_mono; [by apply conn_update_spec; exists c|].
  intros _ a' (c' & Hc' & ->). assert (c' = c) as -> by congruence. split_and!.
  - eapply (good_give a p c (c_set_transport (Some t)) t); try done.
    intros t' [[= <-]|?]; [by left|by right; right].
  - exists (c_set_transport (Some t) c). cbn. by rewrite lookup_insert_eq.
  - done.
Qed.

(** Updates of flags. *)
Lemma flag_spec a p g : good a → opened a p →
  (∀ d, same_place d (g d) ∧ c_queue (g d) = c_queue d ∧ c_werr (g d) = c_werr d ∧
        c_write (g d) = c_write d) →
  spec (update p g) a (λ _ a', good a' ∧ opened a' p ∧ t_env a' = t_env a).
Proof.
  intros Hg (c & Hc & Hcl) Hsame. destruct (Hsame c) as (Hs & E1 & E2 & E3).
  eapply spec_mono; [by eapply (update_quiet_spec None a p c); [apply Hg|..]|].
  intros _ a' (H1 & H2 & H3 & H4). split_and!; [by eapply good_quiet| |done].
  exists (g c). split; [done|]. destruct Hs as (_ & E & _). congruence.
Qed.

Lemma create_spec a k : good a →
  spec (t_create k) a (λ p a', good a' ∧ transports (t_env a') = transports (t_env a) ∧ opened a' p ∧
    ∃ c, t_conns a' !! p = Some c ∧ c_peer c = None ∧ c_transport c = None).
Proof.
  intros [[K1 K2 K3 K4 K5] H2 H3]. unfold spec, t_create. destruct (_ =? 0); [by left|].
  set (p := t_next_ptr a). set (c := mk_conn _ _ _ _ _ _ _ _ _ _ _ _).
  assert (t_conns a !! p = None) as Hfresh.
  { destruct (t_conns a !! p) eqn:E; [|done]. assert (p < t_next_ptr a) by (apply K5; eauto). subst p. lia. }
  assert (p ∉ t_list a) as Hp by (intros Hp; apply K3 in Hp as [? ?]; congruence).
  split_and!; [|done|by exists c; cbn; rewrite lookup_insert_eq|exists c; cbn; by rewrite lookup_insert_eq].
  split; [split| |]; cbn.
  - apply NoDup_app. split_and!; [done| |apply NoDup_singleton]. intros q Hq ->%list_elem_of_singleton. done.
  - intros q d Hd. rewrite elem_of_app, list_elem_of_singleton. destruct (decide (q = p)) as [->|].
    + rewrite lookup_insert_eq in Hd. injection Hd as <-. cbn. naive_solver.
    + rewrite lookup_insert_ne in Hd by done. rewrite (K2 q d Hd). naive_solver.
  - intros q Hq. rewrite elem_of_app, list_elem_of_singleton in Hq.
    destruct (decide (q = p)) as [->|]; [by rewrite lookup_insert_eq|].
    rewrite lookup_insert_ne by done. apply K3. naive_solver.
  - intros q d Hd. destruct (decide (q = p)) as [->|].
    + rewrite lookup_insert_eq in Hd. injection Hd as <-. split; cbn; [by rewrite lookup_insert_eq|done|done|].
      intros _ t [?|?]; done.
    + rewrite lookup_insert_ne in Hd by done. eapply conn_good_env; [by apply K4|]. apply put_le.
  - intros q Hq. destruct (decide (q = p)) as [->|]; [subst p; lia|].
    rewrite lookup_insert_ne in Hq by done. specialize (K5 q Hq). lia.
  - intros t x q d Hx Hs Hq Hd. destruct (decide (q = p)) as [->|].
    + rewrite lookup_insert_eq in Hd. injection Hd as <-. by intros [?|?].
    + rewrite lookup_insert_ne in Hd by done. rewrite elem_of_app, list_elem_of_singleton in Hq.
      eapply H2; try done. naive_solver.
  - done.
Qed.

(** ** What goes wrong *)

Definition has_nul (l : list byte) : bool := bool_decide (x00 ∈ l).

(** An AUTH packet of an unknown kind takes the transport offline without closing
    its sockets; a signature can be accepted before CNXN; a key can come without
    its terminator. *)
Definition auth_hazard (w : world) (p : apacket) (x : atransport) : bool :=
  if ADB_HOST (cfg w) then negb (arg0 (msg p) =? ADB_AUTH_TOKEN)
  else if arg0 (msg p) =? ADB_AUTH_SIGNATURE
  then bool_decide (is_Some (verify w (token x) (payload p)))
       && bool_decide (connection_state x = kCsOffline)
  else if arg0 (msg p) =? ADB_AUTH_RSAPUBLICKEY then negb (has_nul (payload p))
  else true.

Definition packet_hazard (w : world) (p : apacket) (x : atransport) : bool :=
  negb (zlen (payload p) =? data_length (msg p))
  || ((command (msg p) =? A_AUTH) && negb (use_tls x) && auth_hazard w p x)
  || ((command (msg p) =? A_OPEN) && ADB_HOST (cfg w) && negb (has_nul (payload p))).

(** Besides: a hang-up on a socket that is closing and whose transport is gone; a
    service name longer than the other side takes; events of transports and
    descriptors that do not exist. *)
Definition hazard (w : world) (e : event) (a : table) : bool :=
  match e with
  | EvPacket t p =>
      match transports (t_env a) !! t with
      | None => true
      | Some x => packet_hazard w p x
      end
  | EvPoll p _ _ hup =>
      match t_conns a !! p with
      | Some c => hup && c_closing c &&
                  match c_transport c with
                  | Some t => bool_decide (transports (t_env a) !! t = None)
                  | None => false
                  end
      | None => false
      end
  | EvConnect _ t d =>
      match transports (t_env a) !! t with
      | None => true
      | Some x => zlen d + 1 >? Z.min MAX_PAYLOAD (max_payload x)
      end
  | EvKernel f _ _ => bool_decide (fds (t_env a) !! f = None)
  | EvHandleError t => bool_decide (transports (t_env a) !! t = None)
  end.

Section handlers.
Context (w : world).
(** The host always has the key it generated itself. *)
Context (Hkeys : private_keys w ≠ []).

Abbreviation fine := (λ (_ : unit) a', good a').

Lemma fine_env (m : ENV unit) a : good a → spec m (t_env a) (λ _ e, env_le (t_env a) e) →
  spec (on_env m) a fine.
Proof. intros Hg Hm. eapply spec_mono; [by apply good_env|]. naive_solver. Qed.

Lemma fine_mod a t f : good a → has_transport a t → stays_up f →
  spec (on_env (mod_transport t f)) a (λ _ a', good a' ∧ has_transport a' t).
Proof. intros. eapply spec_mono; [by apply good_mod|]. intros _ a' (? & _ & _ & _ & ?). auto. Qed.

Lemma fine_send a t p : good a → has_transport a t → spec (on_env (send_packet p t)) a fine.
Proof. intros. apply fine_env; [done|]. by apply env_send_spec. Qed.

Lemma fine_call a x : good a → spec (on_env (call x)) a fine.
Proof. intros. apply fine_env; [done|]. apply call_spec. Qed.

Lemma env_mod_spec e t f : is_Some (transports e !! t) → (∀ x, tmeta (f x) = tmeta x) →
  spec (mod_transport t f) e (λ _ e', env_le e e').
Proof.
  intros Ht Hf. eapply spec_mono; [by apply mod_transport_spec|]. intros _ e' (x & Hx & ->).
  by apply mod_le.
Qed.

Lemma send_connect_spec e t : is_Some (transports e !! t) →
  spec (send_connect (cfg w) t) e (λ _ e', env_le e e').
Proof.
  intros Ht. eapply spec_bind; [by apply get_transport_spec|]. intros x e' [-> _].
  cbv beta zeta. destruct (_ >? _); [apply spec_fatal|]. by apply env_send_spec.
Qed.

Lemma auth_request_spec e t tok : is_Some (transports e !! t) →
  spec (send_auth_request tok t) e (λ _ e', env_le e e').
Proof.
  intros Ht. unfold send_auth_request. destruct tok; [|by apply spec_ret].
  eapply spec_bind; [by apply env_mod_spec|]. intros [] e1 He1.
  eapply spec_mono; [by apply env_send_spec, (le_present e)|]. intros [] e2 He2. by trans e1.
Qed.

Lemma get_same a t : has_transport a t →
  spec (on_env (get_transport t)) a (λ x a', a' = a ∧ transports (t_env a) !! t = Some x).
Proof.
  intros Ht. eapply spec_mono; [by apply spec_env, get_transport_spec|]. intros x a' (e & [-> Hx] & ->).
  split; [by destruct a|done].
Qed.

Lemma get_transport_eq e t x : transports e !! t = Some x → get_transport t e = inr (x, e).
Proof. intros Hx. unfold get_transport, gets, ofopt, mbind, SP_bind. by rewrite Hx. Qed.

Lemma mod_transport_eq e t f x : transports e !! t = Some x →
  mod_transport t f e = inr (tt, mk_env (<[t := f x]> (transports e)) (fds e) (calls e)).
Proof.
  intros Hx. unfold mod_transport. by rewrite (bind_eq _ _ _ _ _ (get_transport_eq e t x Hx)).
Qed.

Lemma next_key e t x : transports e !! t = Some x →
  ∃ k keys, NextKey (private_keys w) t e =
    inr (k, mk_env (<[t := set_keys keys x]> (transports e)) (fds e) (calls e)).
Proof.
  intros Hx. unfold NextKey. rewrite (bind_eq _ _ _ _ _ (get_transport_eq e t x Hx)).
  assert (∃ keys, (match keys_ x with
    | [] => check (negb (bool_decide (private_keys w = [])));; mret (private_keys w)
    | _ :: ks => mret ks
    end) e = inr (keys, e)) as [keys Hk].
  { destruct (keys_ x); [|eauto]. rewrite bool_decide_eq_false_2 by done. eauto. }
  rewrite (bind_eq _ _ _ _ _ Hk), (bind_eq _ _ _ _ _ (mod_transport_eq e t _ x Hx)). eauto.
Qed.

Lemma auth_response_fine a t d : good a → has_transport a t →
  spec (on_env (send_auth_response (private_keys w) (sign w) (user_key w) d t)) a fine.
Proof.
  intros Hg Ht. unfold send_auth_response.
  (* the environment may change the state of the transport: follow it *)
  destruct Ht as [x Hx].
  destruct (next_key (t_env a) t x Hx) as (k & keys & Hk).
  set (e1 := mk_env _ _ _) in *.
  assert (good (with_env e1 a) ∧ has_transport (with_env e1 a) t) as [Hg1 Ht1].
  { pose proof (fine_mod a t (set_keys keys) Hg) as H. specialize (H (ex_intro _ x Hx)).
    assert (stays_up (set_keys keys)) as Hs by (intros y; right; done). specialize (H Hs).
    unfold spec, on_env, mod_transport, get_transport, gets, ofopt, modp, mbind, SP_bind in H.
    cbn [env_of table_HasEnv] in H. rewrite Hx in H. exact H. }
  assert (spec (on_env (match k with
    | None => mod_transport t (set_connection_state kCsUnauthorized);; send_auth_publickey (user_key w) t
    | Some k => match sign w k d with
                | None => mret tt
                | Some sig => send_packet (packet A_AUTH ADB_AUTH_SIGNATURE 0 sig) t
                end
    end)) (with_env e1 a) fine) as Hrest.
  { destruct k as [k|].
    - destruct (sign w k d); [by apply fine_send|by destruct a].
    - assert (spec (on_env (mod_transport t (set_connection_state kCsUnauthorized));;
        on_env (send_auth_publickey (user_key w) t)) (with_env e1 a) fine) as H.
      { eapply spec_bind; [apply fine_mod; [done|done|]; by left|]. intros _ a2 [Hg2 Ht2].
        unfold send_auth_publickey. destruct (_ || _); [|by apply fine_send].
        unfold spec, on_env. cbn. by destruct a2. }
      unfold spec, on_env, mbind, SP_bind in *. cbn [env_of table_HasEnv] in *.
      destruct (mod_transport t _ _) as [e|[[] e2]]; [done|]. cbn in *.
      destruct (send_auth_publickey _ _ e2) as [e|[[] e3]]; [done|]. exact H. }
  unfold spec, on_env, mbind, SP_bind in *. cbn [env_of table_HasEnv] in *.
  rewrite Hk. exact Hrest.
Qed.

Lemma auth_host_fine a p t x : good a → transports (t_env a) !! t = Some x →
  (arg0 (msg p) =? ADB_AUTH_TOKEN) = true → spec (handle_auth_host w p t) a fine.
Proof.
  intros Hg Hx Hp. unfold handle_auth_host. rewrite Hp.
  eapply spec_bind; [by apply get_same; exists x|]. intros y a' [-> _].
  eapply (spec_bind _ _ _ _ (λ _ a', good a' ∧ has_transport a' t)).
  - destruct (decide _); [apply spec_ret; split; [done|by exists x]|].
    apply fine_mod; [done|by exists x|]. intros z. by left.
  - intros _ a' [? ?]. by apply auth_response_fine.
Qed.

Lemma online_fine a t : good a → up a t →
  spec (on_env (handle_online t)) a (λ _ a', good a' ∧ has_transport a' t).
Proof.
  intros Hg (x & Hx & Hs). pose proof (good_mod a t (λ _, set_online true x) Hg (ex_intro _ x Hx)) as H.
  assert (stays_up (λ _, set_online true x)) as Hup by (intros z; by left).
  specialize (H Hup). unfold handle_online, spec, on_env in *. cbn [env_of table_HasEnv] in *.
  rewrite (mod_transport_eq _ t _ x Hx) in H. rewrite (mod_transport_eq _ t _ x Hx).
  destruct H as (Hg' & _ & _ & _ & Hh).
  split; [exact Hg'|]. apply Hh. by exists x.
Qed.

Lemma auth_daemon_fine a p t x : good a → transports (t_env a) !! t = Some x →
  ADB_HOST (cfg w) = false → auth_hazard w p x = false → spec (handle_auth_daemon w p t) a fine.
Proof.
  intros Hg Hx Hd Hz. unfold handle_auth_daemon, auth_hazard in *. rewrite Hd in Hz.
  destruct (arg0 (msg p) =? ADB_AUTH_SIGNATURE).
  - eapply spec_bind; [by apply get_same; exists x|]. intros y a' [-> Hy].
    assert (y = x) as -> by congruence. destruct (verify w (token x) (payload p)) as [key|].
    + cbn in Hz. apply bool_decide_eq_false in Hz.
      assert (spec (on_env (handle_online t);; on_env (send_connect (cfg w) t)) a
        (λ _ a', good a' ∧ has_transport a' t)) as H1.
      { (* the transport is not offline *)
        eapply (spec_bind _ _ _ _ (λ _ a', good a' ∧ has_transport a' t)).
        - apply online_fine; [done|]. by exists x.
        - intros _ a1 [Hg1 Ht1]. eapply spec_mono; [by apply good_env; [|apply send_connect_spec]|].
          intros _ a2 [? ?]. split; [done|by eapply has_quiet]. }
      eapply (spec_bind _ _ _ _ (λ _ a', good a' ∧ has_transport a' t)).
      { unfold spec, adbd_auth_verified, on_env, mbind, SP_bind in *. cbn [env_of table_HasEnv] in *.
        destruct (handle_online t _) as [e|[[] e2]]; [done|]. cbn in *.
        destruct (send_connect _ _ e2) as [e|[[] e3]]; [done|]. exact H1. }
      intros _ a1 [Hg1 Ht1]. eapply spec_bind; [apply fine_mod; [done..|]; intros z; by right|].
      intros _ a2 [Hg2 _]. by apply fine_call.
    + eapply (spec_bind _ _ _ _ (λ _ a', good a' ∧ quiet a a')).
      { destruct (_ >? 256); [by apply good_env; [|apply call_spec]|by apply spec_ret]. }
      intros _ a1 [Hg1 Hq1]. assert (has_transport a1 t) by (eapply has_quiet; [done|by exists x]).
      eapply spec_bind; [apply fine_mod; [done..|]; intros z; by right|].
      intros _ a2 [Hg2 Ht2]. apply fine_env; [done|]. by apply auth_request_spec.
  - destruct (arg0 (msg p) =? ADB_AUTH_RSAPUBLICKEY); [|done].
    apply negb_false_iff in Hz. unfold has_nul in Hz. rewrite Hz.
    eapply spec_bind; [apply fine_mod; [done|by exists x|]; intros z; by right|].
    intros _ a2 [Hg2 Ht2]. by apply fine_call.
Qed.

Lemma parse_banner_up b x : connection_state (parse_banner (cfg w) b x) ≠ kCsOffline.
Proof.
  unfold parse_banner. cbn [connection_state set_connection_state]. unfold banner_state.
  repeat case_decide; done.
Qed.

Lemma new_connection_fine a p t : good a → has_transport a t →
  spec (handle_new_connection w t p) a fine.
Proof.
  intros Hg Ht. unfold handle_new_connection.
  eapply spec_bind; [by apply handle_offline_spec|]. intros _ a1 (Hg1 & Hh1 & x & Hx & Hs & Hon).
  eapply spec_bind; [apply fine_mod; [done|by exists x|]; intros y; by right|]. intros _ a2 [Hg2 Ht2].
  eapply spec_bind; [apply good_mod; [done|done|]; intros y; left; apply parse_banner_up|].
  intros _ a3 (Hg3 & (y & _ & Hy) & _ & _ & Hh3).
  assert (up a3 t) as Hup by (exists (parse_banner (cfg w) (payload p) y); split; [done|apply parse_banner_up]).
  destruct (ADB_HOST (cfg w)).
  { eapply spec_mono; [by apply online_fine|]. by intros _ a4 [? _]. }
  eapply spec_bind; [apply get_same; eauto|]. intros z a4 [-> Hz].
  assert (has_transport a3 t) by by apply up_has.
  destruct (use_tls z); [by apply fine_send|]. destruct (negb _).
  - eapply spec_bind; [by apply online_fine|]. intros _ a4 [Hg4 Ht4].
    apply fine_env; [done|]. by apply send_connect_spec.
  - apply fine_env; [done|]. by apply auth_request_spec.
Qed.

(** A transport that takes packets is up. *)
Lemma online_up a t x : good a → transports (t_env a) !! t = Some x → online x = true → up a t.
Proof. intros Hg Hx Hon. exists x. split; [done|]. by apply (gd_online a Hg t x). Qed.

Lemma up_env a a' t : t_env a' = t_env a → up a t → up a' t.
Proof. unfold up. by intros ->. Qed.

Lemma service_socket_fine a name t : good a → up a t →
  spec (create_local_service_socket w name t) a (λ o a', good a' ∧ up a' t ∧
    ∀ p, o = Some p → opened a' p).
Proof.
  intros Hg Hup. unfold create_local_service_socket.
  destruct (service_to_fd w name t) as [k|]; [|apply spec_ret; by split_and!].
  eapply spec_bind; [by apply create_spec|]. intros p a1 (Hg1 & He1 & Hop & _).
  assert (up a1 t) as Hup1 by (unfold up; by rewrite He1).
  eapply spec_bind; [by apply set_transport_spec|]. intros _ a2 (Hg2 & Hop2 & He2).
  eapply (spec_bind _ _ _ _ (λ _ a3, good a3 ∧ opened a3 p ∧ t_env a3 = t_env a2)).
  { destruct (_ && _); [|by apply spec_ret]. apply flag_spec; [done|done|]. intros d. by same. }
  intros _ a3 (Hg3 & Hop3 & He3). apply spec_ret. split_and!; [done| |by intros q [= <-]].
  by eapply up_env; [|eapply up_env].
Qed.

Lemma fine_ready a p : good a → opened a p → spec (t_ready p) a fine.
Proof.
  intros Hg Hop. eapply spec_mono; [apply (ready_spec None); [apply Hg|done]|].
  intros _ a' (? & ? & _). by eapply good_quiet.
Qed.

Lemma field_same {B} a p (f : conn → B) : is_Some (t_conns a !! p) →
  spec (c ← find_conn p; mret (f c)) a (λ y a', a' = a ∧ ∃ c, t_conns a !! p = Some c ∧ y = f c).
Proof.
  intros Hp. eapply spec_bind; [by apply find_conn_spec|]. intros c a' [-> Hc]. apply spec_ret. eauto.
Qed.

Lemma open_fine a p t x : good a → transports (t_env a) !! t = Some x →
  (ADB_HOST (cfg w) = true → has_nul (payload p) = true) → spec (handle_open w p t) a fine.
Proof.
  intros Hg Hx Hnul. unfold handle_open.
  assert (has_transport a t) as Ht by by exists x.
  eapply spec_bind; [by apply get_same|]. intros y a' [-> Hy]. assert (y = x) as -> by congruence.
  destruct (negb (online x) || _) eqn:E; [by apply spec_ret|].
  apply orb_false_iff in E as [E%negb_false_iff _].
  destruct (negb (Bool.eqb _ _)); [by apply fine_send|].
  eapply (spec_bind _ _ _ _ (λ _ a', a' = a)).
  { destruct (ADB_HOST (cfg w)); [|by apply spec_ret]. specialize (Hnul eq_refl).
    unfold has_nul in Hnul. rewrite Hnul. cbn. destruct (negb _); [apply spec_fatal|by apply spec_ret]. }
  intros _ a' ->. eapply spec_bind; [apply service_socket_fine; [done|by eapply online_up]|].
  intros [s|] a1 (Hg1 & Hup1 & Hop); [|apply fine_send; [done|by apply up_has]].
  eapply spec_bind; [apply attach_spec; auto|]. intros _ a2 (Hg2 & Hop2 & He2).
  assert (up a2 t) as Hup2 by by eapply up_env.
  destruct Hop2 as (c & Hc & Hcl).
  eapply spec_bind; [apply (field_same a2 s c_id); eauto|]. intros i a' [-> _]. eapply (spec_bind _ _ _ _ (λ _ a3, good a3 ∧ opened a3 s)).
  { assert (∀ a3 j, good a3 → opened a3 s → up a3 t →
      spec (on_env (send_ready i (arg0 (msg p)) t j)) a3 (λ _ a4, good a4 ∧ opened a4 s)) as Hsend.
    { intros a3 j Hg3 (c3 & Hc3 & Hcl3) Hup3. eapply spec_mono.
      - eapply (spec_env_le _ a3 None (gd_tok a3 Hg3)). apply send_ready_spec. by apply up_has.
      - intros _ a4 (? & ? & E4 & _). split; [by eapply good_quiet|]. exists c3. by rewrite E4. }
    destruct (delayed_ack_ x); [|apply Hsend; [done|by exists c|done]].
    eapply spec_bind; [eapply (flag_spec a2 s (c_set_avail (Some (arg1 (msg p))))); [done|by exists c|intros d; by same]|].
    intros _ a3 (Hg3 & Hop3 & He3). apply Hsend; [done|done|by eapply up_env]. }
  intros _ a3 [Hg3 Hop3]. by apply fine_ready.
Qed.

Lemma peer_same a p : is_Some (t_conns a !! p) →
  spec (sl_peer p) a (λ o a', a' = a ∧ ∀ c, t_conns a !! p = Some c → (o = None ↔ c_peer c = None)).
Proof.
  intros [c Hc]. eapply spec_bind; [apply find_conn_spec; eauto|]. intros c' a' [-> Hc'].
  apply spec_ret. split; [done|]. intros d Hd. assert (d = c') as -> by congruence.
  by destruct (c_peer c').
Qed.

Lemma okay_fine a p t x : good a → transports (t_env a) !! t = Some x → spec (handle_okay p t) a fine.
Proof.
  intros Hg Hx. unfold handle_okay. assert (has_transport a t) as Ht by by exists x.
  eapply spec_bind; [by apply get_same|]. intros y a' [-> Hy]. assert (y = x) as -> by congruence.
  destruct (negb (online x) || _ || _) eqn:E; [by apply spec_ret|].
  apply orb_false_iff in E as [[E%negb_false_iff _]%orb_false_iff _].
  eapply spec_bind; [apply find_spec, Hg|]. intros [s|] a' [-> Hs]; [|by apply fine_send].
  specialize (Hs s eq_refl). destruct (tk_list _ a (gd_tok a Hg) s Hs) as [c Hc].
  assert (c_closing c = false) as Hcl by by apply (tk_listed _ a (gd_tok a Hg) s c Hc).
  destruct (acked p) as [ack|]; [|by apply spec_ret].
  assert (∀ a', good a' → opened a' s → spec (t_ack s ack) a' (λ _ a2, good a2 ∧ opened a2 s)) as Hack.
  { intros a' Hg' Hop'. eapply spec_mono; [apply (ack_spec None); [apply Hg'|done]|].
    intros _ a2 (? & ? & ?). split; [by eapply good_quiet|done]. }
  eapply spec_bind; [apply peer_same; eauto|]. intros [[i t']|] a' [-> Hp].
  - destruct (_ =? _); [|by apply spec_ret]. eapply spec_mono; [apply Hack; [done|by exists c]|].
    by intros _ a2 [? _].
  - eapply spec_bind; [apply attach_spec; [done|by exists c|by eapply online_up]|].
    intros _ a2 (Hg2 & Hop2 & _). eapply spec_bind; [by apply Hack|]. intros _ a3 [Hg3 Hop3].
    by apply fine_ready.
Qed.

Lemma clse_fine a p t x : good a → transports (t_env a) !! t = Some x → spec (handle_clse p t) a fine.
Proof.
  intros Hg Hx. unfold handle_clse. assert (has_transport a t) as Ht by by exists x.
  eapply spec_bind; [by apply get_same|]. intros y a' [-> Hy].
  destruct (_ || _); [by apply spec_ret|].
  eapply spec_bind; [apply find_spec, Hg|]. intros [s|] a' [-> Hs]; [|by apply spec_ret].
  destruct (tk_list _ a (gd_tok a Hg) s (Hs s eq_refl)) as [c Hc].
  eapply spec_bind; [apply peer_same; eauto|]. intros o a' [-> _].
  destruct (_ && _); [by apply spec_ret|].
  eapply spec_mono; [eapply (close_spec None); [apply Hg|done|by left]|]. intros _ a' (? & ? & _).
  by eapply good_quiet.
Qed.

Lemma wrte_fine a p t x : good a → transports (t_env a) !! t = Some x → spec (handle_wrte p t) a fine.
Proof.
  intros Hg Hx. unfold handle_wrte. assert (has_transport a t) as Ht by by exists x.
  eapply spec_bind; [by apply get_same|]. intros y a' [-> Hy].
  destruct (_ || _); [by apply spec_ret|].
  eapply spec_bind; [apply find_spec, Hg|]. intros [s|] a' [-> Hs]; [|by apply spec_ret].
  eapply spec_bind; [apply enqueue_spec; [apply Hg|apply (tk_list _ a (gd_tok a Hg)); auto]|].
  intros _ a' [? ?]. apply spec_ret. by eapply good_quiet.
Qed.

Lemma packet_fine a p t x : good a → transports (t_env a) !! t = Some x → packet_hazard w p x = false →
  spec (handle_packet w p t) a fine.
Proof.
  intros Hg Hx Hz. unfold packet_hazard in Hz.
  apply orb_false_iff in Hz as [[Hlen Hauth]%orb_false_iff Hopen].
  apply negb_false_iff in Hlen. unfold handle_packet. rewrite Hlen.
  assert (has_transport a t) as Ht by by exists x.
  eapply (spec_bind _ _ _ _ (λ _ a', a' = a)); [done|]. intros _ a' ->. cbv zeta.
  destruct (_ =? A_CNXN); [by apply new_connection_fine|].
  destruct (_ =? A_STLS).
  { eapply spec_bind; [apply fine_mod; [done|done|]; intros z; by right|]. intros _ a1 [Hg1 Ht1].
    eapply (spec_bind _ _ _ _ fine); [destruct (ADB_HOST _); [by apply fine_send|by apply spec_ret]|].
    intros _ a2 Hg2. by apply fine_call. }
  destruct (_ =? A_AUTH).
  { eapply spec_bind; [by apply get_same|]. intros y a' [-> Hy]. assert (y = x) as -> by congruence.
    destruct (use_tls x); [by apply spec_ret|]. cbn in Hauth. destruct (ADB_HOST (cfg w)) eqn:Eh.
    - eapply auth_host_fine; [done|done|]. unfold auth_hazard in Hauth. rewrite Eh in Hauth.
      by apply negb_false_iff.
    - by eapply auth_daemon_fine. }
  destruct (_ =? A_OPEN).
  { eapply open_fine; [done|done|]. intros Eh. rewrite Eh in Hopen. cbn in Hopen.
    by apply negb_false_iff in Hopen. }
  destruct (_ =? A_OKAY); [by eapply okay_fine|].
  destruct (_ =? A_CLSE); [by eapply clse_fine|].
  destruct (_ =? A_WRTE); [by eapply wrte_fine|by apply spec_ret].
Qed.

Lemma reverse_meta d x y : UpdateReverseConfig d x = Some y → tmeta y = tmeta x.
Proof.
  unfold UpdateReverseConfig.
  repeat match goal with
  | |- context [match ConsumePrefix ?a ?b with _ => _ end] => destruct (ConsumePrefix a b)
  | |- context [match find_byte ?a ?b with _ => _ end] => destruct (find_byte a b)
  | |- context [if ?b then _ else _] => destruct b
  end; intros; simplify_eq; done.
Qed.

Lemma connect_fine a p t d x : good a → transports (t_env a) !! t = Some x →
  zlen d + 1 ≤ Z.min MAX_PAYLOAD (max_payload x) →
  (∃ c, t_conns a !! p = Some c ∧ c_closing c = false ∧ c_peer c = None ∧ c_transport c = Some t) →
  spec (connect_to_remote w p d) a fine.
Proof.
  intros Hg Hx Hd (c & Hc & Hcl & Hpeer & Htr). unfold connect_to_remote.
  eapply spec_bind; [apply (field_same a p c_transport); eauto|]. intros o a' (-> & c' & Hc' & ->).
  assert (c' = c) as -> by congruence. rewrite Htr. cbn [ofopt].
  eapply (spec_bind _ _ _ _ (λ y a', y = t ∧ a' = a)); [done|]. intros y a' [-> ->].
  eapply (spec_bind _ _ _ _ (λ _ a', good a' ∧ quiet a a' ∧ t_conns a' = t_conns a)).
  { destruct (ADB_HOST (cfg w)); [|by apply spec_ret].
    eapply spec_bind; [apply get_same; by exists x|]. intros y a' [-> Hy].
    assert (y = x) as -> by congruence.
    destruct (UpdateReverseConfig d x) as [z|] eqn:Hz; [|apply spec_fatal]. cbn [ofopt].
    eapply (spec_bind _ _ _ _ (λ y a', y = z ∧ a' = a)); [done|]. intros y a' [-> ->].
    eapply spec_mono; [eapply (spec_env_le _ a None (gd_tok a Hg))|].
    - eapply spec_mono; [apply mod_transport_spec; by exists x|]. intros _ e (x' & Hx' & ->).
      apply (mod_le (t_env a) t (λ _, z) x'); [done|]. apply reverse_meta in Hz. congruence.
    - intros _ a' (? & ? & ? & _). split_and!; [by eapply good_quiet|done|done]. }
  intros _ a1 (Hg1 & Hq1 & Hm1). rewrite <- Hm1 in Hc.
  destruct (le_present _ _ t (q_env _ _ Hq1)) as [x1 Hx1]; [by exists x|].
  destruct (le_meta _ _ t x1 (q_env _ _ Hq1) Hx1) as (x0 & Hx0 & [= E1 E2 E3 E4 E5]).
  assert (x0 = x) as -> by congruence.
  eapply spec_bind; [apply (field_same a1 p c_id); eauto|]. intros i a' (-> & _).
  eapply spec_bind; [apply get_same; by exists x1|]. intros y a' [-> Hy].
  assert (y = x1) as -> by congruence.
  eapply (spec_bind _ _ _ _ (λ _ a', good a' ∧ t_env a' = t_env a1 ∧ ∃ c', t_conns a' !! p = Some c' ∧
     c_peer c' = None ∧ c_transport c' = Some t)).
  { destruct (delayed_ack_ x1); [|apply spec_ret; split_and!; [done|done|by exists c]].
    eapply spec_mono; [eapply (update_quiet_spec None a1 p c (c_set_avail (Some 0))); [apply Hg1|done|same|done..]|].
    intros _ a2 (? & ? & ? & ?). split_and!; [by eapply good_quiet|done|]. by exists (c_set_avail (Some 0) c). }
  intros _ a2 (Hg2 & He2 & c2 & Hc2 & Hpeer2 & Htr2). cbv zeta.
  eapply (spec_bind _ _ _ _ (λ m a', m = Z.min MAX_PAYLOAD (max_payload x1) ∧ a' = a2)).
  { unfold spec. cbn [sl_max_payload table_SocketLayer]. unfold t_max_payload, find_conn.
    rewrite (bind_eq _ _ a2 c2 a2) by (unfold gets, ofopt, mbind, SP_bind; by rewrite Hc2).
    rewrite Htr2, Hpeer2. rewrite (bind_eq _ _ a2 (Z.min MAX_PAYLOAD (max_payload x1)) a2); [done|].
    unfold on_env. cbn [env_of table_HasEnv]. unfold mbind at 1, SP_bind at 1.
    rewrite He2, (get_transport_eq _ t x1 Hx1). rewrite <- He2. by destruct a2. }
  intros m a' [-> ->]. cbn [packet msg data_length].
  rewrite (proj2 (Z.leb_le _ _)).
  - eapply (spec_bind _ _ _ _ (λ _ a', a' = a2)); [done|]. intros _ a' ->.
    apply fine_send; [done|]. unfold has_transport. rewrite He2. by exists x1.
  - rewrite zlen_app. change (zlen [x00]) with 1. rewrite E3 in Hd.
    pose proof (zlen_nonneg d). unfold u32. rewrite Z.mod_small; [lia|]. unfold MAX_PAYLOAD in *. lia.
Qed.

Lemma smart_connect_fine a p t d x : good a → transports (t_env a) !! t = Some x →
  zlen d + 1 ≤ Z.min MAX_PAYLOAD (max_payload x) →
  (∃ c, t_conns a !! p = Some c ∧ c_peer c = None ∧ c_transport c = None) → opened a p →
  spec (smart_socket_connect w p t d) a fine.
Proof.
  intros Hg Hx Hd (c & Hc & Hpeer & Htr) (c' & Hc' & Hcl).
  assert (c' = c) as -> by congruence. clear Hc'.
  assert (has_transport a t) as Ht by by exists x. unfold smart_socket_connect.
  eapply spec_bind; [by apply get_same|]. intros y a' [-> Hy]. assert (y = x) as -> by congruence.
  destruct (negb _) eqn:Eon.
  - eapply spec_bind; [apply (field_same a p c_fd); eauto|]. intros f a' (-> & c' & Hc' & ->).
    assert (c' = c) as -> by congruence.
    eapply spec_bind; [eapply (spec_env_le _ a None (gd_tok a Hg)), send_status_spec;
      apply (cg_fd _ _ _ (tk_conn _ a (gd_tok a Hg) p c Hc))|].
    intros _ a1 (Hok1 & Hq1 & Hm1 & _).
    eapply spec_mono; [eapply (close_spec None); [done|by rewrite Hm1|by left]|].
    intros _ a2 (? & ? & _). eapply good_quiet; [done|done|by trans a1].
  - apply negb_false_iff in Eon.
    assert (up a t) as Hup by (exists x; split; [done|]; by destruct (connection_state x)).
    eapply (spec_bind _ _ _ _ (λ _ a', good a' ∧ t_env a' = t_env a ∧ ∃ c', t_conns a' !! p = Some c' ∧
      c_closing c' = false ∧ c_peer c' = None)).
    { eapply spec_bind; [eapply (update_quiet_spec None a p c); [apply Hg|done|same|done..]|].
      intros _ a1 (Hok1 & Hq1 & Hc1 & He1).
      eapply spec_mono; [eapply (update_quiet_spec None a1 p _); [done|done|same|done..]|].
      intros _ a2 (Hok2 & Hq2 & Hc2 & He2). split_and!; [|congruence|].
      - eapply good_quiet; [done|done|by trans a1].
      - eexists. split; [done|]. done. }
    intros _ a1 (Hg1 & He1 & c1 & Hc1 & Hcl1 & Hpeer1).
    eapply (spec_bind _ _ _ _ (λ _ a', good a' ∧ t_env a' = t_env a ∧ ∃ c', t_conns a' !! p = Some c' ∧
      c_closing c' = false ∧ c_peer c' = None ∧ c_transport c' = Some t)).
    { eapply spec_mono; [by apply conn_update_spec; exists c1|]. intros _ a2 (c' & Hc' & ->).
      assert (c' = c1) as -> by congruence. split_and!; [|done|].
      - eapply (good_give a1 p c1 (c_set_transport (Some t)) t); try done; [by eapply up_env|].
        intros t' [[= <-]|?]; [by left|by right; right].
      - exists (c_set_transport (Some t) c1). cbn. by rewrite lookup_insert_eq. }
    intros _ a2 (Hg2 & He2 & Hex). eapply connect_fine; [done| |done|done]. by rewrite He2.
Qed.

Lemma event_fine e a : good a → hazard w e a = false → spec (handle_event w e) a fine.
Proof.
  intros Hg Hz. destruct e as [t p|p pin pout hup|k t d|f r x|t]; cbn [handle_event hazard] in *.
  - destruct (transports (t_env a) !! t) as [x|] eqn:Hx; [|done]. unfold HandleRead.
    eapply spec_bind; [by apply get_same; exists x|]. intros y a' [-> Hy].
    assert (y = x) as -> by congruence. destruct (check_header p x); [|by apply spec_ret].
    by eapply packet_fine.
  - unfold poll_event. eapply (spec_bind _ _ _ _ (λ o a', a' = a ∧ o = (λ c, (c_read c, c_write c)) <$> t_conns a !! p)).
    { done. }
    intros o a' [-> ->]. destruct (t_conns a !! p) as [c|] eqn:Hc; [|by apply spec_ret]. cbn.
    eapply spec_mono; [apply event_spec; [apply Hg|eauto|]|].
    2:{ intros _ a' [? ?]. by eapply good_quiet. }
    intros Hev c' t Hc' Ht. assert (c' = c) as -> by congruence.
    destruct (tk_conn _ a (gd_tok a Hg) p c Hc) as [_ _ G3 G4].
    destruct (c_closing c) eqn:Hcl; [|by apply G4].
    destruct (G3 eq_refl) as [Hpeer Hread]. rewrite Hread, andb_false_r in Hev. cbn in Hev. subst hup.
    destruct Ht as [Ht|Ht]; [|by rewrite Hpeer in Ht]. rewrite Ht in Hz. cbn in Hz.
    apply bool_decide_eq_false in Hz. by apply not_eq_None_Some.
  - destruct (transports (t_env a) !! t) as [x|] eqn:Hx; [|done]. rewrite Z.gtb_ltb in Hz. apply Z.ltb_ge in Hz.
    eapply spec_bind; [by apply create_spec|]. intros p a1 (Hg1 & He1 & Hop & Hex).
    eapply smart_connect_fine; [done| |done|done|done]. by rewrite He1.
  - apply bool_decide_eq_false, not_eq_None_Some in Hz as [k Hk].
    apply fine_env; [done|]. unfold kernel_event.
    eapply spec_bind; [apply get_fd_spec; eauto|]. intros k' e [-> _]. apply put_le.
  - apply bool_decide_eq_false, not_eq_None_Some in Hz. unfold HandleError.
    eapply spec_bind; [by apply handle_offline_spec|]. intros _ a1 (Hg1 & _ & x & Hx & Hs & _).
    destruct (on_env (transport_destroy w t) a1) as [e|[[] a2]] eqn:E.
    { exfalso. unfold on_env, transport_destroy in E. cbn [env_of table_HasEnv] in E.
      rewrite (bind_eq _ _ _ _ _ (get_transport_eq _ t x Hx)) in E. destruct (_ && _); [|done].
      by rewrite (mod_transport_eq _ t _ x Hx) in E. }
    unfold spec. rewrite E. unfold on_env, transport_destroy in E. cbn [env_of table_HasEnv] in E.
    rewrite (bind_eq _ _ _ _ _ (get_transport_eq _ t x Hx)) in E. destruct (_ && _).
    + rewrite (mod_transport_eq _ t _ x Hx) in E. injection E as <-.
      eapply good_quiet; [done|..]; apply (tok_env None a1 _ (gd_tok a1 Hg1)); by apply mod_le.
    + injection E as <-. destruct Hg1 as [[K1 K2 K3 K4 K5] H2 H3]. split; [split| |]; try done.
      * intros p c Hc. destruct (K4 p c Hc) as [G1 G2 G3 G4]. split; try done.
        intros Hcl t' Ht'. cbn. rewrite lookup_delete_ne; [by apply G4|]. intros <-.
        apply (H2 t x p c Hx Hs); [by apply (K2 p c Hc)|done|done].
      * cbn. intros t' x' p c [_ Hx']%lookup_delete_Some. by eapply H2.
      * cbn. intros t' x' [_ Hx']%lookup_delete_Some. by eapply H3.
Qed.
End handlers.

(** ** Runs *)

(** No event of the run is a hazard in the state it meets. *)
Fixpoint safe_run (w : world) (es : list event) (st : proc) : Prop :=
  match es with
  | [] => True
  | e :: es =>
      hazard w e (abs st) = false ∧ has_room st e ∧
      match handle_event w e st with inr (_, st') => safe_run w es st' | inl _ => True end
  end.

Lemma new_table_good ts : (∀ t x, ts !! t = Some x → online x = false) → good (abs (new_proc ts)).
Proof.
  intros Hts. split; [split| |]; cbn; try done.
  - constructor.
  - by intros p ?%not_elem_of_nil.
  - intros p [c Hc]. by rewrite conns_lookup, lookup_empty in Hc.
  - intros t x Hx. by rewrite (Hts t x Hx).
Qed.

Lemma safe_run_ok w es : private_keys w ≠ [] → ∀ st, ok st → good (abs st) → safe_run w es st →
  match run w es st with
  | inr (_, st') => ok st' ∧ good (abs st')
  | inl e => e = StopFatal ∨ e = StopExit
  end.
Proof.
  intros Hk. induction es as [|e es IH]; intros st Hok Hg Hs; cbn [run safe_run] in *; [done|].
  destruct Hs as (Hz & Hroom & Hs).
  pose proof (sim_handle_event w st e Hok (has_room_event st e Hroom)) as Hsim.
  pose proof (event_fine w Hk e (abs st) Hg Hz) as Hf. unfold sim, spec in *.
  unfold mbind, SP_bind. destruct (handle_event w e st) as [x|[[] st']];
    destruct (handle_event w e (abs st)) as [y|[[] a']]; try done; [by subst|].
  destruct Hsim as (_ & Hok' & _ & <-). by apply IH.
Qed.

(** C4: No packet and no descriptor event makes adb use a pointer that is gone.
    From a process whose transports have just been created, any run of events none
    of which is one of the hazards above (packets of any content on any transport,
    polls with any results, clients connecting, connections failing, in any order)
    never dereferences a deleted socket, transport or descriptor, never fails a
    CHECK and always comes back to the event loop: it ends normally, in LOG(FATAL)
    or in exit.  Afterwards the heap is well formed and no socket on
    [local_socket_list] belongs to an offline transport (those lingering on
    [local_socket_closing_list] keep their pointer to it; their hang-up is one of
    the hazards). *)
Theorem adb_memory_safe w es ts :
  private_keys w ≠ [] → (∀ t x, ts !! t = Some x → online x = false) →
  safe_run w es (new_proc ts) →
  match run w es (new_proc ts) with
  | inr (_, st') => ok st' ∧ good (abs st')
  | inl e => e = StopFatal ∨ e = StopExit
  end.
Proof. intros Hk Hts. apply safe_run_ok; [done|apply new_proc_ok|by apply new_table_good]. Qed.
