(* ===== verification/AdbScenarios.v ===== *)
(** Concrete runs of adb: a host with two devices.  A session of a client with a
    device is an instance of the theorems of AdbRefine and AdbSafe; the other runs
    show what happens in each of the situations AdbSafe excludes, and what one
    device can do to the connections of another. *)

From Stdlib Require Import Strings.String.
From stdpp Require Import gmap.
From S2P Require Import Prelude LibBase AdbIo IOVector AdbPackets AdbEnv AdbSockets AdbMain AdbConn AdbRefine AdbTable AdbSafe.
Open Scope Z_scope.

(** ** A host and its devices *)

Definition host_config : config := mk_config true true (bs "host") ([], [], []) false.
Definition device_config : config :=
  mk_config false false (bs "device") (bs "p", bs "m", bs "d") true.
(** A device without delayed acknowledgements. *)
Definition old_banner : list byte := bs "device::features=cmd".

Definition idle_fd : kfd := mk_kfd [] [] [] [].

Definition host_world : world :=
  mk_world host_config (fun name _ => Some idle_fd) 2000 false [1] (fun _ _ => None) [] None
    (fun _ _ => None) 1.
Definition device_world : world :=
  mk_world device_config (fun name _ => Some idle_fd) 2000 false [] (fun _ _ => None) [] (Some (bs "t"))
    (fun _ _ => None) 1.

Definition two_transports : gmap Z atransport :=
  <[1 := new_transport kCsConnecting false]> (<[2 := new_transport kCsConnecting false]> ∅).

(** A packet as the device sends it. *)
Definition from_device (t cmd a0 a1 : Z) (data : list byte) : event :=
  EvPacket t (finish_packet A_VERSION (packet cmd a0 a1 data)).
Definition hello (t maxdata : Z) (banner : list byte) : event :=
  from_device t A_CNXN A_VERSION maxdata banner.

Definition credit : list byte := le_bytes 4 INITIAL_DELAYED_ACK_BYTES.

(** Device 1 comes up and a client starts a shell on it. *)
Definition shell_open : list event :=
  [hello 1 MAX_PAYLOAD (get_connection_string device_config); EvConnect idle_fd 1 (bs "shell:");
   from_device 1 A_OKAY 7 1 credit].

(** The client types, the shell answers and ends; the client is slow to read. *)
Definition session : list event :=
  shell_open ++
  [EvKernel 3 [RdData (bs "ls")] [WrTake 2];
   EvPoll 1 true false false;
   from_device 1 A_WRTE 7 1 (bs "a b");
   from_device 1 A_CLSE 0 1 [];
   EvKernel 3 [] [WrTake 9];
   EvPoll 1 false true false].

(** What a run shows outside: the stop, or the packets for the two devices, what was
    written to the first descriptor and the calls. *)
Definition packets_for (t : Z) (e : env) : list (Z * Z * Z * list byte) :=
  match transports e !! t with
  | Some x => (fun p => (command (msg p), arg0 (msg p), arg1 (msg p), payload p)) <$> outbox x
  | None => []
  end.
Definition shown (r : stop + unit * proc)
    : stop + list (Z * Z * Z * list byte) * list (Z * Z * Z * list byte) * list fd_out * list extcall :=
  match r with
  | inl e => inl e
  | inr (_, st) =>
      let e := proc_env st in
      inr (packets_for 1 e, packets_for 2 e, default [] (out <$> fds e !! 3), calls e)
  end.

Definition host_run (es : list event) := shown (run host_world es (new_proc two_transports)).
Definition device_run (es : list event) := shown (run device_world es (new_proc two_transports)).

Lemma shell_session : host_run session = inr
  ([(A_OPEN, 1, INITIAL_DELAYED_ACK_BYTES, bs "shell:" ++ [x00]);
    (A_WRTE, 1, 7, bs "ls"); (A_OKAY, 1, 7, le_bytes 4 2); (A_CLSE, 1, 7, [])], [],
   [OutOkay; OutData (bs "a "); OutData (bs "b")],
   [RunDisconnects 1; deferred_close 3]).
Proof. vm_compute. reflexivity. Qed.

#[export] Instance safe_run_dec w es : ∀ st, Decision (safe_run w es st).
Proof.
  induction es as [|e es IH]; intros st; cbn [safe_run]; [apply _|].
  repeat apply and_dec; [apply _..|]. destruct (handle_event w e st) as [|[[] st']]; [apply _|apply IH].
Defined.

#[export] Instance roomy_dec w es : ∀ st, Decision (roomy w es st).
Proof.
  induction es as [|e es IH]; intros st; cbn [roomy]; [apply _|].
  apply and_dec; [apply _|]. destruct (handle_event w e st) as [|[[] st']]; [apply _|apply IH].
Defined.

(** The session on the sockets and on the table. *)
Lemma sockets_refine_table_witness :
  match run host_world session (new_proc two_transports),
        run host_world session (abs (new_proc two_transports)) with
  | inr (_, st'), inr (_, a') => ok st' ∧ abs st' = a'
  | inl e, inl e' => e = e'
  | _, _ => False
  end.
Proof.
  apply (sockets_refine_table host_world session (new_proc two_transports)).
  - apply new_proc_ok.
  - apply (bool_decide_eq_true_1 _). vm_compute. reflexivity.
Defined.

Lemma transports_offline t x : two_transports !! t = Some x → online x = false.
Proof.
  unfold two_transports. rewrite !lookup_insert_Some, lookup_empty. by intros [[_ <-]|[_ [[_ <-]|[_ ?]]]].
Qed.

(** The session meets no hazard. *)
Lemma adb_memory_safe_witness :
  match run host_world session (new_proc two_transports) with
  | inr (_, st') => ok st' ∧ good (abs st')
  | inl e => e = StopFatal ∨ e = StopExit
  end.
Proof.
  apply (adb_memory_safe host_world session two_transports).
  - done.
  - exact transports_offline.
  - apply (bool_decide_eq_true_1 _). vm_compute. reflexivity.
Defined.

(** ** The hazards *)

(** An AUTH packet of an unknown kind marks the transport offline before
    [handle_offline] looks at its state, so that its sockets stay; when the
    connection ends, the transport is deleted under them. *)
Definition unknown_auth : list event :=
  shell_open ++ [from_device 1 A_AUTH 9 0 []; EvHandleError 1; EvPoll 1 true false false].

(** A socket that lingers keeps its transport pointer; a hang-up makes it read. *)
Definition hangup_lingering : list event :=
  shell_open ++ [from_device 1 A_WRTE 7 1 (bs "a"); from_device 1 A_CLSE 0 1 []; EvHandleError 1;
                 EvPoll 1 false false true].

(** A service name or a key without its terminator. *)
Definition unterminated_open : list event :=
  [hello 1 MAX_PAYLOAD (get_connection_string device_config);
   from_device 1 A_OPEN 7 INITIAL_DELAYED_ACK_BYTES (bs "tcp:1")].
Definition unterminated_key : list event := [from_device 1 A_AUTH ADB_AUTH_RSAPUBLICKEY 0 (bs "key")].

(** A device that takes only tiny packets. *)
Definition tiny_maxdata : list event :=
  [hello 1 6 (get_connection_string device_config); EvConnect idle_fd 1 (bs "shell:")].

(** What the safety of adb excludes does happen.  A device crashes the server
    through a transport that is gone: by an AUTH packet of an unknown kind on an
    open connection followed by the end of the connection (its sockets are left
    behind), and by a client that hangs up after the device closed its stream and
    went away (a lingering socket still reads).  It makes the server, or a host
    makes the daemon, read beyond a payload without a terminator, and it makes the
    server abort in a CHECK by announcing a maxdata smaller than a service name. *)
Theorem hazards_happen :
  host_run unknown_auth = inl StopBadPointer ∧
  host_run hangup_lingering = inl StopBadPointer ∧
  host_run unterminated_open = inl StopBadPointer ∧
  device_run unterminated_key = inl StopBadPointer ∧
  host_run tiny_maxdata = inl StopCheck.
Proof. split_and!; vm_compute; reflexivity. Qed.

(** ** Devices and each other's connections *)

(** A WRTE and a CLSE that name a connection of device 1 and its peer, a first
    OKAY and a CLSE for one that is not connected yet, all sent by device 2. *)
Definition both_up : list event :=
  hello 2 MAX_PAYLOAD (get_connection_string device_config) :: shell_open.
Definition write_other : list event :=
  both_up ++ [EvKernel 3 [] [WrTake 9]; from_device 2 A_WRTE 7 1 (bs "rm")].
Definition close_other : list event := both_up ++ [from_device 2 A_CLSE 7 1 []].
Definition hijack : list event :=
  hello 2 MAX_PAYLOAD (get_connection_string device_config)
  :: take 2 shell_open ++
  [from_device 2 A_OKAY 5 1 credit; EvKernel 3 [RdData (bs "secret")] []; EvPoll 1 true false false].
Definition close_pending : list event :=
  hello 2 MAX_PAYLOAD (get_connection_string device_config)
  :: take 2 shell_open ++ [from_device 2 A_CLSE 0 1 []].

(** ** Flow control *)

(** A hang-up makes a socket read although its peer has not acknowledged the last
    packet; a packet written in two parts is acknowledged twice. *)
Definition old_shell : list event :=
  [hello 1 MAX_PAYLOAD old_banner; EvConnect idle_fd 1 (bs "shell:"); from_device 1 A_OKAY 7 1 []].
Definition hangup_write : list event :=
  old_shell ++ [EvKernel 3 [RdData (bs "a"); RdAgain; RdData (bs "b")] []; EvPoll 1 true false false;
                EvPoll 1 false false true].
Definition double_okay : list event :=
  old_shell ++ [EvKernel 3 [] [WrTake 1; WrTake 1]; from_device 1 A_WRTE 7 1 (bs "ab");
                EvPoll 1 false true false].

Definition opened_shell : Z * Z * Z * list byte :=
  (A_OPEN, 1, INITIAL_DELAYED_ACK_BYTES, bs "shell:" ++ [x00]).

(** Device 2 writes to the client of device 1, ends its connection, takes over or
    refuses a connection the client has just asked for. *)
Lemma devices_not_isolated :
  host_run write_other = inr ([opened_shell; (A_OKAY, 1, 7, le_bytes 4 2)], [],
    [OutOkay; OutData (bs "rm")], [RunDisconnects 2; RunDisconnects 1]) ∧
  host_run close_other = inr ([opened_shell; (A_CLSE, 1, 7, [])], [],
    [OutOkay], [RunDisconnects 2; RunDisconnects 1; deferred_close 3]) ∧
  host_run hijack = inr ([opened_shell], [(A_WRTE, 1, 5, bs "secret")],
    [OutOkay], [RunDisconnects 2; RunDisconnects 1]) ∧
  host_run close_pending = inr ([opened_shell], [],
    [OutFail (bs "closed")], [RunDisconnects 2; RunDisconnects 1; deferred_close 3]).
Proof. split_and!; vm_compute; reflexivity. Qed.

(** Two WRTE for one OKAY received, and two OKAY for one WRTE. *)
Lemma hangup_ignores_credit :
  host_run hangup_write = inr
    ([(A_OPEN, 1, 0, bs "shell:" ++ [x00]); (A_WRTE, 1, 7, bs "a"); (A_WRTE, 1, 7, bs "b")], [],
     [OutOkay], [RunDisconnects 1]).
Proof. vm_compute. reflexivity. Qed.

Lemma partial_writes_acknowledge_twice :
  host_run double_okay = inr
    ([(A_OPEN, 1, 0, bs "shell:" ++ [x00]); (A_OKAY, 1, 7, []); (A_OKAY, 1, 7, [])], [],
     [OutOkay; OutData (bs "a"); OutData (bs "b")], [RunDisconnects 1]).
Proof. vm_compute. reflexivity. Qed.
