(* ===== verification/Driver.v ===== *)
(** The host side of the fastboot protocol (system/core/fastboot/
    fastboot_driver.cpp and fastboot_driver.h): commands, responses, downloads
    from memory, from a file and from a sparse file, uploads and fetches.

    The driver is written against [Transport] (transport.h).  The callbacks of
    the user interface are a log of their calls.  Results stored through
    optional pointers are fields of [reply], [None] when nothing is stored. *)

From Stdlib Require Import Strings.String.
From S2P Require Import Prelude LibBase BackedBlock OutputFile Sparse.
Open Scope Z_scope.

(** [class Transport], [steady_clock::now()] in nanoseconds and [strerror(errno)].
    [None] is the return value -1 of [Read]. *)
Class Transport (T : Type) := {
  tr_Read : Z → M T (option (list byte));
  tr_Write : list byte → M T Z;
  tr_WaitForDisconnect : M T Z;
  tr_now : M T Z;
  tr_strerror : T → list byte
}.

Inductive RetCode : Type := SUCCESS | BAD_ARG | IO_ERROR | BAD_DEV_RESP | DEVICE_FAIL | TIMEOUT.
#[export] Instance RetCode_eq_dec : EqDecision RetCode.
Proof. solve_decision. Defined.

Definition RCString (rc : RetCode) : list byte :=
  match rc with
  | SUCCESS => bs "Success"
  | BAD_ARG => bs "Invalid Argument"
  | IO_ERROR => bs "I/O Error"
  | BAD_DEV_RESP => bs "Invalid Device Response"
  | DEVICE_FAIL => bs "Device Error"
  | TIMEOUT => bs "Timeout"
  end.

Definition RESP_TIMEOUT : Z := 30.
Definition MAX_DOWNLOAD_SIZE : Z := 2 ^ 32 - 1.
Definition TRANSPORT_CHUNK_SIZE : Z := 1024.
Definition FB_COMMAND_SZ : Z := 4096.
Definition FB_RESPONSE_SZ : Z := 256.

(** Calls of [prolog_], [epilog_], [info_] and [text_]. *)
Inductive ui_call : Type :=
| Prolog (message : list byte)
| Epilog (rc : RetCode)
| Info (message : list byte)
| Text (message : list byte).

Record reply : Type := mk_reply {
  rc : RetCode;
  response : option (list byte);
  infos : list (list byte);
  dsize : option Z
}.

(** The results of two calls with the same out parameters. *)
Definition also (r1 r2 : reply) : reply :=
  mk_reply (rc r2)
    (match response r2 with Some s => Some s | None => response r1 end)
    (infos r1 ++ infos r2)
    (match dsize r2 with Some n => Some n | None => dsize r1 end).

Definition with_rc (c : RetCode) (r : reply) : reply :=
  mk_reply c (response r) (infos r) (dsize r).

Definition no_reply (c : RetCode) : reply := mk_reply c None [] None.

Module FastBootDriver.
Section driver.
Context {T : Type} `{Transport T}.

Record driver : Type := mk_driver {
  transport_ : T;
  error_ : list byte;
  disable_checks_ : bool;
  ui : list ui_call
}.

Definition on_transport {A} (m : M T A) : M driver A := fun d =>
  '(a, t) ← m (transport_ d); Ret (a, mk_driver t (error_ d) (disable_checks_ d) (ui d)).

Definition set_error (e : list byte) : M driver unit :=
  modify (fun d => mk_driver (transport_ d) e (disable_checks_ d) (ui d)).
Definition call (c : ui_call) : M driver unit :=
  modify (fun d => mk_driver (transport_ d) (error_ d) (disable_checks_ d) (ui d ++ [c])).

Definition ErrnoStr (msg : list byte) : M driver (list byte) := fun d =>
  Ret (msg ++ bs " (" ++ tr_strerror (transport_ d) ++ bs ")", d).

(** The body of the loop of [HandleResponse] for the string [input]; [None]
    means that the loop goes on. *)
Definition handle_status (input : list byte) (infos : list (list byte))
    : M driver (option reply * list (list byte)) :=
  if StartsWith input (bs "INFO") then
    let tmp := zdrop 4 input in
    _ ← call (Info tmp);
    mret (None, infos ++ [tmp])
  else if StartsWith input (bs "OKAY") then
    mret (Some (mk_reply SUCCESS (Some (zdrop 4 input)) infos None), infos)
  else if StartsWith input (bs "FAIL") then
    _ ← set_error (bs "remote: '" ++ zdrop 4 input ++ bs "'");
    mret (Some (mk_reply DEVICE_FAIL (Some (zdrop 4 input)) infos None), infos)
  else if StartsWith input (bs "TEXT") then
    _ ← call (Text (zdrop 4 input));
    mret (None, infos)
  else if StartsWith input (bs "DATA") then
    let tmp := zdrop 4 input in
    let num := u32 (st_val (strtol tmp 16)) in
    if MAX_DOWNLOAD_SIZE <? num then
      _ ← set_error (bs "Data size too large (" ++ fmt_d (i32 num) ++ bs ")");
      mret (Some (mk_reply BAD_DEV_RESP (Some []) infos None), infos)
    else mret (Some (mk_reply SUCCESS (Some tmp) infos (Some (i32 num))), infos)
  else
    _ ← set_error (bs "Device sent unknown status code: " ++ input);
    mret (Some (mk_reply BAD_DEV_RESP (Some []) infos None), infos).

(** The loop of [HandleResponse].  [status] has room for [FB_RESPONSE_SZ + 1]
    bytes; storing the terminator beyond that is out of bounds. *)
Fixpoint HandleResponse_loop (fuel : nat) (start : Z) (infos : list (list byte)) : M driver reply :=
  match fuel with
  | O => out_of_fuel
  | S fuel =>
      now ← on_transport tr_now;
      if now - start <? RESP_TIMEOUT * 1000000000 then
        r ← on_transport (tr_Read FB_RESPONSE_SZ);
        match r with
        | None =>
            e ← ErrnoStr (bs "Status read failed");
            _ ← set_error e;
            mret (mk_reply IO_ERROR (Some []) infos None)
        | Some status =>
            _ ← m_assert (zlen status <=? FB_RESPONSE_SZ);
            r ← handle_status (c_str status) infos;
            match r with
            | (Some result, _) => mret result
            | (None, infos) =>
                start ← on_transport tr_now;
                HandleResponse_loop fuel start infos
            end
        end
      else mret (mk_reply TIMEOUT (Some []) infos None)
  end.

Definition HandleResponse (fuel : nat) : M driver reply :=
  start ← on_transport tr_now;
  HandleResponse_loop fuel start [].

(** [RawCommand(cmd, response, info, dsize)] *)
Definition RawCommand (fuel : nat) (cmd : list byte) : M driver reply :=
  _ ← set_error [];
  d ← get;
  if (FB_COMMAND_SZ <? zlen cmd) && negb (disable_checks_ d) then
    _ ← set_error (bs "Command length to RawCommand() is too long");
    mret (no_reply BAD_ARG)
  else
    w ← on_transport (tr_Write cmd);
    if negb (w =? i32 (zlen cmd)) then
      e ← ErrnoStr (bs "Write to device failed");
      _ ← set_error e;
      mret (no_reply IO_ERROR)
    else HandleResponse fuel.

(** [RawCommand(cmd, message, ...)] *)
Definition RawCommandMessage (fuel : nat) (cmd message : list byte) : M driver reply :=
  _ ← call (Prolog message);
  result ← RawCommand fuel cmd;
  _ ← call (Epilog (rc result));
  mret result.

Definition Boot (fuel : nat) := RawCommandMessage fuel (bs "boot") (bs "Booting").
Definition Continue (fuel : nat) := RawCommandMessage fuel (bs "continue") (bs "Resuming boot").
Definition CreatePartition (fuel : nat) (partition size : list byte) :=
  RawCommandMessage fuel (bs "create-logical-partition:" ++ partition ++ bs ":" ++ size)
    (bs "Creating '" ++ partition ++ bs "'").
Definition DeletePartition (fuel : nat) (partition : list byte) :=
  RawCommandMessage fuel (bs "delete-logical-partition:" ++ partition)
    (bs "Deleting '" ++ partition ++ bs "'").
Definition Erase (fuel : nat) (partition : list byte) :=
  RawCommandMessage fuel (bs "erase:" ++ partition) (bs "Erasing '" ++ partition ++ bs "'").
Definition Flash (fuel : nat) (partition : list byte) :=
  RawCommandMessage fuel (bs "flash:" ++ partition) (bs "Writing '" ++ partition ++ bs "'").
Definition GetVar (fuel : nat) (key : list byte) := RawCommand fuel (bs "getvar:" ++ key).
Definition GetVarAll (fuel : nat) := GetVar fuel (bs "all").
Definition Reboot (fuel : nat) := RawCommandMessage fuel (bs "reboot") (bs "Rebooting").
Definition RebootTo (fuel : nat) (target : list byte) :=
  RawCommandMessage fuel (bs "reboot-" ++ target) (bs "Rebooting into " ++ target).
Definition ResizePartition (fuel : nat) (partition size : list byte) :=
  RawCommandMessage fuel (bs "resize-logical-partition:" ++ partition ++ bs ":" ++ size)
    (bs "Resizing '" ++ partition ++ bs "'").
Definition SetActive (fuel : nat) (slot : list byte) :=
  RawCommandMessage fuel (bs "set_active:" ++ slot) (bs "Setting current slot to '" ++ slot ++ bs "'").
Definition SnapshotUpdateCommand (fuel : nat) (command : list byte) : M driver reply :=
  _ ← call (Prolog (bs "Snapshot " ++ command));
  result ← RawCommand fuel (bs "snapshot-update:" ++ command);
  _ ← call (Epilog (rc result));
  mret result.

Definition WaitForDisconnect : M driver RetCode :=
  r ← on_transport tr_WaitForDisconnect;
  mret (if r =? 0 then SUCCESS else IO_ERROR).

(** ** [Partitions] *)

Definition is_word (b : byte) : bool :=
  isdigit b || ((97 <=? b2z b) && (b2z b <=? 122)) || ((65 <=? b2z b) && (b2z b <=? 90)) || (b2z b =? 95).

Fixpoint span (f : byte → bool) (l : list byte) : list byte * list byte :=
  match l with
  | b :: l' => if f b then let '(x, y) := span f l' in (b :: x, y) else ([], l)
  | [] => ([], [])
  end.

Definition expect (p l : list byte) : option (list byte) :=
  if StartsWith l p then Some (zdrop (zlen p) l) else None.

(** [std::regex_match] with
    ["partition-size[[:s:]]*:[[:s:]]*([[:w:]]+)[[:s:]]*:[[:s:]]*0x([[:xdigit:]]+)"];
    the classes of neighbouring parts are disjoint, so there is one way to
    match. *)
Definition match_partition_size (s : list byte) : option (list byte * list byte) :=
  s ← expect (bs "partition-size") s;
  s ← expect (bs ":") (skip_space s);
  let '(m1, s) := span is_word (skip_space s) in
  s ← (if zlen m1 =? 0 then None else expect (bs ":") (skip_space s));
  s ← expect (bs "0x") (skip_space s);
  let '(m2, s) := span (fun b => bool_decide (is_Some (digit_val 16 b))) s in
  if (zlen m2 =? 0) || negb (zlen s =? 0) then None else Some (m1, m2).

Definition partition_of (s : list byte) : option (list byte * Z) :=
  '(m1, m2) ← match_partition_size s; Some (m1, u64 (st_val (strtoll m2 16))).

(** The result code and what is appended to [*partitions]. *)
Definition Partitions (fuel : nat) : M driver (RetCode * list (list byte * Z)) :=
  r ← GetVarAll fuel;
  if bool_decide (rc r = SUCCESS)
  then mret (SUCCESS, omap partition_of (infos r))
  else mret (rc r, []).

(** ** Sending and receiving data *)

(** [SendBuffer(const void*, size_t)], which [SendBuffer(const std::vector&)]
    calls. *)
Definition SendBuffer (buf : list byte) : M driver RetCode :=
  if zlen buf =? 0 then mret BAD_ARG
  else
    tmp ← on_transport (tr_Write buf);
    if tmp <? 0 then
      e ← ErrnoStr (bs "Write to device failed in SendBuffer()");
      _ ← set_error e;
      mret IO_ERROR
    else if negb (tmp =? zlen buf) then
      _ ← set_error (bs "Failed to write all " ++ fmt_u (zlen buf) ++ bs " bytes");
      mret IO_ERROR
    else mret SUCCESS.

Definition MAX_MAP_SIZE : Z := 512 * 1024 * 1024.

(** [SendBuffer(fd, size)]; [map_fd offset len] is [MappedFile::FromFd].
    [remaining] has 32 bits, so 9 iterations are enough. *)
Fixpoint SendBufferFd_loop (map_fd : Z → Z → option (list byte)) (fuel : nat) (offset remaining : Z)
    : M driver RetCode :=
  if remaining =? 0 then mret SUCCESS
  else
    match fuel with
    | O => out_of_fuel
    | S fuel =>
        let len := Z.min remaining MAX_MAP_SIZE in
        match map_fd offset len with
        | None =>
            _ ← set_error (bs "Creating filemap failed");
            mret IO_ERROR
        | Some mapping =>
            ret ← SendBuffer mapping;
            if bool_decide (ret = SUCCESS)
            then SendBufferFd_loop map_fd fuel (offset + len) (remaining - len)
            else mret ret
        end
    end.

Definition SendBufferFd (map_fd : Z → Z → option (list byte)) (size : Z) : M driver RetCode :=
  SendBufferFd_loop map_fd 9 0 (u32 size).

(** [ReadBuffer]: the bytes read with the code [SUCCESS]. *)
Definition ReadBuffer (size : Z) : M driver (RetCode * list byte) :=
  tmp ← on_transport (tr_Read size);
  match tmp with
  | None =>
      e ← ErrnoStr (bs "Read from device failed in ReadBuffer()");
      _ ← set_error e;
      mret (IO_ERROR, [])
  | Some data =>
      if negb (zlen data =? size) then
        _ ← set_error (bs "Failed to read all " ++ fmt_u size ++ bs " bytes");
        mret (IO_ERROR, [])
      else mret (SUCCESS, data)
  end.

(** ** Downloads *)

Definition DownloadCommand (fuel : nat) (size : Z) : M driver reply :=
  RawCommand fuel (bs "download:" ++ fmt_08x size).

(** Runs [m] when the last call succeeded, the common shape of the downloads. *)
Definition if_ok (r : reply) (m : M driver reply) : M driver reply :=
  if bool_decide (rc r = SUCCESS) then r2 ← m; mret (also r r2) else mret r.

(** [Download(fd, size, ...)] *)
Definition DownloadFd (fuel : nat) (map_fd : Z → Z → option (list byte)) (size : Z) : M driver reply :=
  d ← get;
  if ((size <=? 0) || (MAX_DOWNLOAD_SIZE <? size)) && negb (disable_checks_ d) then
    _ ← set_error (bs "File is too large to download");
    mret (no_reply BAD_ARG)
  else
    let u32size := u32 size in
    r ← DownloadCommand fuel u32size;
    if_ok r
      (ret ← SendBufferFd map_fd size;
       if_ok (no_reply ret) (HandleResponse fuel)).

(** [Download(buf, ...)] *)
Definition Download (fuel : nat) (buf : list byte) : M driver reply :=
  _ ← set_error [];
  d ← get;
  if ((zlen buf =? 0) || (MAX_DOWNLOAD_SIZE <? zlen buf)) && negb (disable_checks_ d) then
    _ ← set_error (bs "Buffer is too large or 0 bytes");
    mret (no_reply BAD_ARG)
  else
    r ← DownloadCommand fuel (u32 (zlen buf));
    if_ok r
      (ret ← SendBuffer buf;
       if_ok (no_reply ret) (HandleResponse fuel)).

(** The state of the callback of a sparse download: [SparseCBPrivate]. *)
Definition cb_state : Type := driver * list byte.

Definition on_driver {A} (m : M driver A) : M cb_state A := fun s =>
  '(a, d) ← m s.1; Ret (a, (d, s.2)).

(** [SparseWriteCallback(tpbuf, data, len)]; [size_t] arithmetic. *)
Definition SparseWriteCallback (data : list byte) : M cb_state Z := fun s =>
  let len := zlen data in
  let to_write := Z.min (u64 (TRANSPORT_CHUNK_SIZE - zlen s.2)) len in
  let s := (s.1, s.2 ++ ztake to_write data) in
  if zlen s.2 <? TRANSPORT_CHUNK_SIZE then Ret (0, s)
  else
    '(ret, s) ← on_driver (SendBuffer s.2) s;
    if negb (bool_decide (ret = SUCCESS)) then
      '(e, s) ← on_driver (ErrnoStr (bs "Send failed in SparseWriteCallback()")) s;
      '(_, s) ← on_driver (set_error e) s;
      Ret (-1, s)
    else
      let s := (s.1, []) in
      let total := to_write in
      let nchunks := (len - total) / TRANSPORT_CHUNK_SIZE in
      let nbytes := TRANSPORT_CHUNK_SIZE * nchunks in
      '(ret, s) ← (if nbytes =? 0 then Ret (SUCCESS, s)
                   else on_driver (SendBuffer (ztake nbytes (zdrop total data))) s);
      if negb (bool_decide (ret = SUCCESS)) then
        '(e, s) ← on_driver (ErrnoStr (bs "Send failed in SparseWriteCallback()")) s;
        '(_, s) ← on_driver (set_error e) s;
        Ret (-1, s)
      else
        let total := total + nbytes in
        Ret (0, (s.1, if 0 <? len - total then zdrop total data else s.2)).

(** The lambda [cb]; a null pointer would be read by [tpbuf.insert]. *)
Definition sparse_cb (data : option (list byte)) (len : Z) : M cb_state Z :=
  match data with
  | Some d => SparseWriteCallback d
  | None => fun _ => AssertFail
  end.

(** [Download(sparse_file *s, use_crc, ...)] over libsparse, whose own parameters
    come first. *)
Definition DownloadSparse (map_fd : Z → Z → Z → option (list byte)) (open_file : string → Z)
    (uninit : Z) (fuel : nat) (s : sparse_file) (use_crc : bool) : M driver reply :=
  _ ← set_error [];
  size ← lift (sparse_file_len map_fd open_file uninit s true use_crc);
  if (size <=? 0) || (MAX_DOWNLOAD_SIZE <? size) then
    _ ← set_error (bs "Sparse file is too large or invalid");
    mret (no_reply BAD_ARG)
  else
    let u32size := u32 size in
    r ← DownloadCommand fuel u32size;
    if_ok r
      (d ← get;
       '(ret, (d, tpbuf)) ←
         lift (sparse_file_callback map_fd open_file uninit s true use_crc sparse_cb (d, []));
       _ ← put d;
       if ret <? 0 then
         _ ← set_error (bs "Error reading sparse file");
         mret (no_reply IO_ERROR)
       else
         ret ← (if zlen tpbuf =? 0 then mret SUCCESS else SendBuffer tpbuf);
         if_ok (no_reply ret) (HandleResponse fuel)).

(** The [Download]s that also tell the user interface. *)
Definition with_messages (message : list byte) (m : M driver reply) : M driver reply :=
  _ ← call (Prolog message);
  result ← m;
  _ ← call (Epilog (rc result));
  mret result.

Definition DownloadFdNamed (fuel : nat) (name : list byte) (map_fd : Z → Z → option (list byte))
    (size : Z) : M driver reply :=
  with_messages (bs "Sending '" ++ name ++ bs "' (" ++ fmt_u (size / 1024) ++ bs " KB)")
    (DownloadFd fuel map_fd size).

Definition DownloadNamed (fuel : nat) (name buf : list byte) : M driver reply :=
  with_messages (bs "Sending '" ++ name ++ bs "' (" ++ fmt_u (zlen buf / 1024) ++ bs " KB)")
    (Download fuel buf).

Definition DownloadSparseNamed (map_fd : Z → Z → Z → option (list byte)) (open_file : string → Z)
    (uninit : Z) (fuel : nat) (partition : list byte) (s : sparse_file) (size current total : Z)
    (use_crc : bool) : M driver reply :=
  with_messages (bs "Sending sparse '" ++ partition ++ bs "' " ++ fmt_u current ++ bs "/" ++ fmt_u total
                 ++ bs " (" ++ fmt_u (size / 1024) ++ bs " KB)")
    (DownloadSparse map_fd open_file uninit fuel s use_crc).

(** The three [FlashPartition]s: a download, then [Flash]. *)
Definition then_flash (fuel : nat) (partition : list byte) (m : M driver reply) : M driver RetCode :=
  r ← m;
  if bool_decide (rc r = SUCCESS) then r ← Flash fuel partition; mret (rc r) else mret (rc r).

Definition FlashPartition (fuel : nat) (partition data : list byte) : M driver RetCode :=
  then_flash fuel partition (DownloadNamed fuel partition data).
Definition FlashPartitionFd (fuel : nat) (partition : list byte) (map_fd : Z → Z → option (list byte))
    (size : Z) : M driver RetCode :=
  then_flash fuel partition (DownloadFdNamed fuel partition map_fd size).
Definition FlashPartitionSparse (map_fd : Z → Z → Z → option (list byte)) (open_file : string → Z)
    (uninit : Z) (fuel : nat) (partition : list byte) (s : sparse_file) (size current total : Z)
    : M driver RetCode :=
  then_flash fuel partition
    (DownloadSparseNamed map_fd open_file uninit fuel partition s size current total false).

(** ** Uploads *)

Section read_buffer.
(** The state [write_fn] writes to; [write_fn] reports success, otherwise
    [write_error] is its message. *)
Context {P : Type} (write_fn : list byte → P → bool * P) (write_error : P → list byte).

Definition kMiB : Z := 1024 * 1024.

Fixpoint read_loop (fuel : nat) (total_size current_offset : Z) (p : P) : M driver (RetCode * P) :=
  if current_offset <? total_size then
    match fuel with
    | O => out_of_fuel
    | S fuel =>
        let buf_size := Z.min total_size kMiB in
        let chunk_size := Z.min buf_size (total_size - current_offset) in
        '(ret, data) ← ReadBuffer chunk_size;
        if negb (bool_decide (ret = SUCCESS)) then mret (ret, p)
        else
          let '(ok, p) := write_fn data p in
          if ok then read_loop fuel total_size (current_offset + chunk_size) p
          else
            _ ← set_error (write_error p);
            mret (IO_ERROR, p)
    end
  else mret (SUCCESS, p).

(** [dsize] is an [int] and at most 2^31-1, so 2048 chunks are enough. *)
Definition RunAndReadBuffer (fuel : nat) (cmd : list byte) (p : P) : M driver (reply * P) :=
  r ← RawCommand fuel cmd;
  if negb (bool_decide (rc r = SUCCESS)) then
    d ← get;
    _ ← set_error (cmd ++ bs " request failed: " ++ error_ d);
    mret (r, p)
  else
    let n := default 0 (dsize r) in
    if n <=? 0 then
      _ ← set_error (cmd ++ bs " request failed, device reports " ++ fmt_d n ++ bs " bytes available");
      mret (with_rc BAD_DEV_RESP r, p)
    else
      '(ret, p) ← read_loop 2048 n 0 p;
      if negb (bool_decide (ret = SUCCESS)) then mret (with_rc ret r, p)
      else
        r2 ← HandleResponse fuel;
        mret (also r r2, p).
End read_buffer.

(** [UploadInner] and [Upload]; [fs] is the output file once it could be opened,
    [ofs_write] what [ofs.write] does to it and whether the stream is good. *)
Definition UploadInner {P} (ofs_write : list byte → P → bool * P) (fuel : nat) (outfile : list byte)
    (fs : option P) : M driver (reply * option P) :=
  match fs with
  | None =>
      _ ← set_error (bs "Failed to open '" ++ outfile ++ bs "'");
      mret (no_reply IO_ERROR, None)
  | Some p =>
      '(r, p) ← RunAndReadBuffer ofs_write (fun _ => bs "Writing to '" ++ outfile ++ bs "' failed")
                  fuel (bs "upload") p;
      mret (r, Some p)
  end.

Definition Upload {P} (ofs_write : list byte → P → bool * P) (fuel : nat) (outfile : list byte)
    (fs : option P) : M driver (reply * option P) :=
  _ ← call (Prolog (bs "Uploading '" ++ outfile ++ bs "'"));
  '(r, fs) ← UploadInner ofs_write fuel outfile fs;
  _ ← call (Epilog (rc r));
  mret (r, fs).

(** [FetchToFd]; [write_fully] is [android::base::WriteFully] on the descriptor,
    [errno_str] the message of its error. *)
Definition fetch_command (partition : list byte) (offset size : Z) : list byte :=
  bs "fetch:" ++ partition ++
  (if 0 <=? offset then
     bs ":0x" ++ fmt_08x offset ++ (if 0 <=? size then bs ":0x" ++ fmt_08x size else [])
   else []).

Definition FetchToFd {P} (write_fully : list byte → P → bool * P) (errno_str : P → list byte)
    (fuel : nat) (partition : list byte) (offset size : Z) (p : P) : M driver (reply * P) :=
  _ ← call (Prolog (bs "Fetching " ++ partition ++ bs " (offset=" ++ fmt_x (u64 offset)
                    ++ bs ", size=" ++ fmt_x (u64 size) ++ bs ")"));
  '(r, p) ← RunAndReadBuffer write_fully (fun p => bs "Cannot write: " ++ errno_str p)
              fuel (fetch_command partition offset size) p;
  _ ← call (Epilog (rc r));
  mret (r, p).

End driver.
Arguments driver : clear implicits.

End FastBootDriver.
