(* ===== verification/DriverFacts.v ===== *)
(** Correctness of the fastboot driver over a transport that carries messages:
    responses are interpreted as the protocol says, downloads announce and send
    exactly their bytes (for a sparse file: its sparse image), and uploads store
    exactly what the device sends. *)

From Stdlib Require Import Strings.String.
From S2P Require Import Prelude LibBase BackedBlock SparseFormat OutputFile Sparse SparseFacts Driver.
Import FastBootDriver.
Open Scope Z_scope.

(** ** A transport that carries messages

    [inbox] are the messages of the device that are still to be read; a message
    that does not fit is read in parts.  [stream] is what the host has written,
    [odd_writes] how many of its writes were no multiple of the chunk size. *)
Record wire : Type := mk_wire {
  inbox : list (list byte);
  stream : list byte;
  odd_writes : Z;
  clock : Z
}.

Definition wire_read (n : Z) : M wire (option (list byte)) := fun w =>
  match inbox w with
  | [] => Ret (None, w)
  | m :: rest =>
      if zlen m <=? n then Ret (Some m, mk_wire rest (stream w) (odd_writes w) (clock w))
      else Ret (Some (ztake n m), mk_wire (zdrop n m :: rest) (stream w) (odd_writes w) (clock w))
  end.

Definition odd (n : Z) : Z := if n mod TRANSPORT_CHUNK_SIZE =? 0 then 0 else 1.

Definition wire_write (data : list byte) : M wire Z := fun w =>
  Ret (zlen data, mk_wire (inbox w) (stream w ++ data) (odd_writes w + odd (zlen data)) (clock w)).

#[export] Instance wire_transport : Transport wire := {|
  tr_Read := wire_read;
  tr_Write := wire_write;
  tr_WaitForDisconnect w := Ret (0, w);
  tr_now w := Ret (clock w, w);
  tr_strerror _ := []
|}.

(** ** Responses *)

(** What the device may send before the response proper. *)
Inductive note : Type := NInfo (s : list byte) | NText (s : list byte).
Definition note_message (n : note) : list byte :=
  match n with NInfo s => bs "INFO" ++ s | NText s => bs "TEXT" ++ s end.
Definition note_call (n : note) : ui_call :=
  match n with NInfo s => Info s | NText s => Text s end.
Definition note_info (n : note) : option (list byte) :=
  match n with NInfo s => Some s | NText s => None end.

(** The response proper. *)
Inductive final : Type := FOkay (s : list byte) | FFail (s : list byte) | FData (n : Z).
Definition final_message (f : final) : list byte :=
  match f with
  | FOkay s => bs "OKAY" ++ s
  | FFail s => bs "FAIL" ++ s
  | FData n => bs "DATA" ++ fmt_08x n
  end.

(** A message the response buffer holds and that is a C string. *)
Definition message_ok (m : list byte) : Prop := zlen m ≤ FB_RESPONSE_SZ ∧ c_str m = m.

(** What [HandleResponse] returns for it; [*dsize] is an [int], which is the
    announced number below 2^31 and that number less 2^32 above. *)
Definition final_reply (notes : list note) (f : final) : reply :=
  let infos := omap note_info notes in
  match f with
  | FOkay s => mk_reply SUCCESS (Some s) infos None
  | FFail s => mk_reply DEVICE_FAIL (Some s) infos None
  | FData n => mk_reply SUCCESS (Some (fmt_08x n)) infos (Some (i32 n))
  end.

Definition final_error (f : final) (error : list byte) : list byte :=
  match f with FFail s => bs "remote: '" ++ s ++ bs "'" | _ => error end.

(** The protocol announces sizes in eight hexadecimal digits. *)
Definition final_ok (f : final) : Prop :=
  match f with FData n => 0 ≤ n < 2 ^ 32 | _ => True end.

(** A driver with the messages of its transport and its log replaced. *)
Definition moved (d : driver wire) (msgs : list (list byte)) (e : list byte) (calls : list ui_call)
    : driver wire :=
  mk_driver (mk_wire msgs (stream (transport_ d)) (odd_writes (transport_ d)) (clock (transport_ d)))
    e (disable_checks_ d) (ui d ++ calls).

Lemma StartsWith_app p s : StartsWith (p ++ s) p = true.
Proof. unfold StartsWith. apply bool_decide_eq_true_2. by apply ztake_app_exact. Qed.

Lemma StartsWith_other (p q s : list byte) :
  zlen p = zlen q → p ≠ q → StartsWith (p ++ s) q = false.
Proof.
  intros Hl Hne. unfold StartsWith. apply bool_decide_eq_false_2.
  rewrite ztake_app_exact by done. done.
Qed.

Lemma zdrop_prefix (p s : list byte) : zdrop (zlen p) (p ++ s) = s.
Proof. by apply zdrop_app_exact. Qed.

Ltac status_tests :=
  repeat first
    [ rewrite StartsWith_app
    | rewrite StartsWith_other by (reflexivity || discriminate) ].

Lemma handle_note (d : driver wire) n infos :
  handle_status (note_message n) infos d
  = Ret ((None, infos ++ omap note_info [n]),
         moved d (inbox (transport_ d)) (error_ d) [note_call n]).
Proof.
  destruct d as [[ib st ow ck] e dc u].
  destruct n as [s|s]; cbn [note_message]; unfold handle_status; status_tests; mred.
  - by rewrite (zdrop_prefix (bs "INFO")).
  - rewrite (zdrop_prefix (bs "TEXT")). cbn [omap list_omap note_info]. by rewrite app_nil_r.
Qed.

Lemma handle_final (d : driver wire) f infos : final_ok f →
  ∃ r, handle_status (final_message f) infos d
  = Ret ((Some r, infos), moved d (inbox (transport_ d)) (final_error f (error_ d)) []) ∧
    rc r = rc (final_reply [] f) ∧ response r = response (final_reply [] f) ∧
    dsize r = dsize (final_reply [] f) ∧ Driver.infos r = infos.
Proof.
  destruct d as [[ib st ow ck] e dc u]. unfold moved. cbn [ui]. rewrite app_nil_r.
  destruct f as [s|s|n]; intros Hf; cbn [final_message]; unfold handle_status; status_tests; mred.
  - rewrite (zdrop_prefix (bs "OKAY")). eexists. split; [reflexivity|done].
  - rewrite (zdrop_prefix (bs "FAIL")). eexists. split; [reflexivity|done].
  - rewrite (zdrop_prefix (bs "DATA")). cbn [final_ok] in Hf. unfold strtol.
    rewrite strtoll_fmt_08x by lia. cbn [st_val]. rewrite u32_small by lia.
    unfold MAX_DOWNLOAD_SIZE. destruct (Z.ltb_spec (2 ^ 32 - 1) n); [lia|].
    eexists. split; [reflexivity|done].
Qed.

Lemma wire_read_small n w m rest : inbox w = m :: rest → zlen m ≤ n →
  wire_read n w = Ret (Some m, mk_wire rest (stream w) (odd_writes w) (clock w)).
Proof. intros Hi Hn. unfold wire_read. rewrite Hi. by destruct (Z.leb_spec (zlen m) n); [|lia]. Qed.

Lemma driver_eta (d : driver wire) :
  mk_driver (transport_ d) (error_ d) (disable_checks_ d) (ui d) = d.
Proof. by destruct d. Qed.

(** One iteration of the loop on a message that arrives in time. *)
Lemma HandleResponse_step fuel infos m rest (d : driver wire) :
  inbox (transport_ d) = m :: rest → message_ok m →
  HandleResponse_loop (S fuel) (clock (transport_ d)) infos d
  = match handle_status m infos (moved d rest (error_ d) []) with
    | Ret ((Some result, _), d') => Ret (result, d')
    | Ret ((None, infos'), d') => HandleResponse_loop fuel (clock (transport_ d')) infos' d'
    | AssertFail => AssertFail
    | OutOfFuel => OutOfFuel
    end.
Proof.
  intros Hin [Hl Hc]. cbn [HandleResponse_loop]. unfold on_transport. mred.
  cbn [tr_now wire_transport]. rewrite driver_eta, Z.sub_diag.
  change (0 <? RESP_TIMEOUT * 1000000000) with true. cbv iota. cbn [tr_Read].
  rewrite (wire_read_small _ _ m rest) by done. cbv beta iota.
  destruct (Z.leb_spec (zlen m) FB_RESPONSE_SZ); [|lia]. rewrite Hc. unfold moved at 1.
  rewrite app_nil_r.
  destruct (handle_status m infos _) as [[[[result|] infos'] d']| |]; try done.
  cbv beta iota. by rewrite driver_eta.
Qed.

Lemma HandleResponse_loop_spec notes f rest : ∀ fuel infos (d : driver wire),
  inbox (transport_ d) = (note_message <$> notes) ++ final_message f :: rest →
  Forall message_ok ((note_message <$> notes) ++ [final_message f]) → final_ok f →
  (length notes < fuel)%nat →
  HandleResponse_loop fuel (clock (transport_ d)) infos d
  = Ret (mk_reply (rc (final_reply [] f)) (response (final_reply [] f)) (infos ++ omap note_info notes)
           (dsize (final_reply [] f)),
         moved d rest (final_error f (error_ d)) (note_call <$> notes)).
Proof.
  induction notes as [|n notes IH]; intros fuel infos d Hin Hok Hf Hfuel;
    (destruct fuel as [|fuel]; [lia|]); apply Forall_cons in Hok as [Hm Hok];
    rewrite (HandleResponse_step fuel infos _ _ d Hin Hm).
  - destruct (handle_final (moved d rest (error_ d) []) f infos Hf) as (r & -> & H1 & H2 & H3 & H4).
    rewrite app_nil_r. destruct r. cbn in H1, H2, H3, H4. subst. unfold moved. cbn [ui].
    by rewrite !app_nil_r.
  - rewrite handle_note. rewrite IH; [|done|done|done|simpl in Hfuel; lia].
    unfold moved. cbn [transport_ stream odd_writes clock error_ disable_checks_ ui inbox].
    rewrite <- !app_assoc. by destruct n.
Qed.

(** [HandleResponse] reads the notes and the response, and tells the user
    interface about the notes. *)
Lemma HandleResponse_spec notes f rest fuel (d : driver wire) :
  inbox (transport_ d) = (note_message <$> notes) ++ final_message f :: rest →
  Forall message_ok ((note_message <$> notes) ++ [final_message f]) → final_ok f →
  (length notes < fuel)%nat →
  HandleResponse fuel d
  = Ret (final_reply notes f, moved d rest (final_error f (error_ d)) (note_call <$> notes)).
Proof.
  intros Hin Hok Hf Hfuel. unfold HandleResponse, on_transport. mred.
  cbn [tr_now wire_transport]. rewrite driver_eta.
  rewrite (HandleResponse_loop_spec notes f rest) by done.
  by destruct f.
Qed.

(** ** Writing *)

(** The driver after [data] was written in one piece. *)
Definition written (d : driver wire) (data e : list byte) : driver wire :=
  mk_driver (mk_wire (inbox (transport_ d)) (stream (transport_ d) ++ data)
               (odd_writes (transport_ d) + odd (zlen data)) (clock (transport_ d)))
    e (disable_checks_ d) (ui d).

Lemma SendBuffer_spec (d : driver wire) data : data ≠ [] →
  SendBuffer data d = Ret (SUCCESS, written d data (error_ d)).
Proof.
  intros Hne. unfold SendBuffer, on_transport.
  assert (0 < zlen data) as Hpos.
  { destruct data as [|x l]; [done|]. rewrite zlen_cons. pose proof (zlen_nonneg l). lia. }
  destruct (Z.eqb_spec (zlen data) 0); [lia|]. mred. cbn [tr_Write wire_transport].
  unfold wire_write. cbv beta iota. destruct (Z.ltb_spec (zlen data) 0); [lia|].
  rewrite Z.eqb_refl. done.
Qed.

Lemma RawCommand_spec notes f rest fuel cmd (d : driver wire) :
  zlen cmd ≤ FB_COMMAND_SZ →
  inbox (transport_ d) = (note_message <$> notes) ++ final_message f :: rest →
  Forall message_ok ((note_message <$> notes) ++ [final_message f]) → final_ok f →
  (length notes < fuel)%nat →
  RawCommand fuel cmd d
  = Ret (final_reply notes f,
         moved (written d cmd []) rest (final_error f []) (note_call <$> notes)).
Proof.
  intros Hc Hin Hok Hf Hfuel. unfold RawCommand, set_error, on_transport. mred.
  cbn [disable_checks_ transport_ error_ ui].
  destruct (Z.ltb_spec FB_COMMAND_SZ (zlen cmd)); [lia|]. cbn [andb].
  cbn [tr_Write wire_transport]. unfold wire_write. mred. unfold FB_COMMAND_SZ in *.
  pose proof (zlen_nonneg cmd). rewrite i32_small, Z.eqb_refl by lia.
  by rewrite (HandleResponse_spec notes f rest).
Qed.

Lemma zlen_show_base16 n : ∀ z acc k, 0 ≤ z < 16 ^ Z.of_nat k → (0 < k)%nat →
  zlen (show_base n 16 z acc) ≤ Z.of_nat k + zlen acc.
Proof.
  induction n as [|n IH]; intros z acc k Hz Hk; cbn [show_base]; [lia|].
  destruct (Z.eqb_spec (z / 16) 0) as [|Hne].
  - rewrite zlen_cons. lia.
  - destruct k as [|[|k]]; [lia| |].
    { change (16 ^ Z.of_nat 1) with 16 in Hz. rewrite Z.div_small in Hne by lia. done. }
    etransitivity; [apply (IH _ _ (S k))|].
    + split; [apply Z.div_pos; lia|]. apply Z.div_lt_upper_bound; [lia|].
      rewrite <- Z.pow_succ_r by lia. rewrite <- Nat2Z.inj_succ. lia.
    + lia.
    + rewrite zlen_cons. lia.
Qed.

Lemma zlen_fmt_08x z : 0 ≤ z < 2 ^ 32 → zlen (fmt_08x z) = 8.
Proof.
  intros Hz. unfold fmt_08x, pad_left. rewrite zlen_app.
  pose proof (zlen_show_base16 16 z [] 8 ltac:(change (16 ^ Z.of_nat 8) with (2 ^ 32); lia) ltac:(lia)) as H8.
  change (zlen []) with 0 in H8. pose proof (zlen_nonneg (show_base 16 16 z [])).
  unfold zlen at 1. rewrite length_replicate. lia.
Qed.

Lemma zlen_download_command z : 0 ≤ z < 2 ^ 32 → zlen (bs "download:" ++ fmt_08x z) = 17.
Proof. intros. rewrite zlen_app, zlen_fmt_08x by done. done. Qed.

(** ** The buffering of a sparse download *)

(** What [SparseWriteCallback] makes of its state: whole chunks go out, the rest
    stays in [tpbuf]. *)
Definition chunked (n : Z) : Z := TRANSPORT_CHUNK_SIZE * (n / TRANSPORT_CHUNK_SIZE).

Definition cb_emit (s : cb_state) (data : list byte) : cb_state :=
  let all := s.2 ++ data in
  (mk_driver (mk_wire (inbox (transport_ s.1)) (stream (transport_ s.1) ++ ztake (chunked (zlen all)) all)
                (odd_writes (transport_ s.1)) (clock (transport_ s.1)))
     (error_ s.1) (disable_checks_ s.1) (ui s.1),
   zdrop (chunked (zlen all)) all).

Lemma odd_le n : 0 ≤ odd n ≤ 1.
Proof. unfold odd. destruct (_ =? 0); lia. Qed.

Lemma odd_chunk n : odd (1024 * n) = 0.
Proof. unfold odd, TRANSPORT_CHUNK_SIZE. by rewrite Z.mul_comm, Z.mod_mul. Qed.

Lemma chunked_bounds n : 0 ≤ n → 0 ≤ chunked n ≤ n ∧ n < chunked n + 1024.
Proof.
  intros. unfold chunked, TRANSPORT_CHUNK_SIZE.
  pose proof (Z.div_mod n 1024 ltac:(lia)). pose proof (Z.mod_pos_bound n 1024 ltac:(lia)).
  pose proof (Z.div_pos n 1024). lia.
Qed.

Lemma chunked_add a b : chunked (1024 * a + b) = 1024 * a + chunked b.
Proof.
  unfold chunked, TRANSPORT_CHUNK_SIZE. rewrite Z.add_comm, (Z.mul_comm 1024 a), Z.div_add by lia. lia.
Qed.

Lemma chunked_mul n : ∃ q, chunked n = 1024 * q.
Proof. by exists (n / 1024). Qed.

Lemma chunked_small n : 0 ≤ n < 1024 → chunked n = 0.
Proof. intros. unfold chunked, TRANSPORT_CHUNK_SIZE. rewrite Z.div_small; lia. Qed.

Lemma cb_send d tp data : 0 < zlen data →
  on_driver (SendBuffer data) (d, tp)
  = Ret (SUCCESS, (mk_driver (mk_wire (inbox (transport_ d)) (stream (transport_ d) ++ data)
      (odd_writes (transport_ d) + odd (zlen data)) (clock (transport_ d))) (error_ d)
      (disable_checks_ d) (ui d), tp)).
Proof.
  intros Hpos. unfold on_driver. cbn [fst snd]. rewrite SendBuffer_spec; [done|].
  intros ->. by change (zlen []) with 0 in Hpos.
Qed.

Lemma SparseWriteCallback_spec data (s : cb_state) :
  zlen s.2 < TRANSPORT_CHUNK_SIZE → SparseWriteCallback data s = Ret (0, cb_emit s data).
Proof.
  destruct s as [d tp]. cbn [fst snd]. intros Htp. unfold TRANSPORT_CHUNK_SIZE in Htp.
  pose proof (zlen_nonneg tp) as H0. pose proof (zlen_nonneg data) as H1.
  unfold SparseWriteCallback, cb_emit. cbn [fst snd]. change TRANSPORT_CHUNK_SIZE with 1024.
  rewrite u64_small by lia.
  set (tw := Z.min (1024 - zlen tp) (zlen data)).
  assert (zlen (tp ++ ztake tw data) = zlen tp + tw) as Hl
    by (rewrite zlen_app, zlen_ztake by (unfold tw; lia); done).
  rewrite Hl.
  destruct (Z.ltb_spec (zlen tp + tw) 1024) as [Hlt|Hge].
  - assert (tw = zlen data) as Htw by (unfold tw in *; lia).
    rewrite zlen_app, chunked_small, ztake_0, zdrop_0, app_nil_r by lia.
    rewrite Htw, ztake_all by lia. destruct d as [[] ? ? ?]. done.
  - assert (zlen tp + tw = 1024) as Htw by (unfold tw in *; lia).
    rewrite cb_send by lia. mred. cbn [fst snd].
    set (nb := 1024 * ((zlen data - tw) / 1024)).
    assert (nb = chunked (zlen data - tw)) as Hnb by done.
    destruct (chunked_bounds (zlen data - tw) ltac:(unfold tw; lia)) as [Hc1 Hc2]. rewrite <- Hnb in *.
    assert (chunked (zlen (tp ++ data)) = 1024 + nb) as Hall.
    { rewrite zlen_app. replace (zlen tp + zlen data) with (1024 * 1 + (zlen data - tw)) by lia.
      rewrite chunked_add, Hnb. lia. }
    rewrite Hall.
    assert (ztake (1024 + nb) (tp ++ data) = (tp ++ ztake tw data) ++ ztake nb (zdrop tw data)) as Etake.
    { rewrite <- app_assoc, <- ztake_split by (unfold tw; lia). unfold ztake, zlen in *.
      rewrite take_app_ge by lia. do 2 f_equal. lia. }
    assert (zdrop (1024 + nb) (tp ++ data) = zdrop (tw + nb) data) as Edrop.
    { unfold zdrop, zlen in *. rewrite drop_app_ge by lia. f_equal. lia. }
    rewrite Etake, Edrop, Hl, Htw. change (odd 1024) with 0. rewrite Z.add_0_r.
    assert ((if 0 <? zlen data - (tw + nb) then zdrop (tw + nb) data else []) = zdrop (tw + nb) data) as Erest.
    { destruct (Z.ltb_spec 0 (zlen data - (tw + nb))); [done|].
      unfold zdrop, zlen in *. rewrite drop_ge by lia. done. }
    destruct (Z.eqb_spec nb 0) as [Hz|Hnz].
    + mred. cbn [fst snd]. rewrite Erest, Hz, ztake_0, app_nil_r. done.
    + assert (zlen (ztake nb (zdrop tw data)) = nb) as Hlnb
        by (rewrite zlen_ztake; [done|]; rewrite zlen_zdrop by (unfold tw; lia); lia).
      rewrite cb_send by lia. mred. cbn [fst snd].
      cbn [transport_ inbox stream odd_writes clock error_ disable_checks_ ui].
      rewrite Erest, Hlnb. unfold nb. rewrite odd_chunk, Z.add_0_r, <- !app_assoc. done.
Qed.

(** The callback is a destination libsparse can write to. *)
#[export] Program Instance sparse_cb_sink : Sink (callback_file_ops sparse_cb) cb_emit :=
  {| sink_ok s := zlen s.2 < TRANSPORT_CHUNK_SIZE |}.
Next Obligation. intros d s Hs. by apply SparseWriteCallback_spec. Qed.
Next Obligation.
  intros data [d tp] Htp. cbn [fst snd cb_emit]. pose proof (zlen_nonneg (tp ++ data)) as H0.
  destruct (chunked_bounds (zlen (tp ++ data)) H0). unfold TRANSPORT_CHUNK_SIZE.
  rewrite zlen_zdrop by lia. lia.
Qed.
Next Obligation.
  intros [d tp] a b _. unfold cb_emit.
  cbn [fst snd transport_ inbox stream odd_writes clock error_ disable_checks_ ui].
  pose proof (zlen_nonneg (tp ++ a)) as H0. destruct (chunked_bounds (zlen (tp ++ a)) H0) as [Hc _].
  set (k := chunked (zlen (tp ++ a))) in *. set (rem := zdrop k (tp ++ a)).
  assert (zlen rem = zlen (tp ++ a) - k) as Hrem by (apply zlen_zdrop; lia).
  assert (chunked (zlen (tp ++ a ++ b)) = k + chunked (zlen (rem ++ b))) as ->.
  { destruct (chunked_mul (zlen (tp ++ a))) as [q Hq]. fold k in Hq.
    rewrite app_assoc, !zlen_app, Hrem, <- zlen_app.
    replace (zlen (tp ++ a) + zlen b) with (1024 * q + (zlen (tp ++ a) - k + zlen b)) by lia.
    rewrite chunked_add. lia. }
  pose proof (zlen_nonneg (rem ++ b)) as H1. destruct (chunked_bounds (zlen (rem ++ b)) H1) as [Hc2 _].
  assert (zdrop k (tp ++ a ++ b) = rem ++ b) as Ed.
  { rewrite app_assoc. unfold rem, zdrop, zlen in *. by rewrite drop_app_le by lia. }
  rewrite <- (zdrop_zdrop (chunked (zlen (rem ++ b))) k) by lia.
  rewrite ztake_split, Ed by lia. rewrite <- app_assoc. do 5 f_equal.
  rewrite app_assoc. unfold ztake, zlen in *. by rewrite (take_app_le (tp ++ a) b) by lia.
Qed.

(** ** Downloads *)

(** The messages of a device that accepts a download: notes and the [DATA]
    response to the command, then notes and the final [OKAY]. *)
Definition accepting (notes1 : list note) (n : Z) (notes2 : list note) (resp : list byte)
    (rest : list (list byte)) : list (list byte) :=
  (note_message <$> notes1) ++ final_message (FData n)
    :: (note_message <$> notes2) ++ final_message (FOkay resp) :: rest.

Record accepting_ok (notes1 : list note) (n : Z) (notes2 : list note) (resp : list byte) : Prop := {
  acc_messages : Forall message_ok ((note_message <$> notes1) ++ [final_message (FData n)]);
  acc_messages2 : Forall message_ok ((note_message <$> notes2) ++ [final_message (FOkay resp)]);
  acc_size : 0 ≤ n < 2 ^ 31
}.

(** What a successful download leaves behind: the device's reply, the log of the
    user interface, and on the wire the command with the size and the data. *)
Record downloaded (d d' : driver wire) (r : reply) (notes1 notes2 : list note) (resp : list byte)
    (rest : list (list byte)) (data : list byte) : Prop := {
  dl_rc : rc r = SUCCESS;
  dl_response : response r = Some resp;
  dl_infos : infos r = omap note_info (notes1 ++ notes2);
  dl_ui : ui d' = ui d ++ (note_call <$> (notes1 ++ notes2));
  dl_inbox : inbox (transport_ d') = rest;
  dl_stream : stream (transport_ d') =
    stream (transport_ d) ++ bs "download:" ++ fmt_08x (zlen data) ++ data
}.

Section download.
Context (fuel : nat) (notes1 notes2 : list note) (n : Z) (resp : list byte) (rest : list (list byte)).
Context (Hacc : accepting_ok notes1 n notes2 resp).
Context (Hfuel : (length notes1 < fuel)%nat ∧ (length notes2 < fuel)%nat).

(** The driver when the device has answered the command. *)
Definition announced (d : driver wire) (size : Z) : driver wire :=
  moved (written d (bs "download:" ++ fmt_08x size) [])
    ((note_message <$> notes2) ++ final_message (FOkay resp) :: rest) [] (note_call <$> notes1).

Lemma DownloadCommand_spec (d : driver wire) size : 0 ≤ size < 2 ^ 32 →
  inbox (transport_ d) = accepting notes1 n notes2 resp rest →
  DownloadCommand fuel size d = Ret (final_reply notes1 (FData n), announced d size).
Proof.
  intros Hs Hin. unfold DownloadCommand. destruct Hacc.
  rewrite (RawCommand_spec notes1 (FData n) ((note_message <$> notes2) ++ final_message (FOkay resp) :: rest))
    by (done || (rewrite zlen_download_command by done; done) || (cbn [final_ok]; lia) || lia).
  done.
Qed.

(** The end of every download: the data is out, the device confirms. *)
Lemma finish_download (d d1 : driver wire) data :
  transport_ d1 = mk_wire (inbox (transport_ (announced d (zlen data))))
      (stream (transport_ (announced d (zlen data))) ++ data)
      (odd_writes (transport_ d1)) (clock (transport_ d1)) →
  ui d1 = ui (announced d (zlen data)) →
  ∃ r d', HandleResponse fuel d1 = Ret (r, d') ∧ rc r = SUCCESS ∧
    downloaded d d' (also (final_reply notes1 (FData n)) (also (no_reply SUCCESS) r)) notes1 notes2 resp
      rest data.
Proof.
  intros Ht Hui. destruct Hacc.
  eexists _, _. split; [apply (HandleResponse_spec notes2 (FOkay resp) rest); try done; [by rewrite Ht|apply Hfuel]|].
  split; [done|]. split; try done.
  - cbn. rewrite omap_app. done.
  - cbn [moved ui]. rewrite Hui. cbn. by rewrite fmap_app, <- app_assoc.
  - cbn [moved transport_ stream]. rewrite Ht. cbn [stream announced moved written transport_].
    by rewrite <- !app_assoc.
Qed.

Lemma Download_spec (d : driver wire) buf :
  inbox (transport_ d) = accepting notes1 n notes2 resp rest →
  0 < zlen buf ≤ MAX_DOWNLOAD_SIZE →
  ∃ r d', Download fuel buf d = Ret (r, d') ∧ downloaded d d' r notes1 notes2 resp rest buf.
Proof.
  intros Hin Hb. unfold MAX_DOWNLOAD_SIZE in Hb. unfold Download, set_error. mred.
  cbn [disable_checks_ transport_ error_ ui].
  destruct (Z.eqb_spec (zlen buf) 0); [lia|].
  destruct (Z.ltb_spec MAX_DOWNLOAD_SIZE (zlen buf)); [unfold MAX_DOWNLOAD_SIZE in *; lia|]. cbn [orb andb].
  rewrite u32_small by lia.
  rewrite DownloadCommand_spec by (done || lia). unfold if_ok at 1. cbn [final_reply rc].
  rewrite bool_decide_eq_true_2 by done. mred.
  rewrite SendBuffer_spec by (intros ->; change (zlen []) with 0 in *; lia).
  cbv beta iota. unfold if_ok. cbn [no_reply rc]. rewrite bool_decide_eq_true_2 by done. mred.
  edestruct (finish_download d) as (r & d' & E & Hrc & Hdl); [| |
    rewrite E; cbv beta iota; eexists _, _; split; [reflexivity|exact Hdl]]; done.
Qed.

(** A file whose pages can be mapped. *)
Definition maps_file (map_fd : Z → Z → option (list byte)) (file : list byte) : Prop :=
  ∀ off len, 0 ≤ off → 0 < len → off + len ≤ zlen file →
    map_fd off len = Some (ztake len (zdrop off file)).

Lemma SendBufferFd_loop_spec map_fd file : maps_file map_fd file →
  ∀ k off rem (d : driver wire),
  0 ≤ off → 0 ≤ rem ≤ Z.of_nat k * MAX_MAP_SIZE → off + rem ≤ zlen file →
  ∃ d', SendBufferFd_loop map_fd k off rem d = Ret (SUCCESS, d') ∧
    transport_ d' = mk_wire (inbox (transport_ d)) (stream (transport_ d) ++ ztake rem (zdrop off file))
                      (odd_writes (transport_ d')) (clock (transport_ d')) ∧
    ui d' = ui d.
Proof.
  intros Hmap. unfold MAX_MAP_SIZE.
  induction k as [|k IH]; intros off rem d Hoff Hrem Hend; cbn [SendBufferFd_loop];
    destruct (Z.eqb_spec rem 0) as [->|Hne]; try lia.
  1-2: exists d; rewrite ztake_0, app_nil_r; destruct d as [[] ? ? ?]; done.
  unfold MAX_MAP_SIZE. set (len := Z.min rem (512 * 1024 * 1024)).
  assert (zlen (ztake len (zdrop off file)) = len) as Hl
    by (rewrite zlen_ztake; [done|]; rewrite zlen_zdrop; lia).
  rewrite Hmap by lia. mred.
  rewrite SendBuffer_spec by (intros E; rewrite E in Hl; change (zlen []) with 0 in Hl; lia).
  cbv beta iota. rewrite bool_decide_eq_true_2 by done.
  edestruct (IH (off + len) (rem - len)) as (d' & E & Ht & Hui); [lia|lia|lia|].
  exists d'. split; [exact E|]. split; [|exact Hui]. rewrite Ht. cbn [written transport_ inbox stream].
  f_equal. rewrite <- app_assoc. f_equal. rewrite <- zdrop_zdrop by lia.
  rewrite <- ztake_split by lia. f_equal. lia.
Qed.

Lemma DownloadFd_spec (d : driver wire) map_fd file size :
  inbox (transport_ d) = accepting notes1 n notes2 resp rest →
  maps_file map_fd file → 0 < size ≤ MAX_DOWNLOAD_SIZE → size ≤ zlen file →
  ∃ r d', DownloadFd fuel map_fd size d = Ret (r, d') ∧
    downloaded d d' r notes1 notes2 resp rest (ztake size file).
Proof.
  intros Hin Hmap Hs Hf. unfold MAX_DOWNLOAD_SIZE in Hs.
  assert (zlen (ztake size file) = size) as Hl by (apply zlen_ztake; lia).
  unfold DownloadFd. mred.
  destruct (Z.leb_spec size 0); [lia|].
  destruct (Z.ltb_spec MAX_DOWNLOAD_SIZE size); [unfold MAX_DOWNLOAD_SIZE in *; lia|]. cbn [orb andb].
  rewrite u32_small by lia.
  rewrite DownloadCommand_spec by (done || lia). unfold if_ok at 1. cbn [final_reply rc].
  rewrite bool_decide_eq_true_2 by done. mred. unfold SendBufferFd. rewrite u32_small by lia.
  destruct (SendBufferFd_loop_spec map_fd file Hmap 9 0 size (announced d size)) as (d1 & E & Ht & Hui);
    [lia|unfold MAX_MAP_SIZE; lia|lia|].
  rewrite E. cbv beta iota. unfold if_ok. cbn [no_reply rc]. rewrite bool_decide_eq_true_2 by done. mred.
  rewrite zdrop_0 in Ht. rewrite <- Hl in Ht at 1 2. rewrite <- Hl in Hui.
  destruct (finish_download d d1 (ztake size file) Ht Hui) as (r & d' & E2 & _ & Hdl).
  rewrite E2. cbv beta iota. eexists _, _. split; [reflexivity|exact Hdl].
Qed.

(** The sparse image of a file goes out in whole chunks and a remainder. *)
Section sparse.
Context (env : backing_env) (map_fd : Z → Z → Z → option (list byte)) (open_file : string → Z) (uninit : Z).
Context (s : sparse_file) (use_crc : bool).
Context (Henv : env_agrees env map_fd open_file) (Hok : sf_ok s).
Context (Hw : Forall (block_writable env (sf_block_size s)) (data_blocks (sf_bbl s))).

Let image : list byte := image_bytes env s use_crc.
Context (Himage : zlen image ≤ MAX_DOWNLOAD_SIZE).

Lemma image_nonempty : 0 < zlen image.
Proof.
  unfold image, image_bytes. rewrite zlen_app, zlen_sparse_header_bytes.
  apply Z.add_pos_nonneg; [done|apply zlen_nonneg].
Qed.

Lemma sparse_len : sparse_file_len map_fd open_file uninit s true use_crc = Ret (zlen image).
Proof.
  unfold sparse_file_len. rewrite (write_image_sparse _ _ env map_fd open_file uninit Henv) by done.
  mred. fold image. unfold MAX_DOWNLOAD_SIZE in Himage. pose proof image_nonempty.
  rewrite Z.add_0_l, i64_small; [done|lia].
Qed.

Lemma sparse_transfer d :
  sparse_file_callback map_fd open_file uninit s true use_crc sparse_cb (d, [])
  = Ret (0, cb_emit (d, []) image).
Proof.
  unfold sparse_file_callback. by rewrite (write_image_sparse _ _ env map_fd open_file uninit Henv).
Qed.

Lemma flush_spec (d : driver wire) :
  let '(d1, tp) := cb_emit (d, []) image in
  ∃ d2, (if zlen tp =? 0 return M (driver wire) RetCode then fun d1 => Ret (SUCCESS, d1)
         else SendBuffer tp) d1 = Ret (SUCCESS, d2) ∧
    transport_ d2 = mk_wire (inbox (transport_ d)) (stream (transport_ d) ++ image)
                      (odd_writes (transport_ d2)) (clock (transport_ d2)) ∧
    ui d2 = ui d ∧ odd_writes (transport_ d2) ≤ odd_writes (transport_ d) + 1.
Proof.
  unfold cb_emit. cbn [fst snd]. rewrite app_nil_l. set (k := chunked (zlen image)).
  destruct (Z.eqb_spec (zlen (zdrop k image)) 0) as [Hz|Hz].
  - eexists. split; [reflexivity|]. split_and!; [|done|cbn; lia].
    cbn [transport_ inbox stream odd_writes clock]. f_equal.
    rewrite <- (ztake_zdrop k image) at 2. destruct (zdrop k image) as [|x l]; [by rewrite app_nil_r|].
    rewrite zlen_cons in Hz. pose proof (zlen_nonneg l). lia.
  - rewrite SendBuffer_spec by (intros E; by rewrite E in Hz).
    eexists. split; [reflexivity|]. split_and!; [|done|].
    + cbn [written transport_ inbox stream odd_writes clock]. f_equal.
      by rewrite <- app_assoc, ztake_zdrop.
    + cbn [written transport_ odd_writes].
      match goal with |- context [odd ?k] => pose proof (odd_le k) end. lia.
Qed.

Lemma DownloadSparse_spec (d : driver wire) :
  inbox (transport_ d) = accepting notes1 n notes2 resp rest →
  ∃ r d', DownloadSparse map_fd open_file uninit fuel s use_crc d = Ret (r, d') ∧
    downloaded d d' r notes1 notes2 resp rest image ∧
    odd_writes (transport_ d') ≤ odd_writes (transport_ d) + 2.
Proof.
  intros Hin. pose proof image_nonempty as Hpos. unfold MAX_DOWNLOAD_SIZE in Himage.
  unfold DownloadSparse, set_error. mred. rewrite sparse_len. cbv beta iota.
  destruct (Z.leb_spec (zlen image) 0); [lia|].
  destruct (Z.ltb_spec MAX_DOWNLOAD_SIZE (zlen image)); [unfold MAX_DOWNLOAD_SIZE in *; lia|]. cbn [orb].
  rewrite u32_small by lia. rewrite DownloadCommand_spec by (done || lia).
  unfold if_ok at 1. cbn [final_reply rc]. rewrite bool_decide_eq_true_2 by done. mred.
  rewrite sparse_transfer.
  set (d0 := announced _ _). pose proof (flush_spec d0) as Hflush.
  destruct (cb_emit (d0, []) image) as [d1 tp]. cbv beta iota.
  destruct Hflush as (d2 & E & Ht & Hui & Hodd).
  change (0 <? 0) with false. cbv beta iota.
  rewrite E. cbv beta iota. unfold if_ok. cbn [no_reply rc]. rewrite bool_decide_eq_true_2 by done. mred.
  destruct (finish_download d d2 image Ht Hui) as (r & d' & E2 & _ & Hdl).
  pose proof E2 as E3. rewrite (HandleResponse_spec notes2 (FOkay resp) rest) in E3;
    [|by rewrite Ht|apply Hacc|done|apply Hfuel].
  rewrite E2. cbv beta iota. eexists _, _. split_and!; [reflexivity|exact Hdl|].
  injection E3 as _ <-. cbn [moved transport_ odd_writes].
  assert (odd_writes (transport_ d0) ≤ odd_writes (transport_ d) + 1); [|lia].
  unfold d0, announced. cbn [moved written transport_ odd_writes].
  match goal with |- context [odd ?k] => pose proof (odd_le k) end. lia.
Qed.
End sparse.
End download.

(** ** Uploads *)

(** A file that takes every write. *)
Definition append_file (data : list byte) (p : list byte) : bool * list byte := (true, p ++ data).

Lemma wire_read_part n w m rest : inbox w = m :: rest → n < zlen m →
  wire_read n w = Ret (Some (ztake n m), mk_wire (zdrop n m :: rest) (stream w) (odd_writes w) (clock w)).
Proof. intros Hi Hn. unfold wire_read. rewrite Hi. by destruct (Z.leb_spec (zlen m) n); [lia|]. Qed.

(** [ReadBuffer] of part of a message, or of the rest of it. *)
Lemma ReadBuffer_spec n (d : driver wire) m rest :
  inbox (transport_ d) = m :: rest → 0 ≤ n ≤ zlen m →
  ReadBuffer n d = Ret ((SUCCESS, ztake n m),
    moved d (if n =? zlen m then rest else zdrop n m :: rest) (error_ d) []).
Proof.
  intros Hin Hn. unfold ReadBuffer, on_transport, moved. mred. cbn [tr_Read wire_transport].
  rewrite app_nil_r. destruct (Z.eqb_spec n (zlen m)) as [->|Hne].
  - rewrite (wire_read_small _ _ m rest) by (done || lia). cbv beta iota.
    rewrite Z.eqb_refl, ztake_all by lia. done.
  - rewrite (wire_read_part _ _ m rest) by (done || lia). cbv beta iota.
    rewrite zlen_ztake by lia. by rewrite Z.eqb_refl.
Qed.

Lemma read_loop_spec werr payload rest : ∀ fuel off p (d : driver wire),
  0 ≤ off ≤ zlen payload →
  zlen payload - off ≤ Z.of_nat fuel * kMiB →
  inbox (transport_ d) = (if off =? zlen payload then rest else zdrop off payload :: rest) →
  read_loop append_file werr fuel (zlen payload) off p d
  = Ret ((SUCCESS, p ++ zdrop off payload), moved d rest (error_ d) []).
Proof.
  unfold kMiB. induction fuel as [|fuel IH]; intros off p d Hoff Hf Hin; cbn [read_loop].
  - assert (off = zlen payload) as -> by lia. rewrite Z.ltb_irrefl. rewrite Z.eqb_refl in Hin. mred.
    unfold zdrop, zlen. rewrite Nat2Z.id, drop_all, app_nil_r. unfold moved. rewrite app_nil_r, <- Hin.
    by destruct d as [[] ? ? ?].
  - destruct (Z.ltb_spec off (zlen payload)) as [Hlt|Hge].
    2: { assert (off = zlen payload) as -> by lia. rewrite Z.eqb_refl in Hin. mred.
         unfold zdrop, zlen. rewrite Nat2Z.id, drop_all, app_nil_r. unfold moved. rewrite app_nil_r, <- Hin.
         by destruct d as [[] ? ? ?]. }
    destruct (Z.eqb_spec off (zlen payload)); [lia|]. unfold kMiB.
    set (c := Z.min (Z.min (zlen payload) (1024 * 1024)) (zlen payload - off)).
    assert (zlen (zdrop off payload) = zlen payload - off) as Hl by (apply zlen_zdrop; lia).
    unfold mbind at 1, M_bind at 1. rewrite (ReadBuffer_spec c d (zdrop off payload) rest) by (done || lia).
    cbv beta iota. rewrite bool_decide_eq_true_2 by done. cbn [negb append_file].
    rewrite IH.
    + unfold moved. cbn [transport_ stream odd_writes clock error_ disable_checks_ ui].
      rewrite !app_nil_r, <- app_assoc. do 4 f_equal.
      rewrite <- (zdrop_zdrop c off) by lia. apply ztake_zdrop.
    + lia.
    + lia.
    + cbn [moved transport_ inbox]. rewrite Hl, zdrop_zdrop by lia.
      destruct (Z.eqb_spec c (zlen payload - off)), (Z.eqb_spec (off + c) (zlen payload)); done || lia.
Qed.

(** The messages of a device that uploads [payload]. *)
Definition uploading (notes1 : list note) (payload : list byte) (notes2 : list note) (resp : list byte)
    (rest : list (list byte)) : list (list byte) :=
  (note_message <$> notes1) ++ final_message (FData (zlen payload))
    :: payload :: (note_message <$> notes2) ++ final_message (FOkay resp) :: rest.

Lemma RunAndReadBuffer_spec werr fuel notes1 payload notes2 resp rest cmd p (d : driver wire) :
  accepting_ok notes1 (zlen payload) notes2 resp →
  (length notes1 < fuel)%nat → (length notes2 < fuel)%nat → zlen cmd ≤ FB_COMMAND_SZ → payload ≠ [] →
  inbox (transport_ d) = uploading notes1 payload notes2 resp rest →
  ∃ r d', RunAndReadBuffer append_file werr fuel cmd p d = Ret ((r, p ++ payload), d') ∧
    rc r = SUCCESS ∧ response r = Some resp ∧ infos r = omap note_info (notes1 ++ notes2) ∧
    inbox (transport_ d') = rest ∧ stream (transport_ d') = stream (transport_ d) ++ cmd ∧
    ui d' = ui d ++ (note_call <$> (notes1 ++ notes2)).
Proof.
  intros [Ha1 Ha2 Ha3] Hf1 Hf2 Hcmd Hne Hin. unfold RunAndReadBuffer.
  assert (0 < zlen payload) as Hpos.
  { destruct payload as [|x l]; [done|]. rewrite zlen_cons. pose proof (zlen_nonneg l). lia. }
  unfold mbind at 1, M_bind at 1.
  rewrite (RawCommand_spec notes1 (FData (zlen payload))
             (payload :: (note_message <$> notes2) ++ final_message (FOkay resp) :: rest))
    by (done || (cbn [final_ok]; lia)).
  cbv beta iota. cbn [final_reply rc dsize default]. rewrite (i32_small (zlen payload)) by lia. rewrite bool_decide_eq_true_2 by done. cbn [negb].
  unfold id. destruct (Z.leb_spec (zlen payload) 0); [lia|].
  set (d1 := moved _ _ _ _). unfold mbind at 1, M_bind at 1.
  rewrite (read_loop_spec werr payload ((note_message <$> notes2) ++ final_message (FOkay resp) :: rest)
             2048 0 p d1);
    [|lia|unfold kMiB; lia|destruct (Z.eqb_spec 0 (zlen payload)); [lia|done]].
  cbv beta iota. rewrite bool_decide_eq_true_2 by done. cbn [negb]. unfold mbind at 1, M_bind at 1.
  rewrite (HandleResponse_spec notes2 (FOkay resp) rest) by done.
  eexists _, _. split; [reflexivity|].
  split_and!; try done.
  - cbn. by rewrite omap_app.
  - cbn [moved ui d1 written]. rewrite fmap_app, app_nil_r, <- app_assoc. done.
Qed.

(** ** Commands *)

Lemma RawCommandMessage_spec notes f rest fuel cmd msg (d : driver wire) :
  zlen cmd ≤ FB_COMMAND_SZ →
  inbox (transport_ d) = (note_message <$> notes) ++ final_message f :: rest →
  Forall message_ok ((note_message <$> notes) ++ [final_message f]) → final_ok f →
  (length notes < fuel)%nat →
  ∃ d', RawCommandMessage fuel cmd msg d = Ret (final_reply notes f, d') ∧
    inbox (transport_ d') = rest ∧ stream (transport_ d') = stream (transport_ d) ++ cmd ∧
    ui d' = ui d ++ [Prolog msg] ++ (note_call <$> notes) ++ [Epilog (rc (final_reply notes f))].
Proof.
  intros Hc Hin Hok Hf Hfuel. unfold RawCommandMessage, call. mred.
  rewrite (RawCommand_spec notes f rest) by done. cbv beta iota.
  eexists. split; [reflexivity|]. split_and!; [done|done|].
  cbn [moved written ui]. by rewrite <- !app_assoc.
Qed.

(** ** Time *)
Section time.
Context {T : Type} `{Transport T}.
(** Two readings of the clock with nothing in between are less than
    [RESP_TIMEOUT] apart. *)
Definition clock_steady : Prop := ∀ t c t1 c2 t2,
  tr_now t = Ret (c, t1) → tr_now t1 = Ret (c2, t2) → c2 - c < RESP_TIMEOUT * 1000000000.

Lemma HandleResponse_loop_no_timeout : clock_steady →
  ∀ fuel start infos d r d' t0,
  tr_now t0 = Ret (start, transport_ d) → HandleResponse_loop fuel start infos d = Ret (r, d') →
  rc r ≠ TIMEOUT.
Proof.
  intros Hclk. induction fuel as [|fuel IH]; intros start infos d r d' t0 Ht0 HR; [done|].
  cbn [HandleResponse_loop] in HR. unfold on_transport, mbind, M_bind, outcome_bind in HR.
  destruct (tr_now (transport_ d)) as [[c t1]| |] eqn:Hn; [|done|done].
  pose proof (Hclk _ _ _ _ _ Ht0 Hn) as Hc. apply Z.ltb_lt in Hc. rewrite Hc in HR.
  cbn [transport_ error_ disable_checks_ ui] in HR.
  destruct (tr_Read FB_RESPONSE_SZ t1) as [[[status|] t2]| |]; [| |done|done].
  - unfold m_assert in HR. destruct (zlen status <=? FB_RESPONSE_SZ); [|done].
    destruct (handle_status (c_str status) infos _) as [[[[res|] infos'] d1]| |] eqn:HS; [| |done|done].
    + unfold mret, M_ret in HR. injection HR as <- <-. revert HS. clear. intros HS.
      unfold handle_status, mbind, M_bind, mret, M_ret, set_error, call, modify in HS.
      repeat case_match; simplify_eq; done.
    + destruct (tr_now (transport_ d1)) as [[c3 t3]| |] eqn:Hn3; [|done|done].
      by apply (IH _ _ _ _ _ (transport_ d1)) in HR.
  - by injection HR as <- <-.
Qed.

End time.

(** * Claims *)

(** C24: [HandleResponse] interprets the device's messages as the protocol
    says.  For any number of [INFO] and [TEXT] messages followed by [OKAY],
    [FAIL] or [DATA] with eight hexadecimal digits, each at most 256 bytes long
    and without a NUL, it returns the code and the response that the last
    message denotes and for [DATA] the size as an [int] (the announced number
    below 80000000, a negative one from there on), has passed every note to the
    user interface once and in order, collected the [INFO] texts, set the error
    text of a failure, and has read nothing beyond that message. *)
Theorem handle_response_correct notes f rest fuel (d : driver wire) :
  inbox (transport_ d) = (note_message <$> notes) ++ final_message f :: rest →
  Forall message_ok ((note_message <$> notes) ++ [final_message f]) → final_ok f →
  (length notes < fuel)%nat →
  HandleResponse fuel d
  = Ret (final_reply notes f, moved d rest (final_error f (error_ d)) (note_call <$> notes)).
Proof. apply HandleResponse_spec. Qed.

Definition ex_driver (msgs : list (list byte)) : driver wire :=
  mk_driver (mk_wire msgs [] 0 0) [] false [].

Ltac messages_ok :=
  repeat (apply Forall_cons; split; [split; [vm_compute; discriminate|vm_compute; reflexivity]|]);
  apply Forall_nil; exact I.

Lemma handle_response_correct_witness :
  HandleResponse 5 (ex_driver [bs "INFOerasing"; bs "TEXTx"; bs "DATA00000834"; bs "OKAY"])
  = Ret (mk_reply SUCCESS (Some (bs "00000834")) [bs "erasing"] (Some 2100),
         mk_driver (mk_wire [bs "OKAY"] [] 0 0) [] false [Info (bs "erasing"); Text (bs "x")]).
Proof.
  apply (handle_response_correct [NInfo (bs "erasing"); NText (bs "x")] (FData 2100) [bs "OKAY"] 5
           (ex_driver [bs "INFOerasing"; bs "TEXTx"; bs "DATA00000834"; bs "OKAY"])).
  - reflexivity.
  - messages_ok.
  - vm_compute. split; congruence.
  - simpl. lia.
Defined.

(** C2: a download of a sparse file announces and transmits exactly its sparse
    image.  With a device that accepts the download, on a wire on which every
    write succeeds, the [Download] of a sparse file returns success and the
    device's response; on the wire are the command with the length of the image
    in 8 hexadecimal digits, which reads back as that length, and then the bytes
    [sparse_file_callback] produces, complete and in order although they pass
    through the 1024-byte buffer of [SparseWriteCallback]; apart from the
    command at most one transport write is not a multiple of that size. *)
Theorem download_sparse_exact env map_fd open_file uninit s use_crc fuel notes1 notes2 n resp rest
    (d : driver wire) :
  accepting_ok notes1 n notes2 resp →
  (length notes1 < fuel)%nat ∧ (length notes2 < fuel)%nat →
  env_agrees env map_fd open_file → sf_ok s →
  Forall (block_writable env (sf_block_size s)) (data_blocks (sf_bbl s)) →
  zlen (image_bytes env s use_crc) ≤ MAX_DOWNLOAD_SIZE →
  inbox (transport_ d) = accepting notes1 n notes2 resp rest →
  ∃ r d', DownloadSparse map_fd open_file uninit fuel s use_crc d = Ret (r, d') ∧
    downloaded d d' r notes1 notes2 resp rest (image_bytes env s use_crc) ∧
    strtoll (fmt_08x (zlen (image_bytes env s use_crc))) 16
    = mk_strto (zlen (image_bytes env s use_crc)) [] false ∧
    odd_writes (transport_ d') ≤ odd_writes (transport_ d) + 2.
Proof.
  intros Hacc Hfuel Henv Hok Hw Hmax Hin.
  destruct (DownloadSparse_spec fuel notes1 notes2 n resp rest Hacc Hfuel env map_fd open_file uninit s
              use_crc Henv Hok Hw Hmax d Hin) as (r & d' & E & Hdl & Ho).
  exists r, d'. split_and!; [done|done| |done]. unfold MAX_DOWNLOAD_SIZE in Hmax.
  pose proof (zlen_nonneg (image_bytes env s use_crc)). apply strtoll_fmt_08x. lia.
Qed.

Lemma download_sparse_exact_witness :
  let msgs := accepting [] 200 [NInfo (bs "writing")] (bs "done") [] in
  ∃ r d', DownloadSparse ex_map (λ _, 3) 0 9 ex_sparse true (ex_driver msgs) = Ret (r, d') ∧
    downloaded (ex_driver msgs) d' r [] [NInfo (bs "writing")] (bs "done") []
      (image_bytes ex_env ex_sparse true).
Proof.
  intros msgs.
  destruct (download_sparse_exact ex_env ex_map (λ _, 3) 0 ex_sparse true 9 [] [NInfo (bs "writing")] 200
              (bs "done") [] (ex_driver msgs)) as (r & d' & E & Hdl & _).
  - split; [messages_ok|messages_ok|vm_compute; split; congruence].
  - simpl. lia.
  - apply ex_env_agrees.
  - apply ex_sparse_ok.
  - apply ex_sparse_writable.
  - vm_compute. discriminate.
  - reflexivity.
  - exists r, d'. split; [exact E|exact Hdl].
Defined.

(** A download from a file sends exactly the first [size] bytes of it, in
    mappings of at most 512 MiB, after announcing [size]. *)
Theorem download_fd_exact map_fd file size fuel notes1 notes2 n resp rest (d : driver wire) :
  accepting_ok notes1 n notes2 resp →
  (length notes1 < fuel)%nat ∧ (length notes2 < fuel)%nat →
  maps_file map_fd file → 0 < size ≤ MAX_DOWNLOAD_SIZE → size ≤ zlen file →
  inbox (transport_ d) = accepting notes1 n notes2 resp rest →
  ∃ r d', DownloadFd fuel map_fd size d = Ret (r, d') ∧
    downloaded d d' r notes1 notes2 resp rest (ztake size file).
Proof. intros Hacc Hfuel Hmap Hs Hf Hin. by eapply DownloadFd_spec. Qed.

Lemma download_fd_exact_witness :
  let file := bs "kernel image" in
  let msgs := accepting [NText (bs "t")] 6 [] (bs "") [bs "OKAY"] in
  ∃ r d', DownloadFd 3 (fun off len => Some (ztake len (zdrop off file))) 6 (ex_driver msgs) = Ret (r, d') ∧
    downloaded (ex_driver msgs) d' r [NText (bs "t")] [] (bs "") [bs "OKAY"] (bs "kernel").
Proof.
  intros file msgs.
  apply (download_fd_exact _ file 6 3 [NText (bs "t")] [] 6 (bs "") [bs "OKAY"] (ex_driver msgs)).
  - split; [messages_ok|messages_ok|vm_compute; split; congruence].
  - simpl. lia.
  - intros off len _ _ _. reflexivity.
  - vm_compute. split; congruence.
  - vm_compute. discriminate.
  - reflexivity.
Defined.

(** C22: flashing a partition from memory sends the download command, the data and
    then the flash command, in this order and nothing else, and reports success
    exactly when the device ends both with [OKAY]. *)
Theorem flash_partition_exact partition buf fuel notes1 notes2 notes3 n resp f rest (d : driver wire) :
  accepting_ok notes1 n notes2 resp →
  (length notes1 < fuel)%nat ∧ (length notes2 < fuel)%nat → (length notes3 < fuel)%nat →
  Forall message_ok ((note_message <$> notes3) ++ [final_message f]) → final_ok f →
  zlen partition + 6 ≤ FB_COMMAND_SZ → 0 < zlen buf ≤ MAX_DOWNLOAD_SIZE →
  inbox (transport_ d)
  = accepting notes1 n notes2 resp ((note_message <$> notes3) ++ final_message f :: rest) →
  ∃ d', FlashPartition fuel partition buf d = Ret (rc (final_reply notes3 f), d') ∧
    inbox (transport_ d') = rest ∧
    stream (transport_ d') = stream (transport_ d) ++ bs "download:" ++ fmt_08x (zlen buf) ++ buf
                             ++ bs "flash:" ++ partition.
Proof.
  intros Hacc Hfuel Hf3 Hm3 Hf Hp Hb Hin.
  unfold FlashPartition, then_flash, DownloadNamed, with_messages, call. mred.
  match goal with |- context [Download fuel buf ?d0] =>
    destruct (Download_spec fuel notes1 notes2 n resp _ Hacc Hfuel d0 buf Hin Hb) as (r & d1 & E & Hdl)
  end.
  rewrite E. cbv beta iota. destruct Hdl. rewrite bool_decide_eq_true_2 by done. unfold Flash.
  match goal with |- context [RawCommandMessage fuel ?cmd ?msg ?d0] =>
    destruct (RawCommandMessage_spec notes3 f rest fuel cmd msg d0) as (d2 & E2 & H1 & H2 & _);
      [rewrite zlen_app; change (zlen (bs "flash:")) with 6; lia|done..|]
  end.
  rewrite E2. cbv beta iota. eexists. split; [reflexivity|]. split; [done|].
  rewrite H2. cbn [transport_ stream]. rewrite dl_stream0. cbn [transport_ stream]. by rewrite <- !app_assoc.
Qed.

Lemma flash_partition_exact_witness :
  let msgs := accepting [] 3 [] (bs "") [bs "INFOwriting"; bs "FAILlocked"] in
  ∃ d', FlashPartition 4 (bs "boot") (bs "abc") (ex_driver msgs) = Ret (DEVICE_FAIL, d') ∧
    inbox (transport_ d') = [] ∧
    stream (transport_ d') = bs "download:00000003abcflash:boot".
Proof.
  intros msgs.
  apply (flash_partition_exact (bs "boot") (bs "abc") 4 [] [] [NInfo (bs "writing")] 3 (bs "")
           (FFail (bs "locked")) [] (ex_driver msgs)).
  - split; [messages_ok|messages_ok|vm_compute; split; congruence].
  - simpl. lia.
  - simpl. lia.
  - messages_ok.
  - exact I.
  - vm_compute. discriminate.
  - vm_compute. split; congruence.
  - reflexivity.
Defined.

(** C23: fetching a partition stores exactly the bytes the device sends.  After
    the command with the offset and size the host reads the announced number of
    bytes in pieces of at most 1 MiB, writes all of them in order to the file,
    and returns the device's final response. *)
Theorem fetch_exact errno_str fuel partition offset size notes1 payload notes2 resp rest p (d : driver wire) :
  accepting_ok notes1 (zlen payload) notes2 resp →
  (length notes1 < fuel)%nat → (length notes2 < fuel)%nat → payload ≠ [] →
  zlen (fetch_command partition offset size) ≤ FB_COMMAND_SZ →
  inbox (transport_ d) = uploading notes1 payload notes2 resp rest →
  ∃ r d', FetchToFd append_file errno_str fuel partition offset size p d = Ret ((r, p ++ payload), d') ∧
    rc r = SUCCESS ∧ response r = Some resp ∧ infos r = omap note_info (notes1 ++ notes2) ∧
    inbox (transport_ d') = rest ∧
    stream (transport_ d') = stream (transport_ d) ++ fetch_command partition offset size.
Proof.
  intros Hacc Hf1 Hf2 Hne Hc Hin. unfold FetchToFd, call. mred.
  match goal with |- context [RunAndReadBuffer append_file ?we fuel ?cmd p ?d0] =>
    destruct (RunAndReadBuffer_spec we fuel notes1 payload notes2 resp rest cmd p d0)
      as (r & d' & E & H1 & H2 & H3 & H4 & H5 & H6); [done..|]
  end.
  rewrite E. cbv beta iota. eexists _, _. split; [reflexivity|]. done.
Qed.

Lemma fetch_exact_witness :
  let msgs := uploading [] (bs "vendor_boot contents") [NInfo (bs "bye")] (bs "") [] in
  ∃ r d', FetchToFd append_file (fun _ => []) 3 (bs "vendor_boot") 16 20 [] (ex_driver msgs)
      = Ret ((r, bs "vendor_boot contents"), d') ∧
    rc r = SUCCESS ∧ response r = Some [] ∧ infos r = [bs "bye"] ∧
    inbox (transport_ d') = [] ∧ stream (transport_ d') = bs "fetch:vendor_boot:0x00000010:0x00000014".
Proof.
  intros msgs.
  apply (fetch_exact (fun _ => []) 3 (bs "vendor_boot") 16 20 [] (bs "vendor_boot contents")
           [NInfo (bs "bye")] (bs "") [] [] (ex_driver msgs)).
  - split; [messages_ok|messages_ok|vm_compute; split; congruence].
  - simpl. lia.
  - simpl. lia.
  - discriminate.
  - vm_compute. discriminate.
  - reflexivity.
Defined.

(** C38: [HandleResponse] never times out.  It compares the clock with a start
    time that it has just taken, at the start and after every [INFO] and [TEXT]
    message, so on any transport whose clock does not jump by 30 seconds between
    two readings with nothing in between, the result is never [TIMEOUT], however
    long the device takes to answer. *)
Theorem handle_response_never_times_out {T} `{Transport T} fuel (d : driver T) r d' :
  clock_steady → HandleResponse fuel d = Ret (r, d') → rc r ≠ TIMEOUT.
Proof.
  intros Hclk HR. unfold HandleResponse, on_transport, mbind, M_bind, outcome_bind in HR.
  destruct (tr_now (transport_ d)) as [[c t1]| |] eqn:Hn; [|done|done].
  eapply HandleResponse_loop_no_timeout; [exact Hclk| |exact HR]. exact Hn.
Qed.

Lemma handle_response_never_times_out_witness :
  ∃ r d', HandleResponse 3 (ex_driver [bs "INFOslow"; bs "OKAY"]) = Ret (r, d') ∧ rc r ≠ TIMEOUT.
Proof.
  destruct (HandleResponse 3 (ex_driver [bs "INFOslow"; bs "OKAY"])) as [[r d']| |] eqn:E.
  - exists r, d'. split; [reflexivity|].
    apply (handle_response_never_times_out 3 (ex_driver [bs "INFOslow"; bs "OKAY"]) r d'); [|exact E].
    intros t c t1 c2 t2 H1 H2. cbn in H1, H2. injection H1 as <- <-. injection H2 as <- <-.
    unfold RESP_TIMEOUT. lia.
  - vm_compute in E. discriminate E.
  - vm_compute in E. discriminate E.
Defined.

(** A [DATA] response of any size is accepted, and sizes of 4 GiB and more
    wrap around.  The number is cut to 32 bits before it is compared with the
    limit 2^32-1, so "Data size too large" is never reported; a device that
    announces 2^32+1 bytes is taken to announce 1, and one that announces 2^31
    gives a negative size. *)
Theorem data_size_wraps n (d : driver wire) : 0 ≤ n < 2 ^ 63 →
  handle_status (bs "DATA" ++ fmt_08x n) [] d
  = Ret ((Some (mk_reply SUCCESS (Some (fmt_08x n)) [] (Some (i32 (u32 n)))), []), d).
Proof.
  intros Hn. unfold handle_status. status_tests. rewrite (zdrop_prefix (bs "DATA")).
  unfold strtol. rewrite strtoll_fmt_08x by done. cbn [st_val]. unfold MAX_DOWNLOAD_SIZE.
  pose proof (u32_range n). destruct (Z.ltb_spec (2 ^ 32 - 1) (u32 n)); [lia|]. done.
Qed.

Lemma data_size_wraps_witness :
  handle_status (bs "DATA100000001") [] (ex_driver [])
  = Ret ((Some (mk_reply SUCCESS (Some (bs "100000001")) [] (Some 1)), []), ex_driver []).
Proof. apply (data_size_wraps 4294967297 (ex_driver [])). lia. Defined.
