(* ===== verification/LpFormat.v ===== *)
(** Logical partition metadata (system/core/fs_mgr/liblp): the structs of
    metadata_format.h with their packed little-endian layout, the fixed-size
    names, and the arithmetic of utility.h and utility.cpp. *)

From Stdlib Require Import Strings.String.
From S2P Require Import Prelude LibBase SparseFormat.
Open Scope Z_scope.

(** * Constants of metadata_format.h *)

Definition LP_METADATA_GEOMETRY_MAGIC : Z := 0x616c4467.
Definition LP_METADATA_GEOMETRY_SIZE : Z := 4096.
Definition LP_METADATA_HEADER_MAGIC : Z := 0x414C5030.
Definition LP_METADATA_MAJOR_VERSION : Z := 10.
Definition LP_METADATA_MINOR_VERSION_MIN : Z := 0.
Definition LP_METADATA_MINOR_VERSION_MAX : Z := 2.
Definition LP_METADATA_VERSION_FOR_UPDATED_ATTR : Z := 1.
Definition LP_METADATA_VERSION_FOR_EXPANDED_HEADER : Z := 2.
Definition LP_PARTITION_ATTR_READONLY : Z := 1.
Definition LP_PARTITION_ATTR_SLOT_SUFFIXED : Z := 2.
Definition LP_PARTITION_ATTR_UPDATED : Z := 4.
Definition LP_PARTITION_ATTR_DISABLED : Z := 8.
Definition LP_PARTITION_ATTRIBUTE_MASK_V0 : Z := 3.
Definition LP_PARTITION_ATTRIBUTE_MASK_V1 : Z := 12.
Definition LP_PARTITION_ATTRIBUTE_MASK : Z := 15.
Definition LP_METADATA_DEFAULT_PARTITION_NAME : list byte := bs "super".
Definition LP_SECTOR_SIZE : Z := 512.
Definition LP_PARTITION_RESERVED_BYTES : Z := 4096.
Definition LP_HEADER_FLAG_VIRTUAL_AB_DEVICE : Z := 1.
Definition LP_TARGET_TYPE_LINEAR : Z := 0.
Definition LP_TARGET_TYPE_ZERO : Z := 1.
Definition LP_GROUP_SLOT_SUFFIXED : Z := 1.
Definition LP_BLOCK_DEVICE_SLOT_SUFFIXED : Z := 1.

(** * The structs *)

Record LpMetadataGeometry : Type := mk_geometry {
  g_magic : Z;                  (* uint32_t *)
  g_struct_size : Z;            (* uint32_t *)
  g_checksum : list byte;       (* uint8_t[32] *)
  metadata_max_size : Z;        (* uint32_t *)
  metadata_slot_count : Z;      (* uint32_t *)
  logical_block_size : Z        (* uint32_t *)
}.

Record LpMetadataTableDescriptor : Type := mk_table {
  t_offset : Z; num_entries : Z; entry_size : Z (* uint32_t each *)
}.

(** The header up to [flags] is the header of version 1.0. *)
Record LpMetadataHeader : Type := mk_header {
  h_magic : Z;                  (* uint32_t *)
  h_major_version : Z;          (* uint16_t *)
  h_minor_version : Z;          (* uint16_t *)
  header_size : Z;              (* uint32_t *)
  header_checksum : list byte;  (* uint8_t[32] *)
  tables_size : Z;              (* uint32_t *)
  tables_checksum : list byte;  (* uint8_t[32] *)
  h_partitions : LpMetadataTableDescriptor;
  h_extents : LpMetadataTableDescriptor;
  h_groups : LpMetadataTableDescriptor;
  h_block_devices : LpMetadataTableDescriptor;
  h_flags : Z;                  (* uint32_t *)
  h_reserved : list byte        (* uint8_t[124] *)
}.

Record LpMetadataPartition : Type := mk_lp_partition {
  p_name : list byte;           (* char[36] *)
  p_attributes : Z;             (* uint32_t *)
  first_extent_index : Z;       (* uint32_t *)
  num_extents : Z;              (* uint32_t *)
  group_index : Z               (* uint32_t *)
}.

Record LpMetadataExtent : Type := mk_lp_extent {
  e_num_sectors : Z;            (* uint64_t *)
  target_type : Z;              (* uint32_t *)
  target_data : Z;              (* uint64_t *)
  target_source : Z             (* uint32_t *)
}.

Record LpMetadataPartitionGroup : Type := mk_lp_group {
  gr_name : list byte;          (* char[36] *)
  gr_flags : Z;                 (* uint32_t *)
  gr_maximum_size : Z           (* uint64_t *)
}.

Record LpMetadataBlockDevice : Type := mk_block_device {
  first_logical_sector : Z;     (* uint64_t *)
  alignment : Z;                (* uint32_t *)
  alignment_offset : Z;         (* uint32_t *)
  bd_size : Z;                  (* uint64_t *)
  bd_partition_name : list byte; (* char[36] *)
  bd_flags : Z                  (* uint32_t *)
}.

Record LpMetadata : Type := mk_metadata {
  m_geometry : LpMetadataGeometry;
  m_header : LpMetadataHeader;
  m_partitions : list LpMetadataPartition;
  m_extents : list LpMetadataExtent;
  m_groups : list LpMetadataPartitionGroup;
  m_block_devices : list LpMetadataBlockDevice
}.

Record BlockDeviceInfo : Type := mk_device_info {
  i_size : Z;                   (* uint64_t *)
  i_alignment : Z;              (* uint32_t *)
  i_alignment_offset : Z;       (* uint32_t *)
  i_logical_block_size : Z;     (* uint32_t *)
  i_partition_name : list byte  (* std::string *)
}.

(** [sizeof] of the structs. *)
Definition sizeof_geometry : Z := 52.
Definition sizeof_headerV1_0 : Z := 128.
Definition sizeof_header : Z := 256.
Definition sizeof_partition : Z := 52.
Definition sizeof_extent : Z := 24.
Definition sizeof_group : Z := 48.
Definition sizeof_block_device : Z := 64.
Definition sizeof_name : Z := 36.

(** * Layout *)

Definition geometry_bytes (g : LpMetadataGeometry) : list byte :=
  le_bytes 4 (g_magic g) ++ le_bytes 4 (g_struct_size g) ++ g_checksum g ++
  le_bytes 4 (metadata_max_size g) ++ le_bytes 4 (metadata_slot_count g) ++
  le_bytes 4 (logical_block_size g).

Definition table_bytes (t : LpMetadataTableDescriptor) : list byte :=
  le_bytes 4 (t_offset t) ++ le_bytes 4 (num_entries t) ++ le_bytes 4 (entry_size t).

Definition header_bytes (h : LpMetadataHeader) : list byte :=
  le_bytes 4 (h_magic h) ++ le_bytes 2 (h_major_version h) ++ le_bytes 2 (h_minor_version h) ++
  le_bytes 4 (header_size h) ++ header_checksum h ++ le_bytes 4 (tables_size h) ++ tables_checksum h ++
  table_bytes (h_partitions h) ++ table_bytes (h_extents h) ++ table_bytes (h_groups h) ++
  table_bytes (h_block_devices h) ++ le_bytes 4 (h_flags h) ++ h_reserved h.

Definition lp_partition_bytes (p : LpMetadataPartition) : list byte :=
  p_name p ++ le_bytes 4 (p_attributes p) ++ le_bytes 4 (first_extent_index p) ++
  le_bytes 4 (num_extents p) ++ le_bytes 4 (group_index p).

Definition lp_extent_bytes (e : LpMetadataExtent) : list byte :=
  le_bytes 8 (e_num_sectors e) ++ le_bytes 4 (target_type e) ++ le_bytes 8 (target_data e) ++
  le_bytes 4 (target_source e).

Definition lp_group_bytes (g : LpMetadataPartitionGroup) : list byte :=
  gr_name g ++ le_bytes 4 (gr_flags g) ++ le_bytes 8 (gr_maximum_size g).

Definition block_device_bytes (d : LpMetadataBlockDevice) : list byte :=
  le_bytes 8 (first_logical_sector d) ++ le_bytes 4 (alignment d) ++ le_bytes 4 (alignment_offset d) ++
  le_bytes 8 (bd_size d) ++ bd_partition_name d ++ le_bytes 4 (bd_flags d).

(** The [n] bytes at offset [o]. *)
Definition field (o n : nat) (l : list byte) : list byte := take n (drop o l).

Definition geometry_of (l : list byte) : LpMetadataGeometry :=
  mk_geometry (le_field 0 4 l) (le_field 4 4 l) (field 8 32 l) (le_field 40 4 l) (le_field 44 4 l)
    (le_field 48 4 l).

Definition table_of (o : nat) (l : list byte) : LpMetadataTableDescriptor :=
  mk_table (le_field o 4 l) (le_field (o + 4) 4 l) (le_field (o + 8) 4 l).

Definition header_of (l : list byte) : LpMetadataHeader :=
  mk_header (le_field 0 4 l) (le_field 4 2 l) (le_field 6 2 l) (le_field 8 4 l) (field 12 32 l)
    (le_field 44 4 l) (field 48 32 l) (table_of 80 l) (table_of 92 l) (table_of 104 l) (table_of 116 l)
    (le_field 128 4 l) (field 132 124 l).

Definition lp_partition_of (l : list byte) : LpMetadataPartition :=
  mk_lp_partition (field 0 36 l) (le_field 36 4 l) (le_field 40 4 l) (le_field 44 4 l) (le_field 48 4 l).

Definition lp_extent_of (l : list byte) : LpMetadataExtent :=
  mk_lp_extent (le_field 0 8 l) (le_field 8 4 l) (le_field 12 8 l) (le_field 20 4 l).

Definition lp_group_of (l : list byte) : LpMetadataPartitionGroup :=
  mk_lp_group (field 0 36 l) (le_field 36 4 l) (le_field 40 8 l).

Definition block_device_of (l : list byte) : LpMetadataBlockDevice :=
  mk_block_device (le_field 0 8 l) (le_field 8 4 l) (le_field 12 4 l) (le_field 16 8 l) (field 24 36 l)
    (le_field 60 4 l).

(** * Names in fixed arrays (reader.cpp, utility.cpp) *)

(** [strncpy(dst, s, n)]: the bytes before the first NUL, cut at [n], then
    NULs. *)
Definition strncpy (s : list byte) (n : Z) : list byte :=
  let t := ztake n (c_str s) in t ++ zeros (n - zlen t).

Definition NameFromFixedArray (name : list byte) (buffer_size : Z) : list byte :=
  match zlookup name (buffer_size - 1) with
  | Some b => if b2z b =? 0 then c_str name else ztake buffer_size name
  | None => []
  end.

Definition GetPartitionName (p : LpMetadataPartition) : list byte :=
  NameFromFixedArray (p_name p) sizeof_name.
Definition GetPartitionGroupName (g : LpMetadataPartitionGroup) : list byte :=
  NameFromFixedArray (gr_name g) sizeof_name.
Definition GetBlockDevicePartitionName (d : LpMetadataBlockDevice) : list byte :=
  NameFromFixedArray (bd_partition_name d) sizeof_name.

Definition UpdateBlockDevicePartitionName (d : LpMetadataBlockDevice) (name : list byte)
    : option LpMetadataBlockDevice :=
  if sizeof_name <? zlen name then None
  else Some (mk_block_device (first_logical_sector d) (alignment d) (alignment_offset d) (bd_size d)
               (strncpy name sizeof_name) (bd_flags d)).

Definition UpdatePartitionGroupName (g : LpMetadataPartitionGroup) (name : list byte)
    : option LpMetadataPartitionGroup :=
  if sizeof_name <? zlen name then None
  else Some (mk_lp_group (strncpy name sizeof_name) (gr_flags g) (gr_maximum_size g)).

Definition UpdatePartitionName (p : LpMetadataPartition) (name : list byte) : option LpMetadataPartition :=
  if sizeof_name <? zlen name then None
  else Some (mk_lp_partition (strncpy name sizeof_name) (p_attributes p) (first_extent_index p)
               (num_extents p) (group_index p)).

(** * Slots (utility.cpp) *)

Definition SlotNumberForSlotSuffix (suffix : list byte) : Z :=
  if bool_decide (suffix = []) || bool_decide (suffix = bs "a") || bool_decide (suffix = bs "_a") then 0
  else if bool_decide (suffix = bs "b") || bool_decide (suffix = bs "_b") then 1
  else 0.

Definition GetPartitionSlotSuffix (name : list byte) : list byte :=
  if zlen name <=? 2 then []
  else let suffix := zdrop (zlen name - 2) name in
       if bool_decide (suffix = bs "_a") || bool_decide (suffix = bs "_b") then suffix else [].

Definition SlotSuffixForSlotNumber (slot_number : Z) : outcome (list byte) :=
  c_assert ((slot_number =? 0) || (slot_number =? 1));;
  Ret (if slot_number =? 0 then bs "_a" else bs "_b").

(** * Sizes and offsets *)

(** [AlignTo<T>] for an unsigned type of [w] bits; [None] is the return value
    false. *)
Definition AlignTo (w base align : Z) : option Z :=
  if align =? 0 then Some base
  else
    let remainder := base mod align in
    if remainder =? 0 then Some base
    else
      let to_add := align - remainder in
      if (2 ^ w - 1) - base <? to_add then None else Some (base + to_add).

Definition GetPrimaryGeometryOffset : Z := LP_PARTITION_RESERVED_BYTES.
Definition GetBackupGeometryOffset : Z := GetPrimaryGeometryOffset + LP_METADATA_GEOMETRY_SIZE.

(** The products and sums of [uint32_t] and [int] are computed in 32 bits and
    only then converted. *)
Definition GetPrimaryMetadataOffset (g : LpMetadataGeometry) (slot_number : Z) : outcome Z :=
  c_assert (slot_number <? metadata_slot_count g);;
  Ret (u32 (LP_PARTITION_RESERVED_BYTES + LP_METADATA_GEOMETRY_SIZE * 2
            + u32 (metadata_max_size g * slot_number))).

Definition GetBackupMetadataOffset (g : LpMetadataGeometry) (slot_number : Z) : outcome Z :=
  c_assert (slot_number <? metadata_slot_count g);;
  let start := LP_PARTITION_RESERVED_BYTES + LP_METADATA_GEOMETRY_SIZE * 2
               + metadata_max_size g * metadata_slot_count g in
  Ret (start + u32 (metadata_max_size g * slot_number)).

Definition GetTotalMetadataSize (max_size max_slots : Z) : Z :=
  u32 (LP_PARTITION_RESERVED_BYTES
       + u32 (u32 (LP_METADATA_GEOMETRY_SIZE + u32 (max_size * max_slots)) * 2)).

Definition GetMetadataSuperBlockDevice (m : LpMetadata) : option LpMetadataBlockDevice :=
  head (m_block_devices m).

Definition GetTotalSuperPartitionSize (m : LpMetadata) : Z :=
  foldl (fun size d => u64 (size + bd_size d)) 0 (m_block_devices m).

Definition GetBlockDevicePartitionNames (m : LpMetadata) : list (list byte) :=
  GetBlockDevicePartitionName <$> m_block_devices m.

Definition FindLpPartition (m : LpMetadata) (name : list byte) : option LpMetadataPartition :=
  snd <$> list_find (fun p => GetPartitionName p = name) (m_partitions m).

(** The sum over the extents of a partition; the index is a [uint32_t]. *)
Fixpoint partition_size_loop (extents : list LpMetadataExtent) (first i : Z) (n : nat) (total : Z) : outcome Z :=
  match n with
  | O => Ret total
  | S n =>
      match zlookup extents (u32 (first + i)) with
      | None => AssertFail
      | Some e => partition_size_loop extents first (i + 1) n
                    (u64 (total + u64 (e_num_sectors e * LP_SECTOR_SIZE)))
      end
  end.

Definition GetPartitionSize (m : LpMetadata) (p : LpMetadataPartition) : outcome Z :=
  partition_size_loop (m_extents m) (first_extent_index p) 0 (Z.to_nat (num_extents p)) 0.

(** * Changing the slot of a whole table (utility.cpp) *)

(** [name] with its slot suffix replaced. *)
Definition replace_suffix (name suffix target_suffix : list byte) : list byte :=
  ztake (zlen name - zlen suffix) name ++ target_suffix.

(** The loop over the groups of [UpdateMetadataForInPlaceSnapshot]: the groups
    that stay, each with its old index; [None] is a return of false. *)
Fixpoint snapshot_groups (source target : list byte) (i : Z) (groups : list LpMetadataPartitionGroup)
    : option (list (Z * LpMetadataPartitionGroup)) :=
  match groups with
  | [] => Some []
  | g :: groups =>
      let name := GetPartitionGroupName g in
      let suffix := GetPartitionSlotSuffix name in
      if bool_decide (suffix = target) then snapshot_groups source target (i + 1) groups
      else
        g ← (if bool_decide (suffix = source)
             then UpdatePartitionGroupName g (replace_suffix name suffix target) else Some g);
        rest ← snapshot_groups source target (i + 1) groups;
        Some ((i, g) :: rest)
  end.

(** The loop over the partitions; the group of a partition is found by its old
    index. *)
Fixpoint snapshot_partitions (source target : list byte) (num_groups : Z)
    (kept : list (Z * LpMetadataPartitionGroup)) (ps : list LpMetadataPartition)
    : outcome (option (list LpMetadataPartition)) :=
  match ps with
  | [] => Ret (Some [])
  | p :: ps =>
      let name := GetPartitionName p in
      let suffix := GetPartitionSlotSuffix name in
      if bool_decide (suffix = target) then snapshot_partitions source target num_groups kept ps
      else
        match (if bool_decide (suffix = source)
               then UpdatePartitionName p (replace_suffix name suffix target) else Some p) with
        | None => Ret None
        | Some p =>
            c_assert (group_index p <? num_groups);;
            match list_find (fun x => x.1 = group_index p) kept with
            | None => snapshot_partitions source target num_groups kept ps
            | Some (k, _) =>
                r ← snapshot_partitions source target num_groups kept ps;
                Ret (option_map
                       (cons (mk_lp_partition (p_name p) (Z.lor (p_attributes p) LP_PARTITION_ATTR_UPDATED)
                                (first_extent_index p) (num_extents p) (Z.of_nat k))) r)
            end
        end
  end.

Definition UpdateMetadataForInPlaceSnapshot (m : LpMetadata) (source_slot target_slot : Z)
    : outcome (option LpMetadata) :=
  source ← SlotSuffixForSlotNumber source_slot;
  target ← SlotSuffixForSlotNumber target_slot;
  match snapshot_groups source target 0 (m_groups m) with
  | None => Ret None
  | Some kept =>
      r ← snapshot_partitions source target (zlen (m_groups m)) kept (m_partitions m);
      Ret (option_map (fun ps => mk_metadata (m_geometry m) (m_header m) ps (m_extents m)
                                   (snd <$> kept) (m_block_devices m)) r)
  end.

(** [SetMetadataHeaderV0] *)
Definition SetMetadataHeaderV0 (m : LpMetadata) : LpMetadata :=
  let h := m_header m in
  if h_minor_version h <=? LP_METADATA_MINOR_VERSION_MIN then m
  else
    mk_metadata (m_geometry m)
      (mk_header (h_magic h) (h_major_version h) LP_METADATA_MINOR_VERSION_MIN sizeof_headerV1_0
         (header_checksum h) (tables_size h) (tables_checksum h) (h_partitions h) (h_extents h) (h_groups h)
         (h_block_devices h) 0 (zeros 124))
      ((fun p => mk_lp_partition (p_name p) (Z.land (p_attributes p) LP_PARTITION_ATTRIBUTE_MASK_V0)
                   (first_extent_index p) (num_extents p) (group_index p)) <$> m_partitions m)
      (m_extents m) (m_groups m) (m_block_devices m).

(** * Round trips of the layout *)

Lemma field_here n l post : length l = n → field 0 n (l ++ post) = l.
Proof. intros <-. unfold field. rewrite drop_0. apply take_app_length. Qed.

Lemma field_skip o n l post : (length l ≤ o)%nat → field o n (l ++ post) = field (o - length l) n post.
Proof. intros. unfold field. by rewrite drop_app_ge. Qed.

Lemma le_field_skip_list o n l post :
  (length l ≤ o)%nat → le_field o n (l ++ post) = le_field (o - length l) n post.
Proof. intros. unfold le_field. by rewrite drop_app_ge. Qed.

(** Values in the range of their types. *)
Definition is_u16 (z : Z) : Prop := 0 ≤ z < 2 ^ 16.
Definition is_u32 (z : Z) : Prop := 0 ≤ z < 2 ^ 32.
Definition is_u64 (z : Z) : Prop := 0 ≤ z < 2 ^ 64.

Record geometry_ok (g : LpMetadataGeometry) : Prop := {
  go_magic : is_u32 (g_magic g); go_size : is_u32 (g_struct_size g);
  go_checksum : length (g_checksum g) = 32%nat;
  go_max : is_u32 (metadata_max_size g); go_slots : is_u32 (metadata_slot_count g);
  go_block : is_u32 (logical_block_size g)
}.

Definition table_ok (t : LpMetadataTableDescriptor) : Prop :=
  is_u32 (t_offset t) ∧ is_u32 (num_entries t) ∧ is_u32 (entry_size t).

Record header_ok (h : LpMetadataHeader) : Prop := {
  ho_magic : is_u32 (h_magic h); ho_major : is_u16 (h_major_version h);
  ho_minor : is_u16 (h_minor_version h); ho_size : is_u32 (header_size h);
  ho_hsum : length (header_checksum h) = 32%nat; ho_tables : is_u32 (tables_size h);
  ho_tsum : length (tables_checksum h) = 32%nat;
  ho_p : table_ok (h_partitions h); ho_e : table_ok (h_extents h);
  ho_g : table_ok (h_groups h); ho_b : table_ok (h_block_devices h);
  ho_flags : is_u32 (h_flags h); ho_reserved : length (h_reserved h) = 124%nat
}.

Definition lp_partition_ok (p : LpMetadataPartition) : Prop :=
  length (p_name p) = 36%nat ∧ is_u32 (p_attributes p) ∧ is_u32 (first_extent_index p) ∧
  is_u32 (num_extents p) ∧ is_u32 (group_index p).

Definition lp_extent_ok (e : LpMetadataExtent) : Prop :=
  is_u64 (e_num_sectors e) ∧ is_u32 (target_type e) ∧ is_u64 (target_data e) ∧ is_u32 (target_source e).

Definition lp_group_ok (g : LpMetadataPartitionGroup) : Prop :=
  length (gr_name g) = 36%nat ∧ is_u32 (gr_flags g) ∧ is_u64 (gr_maximum_size g).

Definition block_device_ok (d : LpMetadataBlockDevice) : Prop :=
  is_u64 (first_logical_sector d) ∧ is_u32 (alignment d) ∧ is_u32 (alignment_offset d) ∧
  is_u64 (bd_size d) ∧ length (bd_partition_name d) = 36%nat ∧ is_u32 (bd_flags d).

Ltac known_lengths :=
  repeat match goal with H : length ?l = _ |- context [length ?l] => rewrite H end.

(** Steps over the fields in front of the one that is read. *)
Ltac to_field :=
  repeat (first [rewrite le_field_skip_list | rewrite field_skip];
          [rewrite ?length_le_bytes; known_lengths; cbn [Nat.sub Nat.add]
          |rewrite ?length_le_bytes; known_lengths; lia]).

Ltac solve_field :=
  to_field;
  first [ rewrite le_field_here; apply Z.mod_small; cbn [Z.of_nat Pos.of_succ_nat Pos.succ]; lia
        | rewrite <- (app_nil_r (le_bytes _ _)), le_field_here; apply Z.mod_small;
          cbn [Z.of_nat Pos.of_succ_nat Pos.succ]; lia
        | apply field_here; done ].

Lemma geometry_roundtrip g post : geometry_ok g → geometry_of (geometry_bytes g ++ post) = g.
Proof.
  intros [H1 H2 H3 H4 H5 H6]. destruct g as [a b c d e f]. unfold is_u32 in *.
  cbn [g_magic g_struct_size g_checksum metadata_max_size metadata_slot_count logical_block_size] in *.
  unfold geometry_of, geometry_bytes.
  cbn [g_magic g_struct_size g_checksum metadata_max_size metadata_slot_count logical_block_size].
  rewrite <- !app_assoc. f_equal; solve_field.
Qed.

Lemma lp_partition_roundtrip p post :
  lp_partition_ok p → lp_partition_of (lp_partition_bytes p ++ post) = p.
Proof.
  intros (H1 & H2 & H3 & H4 & H5). destruct p as [a b c d e]. unfold is_u32 in *.
  cbn [p_name p_attributes first_extent_index num_extents group_index] in *.
  unfold lp_partition_of, lp_partition_bytes.
  cbn [p_name p_attributes first_extent_index num_extents group_index].
  rewrite <- !app_assoc. f_equal; solve_field.
Qed.

Lemma lp_extent_roundtrip e post : lp_extent_ok e → lp_extent_of (lp_extent_bytes e ++ post) = e.
Proof.
  intros (H1 & H2 & H3 & H4). destruct e as [a b c d]. unfold is_u32, is_u64 in *.
  cbn [e_num_sectors target_type target_data target_source] in *.
  unfold lp_extent_of, lp_extent_bytes. cbn [e_num_sectors target_type target_data target_source].
  rewrite <- !app_assoc. f_equal; solve_field.
Qed.

Lemma lp_group_roundtrip g post : lp_group_ok g → lp_group_of (lp_group_bytes g ++ post) = g.
Proof.
  intros (H1 & H2 & H3). destruct g as [a b c]. unfold is_u32, is_u64 in *.
  cbn [gr_name gr_flags gr_maximum_size] in *.
  unfold lp_group_of, lp_group_bytes. cbn [gr_name gr_flags gr_maximum_size].
  rewrite <- !app_assoc. f_equal; solve_field.
Qed.

Lemma block_device_roundtrip d post :
  block_device_ok d → block_device_of (block_device_bytes d ++ post) = d.
Proof.
  intros (H1 & H2 & H3 & H4 & H5 & H6). destruct d as [a b c d e f]. unfold is_u32, is_u64 in *.
  cbn [first_logical_sector alignment alignment_offset bd_size bd_partition_name bd_flags] in *.
  unfold block_device_of, block_device_bytes.
  cbn [first_logical_sector alignment alignment_offset bd_size bd_partition_name bd_flags].
  rewrite <- !app_assoc. f_equal; solve_field.
Qed.

Lemma header_roundtrip h post : header_ok h → header_of (header_bytes h ++ post) = h.
Proof.
  intros [H1 H2 H3 H4 H5 H6 H7 (A1 & A2 & A3) (B1 & B2 & B3) (C1 & C2 & C3) (D1 & D2 & D3) H8 H9].
  destruct h as [a b c d e f g [p1 p2 p3] [q1 q2 q3] [r1 r2 r3] [s1 s2 s3] i j].
  unfold is_u16, is_u32 in *.
  cbn [h_magic h_major_version h_minor_version header_size header_checksum tables_size tables_checksum
       h_partitions h_extents h_groups h_block_devices h_flags h_reserved t_offset num_entries
       entry_size] in *.
  unfold header_of, header_bytes, table_of, table_bytes.
  cbn [h_magic h_major_version h_minor_version header_size header_checksum tables_size tables_checksum
       h_partitions h_extents h_groups h_block_devices h_flags h_reserved t_offset num_entries
       entry_size].
  rewrite <- !app_assoc. cbn [Nat.add]. f_equal; try (f_equal; solve_field); solve_field.
Qed.

Ltac solve_length :=
  unfold zlen; rewrite !length_app, ?length_le_bytes; known_lengths; done.

Lemma zlen_geometry_bytes g : geometry_ok g → zlen (geometry_bytes g) = sizeof_geometry.
Proof. intros []. unfold geometry_bytes. solve_length. Qed.

Lemma zlen_lp_partition_bytes p : lp_partition_ok p → zlen (lp_partition_bytes p) = sizeof_partition.
Proof. intros (H & _). unfold lp_partition_bytes. solve_length. Qed.

Lemma zlen_lp_extent_bytes e : zlen (lp_extent_bytes e) = sizeof_extent.
Proof. unfold lp_extent_bytes. solve_length. Qed.

Lemma zlen_lp_group_bytes g : lp_group_ok g → zlen (lp_group_bytes g) = sizeof_group.
Proof. intros (H & _). unfold lp_group_bytes. solve_length. Qed.

Lemma zlen_block_device_bytes d : block_device_ok d → zlen (block_device_bytes d) = sizeof_block_device.
Proof. intros (_ & _ & _ & _ & H & _). unfold block_device_bytes. solve_length. Qed.

Lemma zlen_header_bytes h : header_ok h → zlen (header_bytes h) = sizeof_header.
Proof. intros []. unfold header_bytes, table_bytes. solve_length. Qed.

(** * Names and alignment *)

Definition no_nul (s : list byte) : Prop := Forall (λ b, b ≠ x00) s.

Lemma b2z_nul b : (b2z b =? 0) = bool_decide (b = x00).
Proof.
  destruct (Z.eqb_spec (b2z b) 0) as [E|E].
  - symmetry. apply bool_decide_eq_true_2. by apply b2z_inj.
  - symmetry. apply bool_decide_eq_false_2. by intros ->.
Qed.

Lemma c_str_no_nul s : no_nul s → c_str s = s.
Proof.
  induction 1 as [|b s Hb Hs IH]; [done|]. cbn [c_str]. rewrite b2z_nul, IH.
  by rewrite bool_decide_eq_false_2.
Qed.

Lemma c_str_app_nul s l : no_nul s → c_str (s ++ x00 :: l) = s.
Proof.
  induction 1 as [|b s Hb Hs IH]; [done|]. cbn [app c_str]. rewrite b2z_nul, IH.
  by rewrite bool_decide_eq_false_2.
Qed.

Lemma length_strncpy s n : 0 ≤ n → zlen (strncpy s n) = n.
Proof.
  intros Hn. unfold strncpy. rewrite zlen_app.
  assert (zlen (ztake n (c_str s)) ≤ n).
  { unfold zlen, ztake. rewrite length_take. lia. }
  rewrite zlen_zeros by lia. lia.
Qed.

(** A name of at most 36 bytes without a NUL survives the fixed array. *)
Lemma name_roundtrip s : no_nul s → zlen s ≤ sizeof_name →
  NameFromFixedArray (strncpy s sizeof_name) sizeof_name = s.
Proof.
  intros Hs Hl. unfold strncpy. rewrite c_str_no_nul, ztake_all by done.
  unfold NameFromFixedArray. pose proof (zlen_nonneg s).
  destruct (decide (zlen s = sizeof_name)) as [E|E].
  - rewrite E, Z.sub_diag. change (zeros 0) with (@nil byte). rewrite app_nil_r.
    destruct (zlookup s (sizeof_name - 1)) as [b|] eqn:Eb.
    + assert (b ≠ x00) as Hb.
      { unfold zlookup in Eb. destruct (_ <? 0); [done|]. by eapply (Forall_lookup_1 _ _ _ _ Hs). }
      rewrite b2z_nul, bool_decide_eq_false_2 by done. apply ztake_all. lia.
    + destruct (zlookup_is_Some s (sizeof_name - 1)) as [? E']; [unfold sizeof_name in *; lia|congruence].
  - rewrite zlookup_app_r by lia. rewrite zlookup_zeros by lia. change (b2z x00 =? 0) with true.
    cbv iota. replace (sizeof_name - zlen s) with (1 + (sizeof_name - zlen s - 1)) by lia.
    rewrite zeros_add by lia. by apply c_str_app_nul.
Qed.

(** [AlignTo] gives the least multiple of the alignment that is not below, or
    reports that it does not fit the type. *)
Lemma AlignTo_spec w base align r :
  0 ≤ w → 0 ≤ base < 2 ^ w → 0 ≤ align → AlignTo w base align = Some r →
  base ≤ r < 2 ^ w ∧ (align = 0 → r = base) ∧
  (0 < align → r mod align = 0 ∧ r < base + align).
Proof.
  intros Hw Hb Ha. unfold AlignTo. destruct (Z.eqb_spec align 0) as [->|Hne].
  { intros [= <-]. split_and!; lia. }
  pose proof (Z.mod_pos_bound base align ltac:(lia)) as Hm.
  destruct (Z.eqb_spec (base mod align) 0) as [E|E].
  { intros [= <-]. split_and!; try lia. }
  destruct (Z.ltb_spec (2 ^ w - 1 - base) (align - base mod align)); [done|]. intros [= <-].
  split_and!; try lia. intros _. split; [|lia].
  pose proof (Z.div_mod base align ltac:(lia)).
  replace (base + (align - base mod align)) with ((base / align + 1) * align) by lia.
  apply Z.mod_mul. lia.
Qed.

Lemma AlignTo_None w base align :
  0 ≤ base → 0 ≤ align → AlignTo w base align = None → 2 ^ w ≤ base + align.
Proof.
  intros Hb Ha. unfold AlignTo. destruct (Z.eqb_spec align 0); [done|].
  destruct (Z.eqb_spec (base mod align) 0); [done|].
  destruct (Z.ltb_spec (2 ^ w - 1 - base) (align - base mod align)); [|done].
  pose proof (Z.mod_pos_bound base align ltac:(lia)). intros _. lia.
Qed.

Lemma AlignTo_multiple w base align : base mod align = 0 → AlignTo w base align = Some base.
Proof.
  intros E. unfold AlignTo. destruct (align =? 0); [done|]. by rewrite E.
Qed.
