(* ===== verification/LpBuilder.v ===== *)
(** The builder of logical partition tables
    (system/core/fs_mgr/liblp/builder.cpp and include/liblp/builder.h).

    A [Partition*] of the sources is the position of the partition in
    [partitions_] at the time of the call.  [CHECK] and accesses outside a vector
    stop the run ([AssertFail]); [DCHECK] is compiled out of release builds and
    is not modelled.  The properties the builder asks the system for are
    parameters. *)

From Stdlib Require Import Strings.String.
From stdpp Require Import sorting.
From S2P Require Import Prelude LibBase SparseFormat LpFormat.
Open Scope Z_scope.

(** * Extents *)

Inductive Extent : Type :=
| LinearExtent (num_sectors device_index physical_sector : Z)
| ZeroExtent (num_sectors : Z).

#[export] Instance Extent_eq_dec : EqDecision Extent.
Proof. solve_decision. Defined.

Definition num_sectors (e : Extent) : Z :=
  match e with LinearExtent n _ _ => n | ZeroExtent n => n end.

Definition set_num_sectors (n : Z) (e : Extent) : Extent :=
  match e with LinearExtent _ d p => LinearExtent n d p | ZeroExtent _ => ZeroExtent n end.

Record Interval : Type := mk_interval { device_index : Z; start : Z; end_ : Z }.

Definition interval_length (i : Interval) : Z := u64 (end_ i - start i).

(** [operator<] orders by start and then by end; sorting with it is sorting
    with this order. *)
Definition interval_le (a b : Interval) : Prop :=
  start a < start b ∨ (start a = start b ∧ end_ a ≤ end_ b).
#[export] Instance interval_le_dec : RelDecision interval_le.
Proof. intros a b. unfold interval_le. apply _. Defined.

Definition AsInterval (n d p : Z) : Interval := mk_interval d p (u64 (p + n)).

(** [LinearExtent::OverlapsWith(const Interval&)]; for another extent it is the
    same test with its interval. *)
Definition OverlapsWith (n d p : Z) (i : Interval) : bool :=
  (d =? device_index i) && (p <? end_ i) && (start i <? u64 (p + n)).

Definition AsExtent (i : Interval) : Extent := LinearExtent (interval_length i) (device_index i) (start i).

(** [Extent::AddTo]: [None] is the return value false. *)
Definition AddTo (e : Extent) (num_devices : Z) : option LpMetadataExtent :=
  match e with
  | LinearExtent n d p =>
      if num_devices <=? d then None else Some (mk_lp_extent n LP_TARGET_TYPE_LINEAR p d)
  | ZeroExtent n => Some (mk_lp_extent n LP_TARGET_TYPE_ZERO 0 0)
  end.

(** * Partitions *)

Record Partition : Type := mk_partition {
  name_ : list byte;
  group_name_ : list byte;
  extents_ : list Extent;
  attributes_ : Z;
  size_ : Z
}.

Definition Partition_new (name group_name : list byte) (attributes : Z) : Partition :=
  mk_partition name group_name [] attributes 0.

Definition set_extents (es : list Extent) (size : Z) (p : Partition) : Partition :=
  mk_partition (name_ p) (group_name_ p) es (attributes_ p) size.

(** The list with [e] behind it, merged with the last extent when both are
    linear and adjacent on the same device. *)
Definition push_extent (es : list Extent) (e : Extent) : list Extent :=
  match e, last es with
  | LinearExtent n d p, Some (LinearExtent n0 d0 p0) =>
      if (u64 (p0 + n0) =? p) && (d0 =? d)
      then take (length es - 1) es ++ [LinearExtent (u64 (n0 + n)) d0 p0]
      else es ++ [e]
  | _, _ => es ++ [e]
  end.

Definition AddExtent (e : Extent) (p : Partition) : Partition :=
  set_extents (push_extent (extents_ p) e) (u64 (size_ p + u64 (num_sectors e * LP_SECTOR_SIZE))) p.

Definition RemoveExtents (p : Partition) : Partition := set_extents [] 0 p.

(** The loop of [ShrinkTo], on the extents from the last to the first. *)
Fixpoint shrink_loop (rev_extents : list Extent) (sectors_to_remove size : Z)
    : outcome (list Extent * Z) :=
  if sectors_to_remove =? 0 then Ret (rev_extents, size)
  else
    match rev_extents with
    | [] => AssertFail
    | e :: rest =>
        if sectors_to_remove <? num_sectors e
        then Ret (set_num_sectors (u64 (num_sectors e - sectors_to_remove)) e :: rest,
                  u64 (size - u64 (sectors_to_remove * LP_SECTOR_SIZE)))
        else shrink_loop rest (u64 (sectors_to_remove - num_sectors e))
               (u64 (size - u64 (num_sectors e * LP_SECTOR_SIZE)))
    end.

Definition ShrinkTo (aligned_size : Z) (p : Partition) : outcome Partition :=
  if aligned_size =? 0 then Ret (RemoveExtents p)
  else
    '(es, size) ← shrink_loop (reverse (extents_ p)) (u64 (size_ p - aligned_size) / LP_SECTOR_SIZE) (size_ p);
    Ret (set_extents (reverse es) size p).

Definition GetBeginningExtents (aligned_size : Z) (p : Partition) : outcome Partition :=
  ShrinkTo aligned_size
    (foldl (fun q e => AddExtent e q) (Partition_new (name_ p) (group_name_ p) (attributes_ p)) (extents_ p)).

Definition BytesOnDisk (p : Partition) : Z :=
  u64 (foldl (fun sectors e => match e with LinearExtent n _ _ => u64 (sectors + n) | _ => sectors end)
         0 (extents_ p) * LP_SECTOR_SIZE).

Record PartitionGroup : Type := mk_group { g_name : list byte; maximum_size : Z }.

(** * The builder *)

Record MetadataBuilder : Type := mk_builder {
  geometry_ : LpMetadataGeometry;
  header_ : LpMetadataHeader;
  partitions_ : list Partition;
  groups_ : list PartitionGroup;
  block_devices_ : list LpMetadataBlockDevice;
  auto_slot_suffixing_ : bool
}.

Definition set_geometry (g : LpMetadataGeometry) (b : MetadataBuilder) : MetadataBuilder :=
  mk_builder g (header_ b) (partitions_ b) (groups_ b) (block_devices_ b) (auto_slot_suffixing_ b).
Definition set_header (h : LpMetadataHeader) (b : MetadataBuilder) : MetadataBuilder :=
  mk_builder (geometry_ b) h (partitions_ b) (groups_ b) (block_devices_ b) (auto_slot_suffixing_ b).
Definition set_partitions (ps : list Partition) (b : MetadataBuilder) : MetadataBuilder :=
  mk_builder (geometry_ b) (header_ b) ps (groups_ b) (block_devices_ b) (auto_slot_suffixing_ b).
Definition set_groups (gs : list PartitionGroup) (b : MetadataBuilder) : MetadataBuilder :=
  mk_builder (geometry_ b) (header_ b) (partitions_ b) gs (block_devices_ b) (auto_slot_suffixing_ b).
Definition set_block_devices (ds : list LpMetadataBlockDevice) (b : MetadataBuilder) : MetadataBuilder :=
  mk_builder (geometry_ b) (header_ b) (partitions_ b) (groups_ b) ds (auto_slot_suffixing_ b).

Definition kDefaultGroup : list byte := bs "default".

(** The constructor. *)
Definition MetadataBuilder_new : MetadataBuilder :=
  mk_builder
    (mk_geometry LP_METADATA_GEOMETRY_MAGIC sizeof_geometry (zeros 32) 0 0 0)
    (mk_header LP_METADATA_HEADER_MAGIC LP_METADATA_MAJOR_VERSION LP_METADATA_MINOR_VERSION_MIN
       sizeof_headerV1_0 (zeros 32) 0 (zeros 32) (mk_table 0 0 sizeof_partition)
       (mk_table 0 0 sizeof_extent) (mk_table 0 0 sizeof_group) (mk_table 0 0 sizeof_block_device)
       0 (zeros 124))
    [] [] [] false.

(** ** Names *)

Definition FindPartition (name : list byte) (b : MetadataBuilder) : option (nat * Partition) :=
  list_find (fun p => name_ p = name) (partitions_ b).

Definition FindGroup (name : list byte) (b : MetadataBuilder) : option (nat * PartitionGroup) :=
  list_find (fun g => g_name g = name) (groups_ b).

Definition block_device_name (index : Z) (b : MetadataBuilder) : list byte :=
  match zlookup (block_devices_ b) index with Some d => GetBlockDevicePartitionName d | None => [] end.

Definition FindBlockDeviceByName (name : list byte) (b : MetadataBuilder) : option nat :=
  fst <$> list_find (fun d => GetBlockDevicePartitionName d = name) (block_devices_ b).

Definition HasBlockDevice (name : list byte) (b : MetadataBuilder) : bool :=
  match FindBlockDeviceByName name b with Some _ => true | None => false end.

Definition ListGroups (b : MetadataBuilder) : list (list byte) := g_name <$> groups_ b.

Definition ListPartitionsInGroup (name : list byte) (b : MetadataBuilder) : list Partition :=
  filter (fun p => group_name_ p = name) (partitions_ b).

(** ** Groups and partitions *)

Definition AddGroup (name : list byte) (max : Z) : M MetadataBuilder bool := fun b =>
  match FindGroup name b with
  | Some _ => Ret (false, b)
  | None => Ret (true, set_groups (groups_ b ++ [mk_group name max]) b)
  end.

(** [None] is the null pointer. *)
Definition AddPartition (name group_name : list byte) (attributes : Z)
    : M MetadataBuilder (option nat) := fun b =>
  if zlen name =? 0 then Ret (None, b)
  else if bool_decide (is_Some (FindPartition name b)) then Ret (None, b)
  else if negb (bool_decide (is_Some (FindGroup group_name b))) then Ret (None, b)
  else Ret (Some (length (partitions_ b)),
            set_partitions (partitions_ b ++ [Partition_new name group_name attributes]) b).

Definition RemovePartition (name : list byte) (b : MetadataBuilder) : MetadataBuilder :=
  match FindPartition name b with
  | Some (i, _) => set_partitions (delete i (partitions_ b)) b
  | None => b
  end.

Definition RemoveGroupAndPartitions (name : list byte) (b : MetadataBuilder) : MetadataBuilder :=
  if bool_decide (name = kDefaultGroup) then b
  else
    let names := name_ <$> ListPartitionsInGroup name b in
    let b := foldl (fun b n => RemovePartition n b) b names in
    match FindGroup name b with
    | Some (i, _) => set_groups (delete i (groups_ b)) b
    | None => b
    end.

Definition ChangePartitionGroup (i : nat) (group_name : list byte) : M MetadataBuilder bool := fun b =>
  match FindGroup group_name b, partitions_ b !! i with
  | None, _ => Ret (false, b)
  | Some _, Some p =>
      Ret (true, set_partitions
                   (<[i := mk_partition (name_ p) group_name (extents_ p) (attributes_ p) (size_ p)]>
                      (partitions_ b)) b)
  | Some _, None => AssertFail
  end.

Definition ChangeGroupSize (name : list byte) (max : Z) : M MetadataBuilder bool := fun b =>
  if bool_decide (name = kDefaultGroup) then Ret (false, b)
  else match FindGroup name b with
       | None => Ret (false, b)
       | Some (i, g) => Ret (true, set_groups (<[i := mk_group (g_name g) max]> (groups_ b)) b)
       end.

Definition TotalSizeOfGroup (name : list byte) (b : MetadataBuilder) : Z :=
  foldl (fun total p => if bool_decide (group_name_ p = name) then u64 (total + BytesOnDisk p) else total)
    0 (partitions_ b).

Definition ValidatePartitionGroups (b : MetadataBuilder) : bool :=
  forallb (fun g => (maximum_size g =? 0) || (TotalSizeOfGroup (g_name g) b <=? maximum_size g)) (groups_ b).

Definition AllocatableSpace (b : MetadataBuilder) : Z :=
  foldl (fun total d => u64 (total + u64 (bd_size d - u64 (first_logical_sector d * LP_SECTOR_SIZE))))
    0 (block_devices_ b).

Definition UsedSpace (b : MetadataBuilder) : Z :=
  foldl (fun total p => u64 (total + size_ p)) 0 (partitions_ b).

(** ** Block devices *)

Definition VerifyDeviceProperties (i : BlockDeviceInfo) : bool :=
  negb (i_logical_block_size i =? 0)
  && (i_logical_block_size i mod LP_SECTOR_SIZE =? 0)
  && (i_size i mod i_logical_block_size i =? 0)
  && (i_alignment_offset i mod LP_SECTOR_SIZE =? 0)
  && (i_alignment i mod LP_SECTOR_SIZE =? 0).

(** The first free sector behind [area] bytes. *)
Definition free_area_sector (area align block_size : Z) : option Z :=
  s ← AlignTo 64 area (if negb (align =? 0) then align else block_size);
  Some (s / LP_SECTOR_SIZE).

(** One device of the list given to [Init]; [None] is a return of false. *)
Definition init_device (logical_block_size : Z) (i : BlockDeviceInfo) : option LpMetadataBlockDevice :=
  if negb (VerifyDeviceProperties i) then None
  else if negb (logical_block_size =? i_logical_block_size i) then None
  else if sizeof_name <? zlen (i_partition_name i) then None
  else
    first ← free_area_sector LP_SECTOR_SIZE (i_alignment i) logical_block_size;
    let minimum_size := u64 (first * LP_SECTOR_SIZE + logical_block_size) in
    if i_size i <? minimum_size then None
    else Some (mk_block_device first (i_alignment i) (i_alignment_offset i) (i_size i)
                 (strncpy (i_partition_name i) sizeof_name) 0).

Fixpoint init_devices (infos : list BlockDeviceInfo) (super_partition : list byte)
    (logical_block_size : Z) (devices : list LpMetadataBlockDevice)
    : option (Z * list LpMetadataBlockDevice) :=
  match infos with
  | [] => Some (logical_block_size, devices)
  | i :: infos =>
      let lbs := if logical_block_size =? 0 then i_logical_block_size i else logical_block_size in
      d ← init_device lbs i;
      init_devices infos super_partition lbs
        (if bool_decide (i_partition_name i = super_partition) then d :: devices else devices ++ [d])
  end.

(** [Init(block_devices, ...)]: [None] is the return value false. *)
Definition Init (infos : list BlockDeviceInfo) (super_partition : list byte)
    (max_size slot_count : Z) (b : MetadataBuilder) : option MetadataBuilder :=
  if max_size <? sizeof_header then None
  else if slot_count =? 0 then None
  else match infos with [] => None | _ =>
    max_size ← AlignTo 32 max_size LP_SECTOR_SIZE;
    '(lbs, devices) ← init_devices infos super_partition 0 (block_devices_ b);
    match devices with
    | [] => None
    | super :: rest =>
        if negb (bool_decide (GetBlockDevicePartitionName super = super_partition)) then None
        else
          let total_reserved := GetTotalMetadataSize max_size slot_count in
          if bd_size super <? total_reserved then None
          else
            first ← free_area_sector total_reserved (alignment super) lbs;
            let minimum_disk_size := u64 (u64 (first * LP_SECTOR_SIZE) + lbs) in
            if bd_size super <? minimum_disk_size then None
            else
              let super := mk_block_device first (alignment super) (alignment_offset super)
                             (bd_size super) (bd_partition_name super) (bd_flags super) in
              let g := geometry_ b in
              let g := mk_geometry (g_magic g) (g_struct_size g) (g_checksum g) max_size slot_count lbs in
              match AddGroup kDefaultGroup 0 (set_geometry g (set_block_devices (super :: rest) b)) with
              | Ret (true, b) => Some b
              | _ => None
              end
    end
  end.

(** [New(block_devices, ...)] *)
Definition New (infos : list BlockDeviceInfo) (super_partition : list byte) (max_size slot_count : Z)
    : option MetadataBuilder :=
  Init infos super_partition max_size slot_count MetadataBuilder_new.

Definition GetBlockDeviceInfo (name : list byte) (b : MetadataBuilder) : option BlockDeviceInfo :=
  i ← FindBlockDeviceByName name b;
  d ← block_devices_ b !! i;
  Some (mk_device_info (bd_size d) (alignment d) (alignment_offset d)
          (logical_block_size (geometry_ b)) name).

Definition UpdateBlockDeviceInfoAt (i : nat) (info : BlockDeviceInfo) : M MetadataBuilder bool := fun b =>
  match block_devices_ b !! i with
  | None => AssertFail
  | Some d =>
      if negb (i_size info =? bd_size d) then Ret (false, b)
      else if i_logical_block_size info =? 0 then AssertFail (* division by zero *)
      else if negb (logical_block_size (geometry_ b) mod i_logical_block_size info =? 0) then Ret (false, b)
      else
        let d := mk_block_device (first_logical_sector d)
                   (if negb (i_alignment info =? 0) then i_alignment info else alignment d)
                   (if negb (i_alignment_offset info =? 0) then i_alignment_offset info
                    else alignment_offset d)
                   (bd_size d) (bd_partition_name d) (bd_flags d) in
        Ret (true, set_block_devices (<[i := d]> (block_devices_ b)) b)
  end.

Definition UpdateBlockDeviceInfo (name : list byte) (info : BlockDeviceInfo) : M MetadataBuilder bool := fun b =>
  match FindBlockDeviceByName name b with
  | None => Ret (false, b)
  | Some i => UpdateBlockDeviceInfoAt i info b
  end.

(** [None] is an overflow. *)
Definition AlignSector (d : LpMetadataBlockDevice) (sector : Z) : option Z :=
  let lba := u64 (sector * LP_SECTOR_SIZE) in
  out ← AlignTo 64 lba (alignment d);
  out ← AlignTo 64 out LP_SECTOR_SIZE;
  Some (out / LP_SECTOR_SIZE).

(** ** Free regions *)

(** The loop of [ExtentsToFreeList] over consecutive intervals of a device. *)
Fixpoint ExtentsToFreeList (d : LpMetadataBlockDevice) (extents : list Interval) : list Interval :=
  match extents with
  | previous :: ((current :: _) as rest) =>
      match AlignSector d (end_ previous) with
      | None => ExtentsToFreeList d rest
      | Some aligned =>
          if start current <=? aligned then ExtentsToFreeList d rest
          else mk_interval (device_index current) aligned (start current) :: ExtentsToFreeList d rest
      end
  | _ => []
  end.

Definition all_extents (b : MetadataBuilder) : list Extent := partitions_ b ≫= extents_.

(** The intervals of the linear extents on device [i], in table order. *)
Definition device_intervals (i : Z) (es : list Extent) : list Interval :=
  omap (fun e => match e with
                 | LinearExtent n d p => if d =? i then Some (AsInterval n d p) else None
                 | ZeroExtent _ => None
                 end) es.

Definition device_free_regions (es : list Extent) (i : Z) (d : LpMetadataBlockDevice) : list Interval :=
  let first_sector := first_logical_sector d in
  let last_sector := bd_size d / LP_SECTOR_SIZE in
  ExtentsToFreeList d
    (merge_sort interval_le
       (device_intervals i es ++ [mk_interval i first_sector first_sector;
                                  mk_interval i last_sector last_sector])).

Definition extent_device_ok (num_devices : Z) (e : Extent) : bool :=
  match e with LinearExtent _ d _ => d <? num_devices | ZeroExtent _ => true end.

Definition GetFreeRegions (b : MetadataBuilder) : outcome (list Interval) :=
  let es := all_extents b in
  c_assert (forallb (extent_device_ok (zlen (block_devices_ b))) es);;
  Ret (concat (imap (fun i d => device_free_regions es (Z.of_nat i) d) (block_devices_ b))).

Definition Intersect (a b : Interval) : Interval :=
  if negb (device_index a =? device_index b) then mk_interval (device_index a) (start a) (start a)
  else
    let s := Z.max (start a) (start b) in
    mk_interval (device_index a) s (Z.max s (Z.min (end_ a) (end_ b))).

Definition IntersectLists (a b : list Interval) : list Interval :=
  a ≫= fun x => b ≫= fun y => let r := Intersect x y in if 0 <? interval_length r then [r] else [].

Definition IsAnyRegionCovered (regions : list Interval) (n d p : Z) : bool :=
  existsb (OverlapsWith n d p) regions.

Definition IsAnyRegionAllocated (b : MetadataBuilder) (n d p : Z) : bool :=
  existsb (fun e => match e with
                    | LinearExtent n' d' p' => OverlapsWith n' d' p' (AsInterval n d p)
                    | ZeroExtent _ => false
                    end) (all_extents b).

(** The split of one region at the midpoint: its parts for the first and the
    second half. *)
Definition split_region (midpoint : Z) (r : Interval) : list Interval * list Interval :=
  if negb (device_index r =? 0) || (end_ r <=? midpoint) then ([r], [])
  else if (start r <? midpoint) && (midpoint <? end_ r)
  then ([mk_interval (device_index r) (start r) midpoint], [mk_interval (device_index r) midpoint (end_ r)])
  else ([], [r]).

Definition PrioritizeSecondHalfOfSuper (b : MetadataBuilder) (free_list : list Interval)
    : outcome (list Interval) :=
  match block_devices_ b with
  | [] => AssertFail
  | super :: _ =>
      let first_sector := first_logical_sector super in
      let last_sector := bd_size super / LP_SECTOR_SIZE in
      let midpoint := u64 (first_sector + u64 (last_sector - first_sector) / 2) in
      match AlignSector super midpoint with
      | None => Ret free_list
      | Some midpoint =>
          let parts := split_region midpoint <$> free_list in
          Ret ((parts ≫= snd) ++ (parts ≫= fst))
      end
  end.

(** [ExtendFinalExtent]: the new extent's size, device and sector. *)
Definition ExtendFinalExtent (b : MetadataBuilder) (p : Partition) (free_list : list Interval)
    (sectors_needed : Z) : outcome (option (Z * Z * Z)) :=
  match last (extents_ p) with
  | Some (LinearExtent n d s) =>
      match zlookup (block_devices_ b) d with
      | None => AssertFail
      | Some device =>
          let end_sector := u64 (s + n) in
          match AlignSector device end_sector with
          | None => Ret None
          | Some next_aligned_sector =>
              if end_sector =? next_aligned_sector then Ret None
              else
                let num := Z.min (u64 (next_aligned_sector - end_sector)) sectors_needed in
                if IsAnyRegionAllocated b num d end_sector || IsAnyRegionCovered free_list num d end_sector
                then Ret None
                else Ret (Some (num, d, end_sector))
          end
      end
  | _ => Ret None
  end.

(** The loop of [GrowPartition] over the free regions: the new extents and the
    sectors that are still needed. *)
Fixpoint take_regions (sectors_per_block : Z) (regions : list Interval) (sectors_needed : Z)
    : outcome (list Extent * Z) :=
  match regions with
  | [] => Ret ([], sectors_needed)
  | region :: rest =>
      if sectors_needed =? 0 then Ret ([], 0)
      else
        let '(region, skip) :=
          if negb (interval_length region mod sectors_per_block =? 0)
          then
            let region := mk_interval (device_index region) (start region)
              (u64 (start region + interval_length region / sectors_per_block * sectors_per_block)) in
            (region, interval_length region =? 0)
          else (region, false) in
        if skip : bool then take_regions sectors_per_block rest sectors_needed
        else
          let sectors := Z.min sectors_needed (interval_length region) in
          c_assert (sectors mod sectors_per_block =? 0);;
          '(es, needed) ← take_regions sectors_per_block rest (u64 (sectors_needed - sectors));
          Ret (LinearExtent sectors (device_index region) (start region) :: es, needed)
  end.

(** ** Resizing *)

Definition ValidatePartitionSizeChange (p : Partition) (old_size new_size : Z) (force_check : bool)
    (b : MetadataBuilder) : outcome bool :=
  match FindGroup (group_name_ p) b with
  | None => AssertFail
  | Some (_, group) =>
      if negb force_check && (new_size <=? old_size) then Ret true
      else
        let space_needed := u64 (new_size - old_size) in
        if 0 <? maximum_size group then
          let group_size := TotalSizeOfGroup (g_name group) b in
          Ret (negb ((maximum_size group <=? group_size)
                     || (u64 (maximum_size group - group_size) <? space_needed)))
        else Ret true
  end.

Section properties.

(** [IPropertyFetcher]: [GetProperty(key, default)] and
    [GetBoolProperty(key, default)]. *)
Context (GetProperty : list byte → list byte → list byte).
Context (GetBoolProperty : list byte → bool → bool).

Definition IsABDevice : bool := negb (bool_decide (GetProperty (bs "ro.boot.slot_suffix") [] = [])).

Definition IsRetrofitDynamicPartitionsDevice : bool :=
  GetBoolProperty (bs "ro.boot.dynamic_partitions_retrofit") false.

Definition ShouldHalveSuper (b : MetadataBuilder) : bool :=
  bool_decide (block_device_name 0 b = LP_METADATA_DEFAULT_PARTITION_NAME)
  && negb (GetBoolProperty (bs "ro.virtual_ab.enabled") false).

(** [GrowPartition] on partition [i]. *)
Definition GrowPartition (i : nat) (p : Partition) (aligned_size : Z) (free_region_hint : list Interval)
    : M MetadataBuilder bool := fun b =>
  let space_needed := u64 (aligned_size - size_ p) in
  let sectors_needed := space_needed / LP_SECTOR_SIZE in
  free_regions ← GetFreeRegions b;
  let free_regions :=
    match free_region_hint with [] => free_regions | _ => IntersectLists free_regions free_region_hint end in
  let sectors_per_block := logical_block_size (geometry_ b) / LP_SECTOR_SIZE in
  c_assert (negb (sectors_per_block =? 0));;
  c_assert (sectors_needed mod sectors_per_block =? 0);;
  free_regions ←
    (if IsABDevice && ShouldHalveSuper b && bool_decide (GetPartitionSlotSuffix (name_ p) = bs "_b")
     then PrioritizeSecondHalfOfSuper b free_regions else Ret free_regions);
  extension ← ExtendFinalExtent b p free_regions sectors_needed;
  let '(first, sectors_needed) :=
    match extension with
    | Some (n, d, s) => ([LinearExtent n d s], u64 (sectors_needed - n))
    | None => ([], sectors_needed)
    end in
  '(es, sectors_needed) ← take_regions sectors_per_block free_regions sectors_needed;
  if negb (sectors_needed =? 0) then Ret (false, b)
  else
    let p' := foldl (fun q e => AddExtent e q) p (first ++ es) in
    Ret (true, set_partitions (<[i := p']> (partitions_ b)) b).

Definition ShrinkPartition (i : nat) (p : Partition) (aligned_size : Z) : M MetadataBuilder unit := fun b =>
  p' ← ShrinkTo aligned_size p;
  Ret (tt, set_partitions (<[i := p']> (partitions_ b)) b).

Definition ResizePartition (i : nat) (requested_size : Z) (free_region_hint : list Interval)
    : M MetadataBuilder bool := fun b =>
  match partitions_ b !! i with
  | None => AssertFail
  | Some p =>
      match AlignTo 64 requested_size (logical_block_size (geometry_ b)) with
      | None => Ret (false, b)
      | Some aligned_size =>
          let old_size := size_ p in
          ok ← ValidatePartitionSizeChange p old_size aligned_size false b;
          if negb ok then Ret (false, b)
          else if old_size <? aligned_size then GrowPartition i p aligned_size free_region_hint b
          else if aligned_size <? size_ p then
            '(_, b) ← ShrinkPartition i p aligned_size b; Ret (true, b)
          else Ret (true, b)
      end
  end.

End properties.

Definition AddLinearExtent (i : nat) (block_device : list byte) (n physical_sector : Z)
    : M MetadataBuilder bool := fun b =>
  match FindBlockDeviceByName block_device b, partitions_ b !! i with
  | None, _ => Ret (false, b)
  | Some d, Some p =>
      Ret (true, set_partitions
                   (<[i := AddExtent (LinearExtent n (Z.of_nat d) physical_sector) p]> (partitions_ b)) b)
  | Some _, None => AssertFail
  end.

(** ** Export *)

Definition export_group (auto_slot_suffixing : bool) (g : PartitionGroup) : option LpMetadataPartitionGroup :=
  if sizeof_name <? zlen (g_name g) then None
  else Some (mk_lp_group (strncpy (g_name g) sizeof_name)
               (if auto_slot_suffixing && negb (bool_decide (g_name g = kDefaultGroup))
                then LP_GROUP_SLOT_SUFFIXED else 0)
               (maximum_size g)).

(** The loop over the partitions: [extents] is the table built so far, and the
    minor version is raised for the newer attributes. *)
Fixpoint export_partitions (auto_slot_suffixing : bool) (num_devices : Z) (groups : list PartitionGroup)
    (ps : list Partition) (minor_version : Z) (extents : list LpMetadataExtent)
    : option (Z * list LpMetadataPartition * list LpMetadataExtent) :=
  match ps with
  | [] => Some (minor_version, [], extents)
  | p :: ps =>
      if sizeof_name <? zlen (name_ p) then None
      else if negb (Z.land (attributes_ p) (Z.lxor (2 ^ 32 - 1) LP_PARTITION_ATTRIBUTE_MASK) =? 0) then None
      else
        let minor_version :=
          if negb (Z.land (attributes_ p) LP_PARTITION_ATTRIBUTE_MASK_V1 =? 0)
          then Z.max minor_version LP_METADATA_VERSION_FOR_UPDATED_ATTR else minor_version in
        let attributes := if auto_slot_suffixing
          then Z.lor (attributes_ p) LP_PARTITION_ATTR_SLOT_SUFFIXED else attributes_ p in
        (* [group_indices[name] = i] for the groups in order: the last one wins *)
        '(gi, _) ← list_find (fun g => g_name g = group_name_ p) (reverse groups);
        es ← mapM (fun e => AddTo e num_devices) (extents_ p);
        '(minor, parts, extents') ← export_partitions auto_slot_suffixing num_devices groups ps
                                      minor_version (extents ++ es);
        Some (minor,
              mk_lp_partition (strncpy (name_ p) sizeof_name) attributes (u32 (zlen extents))
                (u32 (zlen (extents_ p))) (u32 (zlen groups - 1 - Z.of_nat gi)) :: parts,
              extents')
  end.

Definition set_table_entries (n : Z) (t : LpMetadataTableDescriptor) : LpMetadataTableDescriptor :=
  mk_table (t_offset t) (u32 n) (entry_size t).

(** [Export]: [None] is the null pointer. *)
Definition Export (b : MetadataBuilder) : option LpMetadata :=
  if negb (ValidatePartitionGroups b) then None
  else
    let devices :=
      (fun d => if auto_slot_suffixing_ b
                then mk_block_device (first_logical_sector d) (alignment d) (alignment_offset d) (bd_size d)
                       (bd_partition_name d) (Z.lor (bd_flags d) LP_BLOCK_DEVICE_SLOT_SUFFIXED)
                else d) <$> block_devices_ b in
    groups ← mapM (export_group (auto_slot_suffixing_ b)) (groups_ b);
    let h := header_ b in
    '(minor, parts, extents) ← export_partitions (auto_slot_suffixing_ b) (zlen devices) (groups_ b)
                                 (partitions_ b) (h_minor_version h) [];
    Some (mk_metadata (geometry_ b)
            (mk_header (h_magic h) (h_major_version h) minor (header_size h) (header_checksum h)
               (tables_size h) (tables_checksum h)
               (set_table_entries (zlen parts) (h_partitions h))
               (set_table_entries (zlen extents) (h_extents h))
               (set_table_entries (zlen groups) (h_groups h))
               (set_table_entries (zlen devices) (h_block_devices h))
               (h_flags h) (h_reserved h))
            parts extents groups devices).

Definition RequireExpandedMetadataHeader (b : MetadataBuilder) : MetadataBuilder :=
  let h := header_ b in
  if LP_METADATA_VERSION_FOR_EXPANDED_HEADER <=? h_minor_version h then b
  else set_header (mk_header (h_magic h) (h_major_version h) LP_METADATA_VERSION_FOR_EXPANDED_HEADER
                     sizeof_header (header_checksum h) (tables_size h) (tables_checksum h)
                     (h_partitions h) (h_extents h) (h_groups h) (h_block_devices h) (h_flags h)
                     (h_reserved h)) b.

Definition set_flags (f : Z) (h : LpMetadataHeader) : LpMetadataHeader :=
  mk_header (h_magic h) (h_major_version h) (h_minor_version h) (header_size h) (header_checksum h)
    (tables_size h) (tables_checksum h) (h_partitions h) (h_extents h) (h_groups h) (h_block_devices h)
    f (h_reserved h).

Definition SetAutoSlotSuffixing (b : MetadataBuilder) : MetadataBuilder :=
  mk_builder (geometry_ b) (header_ b) (partitions_ b) (groups_ b) (block_devices_ b) true.

Definition SetVirtualABDeviceFlag (b : MetadataBuilder) : MetadataBuilder :=
  let b := RequireExpandedMetadataHeader b in
  set_header (set_flags (Z.lor (h_flags (header_ b)) LP_HEADER_FLAG_VIRTUAL_AB_DEVICE) (header_ b)) b.

(** ** Import *)

Definition import_extent (e : LpMetadataExtent) : option Extent :=
  if target_type e =? LP_TARGET_TYPE_LINEAR
  then Some (LinearExtent (e_num_sectors e) (target_source e) (target_data e))
  else if target_type e =? LP_TARGET_TYPE_ZERO then Some (ZeroExtent (e_num_sectors e))
  else None.

(** [ImportExtents]: extents of an unknown type are skipped. *)
Fixpoint import_extents (n : nat) (index : Z) (extents : list LpMetadataExtent) (p : Partition)
    : outcome Partition :=
  match n with
  | O => Ret p
  | S n =>
      match zlookup extents index with
      | None => AssertFail
      | Some e =>
          import_extents n (index + 1) extents
            (match import_extent e with Some x => AddExtent x p | None => p end)
      end
  end.

Definition ImportExtents (m : LpMetadata) (source : LpMetadataPartition) (p : Partition) : outcome Partition :=
  import_extents (Z.to_nat (num_extents source)) (first_extent_index source) (m_extents m) p.

Fixpoint init_groups (groups : list LpMetadataPartitionGroup) : M MetadataBuilder bool :=
  match groups with
  | [] => mret true
  | g :: groups =>
      ok ← AddGroup (GetPartitionGroupName g) (gr_maximum_size g);
      if ok : bool then init_groups groups else mret false
  end.

Fixpoint init_partitions (m : LpMetadata) (ps : list LpMetadataPartition) : M MetadataBuilder bool :=
  match ps with
  | [] => mret true
  | source :: ps => fun b =>
      match zlookup (m_groups m) (group_index source) with
      | None => AssertFail
      | Some g =>
          '(r, b) ← AddPartition (GetPartitionName source) (GetPartitionGroupName g) (p_attributes source) b;
          match r with
          | None => Ret (false, b)
          | Some i =>
              match partitions_ b !! i with
              | None => AssertFail
              | Some p =>
                  p' ← ImportExtents m source p;
                  init_partitions m ps (set_partitions (<[i := p']> (partitions_ b)) b)
              end
          end
      end
  end.

(** [Init(const LpMetadata&)] *)
Definition InitFromMetadata (m : LpMetadata) : M MetadataBuilder bool := fun b =>
  let b := set_block_devices (m_block_devices m) (set_geometry (m_geometry m) b) in
  let b := if LP_METADATA_VERSION_FOR_EXPANDED_HEADER <=? h_minor_version (m_header m)
           then let b := RequireExpandedMetadataHeader b in
                set_header (set_flags (h_flags (m_header m)) (header_ b)) b
           else b in
  (ok ← init_groups (m_groups m);
   if ok : bool then init_partitions m (m_partitions m) else mret false) b.

(** [New(metadata, nullptr)] *)
Definition NewFromMetadata (m : LpMetadata) : outcome (option MetadataBuilder) :=
  '(ok, b) ← InitFromMetadata m MetadataBuilder_new;
  Ret (if ok : bool then Some b else None).

(** The loop of [New(metadata, opener)] that takes over what the opener knows
    about each block device; a device it rejects is left as it is. *)
Fixpoint update_devices (GetInfo : list byte → option BlockDeviceInfo) (n i : nat) (b : MetadataBuilder)
    : outcome MetadataBuilder :=
  match n with
  | O => Ret b
  | S n =>
      match GetInfo (block_device_name (Z.of_nat i) b) with
      | None => update_devices GetInfo n (S i) b
      | Some info =>
          '(_, b) ← UpdateBlockDeviceInfoAt i info b;
          update_devices GetInfo n (S i) b
      end
  end.

Definition NewWithOpener (GetInfo : list byte → option BlockDeviceInfo) (m : LpMetadata)
    : outcome (option MetadataBuilder) :=
  r ← NewFromMetadata m;
  match r with
  | None => Ret None
  | Some b => b ← update_devices GetInfo (length (block_devices_ b)) 0 b; Ret (Some b)
  end.

Definition CompareBlockDevices (first second : LpMetadataBlockDevice) : bool :=
  (first_logical_sector first =? first_logical_sector second) && (bd_size first =? bd_size second)
  && bool_decide (GetBlockDevicePartitionName first = GetBlockDevicePartitionName second).

Definition ImportPartition (m : LpMetadata) (source : LpMetadataPartition) : M MetadataBuilder bool := fun b =>
  let name := GetPartitionName source in
  '(r, b) ←
    (match FindPartition name b with
     | Some (i, _) => Ret (Some i, b)
     | None =>
         match zlookup (m_groups m) (group_index source) with
         | None => AssertFail
         | Some g => AddPartition name (GetPartitionGroupName g) (p_attributes source) b
         end
     end);
  match r with
  | None => Ret (false, b)
  | Some i =>
      match partitions_ b !! i with
      | None => AssertFail
      | Some p =>
          if 0 <? size_ p then Ret (false, b)
          else
            p' ← ImportExtents m source p;
            let b := set_partitions (<[i := p']> (partitions_ b)) b in
            ok ← ValidatePartitionSizeChange p' (size_ p') (size_ p') true b;
            if negb ok then Ret (false, set_partitions (<[i := RemoveExtents p']> (partitions_ b)) b)
            else Ret (true, b)
      end
  end.

Fixpoint import_named (m : LpMetadata) (names : list (list byte)) (ps : list LpMetadataPartition)
    : M MetadataBuilder bool :=
  match ps with
  | [] => mret true
  | p :: ps =>
      if bool_decide (GetPartitionName p ∈ names) then
        ok ← ImportPartition m p;
        if ok : bool then import_named m names ps else mret false
      else import_named m names ps
  end.

Definition ImportPartitions (m : LpMetadata) (names : list (list byte)) : M MetadataBuilder bool := fun b =>
  if negb (zlen (m_block_devices m) =? zlen (block_devices_ b)) then Ret (false, b)
  else if negb (forallb (fun '(x, y) => CompareBlockDevices x y) (zip (m_block_devices m) (block_devices_ b)))
  then Ret (false, b)
  else import_named m names (m_partitions m) b.

(** ** Updates *)

(** [UpdateMetadataForOtherSuper] on the block devices: [None] is the return
    value false. *)
Definition translate_device (source_suffix target_suffix : list byte) (d : LpMetadataBlockDevice)
    : option LpMetadataBlockDevice :=
  let name := GetBlockDevicePartitionName d in
  let suffix := GetPartitionSlotSuffix name in
  if bool_decide (suffix = []) || negb (bool_decide (suffix = source_suffix)) then None
  else UpdateBlockDevicePartitionName d (ztake (zlen name - zlen suffix) name ++ target_suffix).

Definition UpdateMetadataForOtherSuper (m : LpMetadata) (source_slot target_slot : Z)
    : outcome (option LpMetadata) :=
  source_suffix ← SlotSuffixForSlotNumber source_slot;
  target_suffix ← SlotSuffixForSlotNumber target_slot;
  Ret (devices ← mapM (translate_device source_suffix target_suffix) (m_block_devices m);
       Some (mk_metadata (m_geometry m) (m_header m) [] [] [] devices)).

(** Extent lists of the same length with equal extents are equal lists. *)
Fixpoint VerifyExtentsAgainstSourceMetadata (source : MetadataBuilder) (source_slot : Z)
    (target : MetadataBuilder) (target_slot : Z) (names : list (list byte)) : outcome bool :=
  match names with
  | [] => Ret true
  | n :: names =>
      target_suffix ← SlotSuffixForSlotNumber target_slot;
      match FindPartition (n ++ target_suffix) target with
      | None => Ret false
      | Some (_, t) =>
          source_suffix ← SlotSuffixForSlotNumber source_slot;
          match FindPartition (n ++ source_suffix) source with
          | None => Ret false
          | Some (_, s) =>
              if bool_decide (extents_ t = extents_ s)
              then VerifyExtentsAgainstSourceMetadata source source_slot target target_slot names
              else Ret false
          end
      end
  end.
