(* ===== verification/LpBuilderFacts.v ===== *)
(** Correctness of the partition table builder.

    A partition is described by the list of its sectors: each is a sector of a
    physical device or a zero sector.  A table is well formed ([lp_ok]) when no
    physical sector is used twice, every extent lies in the usable part of its
    device and the bookkeeping (sizes, names, groups) is right.  The allocator is
    verified in steps: the gaps between sorted intervals, the free regions of the
    table, their reordering and intersection, and the greedy loop. *)

From Stdlib Require Import Strings.String Sorting.Sorted.
From stdpp Require Import sorting.
From S2P Require Import Prelude LibBase SparseFormat LpFormat LpBuilder.
Open Scope Z_scope.

(** * Sectors *)

(** What the sectors of an extent map to: a device and a sector of it, or
    zeros. *)
Definition extent_sectors (e : Extent) : list (option (Z * Z)) :=
  match e with
  | LinearExtent n d p => (λ s, Some (d, s)) <$> seqZ p n
  | ZeroExtent n => replicate (Z.to_nat n) None
  end.
Definition sectors (es : list Extent) : list (option (Z * Z)) := es ≫= extent_sectors.

Definition extent_phys (e : Extent) : list (Z * Z) :=
  match e with LinearExtent n d p => pair d <$> seqZ p n | ZeroExtent _ => [] end.
Definition phys (es : list Extent) : list (Z * Z) := es ≫= extent_phys.

Definition region_phys (r : Interval) : list (Z * Z) :=
  pair (device_index r) <$> seqZ (start r) (end_ r - start r).
Definition regions_phys (rs : list Interval) : list (Z * Z) := rs ≫= region_phys.

Lemma elem_of_pair_seqZ (d p n : Z) (x : Z * Z) : (x ∈ (pair d <$> seqZ p n)) ↔ x.1 = d ∧ p ≤ x.2 < p + n.
Proof.
  rewrite list_elem_of_fmap. split.
  - intros (s & -> & Hs). apply elem_of_seqZ in Hs. cbn. lia.
  - destruct x as [d' s]. cbn. intros [-> Hs]. exists s. split; [done|]. by apply elem_of_seqZ.
Qed.

Lemma NoDup_pair_seqZ (d p n : Z) : NoDup (pair d <$> seqZ p n).
Proof. apply NoDup_fmap_2; [apply _|]. apply NoDup_seqZ. Qed.

Lemma elem_of_region x r : x ∈ region_phys r ↔ x.1 = device_index r ∧ start r ≤ x.2 < end_ r.
Proof. unfold region_phys. rewrite elem_of_pair_seqZ. split; intros [? ?]; split; (done || lia). Qed.

Lemma elem_of_regions x rs :
  x ∈ regions_phys rs ↔ ∃ r, r ∈ rs ∧ x.1 = device_index r ∧ start r ≤ x.2 < end_ r.
Proof.
  unfold regions_phys. rewrite list_elem_of_bind. split.
  - intros (r & Hx & Hr). exists r. split; [done|]. by apply elem_of_region.
  - intros (r & Hr & Hx). exists r. split; [|done]. by apply elem_of_region.
Qed.

Lemma elem_of_phys x es :
  x ∈ phys es ↔ ∃ n p, LinearExtent n x.1 p ∈ es ∧ p ≤ x.2 < p + n.
Proof.
  unfold phys. rewrite list_elem_of_bind. split.
  - intros ([n d p|n] & Hx & He); [|by apply not_elem_of_nil in Hx].
    apply elem_of_pair_seqZ in Hx as [<- Hs]. by exists n, p.
  - intros (n & p & He & Hs). exists (LinearExtent n x.1 p). split; [|done].
    cbn. by apply elem_of_pair_seqZ.
Qed.

Lemma phys_app l1 l2 : phys (l1 ++ l2) = phys l1 ++ phys l2.
Proof. apply bind_app. Qed.
Lemma sectors_app l1 l2 : sectors (l1 ++ l2) = sectors l1 ++ sectors l2.
Proof. apply bind_app. Qed.
Lemma regions_phys_app l1 l2 : regions_phys (l1 ++ l2) = regions_phys l1 ++ regions_phys l2.
Proof. apply bind_app. Qed.

Lemma zlen_extent_sectors e : 0 ≤ num_sectors e → zlen (extent_sectors e) = num_sectors e.
Proof.
  destruct e as [n d p|n]; cbn [num_sectors extent_sectors]; intros; unfold zlen.
  - rewrite length_fmap, length_seqZ. lia.
  - rewrite length_replicate. lia.
Qed.

(** The physical sectors of extents are those of their sectors. *)
Lemma phys_sectors es : phys es = omap id (sectors es).
Proof.
  induction es as [|e es IH]; [done|]. unfold phys, sectors in *. cbn [mbind list_bind].
  rewrite omap_app, <- IH. f_equal. destruct e as [n d p|n]; cbn [extent_phys extent_sectors].
  - generalize (seqZ p n). intros l. induction l as [|s l IHl]; [done|]. cbn. by f_equal.
  - generalize (Z.to_nat n). intros m. induction m; [done|]. done.
Qed.

Lemma omap_sublist {A B} (f : A → option B) (l k : list A) :
  l `sublist_of` k → omap f l `sublist_of` omap f k.
Proof.
  induction 1 as [|x l k Hs IH|x l k Hs IH]; cbn.
  - constructor.
  - destruct (f x); [by constructor|done].
  - destruct (f x); [by constructor|done].
Qed.

(** * Alignment of sectors *)

Definition spb (b : MetadataBuilder) : Z := logical_block_size (geometry_ b) / LP_SECTOR_SIZE.

Record device_ok (lbs : Z) (d : LpMetadataBlockDevice) : Prop := {
  do_first : 0 ≤ first_logical_sector d;
  do_fits : first_logical_sector d * LP_SECTOR_SIZE ≤ bd_size d;
  do_size : bd_size d < 2 ^ 64;
  do_align : 0 ≤ alignment d < 2 ^ 32;
  do_block : bd_size d mod lbs = 0;
  do_lbs : (lbs | alignment d);
  do_whole : (alignment d | bd_size d) ∨ alignment d = 0;
  do_start : alignment d ≠ 0 → (alignment d | first_logical_sector d * LP_SECTOR_SIZE)
}.

Definition lbs_ok (lbs : Z) : Prop := 0 < lbs < 2 ^ 32 ∧ lbs mod LP_SECTOR_SIZE = 0.

Lemma AlignTo_fits w base align top :
  0 ≤ base ≤ top → top < 2 ^ w → 0 < align → (align | top) →
  ∃ r, AlignTo w base align = Some r ∧ base ≤ r ≤ top ∧ (align | r).
Proof.
  intros Hb Ht Ha [k Hk]. unfold AlignTo. destruct (Z.eqb_spec align 0); [lia|].
  pose proof (Z.mod_pos_bound base align Ha) as Hm. pose proof (Z.div_mod base align ltac:(lia)) as Hd.
  destruct (Z.eqb_spec (base mod align) 0) as [E|E].
  { exists base. split_and!; [done|lia|lia|]. apply Z.mod_divide; lia. }
  assert (base + (align - base mod align) = (base / align + 1) * align) as Hr by lia.
  assert (base / align + 1 ≤ k) as Hk' by nia.
  assert (base + (align - base mod align) ≤ top) by nia.
  destruct (Z.ltb_spec (2 ^ w - 1 - base) (align - base mod align)); [lia|].
  eexists. split; [done|]. split; [lia|]. exists (base / align + 1). lia.
Qed.

Lemma lbs_spb lbs : lbs_ok lbs → 0 < lbs / 512 ∧ lbs = 512 * (lbs / 512).
Proof.
  intros [H1 H2]. unfold LP_SECTOR_SIZE in H2. pose proof (Z.div_mod lbs 512 ltac:(lia)).
  split; [|lia]. apply Z.div_str_pos. lia.
Qed.

(** The sectors of a device as [size / 512]. *)
Definition last_sector (d : LpMetadataBlockDevice) : Z := bd_size d / LP_SECTOR_SIZE.

Lemma device_size lbs d : lbs_ok lbs → device_ok lbs d →
  bd_size d = 512 * last_sector d ∧ first_logical_sector d ≤ last_sector d ∧ 0 ≤ bd_size d.
Proof.
  intros Hl [H1 H2 H3 _ H4 _ _ _]. unfold last_sector, LP_SECTOR_SIZE in *.
  destruct (lbs_spb lbs Hl) as [Hs Hl'].
  assert ((lbs | bd_size d)) as [k Hk] by (apply Z.mod_divide; [lia|done]).
  pose proof (Z.div_mod (bd_size d) 512 ltac:(lia)) as Hd.
  assert (bd_size d mod 512 = 0) as Hm.
  { rewrite Hk, Hl'. replace (k * (512 * (lbs / 512))) with (k * (lbs / 512) * 512) by lia.
    apply Z.mod_mul. lia. }
  lia.
Qed.

(** Aligning a sector of the device stays inside it; on a device with an
    alignment the result starts a logical block. *)
Lemma AlignSector_spec lbs d s : lbs_ok lbs → device_ok lbs d → 0 ≤ s ≤ last_sector d →
  ∃ a, AlignSector d s = Some a ∧ s ≤ a ≤ last_sector d ∧
    (alignment d = 0 → a = s) ∧ (alignment d ≠ 0 → (lbs / 512 | a)).
Proof.
  intros Hl Hd Hs. destruct (device_size lbs d Hl Hd) as (Hsz & Hf & Hn).
  destruct Hd as [_ _ H64 Ha Hb Hla Hw _]. destruct (lbs_spb lbs Hl) as [Hp Hl'].
  unfold AlignSector, LP_SECTOR_SIZE. rewrite u64_small by lia.
  assert (∃ r, AlignTo 64 (s * 512) (alignment d) = Some r ∧ s * 512 ≤ r ≤ bd_size d ∧
    (alignment d = 0 → r = s * 512) ∧ (alignment d ≠ 0 → (alignment d | r)) ∧ (512 | r))
    as (r & -> & Hr & Hr0 & Hr1 & [q Hq]).
  { destruct (Z.eq_dec (alignment d) 0) as [E|E].
    - exists (s * 512). unfold AlignTo. rewrite E. split_and!; [done|lia|lia|done|done|by exists s].
    - destruct Hw as [Hw|]; [|done].
      destruct (AlignTo_fits 64 (s * 512) (alignment d) (bd_size d)) as (r & E1 & E2 & E3);
        [lia|lia|lia|done|].
      exists r. split_and!; [done|lia|lia|done|done|].
      destruct Hla as [x Hx]. destruct E3 as [y Hy]. exists (y * x * (lbs / 512)). nia. }
  cbn [mbind option_bind]. rewrite AlignTo_multiple by (rewrite Hq; apply Z.mod_mul; lia).
  cbn [mbind option_bind]. exists (r / 512). assert (r / 512 = q) as -> by (rewrite Hq; apply Z.div_mul; lia).
  split_and!; [done|lia|lia|lia|].
  intros E. destruct (Hr1 E) as [y Hy]. destruct Hla as [x Hx]. exists (y * x). nia.
Qed.

(** * Gaps between sorted intervals *)

Definition before (x y : Interval) : Prop := end_ x ≤ start y.

Definition interval_in (i : Z) (d : LpMetadataBlockDevice) (x : Interval) : Prop :=
  device_index x = i ∧ first_logical_sector d ≤ start x ≤ end_ x ∧ end_ x ≤ last_sector d.

(** A usable free region of device [i]. *)
Record region_in (lbs i : Z) (d : LpMetadataBlockDevice) (r : Interval) : Prop := {
  ri_dev : device_index r = i;
  ri_low : first_logical_sector d ≤ start r;
  ri_pos : start r < end_ r;
  ri_high : end_ r ≤ last_sector d;
  ri_block : alignment d ≠ 0 → (lbs / 512 | start r)
}.

Lemma free_list_spec lbs i d L : lbs_ok lbs → device_ok lbs d →
  StronglySorted before L → Forall (interval_in i d) L →
  Forall (region_in lbs i d) (ExtentsToFreeList d L) ∧
  NoDup (regions_phys (ExtentsToFreeList d L)) ∧
  (∀ s, s ∈ regions_phys (ExtentsToFreeList d L) →
     (∀ h, head L = Some h → end_ h ≤ s.2) ∧ ∀ x, x ∈ L → s ∉ region_phys x).
Proof.
  intros Hl Hd HL HF. induction HL as [|prev L HL IH Hprev].
  { split_and!; [constructor|apply NoDup_nil_2|]. intros s Hs. by apply not_elem_of_nil in Hs. }
  apply Forall_cons in HF as [Hp HF]. specialize (IH HF). destruct IH as (IH1 & IH2 & IH3).
  destruct L as [|cur L].
  { split_and!; [constructor|apply NoDup_nil_2|]. intros s Hs. by apply not_elem_of_nil in Hs. }
  apply Forall_cons in HF as [Hc HF]. destruct Hp as (Hp1 & Hp2 & Hp3), Hc as (Hc1 & Hc2 & Hc3).
  apply Forall_cons in Hprev as [Hpc Hprev]. unfold before in Hpc.
  inversion HL as [|? ? _ Hcur]; subst.
  assert (∀ s : Z * Z, end_ cur ≤ s.2 → s ∉ region_phys prev) as Hafter.
  { intros s Hs [_ Hx]%elem_of_region. lia. }
  assert (∀ s, s ∈ regions_phys (ExtentsToFreeList d (cur :: L)) →
    (∀ h, head (prev :: cur :: L) = Some h → end_ h ≤ s.2) ∧
    ∀ x, x ∈ prev :: cur :: L → s ∉ region_phys x) as Hold.
  { intros s Hs. destruct (IH3 s Hs) as [Hh Hx]. specialize (Hh cur eq_refl). split.
    - intros h [= <-]. lia.
    - intros x [->|Hin]%elem_of_cons; [by apply Hafter|by apply Hx]. }
  change (ExtentsToFreeList d (prev :: cur :: L)) with
    (match AlignSector d (end_ prev) with
     | None => ExtentsToFreeList d (cur :: L)
     | Some aligned =>
         if start cur <=? aligned then ExtentsToFreeList d (cur :: L)
         else mk_interval (device_index cur) aligned (start cur) :: ExtentsToFreeList d (cur :: L)
     end).
  destruct (AlignSector_spec lbs d (end_ prev) Hl Hd) as (a & -> & Ha & Ha0 & Ha1);
    [pose proof (do_first lbs d Hd); lia|].
  destruct (Z.leb_spec (start cur) a) as [Hle|Hgt]; [by split_and!|].
  set (r := mk_interval (device_index cur) a (start cur)). split_and!.
  - constructor; [|done]. split; cbn; [done|lia|lia|lia|done].
  - unfold regions_phys. cbn [mbind list_bind]. apply NoDup_app. split_and!.
    + apply NoDup_pair_seqZ.
    + intros s [_ Hs]%elem_of_region Hs'. destruct (IH3 s Hs') as [Hh _].
      specialize (Hh cur eq_refl). cbn in Hs. lia.
    + done.
  - intros s Hs. unfold regions_phys in Hs. cbn [mbind list_bind] in Hs.
    apply elem_of_app in Hs as [[Hs1 Hs2]%elem_of_region|Hs]; [|by apply Hold]. cbn in Hs1, Hs2. split.
    + intros h [= <-]. lia.
    + intros x [->|[->|Hin]%elem_of_cons]%elem_of_cons [_ Hx]%elem_of_region; [lia|lia|].
      rewrite Forall_forall in Hcur. specialize (Hcur x Hin). unfold before in Hcur. lia.
Qed.

(** ** Intervals without common sectors *)

Definition sep (x y : Interval) : Prop := end_ x ≤ start y ∨ end_ y ≤ start x.

Fixpoint pairwise (l : list Interval) : Prop :=
  match l with [] => True | x :: l => Forall (sep x) l ∧ pairwise l end.

Lemma pairwise_app l1 l2 :
  pairwise (l1 ++ l2) ↔ pairwise l1 ∧ pairwise l2 ∧ Forall (λ x, Forall (sep x) l2) l1.
Proof.
  induction l1 as [|x l1 IH]; cbn [pairwise app].
  - split; [intros H; split_and!; [done|done|constructor]|by intros (_ & ? & _)].
  - rewrite IH, Forall_app, Forall_cons. tauto.
Qed.

Lemma pairwise_perm l1 l2 : l1 ≡ₚ l2 → pairwise l1 → pairwise l2.
Proof.
  induction 1 as [|x l1 l2 Hp IH|x y l|l1 l2 l3 Hp1 IH1 Hp2 IH2]; cbn [pairwise].
  - done.
  - intros [H1 H2]. split; [by rewrite <- Hp|by apply IH].
  - intros [Hy [Hx Hl]]. apply Forall_cons in Hy as [Hyx Hy]. split_and!; [|done|done].
    constructor; [|done]. unfold sep in *. tauto.
  - auto.
Qed.

Lemma sorted_before L : StronglySorted interval_le L → pairwise L →
  Forall (λ x, start x ≤ end_ x) L → StronglySorted before L.
Proof.
  induction 1 as [|x L HL IH Hx]; intros Hp HF; [constructor|].
  destruct Hp as [Hp Hp']. apply Forall_cons in HF as [Hxx HF].
  constructor; [by apply IH|]. rewrite Forall_forall in Hp, Hx, HF |- *. intros y Hy.
  specialize (Hp y Hy). specialize (Hx y Hy). specialize (HF y Hy).
  unfold sep, interval_le, before in *. lia.
Qed.

#[export] Instance interval_le_total : Total interval_le.
Proof. intros x y. unfold interval_le. lia. Qed.
#[export] Instance interval_le_trans : Transitive interval_le.
Proof. intros x y z. unfold interval_le. lia. Qed.

(** * Well-formed tables *)

(** Extents are whole logical blocks inside the usable part of their device;
    where the device has an alignment they start on a block. *)
Definition extent_ok (lbs : Z) (ds : list LpMetadataBlockDevice) (e : Extent) : Prop :=
  0 < num_sectors e ∧ (lbs / 512 | num_sectors e) ∧
  match e with
  | LinearExtent n i p =>
      ∃ d, zlookup ds i = Some d ∧ first_logical_sector d ≤ p ∧ p + n ≤ last_sector d ∧
           (alignment d ≠ 0 → (lbs / 512 | p))
  | ZeroExtent _ => True
  end.

(** The size of a partition is that of its sectors. *)
Definition partition_size_ok (p : Partition) : Prop :=
  size_ p = LP_SECTOR_SIZE * zlen (sectors (extents_ p)) ∧ size_ p < 2 ^ 64.

Record lp_ok (b : MetadataBuilder) : Prop := {
  lo_lbs : lbs_ok (logical_block_size (geometry_ b));
  lo_devices : Forall (device_ok (logical_block_size (geometry_ b))) (block_devices_ b);
  lo_extents : Forall (extent_ok (logical_block_size (geometry_ b)) (block_devices_ b)) (all_extents b);
  lo_disjoint : NoDup (phys (all_extents b));
  lo_sizes : Forall partition_size_ok (partitions_ b);
  lo_names : NoDup (name_ <$> partitions_ b) ∧ Forall (λ p, name_ p ≠ []) (partitions_ b);
  lo_groups : NoDup (g_name <$> groups_ b);
  lo_members : Forall (λ p, group_name_ p ∈ g_name <$> groups_ b) (partitions_ b)
}.

(** A free region of the table. *)
Definition region_ok (lbs : Z) (ds : list LpMetadataBlockDevice) (r : Interval) : Prop :=
  ∃ d, zlookup ds (device_index r) = Some d ∧ region_in lbs (device_index r) d r.

Lemma zlookup_Some_inv {A} (l : list A) i x : zlookup l i = Some x → 0 ≤ i < zlen l ∧ x ∈ l.
Proof.
  unfold zlookup. destruct (Z.ltb_spec i 0); [done|]. intros E.
  split; [|by eapply list_elem_of_lookup_2]. apply lookup_lt_Some in E. unfold zlen. lia.
Qed.

Section free.
Context (lbs : Z) (Hl : lbs_ok lbs).

(** The intervals of the extents of a device, with its limits, have no sector in
    common. *)
Lemma device_intervals_pairwise ds i d es :
  zlookup ds i = Some d → Forall (device_ok lbs) ds → Forall (extent_ok lbs ds) es → NoDup (phys es) →
  pairwise (device_intervals i es) ∧ Forall (λ x, interval_in i d x ∧ start x < end_ x) (device_intervals i es) ∧
  (∀ s, s.1 = i → s ∈ phys es → ∃ x, x ∈ device_intervals i es ∧ s ∈ region_phys x) ∧
  (∀ s x, x ∈ device_intervals i es → s ∈ region_phys x → s ∈ phys es).
Proof.
  intros Hi Hds. induction es as [|e es IH]; intros Hok Hnd.
  { split_and!; [done|constructor| |].
    - intros s _ Hs. by apply not_elem_of_nil in Hs.
    - intros s x Hx. by apply not_elem_of_nil in Hx. }
  apply Forall_cons in Hok as [He Hok]. unfold phys in Hnd. cbn [mbind list_bind] in Hnd.
  apply NoDup_app in Hnd as (Hnd1 & Hnd2 & Hnd3). destruct (IH Hok Hnd3) as (I1 & I2 & I3 & I4).
  destruct e as [n j p|n].
  2: { split_and!; [exact I1|exact I2|exact I3|exact I4]. }
  destruct He as (Hn & _ & dj & Hj & Hfirst & Hlast & _). cbn [num_sectors] in Hn.
  unfold device_intervals. cbn [omap list_omap]. fold (device_intervals i es).
  destruct (Z.eqb_spec j i) as [->|Hne].
  2: { split_and!; [exact I1|exact I2| |].
       - intros s Hs Hin. apply I3; [done|]. unfold phys in Hin. cbn [mbind list_bind] in Hin.
         apply elem_of_app in Hin as [[Hd _]%elem_of_pair_seqZ|Hin]; [|exact Hin]. congruence.
       - intros s x Hx Hs. unfold phys. cbn [mbind list_bind]. apply elem_of_app. right. by eapply I4. }
  assert (dj = d) as -> by congruence.
  assert (0 ≤ p ∧ p + n < 2 ^ 64) as Hp.
  { rewrite Forall_forall in Hds. apply zlookup_Some_inv in Hj as [_ Hin]. specialize (Hds d Hin).
    destruct (device_size lbs d Hl Hds) as (Hsz & _ & _). destruct Hds. lia. }
  unfold AsInterval. rewrite u64_small by lia. set (x := mk_interval i p (p + n)).
  split_and!.
  - split; [|done]. apply Forall_forall. intros y Hy. unfold sep.
    rewrite Forall_forall in I2. destruct (I2 y Hy) as ((Hy1 & Hy2 & Hy3) & Hy4).
    destruct (Z.le_gt_cases (end_ y) (start x)); [by right|].
    destruct (Z.le_gt_cases (end_ x) (start y)); [by left|]. exfalso.
    apply (Hnd2 (i, Z.max (start x) (start y))).
    + apply elem_of_pair_seqZ. cbn in *. split; [done|lia].
    + apply (I4 _ y Hy). apply elem_of_region. cbn in *. split; [done|lia].
  - constructor; [|done]. unfold interval_in. subst x. cbn [device_index start end_]. lia.
  - intros s Hs Hin. unfold phys in Hin. cbn [mbind list_bind] in Hin.
    apply elem_of_app in Hin as [[Hd Hr]%elem_of_pair_seqZ|Hin].
    + exists x. split; [by apply elem_of_cons; left|]. apply elem_of_region. cbn. lia.
    + destruct (I3 s Hs Hin) as (y & Hy & Hsy). exists y. split; [by apply elem_of_cons; right|done].
  - intros s y [->|Hy]%elem_of_cons Hs; unfold phys; cbn [mbind list_bind]; apply elem_of_app.
    + left. apply elem_of_region in Hs as [Hs1 Hs2]. apply elem_of_pair_seqZ. cbn in Hs1, Hs2. lia.
    + right. by eapply I4.
Qed.

Lemma device_free_regions_spec ds i d es :
  zlookup ds i = Some d → Forall (device_ok lbs) ds → Forall (extent_ok lbs ds) es → NoDup (phys es) →
  Forall (region_in lbs i d) (device_free_regions es i d) ∧
  NoDup (regions_phys (device_free_regions es i d)) ∧
  (∀ s, s ∈ regions_phys (device_free_regions es i d) → s.1 = i ∧ s ∉ phys es).
Proof.
  intros Hi Hds Hok Hnd.
  destruct (device_intervals_pairwise ds i d es Hi Hds Hok Hnd) as (P1 & P2 & P3 & P4).
  assert (device_ok lbs d) as Hd.
  { rewrite Forall_forall in Hds. apply Hds. by eapply zlookup_Some_inv. }
  destruct (device_size lbs d Hl Hd) as (Hsz & Hfl & _).
  unfold device_free_regions. fold (last_sector d).
  set (marks := [mk_interval i (first_logical_sector d) (first_logical_sector d);
                 mk_interval i (last_sector d) (last_sector d)]).
  set (L := merge_sort interval_le (device_intervals i es ++ marks)).
  assert (L ≡ₚ device_intervals i es ++ marks) as HL by apply merge_sort_Permutation.
  assert (Forall (interval_in i d) (device_intervals i es ++ marks)) as Hin.
  { apply Forall_app. split; [eapply Forall_impl; [exact P2|by intros x [? _]]|].
    subst marks. repeat constructor; cbn; lia. }
  assert (pairwise (device_intervals i es ++ marks)) as Hpw.
  { apply pairwise_app. split_and!; [done| |].
    - subst marks. cbn [pairwise]. split_and!; [|constructor|done].
      constructor; [|constructor]. left. cbn. lia.
    - eapply Forall_impl; [exact P2|]. intros x [(Hx1 & Hx2 & Hx3) _]. subst marks.
      constructor; [right; cbn; lia|]. constructor; [left; cbn; lia|constructor]. }
  destruct (free_list_spec lbs i d L Hl Hd) as (F1 & F2 & F3).
  { apply sorted_before; [apply StronglySorted_merge_sort; apply _|by eapply pairwise_perm|].
    rewrite HL. eapply Forall_impl; [exact Hin|]. intros x (_ & ? & _). lia. }
  { by rewrite HL. }
  split_and!; [done|done|]. intros s Hs. split.
  - apply elem_of_regions in Hs as (r & Hr & Hs1 & _). rewrite Forall_forall in F1.
    by rewrite Hs1, (ri_dev _ _ _ _ (F1 r Hr)).
  - intros Hp. assert (s.1 = i) as Hsi.
    { apply elem_of_regions in Hs as (r & Hr & Hs1 & _). rewrite Forall_forall in F1.
      by rewrite Hs1, (ri_dev _ _ _ _ (F1 r Hr)). }
    destruct (P3 s Hsi Hp) as (x & Hx & Hsx). destruct (F3 s Hs) as [_ F].
    apply (F x); [|done]. rewrite HL. apply elem_of_app. by left.
Qed.

(** The regions of the devices from number [k] on. *)
Lemma free_from_spec es ds k ds' :
  drop k ds = ds' → Forall (device_ok lbs) ds → Forall (extent_ok lbs ds) es → NoDup (phys es) →
  let R := concat (imap (fun j d => device_free_regions es (Z.of_nat (k + j)) d) ds') in
  Forall (region_ok lbs ds) R ∧ NoDup (regions_phys R) ∧
  (∀ s, s ∈ regions_phys R → Z.of_nat k ≤ s.1 ∧ s ∉ phys es).
Proof.
  intros Hk Hds Hok Hnd. revert k Hk. induction ds' as [|d ds' IH]; intros k Hk.
  { split_and!; [constructor|apply NoDup_nil_2|]. intros s Hs. by apply not_elem_of_nil in Hs. }
  assert (ds !! k = Some d) as Hd.
  { rewrite <- (Nat.add_0_r k), <- lookup_drop, Hk. done. }
  assert (drop (S k) ds = ds') as Hk'.
  { rewrite <- Nat.add_1_r, <- drop_drop, Hk. done. }
  destruct (IH (S k) Hk') as (I1 & I2 & I3).
  assert (zlookup ds (Z.of_nat k) = Some d) as Hz.
  { unfold zlookup. destruct (Z.ltb_spec (Z.of_nat k) 0); [lia|]. by rewrite Nat2Z.id. }
  destruct (device_free_regions_spec ds (Z.of_nat k) d es Hz Hds Hok Hnd) as (D1 & D2 & D3).
  cbn [imap concat]. rewrite Nat.add_0_r.
  assert (imap ((λ j d0, device_free_regions es (Z.of_nat (k + j)) d0) ∘ S) ds'
          = imap (λ j d0, device_free_regions es (Z.of_nat (S k + j)) d0) ds') as ->.
  { apply imap_ext. intros j x _. cbn. by rewrite Nat.add_succ_r. }
  set (R' := concat _) in *. cbv zeta in I1, I2, I3 |- *. rewrite regions_phys_app. split_and!.
  - apply Forall_app. split; [|done]. eapply Forall_impl; [exact D1|]. intros r Hr.
    exists d. rewrite (ri_dev _ _ _ _ Hr). done.
  - apply NoDup_app. split_and!; [done| |done]. intros s H1 H2.
    destruct (D3 s H1) as [E _]. destruct (I3 s H2) as [E2 _]. lia.
  - intros s [Hs|Hs]%elem_of_app.
    + destruct (D3 s Hs) as [E E2]. split; [lia|done].
    + destruct (I3 s Hs) as [E E2]. split; [lia|done].
Qed.

End free.

Lemma GetFreeRegions_spec b : lp_ok b →
  ∃ R, GetFreeRegions b = Ret R ∧
    Forall (region_ok (logical_block_size (geometry_ b)) (block_devices_ b)) R ∧
    NoDup (regions_phys R) ∧ ∀ s, s ∈ regions_phys R → s ∉ phys (all_extents b).
Proof.
  intros [Hl Hds Hes Hnd _ _ _ _]. unfold GetFreeRegions.
  assert (forallb (extent_device_ok (zlen (block_devices_ b))) (all_extents b) = true) as ->.
  { apply forallb_forall. intros e He%list_elem_of_In. rewrite Forall_forall in Hes.
    destruct (Hes e He) as (_ & _ & Hd). destruct e as [n i p|n]; [|done].
    destruct Hd as (d & Hd & _). apply zlookup_Some_inv in Hd as [Hd _]. cbn.
    apply Z.ltb_lt. lia. }
  cbn [c_assert mbind outcome_bind].
  destruct (free_from_spec _ Hl (all_extents b) (block_devices_ b) 0 (block_devices_ b)) as (F1 & F2 & F3);
    [done..|].
  eexists. split; [reflexivity|]. split; [exact F1|]. split; [exact F2|]. intros s Hs. by apply F3.
Qed.

(** * Reordering and intersecting free regions *)

(** Hints are regions that start on a logical block and do not overlap. *)
Definition hints_ok (lbs : Z) (hints : list Interval) : Prop :=
  Forall (λ r, 0 ≤ start r ∧ start r ≤ end_ r < 2 ^ 64 ∧ (lbs / 512 | start r)) hints ∧
  NoDup (regions_phys hints).

Lemma perm_shuffle {A} (a b c d : list A) : a ++ b ++ c ++ d ≡ₚ c ++ a ++ b ++ d.
Proof. by rewrite (Permutation_app_swap_app b c), (Permutation_app_swap_app a c). Qed.

Section regions.
Context (lbs : Z) (Hl : lbs_ok lbs).
Context (ds : list LpMetadataBlockDevice) (Hds : Forall (device_ok lbs) ds).

Lemma region_bounds r : region_ok lbs ds r → 0 ≤ start r ∧ start r < end_ r < 2 ^ 64.
Proof.
  intros (d & Hd & []). apply zlookup_Some_inv in Hd as [_ Hin]. rewrite Forall_forall in Hds.
  specialize (Hds d Hin). destruct (device_size lbs d Hl Hds) as (Hsz & _ & _). destruct Hds. lia.
Qed.

Lemma interval_length_eq r : 0 ≤ start r → start r ≤ end_ r < 2 ^ 64 → interval_length r = end_ r - start r.
Proof. intros. unfold interval_length. apply u64_small. lia. Qed.

Lemma Intersect_spec x y :
  region_ok lbs ds x → 0 ≤ start y ∧ start y ≤ end_ y < 2 ^ 64 ∧ (lbs / 512 | start y) →
  let l := if 0 <? interval_length (Intersect x y) then [Intersect x y] else [] in
  Forall (region_ok lbs ds) l ∧ NoDup (regions_phys l) ∧
  ∀ s, s ∈ regions_phys l → s ∈ region_phys x ∧ s ∈ region_phys y.
Proof.
  intros Hx (Hy0 & Hy1 & Hy2). pose proof (region_bounds x Hx) as (Hx0 & Hx1).
  assert (∀ s, s ∉ regions_phys []) as Hnil by (intros s; apply not_elem_of_nil).
  unfold Intersect. destruct (Z.eqb_spec (device_index x) (device_index y)) as [E|E]; cbn [negb].
  2: { unfold interval_length. cbn [start end_]. rewrite Z.sub_diag. change (0 <? u64 0) with false.
       split_and!; [constructor|apply NoDup_nil_2|]. intros s Hs. by apply Hnil in Hs. }
  rewrite interval_length_eq by (cbn; lia). cbn [start end_].
  destruct (Z.ltb_spec 0 (Z.max (Z.max (start x) (start y)) (Z.min (end_ x) (end_ y))
                          - Z.max (start x) (start y))) as [Hp|Hp].
  2: { split_and!; [constructor|apply NoDup_nil_2|]. intros s Hs. by apply Hnil in Hs. }
  split_and!.
  - constructor; [|constructor]. destruct Hx as (d & Hd & []). exists d. split; [done|].
    split; cbn [device_index start end_]; [done|lia|lia|lia|]. intros Ha.
    destruct (Z.max_spec (start x) (start y)) as [[_ ->]|[_ ->]]; auto.
  - unfold regions_phys. cbn [mbind list_bind]. rewrite app_nil_r. apply NoDup_pair_seqZ.
  - intros s Hs. unfold regions_phys in Hs. cbn [mbind list_bind] in Hs. rewrite app_nil_r in Hs.
    apply elem_of_region in Hs as [Hs1 Hs2]. cbn in Hs1, Hs2. rewrite !elem_of_region. split; split; lia.
Qed.

Lemma IntersectLists_spec R hints :
  Forall (region_ok lbs ds) R → NoDup (regions_phys R) → hints_ok lbs hints →
  Forall (region_ok lbs ds) (IntersectLists R hints) ∧ NoDup (regions_phys (IntersectLists R hints)) ∧
  ∀ s, s ∈ regions_phys (IntersectLists R hints) → s ∈ regions_phys R.
Proof.
  intros HR HN [HH HHN]. unfold IntersectLists.
  assert (∀ x, region_ok lbs ds x →
    let l := hints ≫= fun y => let r := Intersect x y in if 0 <? interval_length r then [r] else [] in
    Forall (region_ok lbs ds) l ∧ NoDup (regions_phys l) ∧
    ∀ s, s ∈ regions_phys l → s ∈ region_phys x ∧ s ∈ regions_phys hints) as Hinner.
  { intros x Hx. clear HR HN. induction hints as [|y hints IH].
    { split_and!; [constructor|apply NoDup_nil_2|]. intros s Hs. by apply not_elem_of_nil in Hs. }
    apply Forall_cons in HH as [Hy HH]. unfold regions_phys in HHN. cbn [mbind list_bind] in HHN.
    apply NoDup_app in HHN as (_ & HD & HHN). destruct (IH HH HHN) as (I1 & I2 & I3).
    destruct (Intersect_spec x y Hx Hy) as (J1 & J2 & J3). cbn [mbind list_bind]. cbv zeta in *.
    rewrite regions_phys_app. split_and!.
    - by apply Forall_app.
    - apply NoDup_app. split_and!; [done| |done]. intros s Hs1 Hs2.
      apply (HD s); [by apply J3|by apply I3].
    - intros s [Hs|Hs]%elem_of_app.
      + destruct (J3 s Hs). split; [done|]. unfold regions_phys. cbn [mbind list_bind].
        apply elem_of_app. by left.
      + destruct (I3 s Hs). split; [done|]. unfold regions_phys. cbn [mbind list_bind].
        apply elem_of_app. by right. }
  induction R as [|x R IH].
  { split_and!; [constructor|apply NoDup_nil_2|]. intros s Hs. by apply not_elem_of_nil in Hs. }
  apply Forall_cons in HR as [Hx HR]. unfold regions_phys in HN. cbn [mbind list_bind] in HN.
  apply NoDup_app in HN as (_ & HD & HN). destruct (IH HR HN) as (I1 & I2 & I3).
  destruct (Hinner x Hx) as (J1 & J2 & J3). cbn [mbind list_bind]. cbv zeta in *.
  rewrite regions_phys_app. split_and!.
  - by apply Forall_app.
  - apply NoDup_app. split_and!; [done| |done]. intros s Hs1 Hs2.
    apply (HD s); [by apply J3|by apply I3].
  - intros s Hs. unfold regions_phys. cbn [mbind list_bind]. apply elem_of_app.
    apply elem_of_app in Hs as [Hs|Hs]; [left; by apply J3|right; by apply I3].
Qed.

Lemma split_region_spec m r d0 : head ds = Some d0 → (alignment d0 ≠ 0 → (lbs / 512 | m)) →
  region_ok lbs ds r →
  Forall (region_ok lbs ds) (split_region m r).1 ∧ Forall (region_ok lbs ds) (split_region m r).2 ∧
  regions_phys (split_region m r).1 ++ regions_phys (split_region m r).2 = region_phys r.
Proof.
  intros Hd0 Hm Hr. pose proof (region_bounds r Hr) as (Hr0 & Hr1). unfold split_region.
  destruct (negb (device_index r =? 0) || (end_ r <=? m)) eqn:E.
  { cbn [fst snd]. split_and!; [by constructor|constructor|]. unfold regions_phys. cbn [mbind list_bind].
    by rewrite !app_nil_r. }
  apply orb_false_iff in E as [E1 E2]. zbool.
  destruct ((start r <? m) && (m <? end_ r)) eqn:E3.
  - zbool. cbn [fst snd]. destruct Hr as (d & Hd & []). rewrite E1 in Hd.
    assert (d = d0) as ->.
    { destruct ds as [|d1 ds']; [done|]. change (Some d1 = Some d) in Hd. change (Some d1 = Some d0) in Hd0. congruence. }
    split_and!.
    + constructor; [|constructor]. exists d0. cbn [device_index]. rewrite E1.
      split; [done|]. split; cbn [device_index start end_]; (done || lia).
    + constructor; [|constructor]. exists d0. cbn [device_index]. rewrite E1.
      split; [done|]. split; cbn [device_index start end_]; (done || lia).
    + unfold regions_phys, region_phys. cbn [mbind list_bind device_index start end_]. rewrite !app_nil_r.
      rewrite <- fmap_app. f_equal. replace (end_ r - start r) with ((m - start r) + (end_ r - m)) by lia.
      rewrite seqZ_app by lia. do 2 f_equal. lia.
  - cbn [fst snd]. split_and!; [constructor|by constructor|]. unfold regions_phys. cbn [mbind list_bind].
    by rewrite !app_nil_r.
Qed.

Lemma split_regions_spec m d0 R : head ds = Some d0 → (alignment d0 ≠ 0 → (lbs / 512 | m)) →
  Forall (region_ok lbs ds) R →
  let parts := split_region m <$> R in
  Forall (region_ok lbs ds) ((parts ≫= snd) ++ (parts ≫= fst)) ∧
  regions_phys ((parts ≫= snd) ++ (parts ≫= fst)) ≡ₚ regions_phys R.
Proof.
  intros Hd0 Hm. induction R as [|r R IH]; intros HR; [done|].
  apply Forall_cons in HR as [Hr HR]. destruct (IH HR) as [I1 I2].
  destruct (split_region_spec m r d0 Hd0 Hm Hr) as (J1 & J2 & J3).
  cbv zeta in *. cbn [fmap list_fmap mbind list_bind]. split.
  - rewrite !Forall_app in *. tauto.
  - unfold regions_phys at 2. cbn [mbind list_bind]. rewrite <- J3.
    change (mbind region_phys R) with (regions_phys R). rewrite <- I2, !regions_phys_app.
    rewrite <- !app_assoc. apply perm_shuffle.
Qed.

End regions.

(** * The greedy loop *)

(** Whole blocks that the regions can provide. *)
Definition capacity (s : Z) (R : list Interval) : Z :=
  foldr (λ r n, (end_ r - start r) / s * s + n) 0 R.

Lemma capacity_nonneg s R : 0 < s → Forall (λ r, start r ≤ end_ r) R → 0 ≤ capacity s R.
Proof.
  intros Hs. unfold capacity. induction 1 as [|r R Hr HR IH]; cbn [foldr]; [lia|].
  assert (0 ≤ (end_ r - start r) / s * s) by (apply Z.mul_nonneg_nonneg; [apply Z.div_pos|]; lia). lia.
Qed.

Lemma seqZ_prefix (m n k : Z) : 0 ≤ n ≤ k → seqZ m n `sublist_of` seqZ m k.
Proof.
  intros. replace k with (n + (k - n)) by lia. rewrite seqZ_app by lia. by apply sublist_inserts_r.
Qed.

Section greedy.
Context (lbs : Z) (Hl : lbs_ok lbs).
Context (ds : list LpMetadataBlockDevice) (Hds : Forall (device_ok lbs) ds).

Lemma take_regions_spec R needed :
  Forall (region_ok lbs ds) R → 0 ≤ needed < 2 ^ 64 → (lbs / 512 | needed) →
  ∃ es rest, take_regions (lbs / 512) R needed = Ret (es, rest) ∧
    Forall (extent_ok lbs ds) es ∧ zlen (sectors es) = needed - rest ∧
    phys es `sublist_of` regions_phys R ∧
    rest = Z.max 0 (needed - capacity (lbs / 512) R).
Proof.
  destruct (lbs_spb lbs Hl) as [Hs _]. set (s := lbs / 512) in *.
  revert needed. induction R as [|r R IH]; intros needed HR Hn Hdv.
  { exists [], needed. cbn [take_regions capacity foldr]. change (zlen (sectors [])) with 0.
    split_and!; [done|by apply Forall_nil|lia|apply sublist_nil_l|lia]. }
  apply Forall_cons in HR as [Hr HR]. cbn [take_regions].
  assert (0 ≤ capacity s R) as HcR.
  { apply capacity_nonneg; [done|]. eapply Forall_impl; [exact HR|]. intros x Hx.
    pose proof (region_bounds lbs Hl ds Hds x Hx). lia. }
  pose proof (region_bounds lbs Hl ds Hds r Hr) as (Hr0 & Hr1).
  set (len := end_ r - start r). assert (0 < len < 2 ^ 64) as Hlen by (subst len; lia).
  pose proof (Z.div_mod len s ltac:(lia)) as Hdm. pose proof (Z.mod_pos_bound len s Hs) as Hmb.
  assert (0 ≤ len / s) as Hq by (apply Z.div_pos; lia).
  assert (0 ≤ len / s * s ≤ len) as Hcap by lia.
  unfold capacity. cbn [foldr]. fold (capacity s R). fold len.
  destruct (Z.eqb_spec needed 0) as [->|Hne].
  { exists [], 0. split_and!; [done|constructor|done|apply sublist_nil_l|lia]. }
  rewrite (interval_length_eq r) by lia. fold len.
  set (full := len / s * s) in *.
  assert (0 < full → ∃ es rest,
      (c_assert (Z.min needed full mod s =? 0);;
       '(es, needed') ← take_regions s R (u64 (needed - Z.min needed full));
       Ret (LinearExtent (Z.min needed full) (device_index r) (start r) :: es, needed'))
      = Ret (es, rest) ∧
      Forall (extent_ok lbs ds) es ∧ zlen (sectors es) = needed - rest ∧
      phys es `sublist_of` regions_phys (r :: R) ∧
      rest = Z.max 0 (needed - (full + capacity s R))) as Htake.
  { intros Hf.
    assert ((s | Z.min needed full)) as Hmin.
    { destruct (Z.min_spec needed full) as [[_ ->]|[_ ->]]; [done|]. by exists (len / s). }
    rewrite (proj2 (Z.mod_divide (Z.min needed full) s ltac:(lia)) Hmin). rewrite Z.eqb_refl.
    cbn [c_assert mbind outcome_bind]. rewrite u64_small by lia.
    destruct (IH (needed - Z.min needed full) HR) as (es & rest & -> & I1 & I2 & I3 & I4);
      [lia|by apply Z.divide_sub_r|].
    eexists _, rest. split; [reflexivity|].
    set (n := Z.min needed full) in *. assert (0 < n ≤ len) as Hnn by lia. split_and!.
    - constructor; [|done]. split; [cbn; lia|]. split; [done|]. destruct Hr as (d & Hd & []).
      exists d. split; [done|]. split; [lia|]. split; [|done]. subst len. lia.
    - unfold sectors. cbn [mbind list_bind]. rewrite zlen_app, zlen_extent_sectors by (cbn; lia).
      change (zlen (mbind extent_sectors es)) with (zlen (sectors es)). cbn [num_sectors]. lia.
    - unfold phys, regions_phys. cbn [mbind list_bind]. apply sublist_app; [|exact I3].
      cbn [extent_phys]. unfold region_phys. apply fmap_sublist. apply seqZ_prefix. lia.
    - lia. }
  destruct (Z.eqb_spec (len mod s) 0) as [Hm|Hm]; cbn [negb].
  { assert (len = full) as E by lia. cbv beta iota zeta. rewrite (interval_length_eq r) by lia. fold len. rewrite E. apply Htake. lia. }
  cbv zeta. cbn [device_index start end_]. rewrite (u64_small (start r + full)) by lia.
  rewrite interval_length_eq by (cbn; lia). cbn [start end_].
  replace (start r + full - start r) with full by lia.
  destruct (Z.eqb_spec full 0) as [Hf|Hf]; [|apply Htake; lia].
  destruct (IH needed HR Hn Hdv) as (es & rest & -> & I1 & I2 & I3 & I4).
  exists es, rest. split_and!; [done|done|done| |lia].
  unfold regions_phys. cbn [mbind list_bind]. by apply sublist_inserts_l.
Qed.

End greedy.

(** * Adding extents *)

Lemma last_split {A} (l : list A) x : last l = Some x → l = take (length l - 1) l ++ [x].
Proof.
  intros H. apply last_Some in H as [k ->]. rewrite length_app. cbn [length].
  rewrite take_app_length' by lia. done.
Qed.

Section adding.
Context (lbs : Z) (Hl : lbs_ok lbs).
Context (ds : list LpMetadataBlockDevice) (Hds : Forall (device_ok lbs) ds).

Lemma linear_bounds n d p : extent_ok lbs ds (LinearExtent n d p) → 0 ≤ p ∧ 0 < n ∧ p + n < 2 ^ 64.
Proof.
  intros (Hn & _ & dd & Hd & Hf & Hla & _). apply zlookup_Some_inv in Hd as [_ Hin].
  rewrite Forall_forall in Hds. specialize (Hds dd Hin).
  destruct (device_size lbs dd Hl Hds) as (Hsz & _ & _). destruct Hds. cbn in Hn. lia.
Qed.

(** Merging with the last extent is invisible. *)
Lemma push_extent_spec es e : Forall (extent_ok lbs ds) es → extent_ok lbs ds e →
  Forall (extent_ok lbs ds) (push_extent es e) ∧
  sectors (push_extent es e) = sectors es ++ extent_sectors e.
Proof.
  intros Hes He.
  assert (Forall (extent_ok lbs ds) (es ++ [e]) ∧ sectors (es ++ [e]) = sectors es ++ extent_sectors e)
    as Hplain.
  { split; [apply Forall_app; split; [done|]; apply Forall_cons; split; [done|by apply Forall_nil]|]. rewrite sectors_app. unfold sectors at 2.
    cbn [mbind list_bind]. by rewrite app_nil_r. }
  destruct e as [n d p|n]; [|done]. cbn [push_extent].
  destruct (last es) as [[n0 d0 p0|n0]|] eqn:Hlast; [|done..].
  pose proof (last_split _ _ Hlast) as Hes'. set (es' := take (length es - 1) es) in *.
  rewrite Hes' in Hes. apply Forall_app in Hes as [Hes Hlst]. apply Forall_cons in Hlst as [Hlst _].
  pose proof (linear_bounds _ _ _ Hlst) as Hb0. pose proof (linear_bounds _ _ _ He) as Hb.
  rewrite u64_small by lia. destruct ((p0 + n0 =? p) && (d0 =? d)) eqn:E; [|done].
  zbool. subst p d. rewrite u64_small by lia. split.
  - apply Forall_app. split; [done|]. constructor; [|constructor].
    destruct Hlst as (_ & Hm0 & dd & Hd & Hf & _ & Hal), He as (_ & Hm & dd' & Hd' & _ & Hla & _).
    assert (dd' = dd) as -> by congruence. cbn [num_sectors] in *. split; [cbn; lia|].
    split; [cbn; by apply Z.divide_add_r|]. exists dd. split_and!; [done|done|lia|done].
  - rewrite Hes' at 1. rewrite !sectors_app, <- app_assoc. f_equal. unfold sectors.
    cbn [mbind list_bind extent_sectors]. rewrite !app_nil_r, seqZ_app by lia. by rewrite fmap_app.
Qed.

Definition same_identity (p p' : Partition) : Prop :=
  name_ p' = name_ p ∧ group_name_ p' = group_name_ p ∧ attributes_ p' = attributes_ p.

Lemma add_extents_spec es p :
  Forall (extent_ok lbs ds) es → Forall (extent_ok lbs ds) (extents_ p) → partition_size_ok p →
  size_ p + 512 * zlen (sectors es) < 2 ^ 64 →
  let p' := foldl (fun q e => AddExtent e q) p es in
  same_identity p p' ∧ Forall (extent_ok lbs ds) (extents_ p') ∧ partition_size_ok p' ∧
  sectors (extents_ p') = sectors (extents_ p) ++ sectors es.
Proof.
  revert p. induction es as [|e es IH]; intros p Hes Hp Hsz Hfit.
  { cbn. rewrite app_nil_r. done. }
  apply Forall_cons in Hes as [He Hes]. cbn [foldl].
  destruct (push_extent_spec (extents_ p) e Hp He) as [P1 P2].
  assert (0 < num_sectors e) as Hn by apply He.
  unfold sectors in Hfit. cbn [mbind list_bind] in Hfit. change (mbind extent_sectors es) with (sectors es) in Hfit.
  rewrite zlen_app, zlen_extent_sectors in Hfit by lia.
  pose proof (zlen_nonneg (sectors es)). pose proof (zlen_nonneg (sectors (extents_ p))).
  destruct Hsz as [Hsz Hmax]. unfold LP_SECTOR_SIZE in Hsz.
  assert (size_ (AddExtent e p) = size_ p + 512 * num_sectors e) as Hsz'.
  { unfold AddExtent, LP_SECTOR_SIZE. cbn [size_ set_extents]. rewrite (u64_small (num_sectors e * 512)) by lia.
    rewrite u64_small by lia. lia. }
  destruct (IH (AddExtent e p)) as (I1 & I2 & I3 & I4); [done|exact P1| |lia|].
  { split; [|lia]. rewrite Hsz'. unfold AddExtent. cbn [extents_ set_extents]. rewrite P2, zlen_app.
    rewrite zlen_extent_sectors by lia. unfold LP_SECTOR_SIZE. lia. }
  split_and!; [exact I1|exact I2|exact I3|]. rewrite I4. unfold AddExtent. cbn [extents_ set_extents].
  rewrite P2, <- app_assoc. done.
Qed.

(** * Removing sectors from the end *)

Lemma sectors_reverse_cons e r : sectors (reverse (e :: r)) = sectors (reverse r) ++ extent_sectors e.
Proof.
  rewrite reverse_cons, sectors_app. unfold sectors at 2. cbn [mbind list_bind]. by rewrite app_nil_r.
Qed.

Lemma extent_sectors_set n e : 0 ≤ n ≤ num_sectors e →
  extent_sectors (set_num_sectors n e) = ztake n (extent_sectors e).
Proof.
  intros Hn. unfold ztake. destruct e as [m d p|m]; cbn [set_num_sectors extent_sectors num_sectors] in *.
  - rewrite <- fmap_take. f_equal. replace m with (n + (m - n)) by lia. rewrite seqZ_app by lia.
    rewrite take_app_length'; [done|]. by rewrite length_seqZ.
  - rewrite take_replicate. f_equal. lia.
Qed.

Lemma extent_ok_set n e : extent_ok lbs ds e → 0 < n ≤ num_sectors e → (lbs / 512 | n) →
  extent_ok lbs ds (set_num_sectors n e).
Proof.
  intros (Hn & Hm & He) Hr Hd. destruct e as [m d p|m]; cbn [set_num_sectors num_sectors] in *.
  - destruct He as (dd & ? & ? & ? & ?). split; [cbn; lia|]. split; [done|]. exists dd.
    split_and!; [done|done|lia|done].
  - split; [cbn; lia|]. by split.
Qed.

Lemma shrink_loop_spec r k size :
  Forall (extent_ok lbs ds) r → 0 ≤ k ≤ zlen (sectors (reverse r)) → (lbs / 512 | k) →
  size = 512 * zlen (sectors (reverse r)) → size < 2 ^ 64 →
  ∃ r', shrink_loop r k size = Ret (r', size - 512 * k) ∧ Forall (extent_ok lbs ds) r' ∧
    sectors (reverse r') = ztake (zlen (sectors (reverse r)) - k) (sectors (reverse r)).
Proof.
  revert k size. induction r as [|e r IH]; intros k size Hr Hk Hdv Hsz Hmax.
  { change (sectors (reverse [])) with (@nil (option (Z * Z))) in *. change (zlen []) with 0 in *.
    assert (k = 0) as -> by lia. exists []. cbn. split_and!; [do 2 f_equal; lia|constructor|done]. }
  apply Forall_cons in Hr as [He Hr]. rewrite sectors_reverse_cons, zlen_app in Hk, Hsz |- *.
  assert (0 < num_sectors e) as Hn by apply He. rewrite zlen_extent_sectors in Hk, Hsz |- * by lia.
  set (total := zlen (sectors (reverse r))) in *. assert (0 ≤ total) by apply zlen_nonneg.
  cbn [shrink_loop]. unfold LP_SECTOR_SIZE. destruct (Z.eqb_spec k 0) as [->|Hne].
  { exists (e :: r). split_and!; [do 2 f_equal; lia|by constructor|].
    rewrite sectors_reverse_cons, ztake_all; [done|].
    rewrite zlen_app, zlen_extent_sectors by lia. fold total. lia. }
  destruct (Z.ltb_spec k (num_sectors e)) as [Hlt|Hge].
  - rewrite (u64_small (num_sectors e - k)), (u64_small (k * 512)), u64_small by lia.
    eexists. split; [do 2 f_equal; lia|]. split.
    + constructor; [|done]. apply extent_ok_set; [done|lia|]. apply Z.divide_sub_r; [apply He|done].
    + rewrite sectors_reverse_cons, extent_sectors_set by lia.
      replace (total + num_sectors e - k) with (total + (num_sectors e - k)) by lia.
      rewrite ztake_split, ztake_app_exact, zdrop_app_exact by (done || lia). done.
  - rewrite (u64_small (k - num_sectors e)), (u64_small (num_sectors e * 512)), u64_small by lia.
    destruct (IH (k - num_sectors e) (size - num_sectors e * 512)) as (r' & E & I1 & I2);
      [done|fold total; lia|apply Z.divide_sub_r; [done|apply He]|fold total; lia|lia|].
    exists r'. split; [rewrite E; do 2 f_equal; lia|]. split; [done|]. rewrite I2. fold total.
    replace (total + num_sectors e - k) with (total - (k - num_sectors e)) by lia.
    unfold ztake. rewrite take_app_le; [done|]. unfold total, zlen in *. lia.
Qed.

Lemma ShrinkTo_spec p size :
  Forall (extent_ok lbs ds) (extents_ p) → partition_size_ok p → 0 ≤ size < size_ p → (lbs | size) →
  ∃ p', ShrinkTo size p = Ret p' ∧ same_identity p p' ∧ Forall (extent_ok lbs ds) (extents_ p') ∧
    partition_size_ok p' ∧ size_ p' = size ∧
    sectors (extents_ p') = ztake (size / 512) (sectors (extents_ p)).
Proof.
  intros Hes [Hsz Hmax] Hsize Hdv. destruct (lbs_spb lbs Hl) as [Hs Hl']. unfold ShrinkTo.
  destruct (Z.eqb_spec size 0) as [->|Hne].
  { exists (RemoveExtents p). split_and!; [done|done|constructor|by split|done|done]. }
  unfold LP_SECTOR_SIZE in *. set (total := zlen (sectors (extents_ p))) in *.
  destruct Hdv as [k Hk].
  assert (size = 512 * (k * (lbs / 512))) as Hsz2 by nia.
  assert (size / 512 = k * (lbs / 512)) as Hdiv by (rewrite Hsz2, Z.mul_comm; apply Z.div_mul; lia).
  rewrite u64_small by lia.
  assert ((size_ p - size) / 512 = total - k * (lbs / 512)) as ->.
  { rewrite Hsz. replace (512 * total - size) with ((total - k * (lbs / 512)) * 512) by lia.
    apply Z.div_mul. lia. }
  assert ((lbs / 512 | total)) as Htot.
  { unfold total. clear -Hes. induction Hes as [|e es He Hes IH]; [by exists 0|]. unfold sectors in *.
    cbn [mbind list_bind]. rewrite zlen_app. apply Z.divide_add_r; [|done].
    destruct He as (? & ? & _). by rewrite zlen_extent_sectors by lia. }
  destruct (shrink_loop_spec (reverse (extents_ p)) (total - k * (lbs / 512)) (size_ p))
    as (r' & -> & I1 & I2).
  - by apply Forall_reverse.
  - rewrite reverse_involutive. fold total. lia.
  - apply Z.divide_sub_r; [done|]. by exists k.
  - rewrite reverse_involutive. fold total. lia.
  - done.
  - cbn [mbind outcome_bind]. rewrite reverse_involutive in I2. fold total in I2.
    replace (total - (total - k * (lbs / 512))) with (k * (lbs / 512)) in I2 by lia.
    eexists. split; [reflexivity|]. cbn [extents_ set_extents size_].
    assert (size_ p - 512 * (total - k * (lbs / 512)) = size) as Hfin by lia. rewrite Hfin.
    split_and!; [done|by apply Forall_reverse| |done|by rewrite I2, Hdiv].
    split; cbn [extents_ set_extents size_]; [|lia]. unfold LP_SECTOR_SIZE.
    rewrite I2, zlen_ztake by (fold total; nia). lia.
Qed.

End adding.

(** * Growing *)

Definition region_sep_phys (n d p : Z) (l : list (Z * Z)) : Prop :=
  ∀ s, s ∈ (pair d <$> seqZ p n) → s ∉ l.

Lemma not_allocated b n d p : lp_ok b → 0 ≤ p → p + n < 2 ^ 64 → 0 < n →
  IsAnyRegionAllocated b n d p = false → region_sep_phys n d p (phys (all_extents b)).
Proof.
  intros Hb Hp Hn Hpos HA s [Hs1 Hs2]%elem_of_pair_seqZ Hin.
  apply elem_of_phys in Hin as (n' & p' & He & Hr).
  unfold IsAnyRegionAllocated in HA. apply not_true_iff_false in HA. apply HA.
  apply existsb_exists. exists (LinearExtent n' s.1 p'). split; [by apply list_elem_of_In|].
  pose proof (lo_extents b Hb) as Hes. rewrite Forall_forall in Hes.
  pose proof (linear_bounds _ (lo_lbs b Hb) _ (lo_devices b Hb) _ _ _ (Hes _ He)) as Hb'.
  unfold OverlapsWith, AsInterval. cbn [device_index start end_]. rewrite !u64_small by lia.
  rewrite Hs1, Z.eqb_refl. cbn [andb]. apply andb_true_iff. split; apply Z.ltb_lt; lia.
Qed.

Lemma not_covered R n d p : 0 ≤ p → p + n < 2 ^ 64 →
  IsAnyRegionCovered R n d p = false → region_sep_phys n d p (regions_phys R).
Proof.
  intros Hp Hn HA s [Hs1 Hs2]%elem_of_pair_seqZ Hin.
  apply elem_of_regions in Hin as (r & Hr & Hr1 & Hr2).
  unfold IsAnyRegionCovered in HA. apply not_true_iff_false in HA. apply HA.
  apply existsb_exists. exists r. split; [by apply list_elem_of_In|].
  unfold OverlapsWith. rewrite u64_small by lia.
  replace (device_index r) with d by congruence. rewrite Z.eqb_refl. cbn [andb].
  apply andb_true_iff. split; apply Z.ltb_lt; lia.
Qed.

Section growing.
Context (b : MetadataBuilder) (Hb : lp_ok b).
#[local] Abbreviation lbs := (logical_block_size (geometry_ b)).
#[local] Abbreviation ds := (block_devices_ b).

Lemma ExtendFinalExtent_spec p R needed :
  Forall (extent_ok lbs ds) (extents_ p) → 0 < needed < 2 ^ 64 → (lbs / 512 | needed) →
  ∃ x, ExtendFinalExtent b p R needed = Ret x ∧
    match x with
    | None => True
    | Some (n, d, s) =>
        0 < n ≤ needed ∧ (lbs / 512 | n) ∧ extent_ok lbs ds (LinearExtent n d s) ∧
        region_sep_phys n d s (phys (all_extents b)) ∧ region_sep_phys n d s (regions_phys R)
    end.
Proof.
  intros Hes Hn Hdv. pose proof (lo_lbs b Hb) as Hl. pose proof (lo_devices b Hb) as Hds.
  unfold ExtendFinalExtent. destruct (last (extents_ p)) as [[n d s|n]|] eqn:Hlast; [|by eexists..].
  assert (extent_ok lbs ds (LinearExtent n d s)) as He.
  { rewrite Forall_forall in Hes. apply Hes. apply last_Some in Hlast as [l ->].
    apply elem_of_app. right. by apply list_elem_of_singleton. }
  pose proof (linear_bounds _ Hl _ Hds _ _ _ He) as Hbd.
  destruct He as (_ & Hdn & dd & Hd & Hfirst & Hlst & Hal). rewrite Hd. cbn [num_sectors] in Hdn.
  assert (device_ok lbs dd) as Hdd.
  { rewrite Forall_forall in Hds. apply Hds. by eapply zlookup_Some_inv. }
  rewrite (u64_small (s + n)) by lia. set (e := s + n) in *.
  destruct (AlignSector_spec lbs dd e Hl Hdd) as (a & -> & Ha & Ha0 & Ha1); [lia|].
  destruct (Z.eqb_spec e a) as [|Hne]; [by eexists|].
  destruct (device_size _ _ Hl Hdd) as (Hsz & _ & _). pose proof (do_size _ _ Hdd) as H64.
  assert (a < 2 ^ 64) by lia.
  rewrite (u64_small (a - e)) by lia. set (num := Z.min (a - e) needed).
  destruct (IsAnyRegionAllocated b num d e || IsAnyRegionCovered R num d e) eqn:E; [by eexists|].
  apply orb_false_iff in E as [E1 E2]. eexists. split; [reflexivity|].
  assert (alignment dd ≠ 0) as Hal0 by (intros Hz; specialize (Ha0 Hz); lia).
  assert ((lbs / 512 | num)) as Hnum.
  { subst num. destruct (Z.min_spec (a - e) needed) as [[_ ->]|[_ ->]]; [|done].
    apply Z.divide_sub_r; [by apply Ha1|]. subst e. apply Z.divide_add_r; [by apply Hal|done]. }
  split_and!; [lia|lia|done| | |].
  - split; [cbn; lia|]. split; [done|]. exists dd. split_and!; [done|lia|lia|].
    intros _. subst e. apply Z.divide_add_r; [by apply Hal|done].
  - apply not_allocated; (done || lia).
  - apply not_covered; (done || lia).
Qed.

(** The free regions the loop works on: those of the table, restricted by the
    hint and reordered. *)
Definition usable_regions GetProperty GetBoolProperty (p : Partition) (hints : list Interval)
    : outcome (list Interval) :=
  free_regions ← GetFreeRegions b;
  let free_regions := match hints with [] => free_regions | _ => IntersectLists free_regions hints end in
  if IsABDevice GetProperty && ShouldHalveSuper GetBoolProperty b
     && bool_decide (GetPartitionSlotSuffix (name_ p) = bs "_b")
  then PrioritizeSecondHalfOfSuper b free_regions else Ret free_regions.

Lemma usable_regions_spec GetProperty GetBoolProperty p hints :
  hints_ok lbs hints →
  ∃ R, usable_regions GetProperty GetBoolProperty p hints = Ret R ∧ Forall (region_ok lbs ds) R ∧
    NoDup (regions_phys R) ∧ ∀ s, s ∈ regions_phys R → s ∉ phys (all_extents b).
Proof.
  intros Hh. pose proof (lo_lbs b Hb) as Hl. pose proof (lo_devices b Hb) as Hds.
  destruct (GetFreeRegions_spec b Hb) as (R0 & E0 & F1 & F2 & F3).
  unfold usable_regions. rewrite E0. cbn [mbind outcome_bind].
  set (R1 := match hints with [] => R0 | _ => _ end).
  assert (Forall (region_ok lbs ds) R1 ∧ NoDup (regions_phys R1) ∧
    ∀ s, s ∈ regions_phys R1 → s ∉ phys (all_extents b)) as (G1 & G2 & G3).
  { subst R1. destruct hints as [|h hints]; [done|].
    destruct (IntersectLists_spec lbs Hl ds Hds R0 (h :: hints) F1 F2 Hh) as (I1 & I2 & I3).
    split_and!; [done|done|]. intros s Hs. apply F3. by apply I3. }
  destruct (_ && _ && _) eqn:Eab; [|by exists R1].
  unfold PrioritizeSecondHalfOfSuper.
  assert (block_device_name 0 b ≠ []) as Hname.
  { apply andb_true_iff in Eab as [Eab _]. apply andb_true_iff in Eab as [_ Eab].
    unfold ShouldHalveSuper in Eab. apply andb_true_iff in Eab as [Eab _].
    apply bool_decide_eq_true in Eab. by rewrite Eab. }
  unfold block_device_name in Hname. destruct ds as [|d0 ds'] eqn:Eds; [done|].
  assert (device_ok lbs d0) as Hd0 by (by apply Forall_cons in Hds as [? _]).
  destruct (device_size _ _ Hl Hd0) as (Hsz & Hfl & _). pose proof (do_first _ _ Hd0) as Hf0.
  pose proof (do_size _ _ Hd0) as H64. fold (last_sector d0).
  rewrite (u64_small (last_sector d0 - first_logical_sector d0)) by lia.
  set (half := (last_sector d0 - first_logical_sector d0) / 2).
  assert (0 ≤ half ≤ last_sector d0 - first_logical_sector d0) as Hh2.
  { subst half. split; [apply Z.div_pos; lia|]. apply Z.div_le_upper_bound; lia. }
  rewrite u64_small by lia.
  destruct (AlignSector_spec lbs d0 (first_logical_sector d0 + half) Hl Hd0) as (m & -> & _ & _ & Hm1); [lia|].
  rewrite <- Eds in G1 |- *. rewrite <- Eds in Hds.
  destruct (split_regions_spec lbs Hl ds Hds m d0 R1) as [S1 S2];
    [by rewrite Eds|done|done|].
  eexists. split; [reflexivity|]. cbv zeta in S1, S2. split; [exact S1|]. rewrite S2.
  split; [done|]. intros s Hs. apply G3. by rewrite <- S2.
Qed.

End growing.

(** * Replacing a partition *)

Lemma all_extents_split b i p : partitions_ b !! i = Some p →
  ∃ A B, all_extents b = A ++ extents_ p ++ B ∧
    ∀ p', all_extents (set_partitions (<[i := p']> (partitions_ b)) b) = A ++ extents_ p' ++ B.
Proof.
  intros Hi. exists (take i (partitions_ b) ≫= extents_), (drop (S i) (partitions_ b) ≫= extents_). split.
  - unfold all_extents. rewrite <- (take_drop_middle _ _ _ Hi) at 1. by rewrite bind_app.
  - intros p'. unfold all_extents. cbn [partitions_ set_partitions].
    rewrite insert_take_drop by (by eapply lookup_lt_Some). by rewrite bind_app.
Qed.

Lemma Forall_replace {A} (P : A → Prop) l i x : Forall P l → P x → Forall P (<[i := x]> l).
Proof. intros. by apply Forall_insert. Qed.

Lemma fmap_insert_same {A B} (f : A → B) (l : list A) (i : nat) x y : l !! i = Some x → f y = f x → f <$> <[i := y]> l = f <$> l.
Proof.
  intros Hi E. rewrite list_fmap_insert, E. apply list_insert_id. by rewrite list_lookup_fmap, Hi.
Qed.

(** Another list of extents for a partition keeps the table well formed when it
    uses each sector once, and only sectors of the partition or free ones. *)
Lemma lp_ok_replace b i p p' : lp_ok b → partitions_ b !! i = Some p → same_identity p p' →
  Forall (extent_ok (logical_block_size (geometry_ b)) (block_devices_ b)) (extents_ p') →
  partition_size_ok p' → NoDup (phys (extents_ p')) →
  (∀ s, s ∈ phys (extents_ p') → s ∈ phys (extents_ p) ∨ s ∉ phys (all_extents b)) →
  lp_ok (set_partitions (<[i := p']> (partitions_ b)) b).
Proof.
  intros [Hl Hds Hes Hnd Hsz [Hn1 Hn2] Hg Hm] Hi (I1 & I2 & I3) Hes' Hsz' Hnd' Hfree.
  destruct (all_extents_split b i p Hi) as (A & B & E1 & E2).
  rewrite E1 in Hes, Hnd, Hfree. rewrite !phys_app in Hnd.
  apply Forall_app in Hes as [HA HB]. apply Forall_app in HB as [_ HB].
  split; cbn [geometry_ block_devices_ partitions_ groups_ set_partitions];
    [done|done| | |by apply Forall_replace| |done|].
  - rewrite E2. by rewrite !Forall_app.
  - rewrite E2, !phys_app. rewrite !NoDup_app in Hnd |- *.
    destruct Hnd as (N1 & N2 & _ & N3 & N4).
    assert (∀ s, s ∈ phys (extents_ p') → s ∉ phys A ∧ s ∉ phys B) as Hout.
    { intros s Hs. destruct (Hfree s Hs) as [Hp|Hp].
      - split; [intros Ha; apply (N2 s Ha); apply elem_of_app; by left|by apply N3].
      - rewrite !phys_app in Hp. split; intros Hx; apply Hp; rewrite !elem_of_app; tauto. }
    split_and!; [done| |done|intros s Hs; by apply Hout|done].
    intros s Ha [Hp|Hp]%elem_of_app; [by apply (proj1 (Hout s Hp))|].
    apply (N2 s Ha). apply elem_of_app. by right.
  - split; [by rewrite (fmap_insert_same _ _ _ p)|]. apply Forall_replace; [done|]. rewrite I1.
    by apply (Forall_lookup_1 _ _ _ _ Hn2 Hi).
  - apply Forall_replace; [done|]. rewrite I2. by apply (Forall_lookup_1 _ _ _ _ Hm Hi).
Qed.

Lemma partition_extents_ok b i p : lp_ok b → partitions_ b !! i = Some p →
  Forall (extent_ok (logical_block_size (geometry_ b)) (block_devices_ b)) (extents_ p) ∧
  NoDup (phys (extents_ p)) ∧ partition_size_ok p ∧
  ∀ s, s ∈ phys (extents_ p) → s ∈ phys (all_extents b).
Proof.
  intros Hb Hi. destruct (all_extents_split b i p Hi) as (A & B & E & _).
  pose proof (lo_extents b Hb) as Hes. pose proof (lo_disjoint b Hb) as Hnd.
  rewrite E in Hes, Hnd. rewrite !phys_app in Hnd. rewrite !Forall_app in Hes.
  rewrite !NoDup_app in Hnd. split_and!; [tauto|tauto| |].
  - apply (Forall_lookup_1 _ _ _ _ (lo_sizes b Hb) Hi).
  - intros s Hs. rewrite E, !phys_app, !elem_of_app. tauto.
Qed.

(** * Resizing *)

Section resizing.
Context (GetProperty : list byte → list byte → list byte) (GetBoolProperty : list byte → bool → bool).
Context (b : MetadataBuilder) (Hb : lp_ok b).

Lemma GrowPartition_spec i p size hints :
  partitions_ b !! i = Some p → hints_ok (logical_block_size (geometry_ b)) hints →
  size_ p < size < 2 ^ 64 → (logical_block_size (geometry_ b) | size) →
  ∃ ok b' R, GrowPartition GetProperty GetBoolProperty i p size hints b = Ret (ok, b') ∧
    usable_regions b GetProperty GetBoolProperty p hints = Ret R ∧
    if ok : bool
    then ∃ p', b' = set_partitions (<[i := p']> (partitions_ b)) b ∧ lp_ok b' ∧ same_identity p p' ∧
      size_ p' = size ∧ sectors (extents_ p) `prefix_of` sectors (extents_ p')
    else b' = b ∧ capacity (spb b) R < (size - size_ p) / 512.
Proof.
  intros Hi Hh Hsize Hdv. pose proof (lo_lbs b Hb) as Hl. pose proof (lo_devices b Hb) as Hds.
  destruct (partition_extents_ok b i p Hb Hi) as (Hes & Hnd & [Hsz Hmax] & Hsub).
  set (lbs := logical_block_size (geometry_ b)) in *. destruct (lbs_spb lbs Hl) as [Hs Hl'].
  unfold LP_SECTOR_SIZE in Hsz. set (total := zlen (sectors (extents_ p))) in *.
  assert (0 ≤ total) by apply zlen_nonneg.
  assert ((lbs / 512 | total)) as [t Ht].
  { unfold total. clear -Hes. induction Hes as [|e es He Hes IH]; [by exists 0|]. unfold sectors in *.
    cbn [mbind list_bind]. rewrite zlen_app. apply Z.divide_add_r; [|done].
    destruct He as (? & ? & _). by rewrite zlen_extent_sectors by lia. }
  destruct Hdv as [k Hk].
  assert (size = 512 * (k * (lbs / 512))) as Hk' by nia.
  set (needed := k * (lbs / 512) - total).
  assert ((size - size_ p) / 512 = needed) as Hneed.
  { replace (size - size_ p) with (needed * 512) by lia. apply Z.div_mul. lia. }
  assert ((lbs / 512 | needed)) as Hnd'.
  { subst needed. apply Z.divide_sub_r; [by exists k|by exists t]. }
  destruct (usable_regions_spec b Hb GetProperty GetBoolProperty p hints Hh) as (R & ER & R1 & R2 & R3).
  unfold GrowPartition, spb, LP_SECTOR_SIZE. fold lbs. rewrite u64_small, Hneed by lia.
  unfold usable_regions in ER. destruct (GetFreeRegions b) as [R0| |] eqn:EF; [|done..].
  cbn [mbind outcome_bind] in ER |- *.
  rewrite (proj2 (Z.eqb_neq (lbs / 512) 0)) by lia. cbn [negb c_assert].
  rewrite (proj2 (Z.mod_divide needed (lbs / 512) ltac:(lia)) Hnd'), Z.eqb_refl. cbn [c_assert].
  rewrite ER. cbn [mbind outcome_bind]; cbv beta iota.
  destruct (ExtendFinalExtent_spec b Hb p R needed) as (x & -> & Hx); [done|lia|done|]. cbn [mbind outcome_bind]; cbv beta iota.
  set (first := match x with Some (n, d, s) => [LinearExtent n d s] | None => [] end).
  set (left := match x with Some (n, _, _) => needed - n | None => needed end).
  assert (match x with
          | Some (n, d, s) => ([LinearExtent n d s], u64 (needed - n))
          | None => ([], needed)
          end = (first, left)) as ->.
  { subst first left. destruct x as [[[n d] s]|]; [|done]. destruct Hx as (Hn & _).
    rewrite u64_small by lia. done. }
  assert (Forall (extent_ok lbs (block_devices_ b)) first ∧ zlen (sectors first) = needed - left ∧
    0 ≤ left ≤ needed ∧ (lbs / 512 | left) ∧ NoDup (phys first) ∧
    (∀ s, s ∈ phys first → s ∉ phys (all_extents b) ∧ s ∉ regions_phys R)) as (F1 & F2 & F3 & F4 & F5 & F6).
  { subst first left. destruct x as [[[n d] s]|].
    - destruct Hx as (Hn & Hn' & He & Hs1 & Hs2). unfold sectors, phys. cbn [mbind list_bind].
      rewrite !app_nil_r. split_and!; [apply Forall_cons; split; [done|by apply Forall_nil]| |lia|lia| | |].
      + rewrite zlen_extent_sectors by (cbn; lia). cbn. lia.
      + by apply Z.divide_sub_r.
      + apply NoDup_pair_seqZ.
      + intros y Hy. split; [by apply Hs1|by apply Hs2].
    - change (zlen (sectors [])) with 0.
      split_and!; [by apply Forall_nil|lia|lia|lia|done|apply NoDup_nil_2|].
      intros y Hy. by apply not_elem_of_nil in Hy. }
  cbn [mbind outcome_bind]; cbv beta iota.
  destruct (take_regions_spec lbs Hl (block_devices_ b) Hds R left) as (es & rest & -> & T1 & T2 & T3 & T4);
    [done|lia|done|]. cbn [mbind outcome_bind]; cbv beta iota.
  destruct (Z.eqb_spec rest 0) as [Hr0|Hr0]; cbn [negb].
  2: { exists false, b, R. split; [reflexivity|]. split; [|split; [done|lia]].
       unfold usable_regions. rewrite EF. exact ER. }
  destruct (add_extents_spec lbs Hl (block_devices_ b) Hds (first ++ es) p) as (A1 & A2 & A3 & A4);
    [by apply Forall_app|done|done|rewrite sectors_app, zlen_app, F2, T2; lia|].
  set (p' := foldl _ p (first ++ es)) in *. cbv zeta in A1, A2, A3, A4.
  eexists true, _, R. split; [reflexivity|]. split; [unfold usable_regions; rewrite EF; exact ER|].
  exists p'. split; [done|]. split; [|split; [done|split]].
  - assert (phys (extents_ p') = phys (extents_ p) ++ phys first ++ phys es) as Hph.
    { rewrite !phys_sectors, A4, sectors_app, !omap_app. done. }
    apply (lp_ok_replace b i p); [done|done|done|done|done| |].
    + rewrite Hph, !NoDup_app. split_and!; [done| |done| |].
      * intros s Hp [Hf|He]%elem_of_app; [by apply (proj1 (F6 s Hf)), Hsub|].
        apply (R3 s); [by eapply sublist_subseteq|by apply Hsub].
      * intros s Hf He. apply (proj2 (F6 s Hf)). by eapply sublist_subseteq.
      * by apply (sublist_NoDup _ _ R2 T3).
    + intros s. rewrite Hph, !elem_of_app. intros [Hp|[Hf|He]]; [by left|right; by apply F6|].
      right. apply R3. by eapply sublist_subseteq.
  - destruct A3 as [A3 _]. rewrite A3, A4, sectors_app, !zlen_app, F2, T2. unfold LP_SECTOR_SIZE.
    fold total. lia.
  - rewrite A4. by eexists.
Qed.

End resizing.
