(* ===== verification/LpTable.v ===== *)
(** What a user of the partition table builder relies on: resizing, the
    invariant over all sequences of operations, and the round trip through an
    exported table (system/core/fs_mgr/liblp/builder.cpp). *)

From Stdlib Require Import Strings.String.
From stdpp Require Import sorting.
From S2P Require Import Prelude LibBase SparseFormat LpFormat LpBuilder LpBuilderFacts.
Open Scope Z_scope.

(** * Finding by name *)

Lemma FindGroup_elem b n : n ∈ (g_name <$> groups_ b) →
  ∃ i g, FindGroup n b = Some (i, g) ∧ groups_ b !! i = Some g ∧ g_name g = n.
Proof.
  intros (g & -> & Hg)%list_elem_of_fmap.
  destruct (list_find_elem_of (λ x, g_name x = g_name g) (groups_ b) g Hg eq_refl) as [[i x] E].
  exists i, x. split; [done|]. apply list_find_Some in E as (? & ? & _). done.
Qed.

Lemma FindGroup_none b n : FindGroup n b = None → n ∉ (g_name <$> groups_ b).
Proof. intros E (i & g & E' & _)%FindGroup_elem. congruence. Qed.

Lemma FindPartition_none b n : FindPartition n b = None → n ∉ (name_ <$> partitions_ b).
Proof.
  intros E%list_find_None (p & -> & Hp)%list_elem_of_fmap.
  rewrite Forall_forall in E. by apply (E p Hp).
Qed.

Lemma FindPartition_some b n i p : FindPartition n b = Some (i, p) →
  partitions_ b !! i = Some p ∧ name_ p = n.
Proof. intros (? & ? & _)%list_find_Some. done. Qed.

(** * Resizing *)

(** Why [ResizePartition] may refuse a size. *)
Inductive resize_refused (GetProperty : list byte → list byte → list byte)
    (GetBoolProperty : list byte → bool → bool)
    (b : MetadataBuilder) (p : Partition) (requested : Z) (hints : list Interval) : Prop :=
| refused_overflow : AlignTo 64 requested (logical_block_size (geometry_ b)) = None →
    resize_refused GetProperty GetBoolProperty b p requested hints
| refused_group size i g : AlignTo 64 requested (logical_block_size (geometry_ b)) = Some size →
    FindGroup (group_name_ p) b = Some (i, g) → 0 < maximum_size g →
    size_ p < size → maximum_size g < TotalSizeOfGroup (group_name_ p) b + (size - size_ p) →
    resize_refused GetProperty GetBoolProperty b p requested hints
| refused_space size R : AlignTo 64 requested (logical_block_size (geometry_ b)) = Some size →
    usable_regions b GetProperty GetBoolProperty p hints = Ret R →
    capacity (spb b) R < (size - size_ p) / LP_SECTOR_SIZE →
    resize_refused GetProperty GetBoolProperty b p requested hints.

(** The group of [p] still has [growth] bytes. *)
Definition group_allows (b : MetadataBuilder) (p : Partition) (growth : Z) : Prop :=
  ∀ i g, FindGroup (group_name_ p) b = Some (i, g) →
    maximum_size g = 0 ∨ growth ≤ 0 ∨ TotalSizeOfGroup (group_name_ p) b + growth ≤ maximum_size g.

Definition sizes_ok (b : MetadataBuilder) : Prop := Forall (λ g, 0 ≤ maximum_size g < 2 ^ 64) (groups_ b).

Lemma total_size_range n b : 0 ≤ TotalSizeOfGroup n b < 2 ^ 64.
Proof.
  unfold TotalSizeOfGroup. generalize (partitions_ b) as l. intros l.
  assert (∀ t, 0 ≤ t < 2 ^ 64 → let f := fun total p =>
    if bool_decide (group_name_ p = n) then u64 (total + BytesOnDisk p) else total in
    0 ≤ foldl f t l < 2 ^ 64) as H; [|apply H; lia].
  induction l as [|p l IH]; intros t Ht; [done|].
  cbn [foldl]. apply IH. case_bool_decide; [apply u64_range|done].
Qed.

Lemma ValidatePartitionSizeChange_spec b p size : lp_ok b → sizes_ok b →
  group_name_ p ∈ (g_name <$> groups_ b) → 0 ≤ size_ p < 2 ^ 64 → 0 ≤ size < 2 ^ 64 →
  ∃ ok, ValidatePartitionSizeChange p (size_ p) size false b = Ret ok ∧
    if ok : bool then group_allows b p (size - size_ p)
    else ∃ i g, FindGroup (group_name_ p) b = Some (i, g) ∧ 0 < maximum_size g ∧ size_ p < size ∧
      maximum_size g < TotalSizeOfGroup (group_name_ p) b + (size - size_ p).
Proof.
  intros Hb Hs Hg Hp Hsize. destruct (FindGroup_elem b _ Hg) as (i & g & E & Hi & Hn).
  pose proof (Forall_lookup_1 _ _ _ _ Hs Hi) as Hm. cbn in Hm.
  pose proof (total_size_range (group_name_ p) b) as Ht.
  unfold ValidatePartitionSizeChange, group_allows. rewrite E, Hn. cbn [negb andb].
  destruct (Z.leb_spec size (size_ p)).
  { exists true. split; [done|]. intros ? ? [= <- <-]. right; left. lia. }
  rewrite (u64_small (size - size_ p)) by lia.
  destruct (Z.ltb_spec 0 (maximum_size g)).
  2: { exists true. split; [done|]. intros ? ? [= <- <-]. left. lia. }
  eexists; split; [reflexivity|]. destruct (Z.leb_spec (maximum_size g) (TotalSizeOfGroup (group_name_ p) b)).
  { cbn. exists i, g. split_and!; done || lia. }
  rewrite u64_small by lia. cbn [orb].
  destruct (Z.ltb_spec (maximum_size g - TotalSizeOfGroup (group_name_ p) b) (size - size_ p)); cbn [negb].
  - exists i, g. split_and!; done || lia.
  - intros ? ? [= <- <-]. right; right. lia.
Qed.

Definition well_formed (b : MetadataBuilder) : Prop := lp_ok b ∧ sizes_ok b.

(** The result of a successful resize of partition [i]. *)
Definition resized (b : MetadataBuilder) (i : nat) (p : Partition) (size : Z) (b' : MetadataBuilder) : Prop :=
  ∃ p', b' = set_partitions (<[i := p']> (partitions_ b)) b ∧ same_identity p p' ∧ size_ p' = size ∧
    (sectors (extents_ p) `prefix_of` sectors (extents_ p') ∨
     sectors (extents_ p') `prefix_of` sectors (extents_ p)).

Lemma phys_sublist_prefix es es' : sectors es' `prefix_of` sectors es → phys es' `sublist_of` phys es.
Proof. intros [k E]. rewrite !phys_sectors, E, omap_app. by apply sublist_inserts_r. Qed.

Lemma set_partitions_same b i p : partitions_ b !! i = Some p →
  set_partitions (<[i := p]> (partitions_ b)) b = b.
Proof. intros H. rewrite list_insert_id by done. by destruct b. Qed.

Section resize.
Context (GetProperty : list byte → list byte → list byte) (GetBoolProperty : list byte → bool → bool).

Lemma ResizePartition_spec b i p requested hints :
  well_formed b → partitions_ b !! i = Some p → 0 ≤ requested < 2 ^ 64 →
  hints_ok (logical_block_size (geometry_ b)) hints →
  ∃ ok b', ResizePartition GetProperty GetBoolProperty i requested hints b = Ret (ok, b') ∧ well_formed b' ∧
    if ok : bool
    then ∃ size, AlignTo 64 requested (logical_block_size (geometry_ b)) = Some size ∧
      resized b i p size b' ∧ group_allows b p (size - size_ p)
    else b' = b ∧ resize_refused GetProperty GetBoolProperty b p requested hints.
Proof.
  intros [Hb Hs] Hi Hr Hh. unfold ResizePartition. rewrite Hi.
  pose proof (lo_lbs b Hb) as [Hl _].
  destruct (AlignTo _ _ _) as [size|] eqn:EA.
  2: { exists false, b. do 3 (split; [done|]). by apply refused_overflow. }
  destruct (AlignTo_spec 64 requested (logical_block_size (geometry_ b)) size) as (Hsz & _ & Hdv);
    [lia|lia|lia|done|].
  destruct Hdv as [Hdv _]; [lia|]. apply Z.mod_divide in Hdv; [|lia].
  destruct (partition_extents_ok b i p Hb Hi) as (Hes & Hnd & Hpsz & Hsub).
  assert (0 ≤ size_ p < 2 ^ 64) as Hp.
  { destruct Hpsz as [E ?]. pose proof (zlen_nonneg (sectors (extents_ p))). unfold LP_SECTOR_SIZE in E. lia. }
  destruct (ValidatePartitionSizeChange_spec b p size) as (ok & -> & Hok); [done|done| |done|lia|].
  { apply (Forall_lookup_1 _ _ _ _ (lo_members b Hb) Hi). }
  cbn [mbind outcome_bind]. destruct ok; cbn [negb].
  2: { destruct Hok as (k & g & ? & ? & ? & ?). exists false, b. do 3 (split; [done|]). by eapply refused_group. }
  destruct (Z.ltb_spec (size_ p) size).
  { destruct (GrowPartition_spec GetProperty GetBoolProperty b Hb i p size hints)
      as (ok & b' & R & -> & HR & H'); [done|done|lia|done|].
    exists ok, b'. split; [done|]. destruct ok.
    - destruct H' as (p' & -> & Hb' & Hid & Hs' & Hpre). split; [by split|]. exists size. split; [done|].
      split; [|done]. exists p'. by auto.
    - destruct H' as [-> Hc]. do 2 (split; [done|]). by eapply refused_space. }
  destruct (Z.ltb_spec size (size_ p)).
  - destruct (ShrinkTo_spec _ (lo_lbs b Hb) (block_devices_ b) p size)
      as (p' & E & Hid & Hes' & Hsz' & Hs' & Hsec); [done|done|lia|done|].
    unfold ShrinkPartition. rewrite E. cbn [mbind outcome_bind].
    assert (sectors (extents_ p') `prefix_of` sectors (extents_ p)) as Hpre.
    { rewrite Hsec. eexists. symmetry. apply ztake_zdrop. }
    pose proof (phys_sublist_prefix _ _ Hpre) as Hsl.
    eexists true, _. split; [reflexivity|]. split; [split; [|done]|].
    + apply (lp_ok_replace b i p); [done..|by eapply sublist_NoDup|].
      intros s Hs''. left. by eapply sublist_subseteq.
    + exists size. split; [done|]. split; [|done]. exists p'. by auto.
  - exists true, b. split; [done|]. split; [done|]. exists size. split; [done|]. split; [|done].
    exists p. split; [by rewrite set_partitions_same|]. split; [done|]. split; [lia|]. by left.
Qed.

End resize.

(** * A new table *)

(** A block device whose alignment is a whole number of logical blocks (or zero:
    none) and whose size is a whole number of alignments. *)
Record info_ok (i : BlockDeviceInfo) : Prop := {
  io_size : 0 ≤ i_size i < 2 ^ 64;
  io_align : 0 ≤ i_alignment i < 2 ^ 32;
  io_lbs : 0 ≤ i_logical_block_size i < 2 ^ 32;
  io_block : (i_logical_block_size i | i_alignment i);
  io_whole : (i_alignment i | i_size i) ∨ i_alignment i = 0
}.

Lemma free_area_sector_spec lbs align area first :
  lbs_ok lbs → 0 ≤ align < 2 ^ 32 → (lbs | align) → 0 ≤ area < 2 ^ 32 →
  free_area_sector area align lbs = Some first →
  area ≤ first * 512 < 2 ^ 34 ∧ (align ≠ 0 → (align | first * 512)).
Proof.
  intros Hl Ha Hd Har. destruct (lbs_spb lbs Hl) as [Hs Hl']. destruct Hl as [Hl _].
  unfold free_area_sector, LP_SECTOR_SIZE. set (a := if negb (align =? 0) then align else lbs).
  assert (0 < a < 2 ^ 32 ∧ (lbs | a) ∧ (align ≠ 0 → align = a)) as (Ha1 & [k Hk] & Ha3).
  { subst a. destruct (Z.eqb_spec align 0); cbn [negb]; split_and!; try done; lia. }
  destruct (AlignTo 64 area a) as [r|] eqn:E; [|done]. cbn [mbind option_bind]. intros [= <-].
  destruct (AlignTo_spec 64 area a r) as (Hr1 & _ & Hr2); [lia|lia|lia|done|]. destruct Hr2 as [Hr2 Hr3]; [lia|].
  apply Z.mod_divide in Hr2 as [q Hq]; [|lia].
  assert (r / 512 * 512 = r) as ->.
  { assert (r = q * k * (lbs / 512) * 512) as -> by nia. by rewrite Z.div_mul by lia. }
  split; [lia|]. intros Hz. rewrite (Ha3 Hz), Hq. by exists q.
Qed.

Lemma init_device_ok lbs i d : info_ok i → init_device lbs i = Some d →
  lbs_ok lbs ∧ device_ok lbs d ∧ lbs = i_logical_block_size i.
Proof.
  intros [H1 H2 H3 H4 H5]. unfold init_device.
  destruct (VerifyDeviceProperties i) eqn:EV; cbn [negb]; [|done].
  unfold VerifyDeviceProperties in EV. zbool.
  destruct (Z.eqb_spec lbs (i_logical_block_size i)) as [->|]; cbn [negb]; [|done].
  assert (lbs_ok (i_logical_block_size i)) as Hl by (split; [lia|done]).
  destruct (_ <? _); [done|].
  destruct (free_area_sector _ _ _) as [f|] eqn:EF; cbn [mbind option_bind]; [|done].
  apply free_area_sector_spec in EF as (F1 & F2); [|done|lia|done|unfold LP_SECTOR_SIZE; lia].
  unfold LP_SECTOR_SIZE in *. rewrite u64_small by lia.
  destruct (Z.ltb_spec (i_size i) (f * 512 + i_logical_block_size i)); [done|]. intros [= <-].
  split; [done|]. split; [|done]. split; cbn; unfold LP_SECTOR_SIZE; try done; lia.
Qed.

Lemma init_devices_ok infos super : ∀ lbs devices lbs' devices',
  Forall info_ok infos → (lbs ≠ 0 → lbs_ok lbs) → Forall (device_ok lbs) devices →
  (lbs = 0 → devices = []) →
  init_devices infos super lbs devices = Some (lbs', devices') →
  Forall (device_ok lbs') devices' ∧ (lbs' ≠ 0 → lbs_ok lbs') ∧ (lbs' = 0 → devices' = []).
Proof.
  induction infos as [|i infos IH]; intros lbs devices lbs' devices' Hi Hl Hd H0; cbn [init_devices].
  { intros [= <- <-]. done. }
  apply Forall_cons in Hi as [Hi His]. set (l := if lbs =? 0 then _ else lbs).
  destruct (init_device l i) as [d|] eqn:E; cbn [mbind option_bind]; [|done].
  destruct (init_device_ok l i d Hi E) as (Hl' & Hd' & El).
  assert (Forall (device_ok l) devices) as Hds.
  { subst l. destruct (Z.eqb_spec lbs 0); [|done]. by rewrite H0 by done; apply Forall_nil. }
  apply IH; [done|done| |].
  - case_bool_decide; [by apply Forall_cons|]. apply Forall_app. split; [done|].
    apply Forall_cons. split; [done|by apply Forall_nil].
  - destruct Hl' as [? _]. lia.
Qed.

Lemma New_spec infos super max_size slots b :
  Forall info_ok infos → New infos super max_size slots = Some b →
  well_formed b ∧ partitions_ b = [] ∧ groups_ b = [mk_group kDefaultGroup 0].
Proof.
  intros Hi. unfold New, Init. destruct (max_size <? _); [done|]. destruct (slots =? 0); [done|].
  destruct infos as [|i0 infos0]; [done|]. set (infos := i0 :: infos0) in *.
  destruct (AlignTo 32 max_size LP_SECTOR_SIZE) as [ms|]; cbn [mbind option_bind]; [|done].
  destruct (init_devices _ _ _ _) as [[lbs ds]|] eqn:E; cbn [mbind option_bind]; [|done].
  apply init_devices_ok in E as (Hd & Hl & Hn); [|done|done|by apply Forall_nil|done].
  destruct ds as [|d ds]; [done|]. apply Forall_cons in Hd as [Hd Hds].
  destruct (bool_decide _); cbn [negb]; [|done].
  assert (0 ≤ GetTotalMetadataSize ms slots < 2 ^ 32) as Ht by apply u32_range.
  set (total := GetTotalMetadataSize ms slots) in *. destruct (_ <? total); [done|].
  assert (lbs_ok lbs) as Hlbs by (apply Hl; intros E; by apply Hn in E).
  destruct Hd as [D1 D2 D3 D4 D5 D6 D7 D8].
  destruct (free_area_sector _ _ _) as [f|] eqn:EF; cbn [mbind option_bind]; [|done].
  apply free_area_sector_spec in EF as (F1 & F2); [|done..].
  assert (0 < lbs < 2 ^ 32) as Hlr by apply Hlbs.
  unfold LP_SECTOR_SIZE in *. rewrite (u64_small (f * 512)), u64_small by lia.
  destruct (Z.ltb_spec (bd_size d) (f * 512 + lbs)); [done|].
  intros [= <-]. split; [|done]. split.
  - split; cbn; try done.
    + apply Forall_cons. split; [|done]. split; cbn; unfold LP_SECTOR_SIZE; try done; lia.
    + apply NoDup_nil_2.
    + split; [apply NoDup_nil_2|done].
    + apply NoDup_singleton.
  - apply Forall_cons. cbn. split; [lia|by apply Forall_nil].
Qed.

(** * Operations *)

Lemma bind_sublist {A B} (f : A → list B) (l k : list A) : l `sublist_of` k → l ≫= f `sublist_of` k ≫= f.
Proof.
  induction 1 as [|x l k Hs IH|x l k Hs IH]; cbn [mbind list_bind]; [done|by apply sublist_app|].
  by apply sublist_inserts_l.
Qed.

Lemma Forall_sublist {A} (P : A → Prop) l k : l `sublist_of` k → Forall P k → Forall P l.
Proof. intros Hs HP. rewrite Forall_forall in *. intros x Hx. apply HP. by eapply sublist_subseteq. Qed.

(** Fewer partitions. *)
Lemma lp_ok_sublist b l : lp_ok b → l `sublist_of` partitions_ b → lp_ok (set_partitions l b).
Proof.
  intros [H1 H2 H3 H4 H5 [H6 H7] H8 H9] Hs.
  pose proof (bind_sublist extents_ _ _ Hs) as He.
  split; cbn [geometry_ block_devices_ partitions_ groups_ set_partitions]; try done.
  - by eapply Forall_sublist.
  - eapply sublist_NoDup; [exact H4|]. by apply bind_sublist.
  - by eapply Forall_sublist.
  - split; [|by eapply Forall_sublist]. eapply sublist_NoDup; [exact H6|]. by apply fmap_sublist.
  - by eapply Forall_sublist.
Qed.

(** Other groups with the same names. *)
Lemma lp_ok_groups b gs : lp_ok b → NoDup (g_name <$> gs) →
  Forall (λ p, group_name_ p ∈ g_name <$> gs) (partitions_ b) → lp_ok (set_groups gs b).
Proof. intros [H1 H2 H3 H4 H5 H6 H8 H9] Hn Hm. by split. Qed.

Lemma AddGroup_ok n max b : well_formed b → 0 ≤ max < 2 ^ 64 →
  ∃ ok b', AddGroup n max b = Ret (ok, b') ∧ well_formed b'.
Proof.
  intros [Hb Hs] Hm. unfold AddGroup. destruct (FindGroup n b) as [x|] eqn:E; [by eexists _, _|].
  eexists _, _. split; [reflexivity|]. apply FindGroup_none in E. split.
  - apply lp_ok_groups; [done| |].
    + rewrite fmap_app. apply NoDup_app. split; [apply Hb|]. split; [|apply NoDup_singleton].
      by intros x Hx ->%list_elem_of_singleton.
    + eapply Forall_impl; [apply (lo_members b Hb)|]. intros p Hp. cbn beta. rewrite fmap_app. apply elem_of_app. by left.
  - apply Forall_app. split; [done|]. apply Forall_cons. split; [done|by apply Forall_nil].
Qed.

Lemma AddPartition_ok n g a b : well_formed b → ∃ r b', AddPartition n g a b = Ret (r, b') ∧ well_formed b'.
Proof.
  intros [Hb Hs]. unfold AddPartition. destruct (Z.eqb_spec (zlen n) 0) as [|Hz]; [by eexists _, _|].
  destruct (FindPartition n b) eqn:E1; [rewrite bool_decide_true by done; by eexists _, _|].
  rewrite bool_decide_false by (by intros [? ?]).
  destruct (FindGroup g b) as [[k x]|] eqn:E2; [|rewrite bool_decide_false by (by intros [? ?]); by eexists _, _].
  rewrite bool_decide_true by done. cbn [negb].
  eexists _, _. split; [reflexivity|]. split; [|done].
  apply FindPartition_none in E1. apply list_find_Some in E2 as (E2 & E3 & _).
  destruct Hb as [H1 H2 H3 H4 H5 [H6 H7] H8 H9].
  assert (all_extents (set_partitions (partitions_ b ++ [Partition_new n g a]) b) = all_extents b) as E.
  { unfold all_extents. cbn [partitions_ set_partitions]. rewrite bind_app. apply app_nil_r. }
  split; cbn [geometry_ block_devices_ groups_ set_partitions]; try rewrite E; try done; cbn [partitions_ set_partitions].
  - apply Forall_app. split; [done|]. apply Forall_cons. split; [by split|by apply Forall_nil].
  - rewrite fmap_app. split.
    + apply NoDup_app. split; [done|]. split; [|apply NoDup_singleton].
      by intros x' Hx' ->%list_elem_of_singleton.
    + apply Forall_app. split; [done|]. apply Forall_cons. split; [cbn; by intros ->|by apply Forall_nil].
  - apply Forall_app. split; [done|]. apply Forall_cons. split; [|by apply Forall_nil]. cbn. rewrite <- E3.
    apply list_elem_of_fmap_2. by eapply list_elem_of_lookup_2.
Qed.

Lemma RemovePartition_ok n b : well_formed b →
  well_formed (RemovePartition n b) ∧ groups_ (RemovePartition n b) = groups_ b ∧
  partitions_ (RemovePartition n b) `sublist_of` partitions_ b ∧ n ∉ (name_ <$> partitions_ (RemovePartition n b)).
Proof.
  intros [Hb Hs]. unfold RemovePartition. destruct (FindPartition n b) as [[i p]|] eqn:E.
  - assert (delete i (partitions_ b) `sublist_of` partitions_ b) as Hsl by apply sublist_delete.
    split_and!; [split; [by apply lp_ok_sublist|done]|done|done|].
    apply FindPartition_some in E as [Hi Hn]. cbn [partitions_ set_partitions].
    pose proof (lo_names b Hb) as [Hnd _]. rewrite <- (take_drop_middle _ _ _ Hi) in Hnd.
    rewrite fmap_app, fmap_cons, NoDup_app, NoDup_cons in Hnd. destruct Hnd as (_ & N1 & N2 & _).
    rewrite delete_take_drop, fmap_app, elem_of_app. rewrite Hn in N1, N2.
    intros [Hx|Hx]; [|done]. by apply (N1 n Hx), list_elem_of_here.
  - split; [done|]. split_and!; [done|done|]. by apply FindPartition_none.
Qed.

Lemma remove_partitions_ok names b : well_formed b →
  let b' := foldl (fun b n => RemovePartition n b) b names in
  well_formed b' ∧ groups_ b' = groups_ b ∧ partitions_ b' `sublist_of` partitions_ b ∧
  ∀ p, p ∈ partitions_ b' → name_ p ∉ names.
Proof.
  revert b. induction names as [|n names IH]; intros b Hb; cbn [foldl].
  { split; [done|]. split_and!; [done|done|]. intros p _. apply not_elem_of_nil. }
  destruct (RemovePartition_ok n b Hb) as (H1 & H2 & H3 & H4).
  destruct (IH _ H1) as (I1 & I2 & I3 & I4). split; [done|]. split_and!; [congruence|by etrans|].
  intros p Hp [E|Hin]%elem_of_cons; [|by apply (I4 p Hp)].
  subst n. apply H4, list_elem_of_fmap_2. by apply (sublist_subseteq _ _ I3).
Qed.

Lemma RemoveGroupAndPartitions_ok n b : well_formed b → well_formed (RemoveGroupAndPartitions n b).
Proof.
  intros Hb. unfold RemoveGroupAndPartitions. case_bool_decide; [done|].
  destruct (remove_partitions_ok (name_ <$> ListPartitionsInGroup n b) b Hb) as ([B1 B2] & E & Hs & Hout).
  set (b' := foldl _ b _) in *. destruct (FindGroup n b') as [[i g]|] eqn:EG; [|by split].
  apply list_find_Some in EG as (Hi & Hn & _).
  split; [|eapply Forall_sublist; [apply sublist_delete|done]].
  pose proof (lo_groups b' B1) as Hnd. pose proof (take_drop_middle _ _ _ Hi) as Hsplit.
  apply lp_ok_groups; [done| |].
  - eapply sublist_NoDup; [exact Hnd|]. apply fmap_sublist, sublist_delete.
  - rewrite Forall_forall. intros p Hp. pose proof (proj1 (Forall_forall _ _) (lo_members b' B1) p Hp) as Hm.
    rewrite <- Hsplit, fmap_app, fmap_cons, elem_of_app, elem_of_cons in Hm.
    rewrite delete_take_drop, fmap_app, elem_of_app. destruct Hm as [?|[Hx|?]]; [by left| |by right].
    exfalso. apply (Hout p Hp), list_elem_of_fmap_2. apply list_elem_of_filter. split; [congruence|].
    by eapply sublist_subseteq.
Qed.

Lemma ChangePartitionGroup_ok i p g b : well_formed b → partitions_ b !! i = Some p →
  ∃ ok b', ChangePartitionGroup i g b = Ret (ok, b') ∧ well_formed b'.
Proof.
  intros [Hb Hs] Hi. unfold ChangePartitionGroup. rewrite Hi.
  destruct (FindGroup g b) as [[k x]|] eqn:E; [|by eexists _, _].
  apply list_find_Some in E as (E1 & E2 & _). eexists _, _. split; [reflexivity|]. split; [|done].
  destruct (all_extents_split b i p Hi) as (A & B & Ea & Eb).
  destruct Hb as [H1 H2 H3 H4 H5 [H6 H7] H8 H9].
  split; cbn [geometry_ block_devices_ groups_ set_partitions]; try done; cbn [partitions_ set_partitions].
  - rewrite Eb; cbn [extents_]; by rewrite <- Ea.
  - rewrite Eb; cbn [extents_]; by rewrite <- Ea.
  - apply Forall_replace; [done|]. apply (Forall_lookup_1 _ _ _ _ H5 Hi).
  - split; [by rewrite (fmap_insert_same _ _ _ p)|]. apply Forall_replace; [done|].
    apply (Forall_lookup_1 _ _ _ _ H7 Hi).
  - apply Forall_replace; [done|]. cbn. rewrite <- E2. apply list_elem_of_fmap_2.
    by eapply list_elem_of_lookup_2.
Qed.

Lemma ChangeGroupSize_ok n max b : well_formed b → 0 ≤ max < 2 ^ 64 →
  ∃ ok b', ChangeGroupSize n max b = Ret (ok, b') ∧ well_formed b'.
Proof.
  intros [Hb Hs] Hm. unfold ChangeGroupSize. case_bool_decide; [by eexists _, _|].
  destruct (FindGroup n b) as [[k x]|] eqn:E; [|by eexists _, _].
  apply list_find_Some in E as (E1 & E2 & _). eexists _, _. split; [reflexivity|].
  assert (g_name <$> <[k := mk_group (g_name x) max]> (groups_ b) = g_name <$> groups_ b) as En
    by (by apply fmap_insert_same with x).
  split; [|by apply Forall_replace]. apply lp_ok_groups; [done| |]; rewrite En; apply Hb.
Qed.

Lemma well_formed_header b h auto : well_formed b →
  well_formed (mk_builder (geometry_ b) h (partitions_ b) (groups_ b) (block_devices_ b) auto).
Proof. intros [[H1 H2 H3 H4 H5 H6 H7 H8] Hs]. split; [|done]. by split. Qed.

(** ** Extents chosen by the caller *)

(** The extents [es] may be added to the table: they lie inside their devices, do
    not overlap, and none of their sectors is in use. *)
Definition free_extents (b : MetadataBuilder) (es : list Extent) : Prop :=
  Forall (extent_ok (logical_block_size (geometry_ b)) (block_devices_ b)) es ∧
  NoDup (phys es) ∧ ∀ s, s ∈ phys es → s ∉ phys (all_extents b).

Lemma add_free_extents b i p es :
  well_formed b → partitions_ b !! i = Some p → free_extents b es →
  size_ p + 512 * zlen (sectors es) < 2 ^ 64 →
  let p' := foldl (fun q e => AddExtent e q) p es in
  well_formed (set_partitions (<[i := p']> (partitions_ b)) b) ∧ same_identity p p' ∧
  ∀ s, s ∈ phys (all_extents (set_partitions (<[i := p']> (partitions_ b)) b)) →
    s ∈ phys (all_extents b) ∨ s ∈ phys es.
Proof.
  intros [Hb Hs] Hi (Hes & Hnd & Hfree) Hsz p'.
  destruct (partition_extents_ok b i p Hb Hi) as (P1 & P2 & P3 & P4).
  destruct (add_extents_spec _ (lo_lbs b Hb) (block_devices_ b) (lo_devices b Hb) es p Hes P1 P3 Hsz) as (A1 & A2 & A3 & A4).
  fold p' in A1, A2, A3, A4.
  assert (phys (extents_ p') = phys (extents_ p) ++ phys es) as Hph.
  { rewrite !phys_sectors, A4, omap_app. done. }
  split; [|split; [done|]].
  - split; [|done]. apply (lp_ok_replace b i p); try done; rewrite Hph.
    + apply NoDup_app. split; [done|]. split; [|done]. intros s Hp He. by apply (Hfree s He), P4.
    + intros s [Hp|He]%elem_of_app; [by left|right]. by apply Hfree.
  - intros s Hin. destruct (all_extents_split b i p Hi) as (A & B & E1 & E2).
    rewrite E2, !phys_app, Hph, !elem_of_app in Hin. rewrite E1, !phys_app, !elem_of_app. tauto.
Qed.

Lemma free_extents_mono b b' es :
  geometry_ b' = geometry_ b → block_devices_ b' = block_devices_ b →
  (∀ s, s ∈ phys es → s ∈ phys (all_extents b') → s ∈ phys (all_extents b)) →
  free_extents b es → free_extents b' es.
Proof.
  intros Hg Hd Hp (H1 & H2 & H3). unfold free_extents. rewrite Hg, Hd. split_and!; [done|done|].
  intros s Hs Hin. by apply (H3 s Hs), Hp.
Qed.

(** The extents of a partition of another table, as [ImportExtents] takes them. *)
Definition source_extents (m : LpMetadata) (p : LpMetadataPartition) : list Extent :=
  omap import_extent (ztake (num_extents p) (zdrop (first_extent_index p) (m_extents m))).

(** Its indices are inside the tables of [m]. *)
Definition source_ok (m : LpMetadata) (p : LpMetadataPartition) : Prop :=
  0 ≤ group_index p < zlen (m_groups m) ∧
  0 ≤ first_extent_index p ∧ 0 ≤ num_extents p ∧
  first_extent_index p + num_extents p ≤ zlen (m_extents m) ∧
  512 * zlen (sectors (source_extents m p)) < 2 ^ 64.

Lemma import_extents_eq n : ∀ i es p, 0 ≤ i → i + Z.of_nat n ≤ zlen es →
  import_extents n i es p =
  Ret (foldl (fun q e => AddExtent e q) p (omap import_extent (take n (zdrop i es)))).
Proof.
  induction n as [|n IH]; intros i es p Hi Hn; cbn [import_extents]; [done|].
  assert (∃ e, zlookup es i = Some e ∧ zdrop i es = e :: zdrop (i + 1) es) as (e & -> & ->).
  { unfold zlookup, zdrop, zlen in *. destruct (Z.ltb_spec i 0); [lia|].
    destruct (lookup_lt_is_Some_2 es (Z.to_nat i)) as [e He]; [lia|]. exists e. split; [done|].
    rewrite (drop_S _ e) by done. f_equal. f_equal. lia. }
  rewrite IH by lia. cbn [take omap list_omap]. by destruct (import_extent e).
Qed.

Lemma ImportExtents_eq m source p : source_ok m source →
  ImportExtents m source p = Ret (foldl (fun q e => AddExtent e q) p (source_extents m source)).
Proof.
  intros (_ & H1 & H2 & H3 & _). unfold ImportExtents. rewrite import_extents_eq by lia.
  unfold source_extents, ztake. done.
Qed.

(** What [AddPartition] leaves alone. *)
Lemma AddPartition_result n g a b r b1 : AddPartition n g a b = Ret (r, b1) →
  geometry_ b1 = geometry_ b ∧ block_devices_ b1 = block_devices_ b ∧
  all_extents b1 = all_extents b ∧
  ∀ i, r = Some i → partitions_ b1 !! i = Some (Partition_new n g a).
Proof.
  unfold AddPartition. repeat case_match; intros [= <- <-]; try done.
  split_and!; try done.
  - unfold all_extents. cbn [partitions_ set_partitions]. rewrite bind_app. apply app_nil_r.
  - intros i [= <-]. cbn [partitions_ set_partitions]. by rewrite lookup_app_r, Nat.sub_diag by lia.
Qed.

(** A table that keeps the devices and uses at most the sectors [es] more. *)
Record grown (b b' : MetadataBuilder) (es : list Extent) : Prop := {
  gw_ok : well_formed b';
  gw_geometry : geometry_ b' = geometry_ b;
  gw_devices : block_devices_ b' = block_devices_ b;
  gw_phys s : s ∈ phys (all_extents b') → s ∈ phys (all_extents b) ∨ s ∈ phys es
}.

Lemma fill_partition_ok m source i p b :
  well_formed b → partitions_ b !! i = Some p → source_ok m source →
  free_extents b (source_extents m source) →
  ∃ ok b',
    (if 0 <? size_ p then Ret (false, b)
     else
       p' ← ImportExtents m source p;
       let b := set_partitions (<[i := p']> (partitions_ b)) b in
       ok ← ValidatePartitionSizeChange p' (size_ p') (size_ p') true b;
       if negb ok then Ret (false, set_partitions (<[i := RemoveExtents p']> (partitions_ b)) b)
       else Ret (true, b)) = Ret (ok, b') ∧ grown b b' (source_extents m source).
Proof.
  intros Hb Hi Hsrc Hfree. pose proof Hb as [Hlp Hs]. destruct (Z.ltb_spec 0 (size_ p)) as [|Hz].
  { exists false, b. split; [done|]. split; try done. by left. }
  rewrite ImportExtents_eq by done. mred. set (p' := foldl _ p _).
  destruct (add_free_extents b i p _ Hb Hi Hfree) as (Hb' & Hid & Hph).
  { destruct Hsrc as (_ & _ & _ & _ & ?). lia. }
  fold p' in Hb', Hid, Hph.
  assert (∃ ok, ValidatePartitionSizeChange p' (size_ p') (size_ p') true
    (set_partitions (<[i := p']> (partitions_ b)) b) = Ret ok) as [ok ->].
  { unfold ValidatePartitionSizeChange.
    assert (group_name_ p' ∈ (g_name <$> groups_ (set_partitions (<[i := p']> (partitions_ b)) b))) as Hg.
    { destruct Hid as (_ & -> & _). apply (Forall_lookup_1 _ _ _ _ (lo_members b Hlp) Hi). }
    destruct (FindGroup_elem _ _ Hg) as (k & g & -> & _). cbn [negb andb].
    destruct (0 <? maximum_size g); by eexists. }
  mred. destruct ok; cbn [negb].
  { eexists true, _. split; [reflexivity|]. by split. }
  eexists false, _. split; [reflexivity|]. cbn [partitions_ set_partitions]. rewrite list_insert_insert_eq.
  assert (well_formed (set_partitions (<[i := RemoveExtents p']> (partitions_ b)) b)) as Hrm.
  { split; [|done]. apply (lp_ok_replace b i p); try done; [apply NoDup_nil_2|].
    intros s Hin. by apply not_elem_of_nil in Hin. }
  split; try done. intros s Hin. left. destruct (all_extents_split b i p Hi) as (A & B & E1 & E2).
  change (set_partitions _ (set_partitions _ b))
    with (set_partitions (<[i := RemoveExtents p']> (partitions_ b)) b) in Hin.
  rewrite E2, !phys_app, !elem_of_app in Hin. rewrite E1, !phys_app, !elem_of_app.
  destruct Hin as [?|[Hn|?]]; [by left| |by right; right]. by apply not_elem_of_nil in Hn.
Qed.

Lemma ImportPartition_ok m source b :
  well_formed b → source_ok m source → free_extents b (source_extents m source) →
  ∃ ok b', ImportPartition m source b = Ret (ok, b') ∧ grown b b' (source_extents m source).
Proof.
  intros Hb Hsrc Hfree. unfold ImportPartition.
  destruct (FindPartition (GetPartitionName source) b) as [[i p]|] eqn:EF.
  { apply FindPartition_some in EF as [Hi _]. mred. rewrite Hi. by apply fill_partition_ok. }
  destruct Hsrc as (Hg & Hrest). destruct (zlookup_is_Some (m_groups m) (group_index source) Hg) as [g ->].
  destruct (AddPartition_ok (GetPartitionName source) (GetPartitionGroupName g) (p_attributes source) b Hb)
    as (r & b1 & E & Hb1).
  rewrite E. mred. destruct (AddPartition_result _ _ _ _ _ _ E) as (G1 & G2 & G3 & G4).
  destruct r as [i|]; cycle 1.
  { exists false, b1. split; [done|]. split; try done. rewrite G3. by left. }
  rewrite (G4 i eq_refl). destruct (fill_partition_ok m source i (Partition_new (GetPartitionName source)
    (GetPartitionGroupName g) (p_attributes source)) b1) as (ok & b' & E' & [W1 W2 W3 W4]);
    [done|by apply G4|by split| |].
  { apply (free_extents_mono b); try done. by rewrite G3. }
  exists ok, b'. split; [exact E'|]. split; [done|congruence|congruence|]. by rewrite <- G3.
Qed.

(** The partitions that are imported. *)
Definition selected (names : list (list byte)) (ps : list LpMetadataPartition) : list LpMetadataPartition :=
  filter (fun p => GetPartitionName p ∈ names) ps.

Lemma import_named_ok m names ps : ∀ b,
  well_formed b → Forall (source_ok m) (selected names ps) →
  free_extents b (selected names ps ≫= source_extents m) →
  ∃ ok b', import_named m names ps b = Ret (ok, b') ∧ well_formed b' ∧ geometry_ b' = geometry_ b.
Proof.
  induction ps as [|p ps IH]; intros b Hb Hsrc Hfree; [by eexists true, b|]. cbn [import_named].
  unfold selected in Hsrc, Hfree. rewrite filter_cons in Hsrc, Hfree. fold (selected names ps) in Hsrc, Hfree.
  destruct (decide (GetPartitionName p ∈ names)) as [Hin|Hin]; cycle 1.
  { rewrite bool_decide_false by done. by apply IH. }
  rewrite bool_decide_true by done. apply Forall_cons in Hsrc as [Hp Hsrc].
  cbn [mbind list_bind] in Hfree. destruct Hfree as (F1 & F2 & F3).
  rewrite phys_app in F2, F3. apply Forall_app in F1 as [F1 F1']. apply NoDup_app in F2 as (N1 & N2 & N3).
  destruct (ImportPartition_ok m p b Hb Hp) as (ok & b1 & E & [W1 W2 W3 W4]).
  { split_and!; [done|done|]. intros s Hs. apply F3. apply elem_of_app. by left. }
  unfold mbind at 1, M_bind. rewrite E. destruct ok; [|by eexists false, b1].
  destruct (IH b1) as (ok & b' & E' & Hb' & Hg'); [done|done| |].
  - unfold free_extents. rewrite W2, W3. split_and!; [done|done|].
    intros s Hs Hin'. destruct (W4 s Hin') as [Ho|Ho].
    + apply (F3 s); [|done]. apply elem_of_app. by right.
    + by apply (N2 s Ho).
  - exists ok, b'. split; [exact E'|]. split; [done|congruence].
Qed.

(** What [ImportPartitions] relies on. *)
Definition import_ok (b : MetadataBuilder) (m : LpMetadata) (names : list (list byte)) : Prop :=
  Forall (source_ok m) (selected names (m_partitions m)) ∧
  free_extents b (selected names (m_partitions m) ≫= source_extents m).

Lemma ImportPartitions_ok m names b : well_formed b → import_ok b m names →
  ∃ ok b', ImportPartitions m names b = Ret (ok, b') ∧ well_formed b' ∧ geometry_ b' = geometry_ b.
Proof.
  intros Hb [H1 H2]. unfold ImportPartitions. destruct (negb _); [by eexists _, _|].
  destruct (negb _); [by eexists _, _|]. by apply import_named_ok.
Qed.

Lemma AddLinearExtent_ok i p dev n sector b :
  well_formed b → partitions_ b !! i = Some p →
  (∀ d, FindBlockDeviceByName dev b = Some d →
     free_extents b [LinearExtent n (Z.of_nat d) sector] ∧ size_ p + 512 * n < 2 ^ 64) →
  ∃ ok b', AddLinearExtent i dev n sector b = Ret (ok, b') ∧ well_formed b' ∧ geometry_ b' = geometry_ b.
Proof.
  intros Hb Hi Hd. unfold AddLinearExtent. rewrite Hi.
  destruct (FindBlockDeviceByName dev b) as [d|]; [|by eexists _, _].
  destruct (Hd d eq_refl) as [Hf Hsz]. eexists _, _. split; [reflexivity|].
  destruct (add_free_extents b i p [LinearExtent n (Z.of_nat d) sector] Hb Hi Hf) as (Hb' & _); [|done].
  destruct Hf as ([(Hn & _) _]%Forall_cons & _). unfold sectors. cbn [mbind list_bind].
  rewrite app_nil_r, zlen_extent_sectors; cbn [num_sectors] in *; lia.
Qed.

(** ** Other device properties *)

(** An alignment of whole blocks that divides the device and its reserved area;
    a device without one does not get one. *)
Record update_ok (lbs : Z) (d : LpMetadataBlockDevice) (info : BlockDeviceInfo) : Prop := {
  uo_lbs : i_logical_block_size info ≠ 0;
  uo_align : 0 ≤ i_alignment info < 2 ^ 32;
  uo_block : (lbs | i_alignment info);
  uo_whole : (i_alignment info | bd_size d) ∨ i_alignment info = 0;
  uo_start : i_alignment info ≠ 0 → (i_alignment info | first_logical_sector d * LP_SECTOR_SIZE);
  uo_present : i_alignment info ≠ 0 → alignment d ≠ 0
}.

Lemma UpdateBlockDeviceInfo_ok name info b :
  well_formed b →
  (∀ i d, FindBlockDeviceByName name b = Some i → block_devices_ b !! i = Some d →
     update_ok (logical_block_size (geometry_ b)) d info) →
  ∃ ok b', UpdateBlockDeviceInfo name info b = Ret (ok, b') ∧ well_formed b' ∧ geometry_ b' = geometry_ b.
Proof.
  intros [Hb Hs] Hu. unfold UpdateBlockDeviceInfo, UpdateBlockDeviceInfoAt.
  destruct (FindBlockDeviceByName name b) as [i|] eqn:EF; [|by eexists _, _].
  assert (∃ d, block_devices_ b !! i = Some d) as [d Hd].
  { unfold FindBlockDeviceByName in EF. destruct (list_find _ _) as [[k x]|] eqn:E; [|done].
    injection EF as <-. apply list_find_Some in E as (? & _). by exists x. }
  rewrite Hd. destruct (Hu i d eq_refl Hd) as [U1 U2 U3 U4 U5 U6].
  destruct (negb _); [by eexists _, _|]. rewrite (proj2 (Z.eqb_neq _ _) U1).
  destruct (negb _); [by eexists _, _|]. eexists _, _. split; [reflexivity|]. set (d' := mk_block_device _ _ _ _ _ _).
  assert (alignment d' ≠ 0 → alignment d ≠ 0) as Hal.
  { cbn [alignment d']. destruct (Z.eqb_spec (i_alignment info) 0); cbn [negb]; auto. }
  destruct Hb as [H1 H2 H3 H4 H5 H6 H7 H8]. split; [|done]. split; [|done].
  pose proof (Forall_lookup_1 _ _ _ _ H2 Hd) as [D1 D2 D3 D4 D5 D6 D7 D8].
  split; cbn [geometry_ block_devices_ partitions_ groups_ set_block_devices]; try done.
  - apply Forall_replace; [done|]. split; cbn [first_logical_sector bd_size alignment d'];
      try done; destruct (Z.eqb_spec (i_alignment info) 0); cbn [negb]; auto.
  - eapply Forall_impl; [exact H3|]. intros [n k q|n] (E1 & E2 & E3); [|done].
    split; [done|]. split; [done|]. destruct E3 as (x & X1 & X2 & X3 & X4).
    unfold zlookup in *. destruct (k <? 0); [done|]. destruct (decide (Z.to_nat k = i)) as [<-|Hne].
    + assert (x = d) as -> by congruence. exists d'. rewrite list_lookup_insert_eq by (by eapply lookup_lt_Some).
      split_and!; try done. intros Hz. by apply X4, Hal.
    + exists x. rewrite list_lookup_insert_ne by done. done.
Qed.

(** * All sequences of operations *)

(** The operations of the class that change a table, with partitions given by
    name the way callers find them. *)
Inductive lp_op : Type :=
| OpAddGroup (name : list byte) (max : Z)
| OpAddPartition (name group : list byte) (attributes : Z)
| OpRemovePartition (name : list byte)
| OpRemoveGroupAndPartitions (name : list byte)
| OpChangePartitionGroup (name group : list byte)
| OpChangeGroupSize (name : list byte) (max : Z)
| OpResizePartition (name : list byte) (size : Z) (hints : list Interval)
| OpAddLinearExtent (name block_device : list byte) (num_sectors physical_sector : Z)
| OpImportPartitions (m : LpMetadata) (names : list (list byte))
| OpUpdateBlockDeviceInfo (name : list byte) (info : BlockDeviceInfo)
| OpRequireExpandedMetadataHeader
| OpSetAutoSlotSuffixing
| OpSetVirtualABDeviceFlag.

(** What an operation relies on in the state it meets: arguments in the range of
    their types; hints without overlap that start at a logical block; extents
    given by the caller that are free; device properties that fit the device. *)
Definition op_ok (b : MetadataBuilder) (op : lp_op) : Prop :=
  match op with
  | OpAddGroup _ max | OpChangeGroupSize _ max => 0 ≤ max < 2 ^ 64
  | OpResizePartition _ size hints =>
      0 ≤ size < 2 ^ 64 ∧ hints_ok (logical_block_size (geometry_ b)) hints
  | OpAddLinearExtent name dev n sector =>
      ∀ i p d, FindPartition name b = Some (i, p) → FindBlockDeviceByName dev b = Some d →
        free_extents b [LinearExtent n (Z.of_nat d) sector] ∧ size_ p + 512 * n < 2 ^ 64
  | OpImportPartitions m names => import_ok b m names
  | OpUpdateBlockDeviceInfo name info =>
      ∀ i d, FindBlockDeviceByName name b = Some i → block_devices_ b !! i = Some d →
        update_ok (logical_block_size (geometry_ b)) d info
  | _ => True
  end.

Section run.
Context (GetProperty : list byte → list byte → list byte) (GetBoolProperty : list byte → bool → bool).

Definition run_op (op : lp_op) : M MetadataBuilder unit := fun b =>
  match op with
  | OpAddGroup n max => '(_, b) ← AddGroup n max b; Ret (tt, b)
  | OpAddPartition n g a => '(_, b) ← AddPartition n g a b; Ret (tt, b)
  | OpRemovePartition n => Ret (tt, RemovePartition n b)
  | OpRemoveGroupAndPartitions n => Ret (tt, RemoveGroupAndPartitions n b)
  | OpChangePartitionGroup n g =>
      match FindPartition n b with
      | None => Ret (tt, b)
      | Some (i, _) => '(_, b) ← ChangePartitionGroup i g b; Ret (tt, b)
      end
  | OpChangeGroupSize n max => '(_, b) ← ChangeGroupSize n max b; Ret (tt, b)
  | OpResizePartition n size hints =>
      match FindPartition n b with
      | None => Ret (tt, b)
      | Some (i, _) => '(_, b) ← ResizePartition GetProperty GetBoolProperty i size hints b; Ret (tt, b)
      end
  | OpAddLinearExtent n dev sectors sector =>
      match FindPartition n b with
      | None => Ret (tt, b)
      | Some (i, _) => '(_, b) ← AddLinearExtent i dev sectors sector b; Ret (tt, b)
      end
  | OpImportPartitions m names => '(_, b) ← ImportPartitions m names b; Ret (tt, b)
  | OpUpdateBlockDeviceInfo n info => '(_, b) ← UpdateBlockDeviceInfo n info b; Ret (tt, b)
  | OpRequireExpandedMetadataHeader => Ret (tt, RequireExpandedMetadataHeader b)
  | OpSetAutoSlotSuffixing => Ret (tt, SetAutoSlotSuffixing b)
  | OpSetVirtualABDeviceFlag => Ret (tt, SetVirtualABDeviceFlag b)
  end.

Fixpoint run_ops (ops : list lp_op) : M MetadataBuilder unit :=
  match ops with
  | [] => mret tt
  | op :: ops => run_op op;; run_ops ops
  end.

(** Every operation of a run finds what it relies on. *)
Fixpoint ops_ok (ops : list lp_op) (b : MetadataBuilder) : Prop :=
  match ops with
  | [] => True
  | op :: ops =>
      op_ok b op ∧ match run_op op b with Ret (_, b') => ops_ok ops b' | _ => True end
  end.

Lemma remove_partitions_geometry names b :
  geometry_ (foldl (fun b n => RemovePartition n b) b names) = geometry_ b.
Proof.
  revert b. induction names as [|n names IH]; intros b; [done|]. cbn [foldl]. rewrite IH.
  unfold RemovePartition. by destruct (FindPartition n b) as [[i p]|].
Qed.

Lemma RemoveGroupAndPartitions_geometry n b : geometry_ (RemoveGroupAndPartitions n b) = geometry_ b.
Proof.
  unfold RemoveGroupAndPartitions. case_bool_decide; [done|].
  destruct (FindGroup _ _) as [[i g]|]; cbn [geometry_ set_groups]; apply remove_partitions_geometry.
Qed.

Lemma run_op_ok op b : well_formed b → op_ok b op →
  ∃ b', run_op op b = Ret (tt, b') ∧ well_formed b' ∧ geometry_ b' = geometry_ b.
Proof.
  intros Hb Hop.
  destruct op as [n max|n g a|n|n|n g|n max|n size hints|n dev k q|m names|n info| | |];
    cbn [run_op op_ok] in *.
  - destruct (AddGroup_ok n max b Hb Hop) as (ok & b' & E & Hb'). exists b'. rewrite E. split; [done|].
    split; [done|]. unfold AddGroup in E. destruct (FindGroup n b); by simplify_eq.
  - destruct (AddPartition_ok n g a b Hb) as (ok & b' & E & Hb'). exists b'. rewrite E. split; [done|].
    split; [done|]. unfold AddPartition in E. repeat case_match; by simplify_eq.
  - eexists. split; [done|]. split; [by apply RemovePartition_ok|].
    unfold RemovePartition. by destruct (FindPartition n b) as [[i p]|].
  - eexists. split; [done|]. split; [by apply RemoveGroupAndPartitions_ok|].
    apply RemoveGroupAndPartitions_geometry.
  - destruct (FindPartition n b) as [[i p]|] eqn:E; [|by eexists].
    apply FindPartition_some in E as [Hi _].
    destruct (ChangePartitionGroup_ok i p g b Hb Hi) as (ok & b' & E & Hb'). exists b'. rewrite E. split; [done|].
    split; [done|]. unfold ChangePartitionGroup in E. repeat case_match; by simplify_eq.
  - destruct (ChangeGroupSize_ok n max b Hb Hop) as (ok & b' & E & Hb'). exists b'. rewrite E. split; [done|].
    split; [done|]. unfold ChangeGroupSize in E. repeat case_match; by simplify_eq.
  - destruct (FindPartition n b) as [[i p]|] eqn:E; [|by eexists].
    apply FindPartition_some in E as [Hi _]. destruct Hop as [Hsz Hh].
    destruct (ResizePartition_spec GetProperty GetBoolProperty b i p size hints)
      as (ok & b' & -> & Hb' & Hr); [done|done|done|done|].
    exists b'. split; [done|]. split; [done|]. destruct ok; [|by destruct Hr as [-> _]].
    by destruct Hr as (? & _ & (? & -> & _) & _).
  - destruct (FindPartition n b) as [[i p]|] eqn:E; [|by eexists].
    destruct (FindPartition_some _ _ _ _ E) as [Hi _].
    destruct (AddLinearExtent_ok i p dev k q b Hb Hi) as (ok & b' & -> & Hb' & Hg); [by eauto|].
    by exists b'.
  - destruct (ImportPartitions_ok m names b Hb Hop) as (ok & b' & -> & Hb' & Hg). by exists b'.
  - destruct (UpdateBlockDeviceInfo_ok n info b Hb Hop) as (ok & b' & -> & Hb' & Hg). by exists b'.
  - eexists. split; [done|]. unfold RequireExpandedMetadataHeader. destruct (_ <=? _); [done|].
    split; [by apply well_formed_header|done].
  - eexists. split; [done|]. split; [by apply well_formed_header|done].
  - eexists. split; [done|]. unfold SetVirtualABDeviceFlag, RequireExpandedMetadataHeader.
    destruct (_ <=? _); (split; [by apply (well_formed_header b)|done]).
Qed.

Lemma run_ops_ok ops : ∀ b, well_formed b → ops_ok ops b →
  ∃ b', run_ops ops b = Ret (tt, b') ∧ well_formed b' ∧ geometry_ b' = geometry_ b.
Proof.
  induction ops as [|op ops IH]; intros b Hb Hops; [by eexists|].
  destruct Hops as [Hop Hops]. cbn [run_ops].
  destruct (run_op_ok op b Hb Hop) as (b1 & E1 & Hb1 & Hg1). rewrite E1 in Hops.
  destruct (IH b1) as (b2 & E2 & Hb2 & Hg2); [done..|].
  exists b2. unfold mbind, M_bind. rewrite E1. split; [done|]. split; [done|congruence].
Qed.

(** Operations that rely on nothing but the range of their arguments. *)
Definition op_static (lbs : Z) (op : lp_op) : Prop :=
  match op with
  | OpAddGroup _ max | OpChangeGroupSize _ max => 0 ≤ max < 2 ^ 64
  | OpResizePartition _ size hints => 0 ≤ size < 2 ^ 64 ∧ hints_ok lbs hints
  | OpAddLinearExtent _ _ _ _ | OpImportPartitions _ _ | OpUpdateBlockDeviceInfo _ _ => False
  | _ => True
  end.

Lemma static_ops_ok ops : ∀ b, well_formed b →
  Forall (op_static (logical_block_size (geometry_ b))) ops → ops_ok ops b.
Proof.
  induction ops as [|op ops IH]; intros b Hb Hops; [done|]. apply Forall_cons in Hops as [Hop Hops].
  assert (op_ok b op) as Hop' by (destruct op; done).
  split; [done|]. destruct (run_op_ok op b Hb Hop') as (b1 & -> & Hb1 & Hg1).
  apply IH; [done|]. by rewrite Hg1.
Qed.

Lemma ops_ok_app ops1 ops2 : ∀ b b', ops_ok ops1 b → run_ops ops1 b = Ret (tt, b') → ops_ok ops2 b' →
  ops_ok (ops1 ++ ops2) b.
Proof.
  induction ops1 as [|op ops1 IH]; intros b b' H1 HR H2; [by injection HR as <-|].
  destruct H1 as [Hop H1]. split; [done|]. cbn [run_ops] in HR. unfold mbind, M_bind in HR.
  destruct (run_op op b) as [[[] b1]| |]; try done. by eapply IH.
Qed.

End run.



(** * A concrete table *)

Definition no_property (key default : list byte) : list byte := default.
Definition no_bool_property (key : list byte) (default : bool) : bool := default.

(** A device of 1 MiB with blocks of 4 KiB and extents aligned to 16 KiB. *)
Definition ex_info : BlockDeviceInfo := mk_device_info 1048576 16384 0 4096 (bs "super").

Definition ex_ops : list lp_op :=
  [OpAddGroup (bs "main") 524288; OpAddPartition (bs "system_a") (bs "main") 0;
   OpAddPartition (bs "vendor_a") (bs "main") 1; OpResizePartition (bs "system_a") 5000 [];
   OpResizePartition (bs "vendor_a") 100000 []; OpResizePartition (bs "system_a") 60000 [];
   OpRemovePartition (bs "vendor_a"); OpResizePartition (bs "system_a") 200000 []].

Lemma ex_info_ok : info_ok ex_info.
Proof. split; cbn; try lia; [by exists 4|left; by exists 64]. Qed.

Definition ex_base : MetadataBuilder :=
  Eval vm_compute in match New [ex_info] (bs "super") 1024 2 with Some b => b | None => MetadataBuilder_new end.

Lemma no_hints_ok lbs : hints_ok lbs [].
Proof. split; [by apply Forall_nil|apply NoDup_nil_2]. Qed.

Lemma ex_ops_static : Forall (op_static 4096) ex_ops.
Proof.
  unfold ex_ops. repeat (apply Forall_cons; split; [cbn [op_static]; try lia; try done|]); [..|by apply Forall_nil].
  all: split; [lia|apply no_hints_ok].
Qed.

Lemma ex_base_well_formed : well_formed ex_base.
Proof.
  apply (New_spec [ex_info] (bs "super") 1024 2 ex_base); [|vm_compute; reflexivity].
  apply Forall_cons. split; [apply ex_info_ok|by apply Forall_nil].
Qed.

(** The table after the operations, and one more extent at sector 1024. *)
Definition ex_before : MetadataBuilder :=
  Eval vm_compute in match run_ops no_property no_bool_property ex_ops ex_base with
                     | Ret (_, b) => b | _ => MetadataBuilder_new end.

Definition ex_more : list lp_op :=
  [OpAddLinearExtent (bs "system_a") (bs "super") 8 1024;
   OpUpdateBlockDeviceInfo (bs "super") (mk_device_info 1048576 8192 0 4096 (bs "super"))].

Lemma ex_more_ok : ops_ok no_property no_bool_property ex_more ex_before.
Proof.
  split; [|split; [|done]].
  - intros i p d Hp Hd. vm_compute in Hp, Hd. injection Hp as <- <-. injection Hd as <-.
    split; [|done]. split_and!.
    + apply Forall_cons. split; [|by apply Forall_nil]. split; [done|]. split; [by exists 1|].
      eexists. split; [reflexivity|]. split_and!; [done|done|]. intros _. by exists 128.
    + apply (bool_decide_eq_true_1 _). vm_compute. reflexivity.
    + intros s Hs. revert s Hs. apply (proj1 (Forall_forall _ _)).
      apply (bool_decide_eq_true_1 _). vm_compute. reflexivity.
  - intros i d Hi Hd. vm_compute in Hi. injection Hi as <-. vm_compute in Hd. injection Hd as <-.
    split; cbn [i_logical_block_size i_alignment alignment bd_size first_logical_sector]; try done.
    + by exists 2.
    + left. by exists 128.
    + intros _. by exists 2.
Qed.


Definition ex_table : MetadataBuilder :=
  Eval vm_compute in match run_ops no_property no_bool_property (take 6 ex_ops) ex_base with
                     | Ret (_, b) => b | _ => MetadataBuilder_new end.

Lemma ex_table_well_formed : well_formed ex_table.
Proof.
  destruct (run_ops_ok no_property no_bool_property (take 6 ex_ops) ex_base ex_base_well_formed)
    as (b' & E & Hb' & _).
  { apply static_ops_ok; [apply ex_base_well_formed|]. apply Forall_take, ex_ops_static. }
  replace (run_ops no_property no_bool_property (take 6 ex_ops) ex_base) with
    (Ret (tt, ex_table)) in E by (vm_compute; reflexivity).
  by injection E as <-.
Qed.


(** * Where the promises of the interface end *)

(** A device that is not a whole number of alignments: 1 MiB and one block. *)
Definition odd_info : BlockDeviceInfo := mk_device_info 1052672 16384 0 4096 (bs "super").

Definition odd_ops : list lp_op :=
  [OpAddPartition (bs "system") (bs "default") 0; OpResizePartition (bs "system") 1036288 [];
   OpResizePartition (bs "system") 1040384 []].

Definition odd_base : MetadataBuilder :=
  Eval vm_compute in match New [odd_info] (bs "super") 1024 2 with Some b => b | None => MetadataBuilder_new end.

(** The partition fills the device up to its last whole block. *)
Definition odd_table : MetadataBuilder :=
  Eval vm_compute in match run_ops no_property no_bool_property (take 2 odd_ops) odd_base with
                     | Ret (_, b) => b | _ => MetadataBuilder_new end.

(** Aligning a sector behind the last aligned one of a device of [512 * L]
    bytes leads behind its end. *)
Lemma AlignSector_past_end d e L :
  bd_size d = 512 * L → bd_size d < 2 ^ 63 → 0 < alignment d < 2 ^ 32 → (512 | alignment d) →
  bd_size d / alignment d * alignment d < 512 * e ≤ bd_size d → 0 ≤ e →
  ∃ next, AlignSector d e = Some next ∧ L < next < 2 ^ 64 ∧ e < next.
Proof.
  intros HL H63 Ha [c Hc] He He0. unfold AlignSector, LP_SECTOR_SIZE. rewrite u64_small by lia.
  set (a := alignment d) in *. set (q := bd_size d / a) in *.
  assert (bd_size d < (q + 1) * a) as Hq.
  { pose proof (Z.div_mod (bd_size d) a ltac:(lia)). pose proof (Z.mod_pos_bound (bd_size d) a ltac:(lia)).
    unfold q. lia. }
  assert (AlignTo 64 (e * 512) a = Some ((q + 1) * a)) as ->.
  { unfold AlignTo. rewrite (proj2 (Z.eqb_neq a 0)) by lia.
    assert ((e * 512) / a = q) as Hdiv.
    { symmetry. apply (Z.div_unique_pos (e * 512) a q (e * 512 - q * a)); lia. }
    pose proof (Z.div_mod (e * 512) a ltac:(lia)) as Hd. rewrite Hdiv in Hd.
    destruct (Z.eqb_spec ((e * 512) mod a) 0) as [Hz|Hz].
    { exfalso. lia. }
    destruct (Z.ltb_spec (2 ^ 64 - 1 - e * 512) (a - (e * 512) mod a)); [|f_equal; lia].
    pose proof (Z.mod_pos_bound (e * 512) a ltac:(lia)). lia. }
  cbn [mbind option_bind]. rewrite AlignTo_multiple; cycle 1.
  { rewrite Hc, Z.mul_assoc. apply Z.mod_mul. lia. }
  assert ((q + 1) * a / 512 = (q + 1) * c) as E.
  { rewrite Hc, Z.mul_assoc. apply Z.div_mul. lia. }
  cbn [mbind option_bind]. rewrite E. eexists. split; [reflexivity|].
  assert ((q + 1) * a = 512 * ((q + 1) * c)) by (rewrite Hc; lia). lia.
Qed.

(** C35: [ExtendFinalExtent] hands out sectors behind the end of the device.  When
    the last extent of a partition is the last one on its device and ends behind
    the last aligned sector of a device whose size is not a whole number of
    alignments, and more sectors are wanted than the device has left, the gap up
    to the next aligned sector is compared with the other extents and the free
    regions but not with the size of the device, and the new extent ends behind
    the device. *)
Theorem extend_past_device_end b p free_list n d s k device :
  let e := s + n in
  last (extents_ p) = Some (LinearExtent n d s) → zlookup (block_devices_ b) d = Some device →
  0 ≤ s → 0 < n → bd_size device < 2 ^ 63 → bd_size device = 512 * last_sector device →
  0 < alignment device < 2 ^ 32 → (512 | alignment device) →
  bd_size device / alignment device * alignment device < 512 * e ≤ bd_size device →
  last_sector device < e + k →
  (∀ n' s', LinearExtent n' d s' ∈ all_extents b → 0 ≤ s' + n' ≤ e) →
  (∀ r, r ∈ free_list → device_index r = d → end_ r ≤ e) →
  ∃ num, ExtendFinalExtent b p free_list k = Ret (Some (num, d, e)) ∧ last_sector device < e + num.
Proof.
  intros e Hlast Hd Hs Hn H63 HL Ha Hc He Hk Hall Hfree.
  destruct (AlignSector_past_end device e (last_sector device)) as (next & Hnext & Hpast & Hen);
    [done..|lia|].
  unfold ExtendFinalExtent. rewrite Hlast, Hd. fold e. rewrite (u64_small e) by lia. rewrite Hnext.
  rewrite (proj2 (Z.eqb_neq e next)), (u64_small (next - e)) by lia.
  assert (∀ m, IsAnyRegionAllocated b m d e = false) as Hno.
  { intros m. unfold IsAnyRegionAllocated. apply not_true_iff_false. rewrite existsb_exists.
    intros ([n' d' s'|n'] & Hin & Hov); [|done]. apply list_elem_of_In in Hin.
    unfold OverlapsWith, AsInterval in Hov. cbn [device_index start end_] in Hov. zbool. subst d'.
    specialize (Hall n' s' Hin). rewrite u64_small in * by lia. lia. }
  assert (∀ m, IsAnyRegionCovered free_list m d e = false) as Hno'.
  { intros m. unfold IsAnyRegionCovered. apply not_true_iff_false. rewrite existsb_exists.
    intros (r & Hin & Hov). apply list_elem_of_In in Hin. unfold OverlapsWith in Hov. zbool.
    specialize (Hfree r Hin ltac:(done)). lia. }
  rewrite Hno, Hno'. cbn [orb]. eexists. split; [reflexivity|]. lia.
Qed.

(** The partition of [odd_table] grows by one block. *)
Lemma extend_past_device_end_witness :
  ∃ p num, partitions_ odd_table = [p] ∧ ExtendFinalExtent odd_table p [] 8 = Ret (Some (num, 0, 2056)) ∧
    2056 < 2056 + num.
Proof.
  destruct (partitions_ odd_table) as [|p [|? ?]] eqn:E; [done| |done].
  assert (p = match partitions_ odd_table with q :: _ => q | [] => p end) as -> by (by rewrite E).
  destruct (block_devices_ odd_table) as [|dev l] eqn:E'; [done|].
  destruct (extend_past_device_end odd_table (match partitions_ odd_table with q :: _ => q | [] => p end)
    [] 2024 0 32 8 dev) as (num & H1 & H2).
  - reflexivity.
  - unfold zlookup. rewrite E'. reflexivity.
  - lia.
  - lia.
  - vm_compute in E'. injection E' as <- _. vm_compute. reflexivity.
  - vm_compute in E'. injection E' as <- _. vm_compute. reflexivity.
  - vm_compute in E'. injection E' as <- _. vm_compute. split; reflexivity.
  - vm_compute in E'. injection E' as <- _. by exists 32.
  - vm_compute in E'. injection E' as <- _. vm_compute. split; congruence.
  - vm_compute in E'. injection E' as <- _. vm_compute. reflexivity.
  - intros n' s' Hin. vm_compute in Hin. apply list_elem_of_singleton in Hin. injection Hin as -> ->. lia.
  - intros r Hin. by apply not_elem_of_nil in Hin.
  - eexists _, num. split; [reflexivity|]. split; [exact H1|].
    vm_compute in E'. injection E' as <- _. exact H2.
Defined.

(** [New] accepts such a device, and two resizes lead there. *)
Lemma odd_device_overrun :
  ∃ b b' d n p, New [odd_info] (bs "super") 1024 2 = Some b ∧
    run_ops no_property no_bool_property odd_ops b = Ret (tt, b') ∧
    block_devices_ b' = [d] ∧ all_extents b' = [LinearExtent n 0 p] ∧ last_sector d < p + n.
Proof. eexists _, _, _, _, _. split_and!; [by vm_compute..|]. vm_compute. reflexivity. Qed.

Definition hint_ops (hints : list Interval) : list lp_op :=
  [OpAddPartition (bs "system") (bs "default") 0; OpResizePartition (bs "system") 4096 [];
   OpResizePartition (bs "system") 8192 hints].

(** With a hint the builder is documented to allocate only inside the hinted
    regions, but the gap behind the last extent of the partition is taken first,
    whatever the hint says. *)
Theorem hint_not_respected :
  ∃ b b', New [ex_info] (bs "super") 1024 2 = Some b ∧
    run_ops no_property no_bool_property (hint_ops [mk_interval 0 1024 1056]) b = Ret (tt, b') ∧
    all_extents b' = [LinearExtent 16 0 32].
Proof. eexists _, _. split_and!; [by vm_compute..|]. vm_compute. reflexivity. Qed.
