(* ===== verification/LpExport.v ===== *)
(** A partition table exported from the builder and imported again
    ([MetadataBuilder::Export] and [MetadataBuilder::New] of
    system/core/fs_mgr/liblp/builder.cpp). *)

From Stdlib Require Import Strings.String.
From S2P Require Import Prelude LibBase SparseFormat LpFormat LpBuilder LpBuilderFacts LpTable.
Open Scope Z_scope.

(** * Extents *)

(** The entry of an extent in the table. *)
Definition extent_entry (e : Extent) : LpMetadataExtent :=
  match e with
  | LinearExtent n d p => mk_lp_extent n LP_TARGET_TYPE_LINEAR p d
  | ZeroExtent n => mk_lp_extent n LP_TARGET_TYPE_ZERO 0 0
  end.

Lemma import_extent_entry e : import_extent (extent_entry e) = Some e.
Proof. by destruct e. Qed.

Lemma AddTo_entry ds lbs e : extent_ok lbs ds e → AddTo e (zlen ds) = Some (extent_entry e).
Proof.
  intros (_ & _ & He). destruct e as [n d p|n]; [|done]. destruct He as (x & Hx & _).
  apply zlookup_Some_inv in Hx as [Hx _]. cbn [AddTo]. by rewrite (proj2 (Z.leb_gt _ _)) by lia.
Qed.

Lemma AddTo_entries ds lbs es : Forall (extent_ok lbs ds) es →
  mapM (λ e, AddTo e (zlen ds)) es = Some (extent_entry <$> es).
Proof.
  intros H. apply mapM_Some. induction H as [|e es He Hes IH]; [constructor|].
  constructor; [by eapply AddTo_entry|done].
Qed.

Lemma import_extents_entries es : ∀ pre post q,
  import_extents (length es) (zlen pre) (pre ++ (extent_entry <$> es) ++ post) q =
  Ret (foldl (λ q e, AddExtent e q) q es).
Proof.
  induction es as [|e es IH]; intros pre post q; [done|]. cbn [import_extents length].
  rewrite fmap_cons, <- app_comm_cons, zlookup_app_r, Z.sub_diag by lia.
  change (zlookup (extent_entry e :: (extent_entry <$> es) ++ post) 0) with (Some (extent_entry e)).
  cbv beta iota. rewrite import_extent_entry. specialize (IH (pre ++ [extent_entry e]) post (AddExtent e q)).
  rewrite <- app_assoc in IH. cbn [app] in IH. rewrite zlen_app in IH.
  change (zlen [extent_entry e]) with 1 in IH. exact IH.
Qed.

(** * Groups *)

Definition name_ok (n : list byte) : Prop := no_nul n ∧ zlen n ≤ sizeof_name.

Definition name_okb (n : list byte) : bool := forallb (λ b, negb (b2z b =? 0)) n && (zlen n <=? sizeof_name).

Lemma name_okb_ok n : name_okb n = true → name_ok n.
Proof.
  unfold name_okb, name_ok, no_nul. intros [H1 H2]%andb_true_iff. apply Z.leb_le in H2. split; [|done].
  rewrite forallb_forall in H1. apply Forall_forall. intros x Hx ->.
  apply list_elem_of_In in Hx. by apply H1 in Hx.
Qed.

Definition group_entry (g : PartitionGroup) : LpMetadataPartitionGroup :=
  mk_lp_group (strncpy (g_name g) sizeof_name) 0 (maximum_size g).

Lemma export_groups gs : Forall (λ g, name_ok (g_name g)) gs →
  mapM (export_group false) gs = Some (group_entry <$> gs).
Proof.
  intros H. apply mapM_Some. induction H as [|g gs [_ Hg] Hgs IH]; [constructor|].
  constructor; [|done]. unfold export_group. by rewrite (proj2 (Z.ltb_ge _ _)) by lia.
Qed.

Lemma group_entry_name g : name_ok (g_name g) → GetPartitionGroupName (group_entry g) = g_name g.
Proof. intros [? ?]. by apply name_roundtrip. Qed.

Lemma FindGroup_fresh n b : n ∉ (g_name <$> groups_ b) → FindGroup n b = None.
Proof.
  intros H. apply list_find_None, Forall_forall. intros g Hg E. apply H. rewrite <- E.
  by apply list_elem_of_fmap_2.
Qed.

Lemma FindPartition_fresh n b : n ∉ (name_ <$> partitions_ b) → FindPartition n b = None.
Proof.
  intros H. apply list_find_None, Forall_forall. intros g Hg E. apply H. rewrite <- E.
  by apply list_elem_of_fmap_2.
Qed.

Lemma init_groups_entries gs : ∀ b,
  Forall (λ g, name_ok (g_name g)) gs → NoDup (g_name <$> (groups_ b ++ gs)) →
  init_groups (group_entry <$> gs) b = Ret (true, set_groups (groups_ b ++ gs) b).
Proof.
  induction gs as [|g gs IH]; intros b Hn Hd.
  { cbn. by rewrite app_nil_r; destruct b. }
  apply Forall_cons in Hn as [Hg Hn]. cbn [fmap list_fmap init_groups].
  rewrite group_entry_name by done. cbn [gr_maximum_size group_entry].
  unfold mbind, M_bind, AddGroup. rewrite FindGroup_fresh.
  2: { rewrite fmap_app, fmap_cons, NoDup_app in Hd. destruct Hd as (_ & Hd & _).
       intros Hx. by apply (Hd _ Hx), list_elem_of_here. }
  destruct g as [gn gm]. cbn [g_name maximum_size].
  assert (groups_ b ++ mk_group gn gm :: gs = (groups_ b ++ [mk_group gn gm]) ++ gs) as E by (by rewrite <- app_assoc).
  rewrite E in Hd |- *. rewrite IH; [done|done|done].
Qed.

(** * Partitions *)

Definition attributes_ok (a : Z) : Prop :=
  Z.land a (Z.lxor (2 ^ 32 - 1) LP_PARTITION_ATTRIBUTE_MASK) = 0.

(** The entries [qs] describe the partitions [ps] whose extents begin at position
    [off] of the extent table. *)
Fixpoint exported (groups : list PartitionGroup) (off : Z) (ps : list Partition)
    (qs : list LpMetadataPartition) : Prop :=
  match ps, qs with
  | [], [] => True
  | p :: ps, q :: qs =>
      p_name q = strncpy (name_ p) sizeof_name ∧ p_attributes q = attributes_ p ∧
      first_extent_index q = off ∧ num_extents q = zlen (extents_ p) ∧
      (∃ g, zlookup groups (group_index q) = Some g ∧ g_name g = group_name_ p) ∧
      exported groups (off + zlen (extents_ p)) ps qs
  | _, _ => False
  end.

Definition partition_exportable (p : Partition) : Prop := name_ok (name_ p) ∧ attributes_ok (attributes_ p).

Lemma reverse_group_index gs n : n ∈ (g_name <$> gs) → zlen gs < 2 ^ 32 →
  ∃ k g g', list_find (λ g, g_name g = n) (reverse gs) = Some (k, g) ∧
    zlookup gs (u32 (zlen gs - 1 - Z.of_nat k)) = Some g' ∧ g_name g' = n.
Proof.
  intros (g & -> & Hg)%list_elem_of_fmap Hlen.
  destruct (list_find_elem_of (λ x, g_name x = g_name g) (reverse gs) g) as [[k x] E];
    [by rewrite elem_of_reverse|done|].
  exists k, x. pose proof E as E'. apply list_find_Some in E' as (E1 & E2 & _).
  pose proof (lookup_lt_Some _ _ _ E1) as Hk. rewrite length_reverse in Hk.
  exists x. split; [done|]. split; [|done]. unfold zlen in *. rewrite u32_small by lia.
  unfold zlookup. rewrite (proj2 (Z.ltb_ge _ _)) by lia.
  rewrite reverse_lookup in E1 by done. rewrite <- E1. f_equal. lia.
Qed.

Section partitions.
Context (lbs : Z) (ds : list LpMetadataBlockDevice) (groups : list PartitionGroup).
Context (Hgroups : zlen groups < 2 ^ 32).

Definition part_ok (p : Partition) : Prop :=
  partition_exportable p ∧ Forall (extent_ok lbs ds) (extents_ p) ∧ group_name_ p ∈ (g_name <$> groups).

Lemma export_partitions_spec ps : ∀ minor es,
  Forall part_ok ps → zlen es + zlen (ps ≫= extents_) < 2 ^ 32 →
  ∃ minor' qs, export_partitions false (zlen ds) groups ps minor es =
      Some (minor', qs, es ++ (extent_entry <$> (ps ≫= extents_))) ∧
    exported groups (zlen es) ps qs.
Proof.
  induction ps as [|p ps IH]; intros minor es Hps Hlen.
  { exists minor, []. cbn. by rewrite app_nil_r. }
  apply Forall_cons in Hps as [(([Hn1 Hn2] & Ha) & He & Hg) Hps].
  cbn [mbind list_bind] in Hlen. rewrite zlen_app in Hlen.
  pose proof (zlen_nonneg es). pose proof (zlen_nonneg (extents_ p)). pose proof (zlen_nonneg (ps ≫= extents_)).
  cbn [export_partitions]. rewrite (proj2 (Z.ltb_ge _ _)) by lia.
  unfold attributes_ok in Ha. rewrite Ha, Z.eqb_refl. cbn [negb].
  set (minor1 := if negb (Z.land (attributes_ p) LP_PARTITION_ATTRIBUTE_MASK_V1 =? 0) then _ else minor).
  destruct (reverse_group_index groups (group_name_ p) Hg Hgroups) as (k & g & g' & -> & Hgi & Hgn).
  cbn [mbind option_bind]. rewrite (AddTo_entries ds lbs) by done. cbn [mbind option_bind].
  destruct (IH minor1 (es ++ (extent_entry <$> extents_ p))) as (minor' & qs & -> & Hq); [done| |].
  { rewrite zlen_app. unfold zlen at 2. rewrite length_fmap. fold (zlen (extents_ p)). lia. }
  cbn [mbind option_bind]. eexists _, _. split.
  { change (list_bind Partition Extent extents_ (p :: ps)) with (extents_ p ++ (ps ≫= extents_)). rewrite fmap_app, (app_assoc es). reflexivity. }
  cbn [exported p_name p_attributes first_extent_index num_extents group_index].
  rewrite !u32_small by lia. rewrite zlen_app in Hq. unfold zlen in Hq at 2. rewrite length_fmap in Hq.
  split_and!; [done..|by exists g'|exact Hq].
Qed.

(** The same partition, up to how its sectors are cut into extents. *)
Definition same_partition (p p' : Partition) : Prop :=
  same_identity p p' ∧ size_ p' = size_ p ∧ sectors (extents_ p') = sectors (extents_ p).

Context (Hl : lbs_ok lbs) (Hds : Forall (device_ok lbs) ds).
Context (Hnames : Forall (λ g, name_ok (g_name g)) groups).

Lemma reimport_extents p : Forall (extent_ok lbs ds) (extents_ p) → partition_size_ok p →
  same_partition p (foldl (λ q e, AddExtent e q)
    (Partition_new (name_ p) (group_name_ p) (attributes_ p)) (extents_ p)).
Proof.
  intros He [Hs Hm]. unfold LP_SECTOR_SIZE in Hs.
  destruct (add_extents_spec lbs Hl ds Hds (extents_ p) (Partition_new (name_ p) (group_name_ p) (attributes_ p)))
    as (A1 & A2 & [A3 _] & A4); [done|by apply Forall_nil|split; [done|cbn; lia]|cbn; lia|].
  split; [done|]. cbn in A4. split; [|done]. by rewrite A3, A4, Hs.
Qed.

Lemma init_partitions_spec m ps : m_groups m = group_entry <$> groups →
  Forall part_ok ps → Forall partition_size_ok ps → Forall (λ p, name_ p ≠ []) ps →
  ∀ qs b pre, exported groups (zlen pre) ps qs →
  m_extents m = pre ++ (extent_entry <$> (ps ≫= extents_)) → groups_ b = groups →
  NoDup (name_ <$> (partitions_ b ++ ps)) →
  ∃ ps', init_partitions m qs b = Ret (true, set_partitions (partitions_ b ++ ps') b) ∧
    Forall2 same_partition ps ps'.
Proof.
  intros Hmg. induction ps as [|p ps IH]; intros Hps Hsz Hne [|q qs] b pre Hex Hme Hbg Hnd; try done.
  { exists []. rewrite app_nil_r. by destruct b. }
  apply Forall_cons in Hps as [(([Hn1 Hn2] & _) & He & Hg) Hps]. apply Forall_cons in Hsz as [Hs Hsz].
  apply Forall_cons in Hne as [Hn Hne]. destruct Hex as (E1 & E2 & E3 & E4 & (g & E5 & E6) & Hex).
  cbn [init_partitions]. rewrite Hmg. unfold zlookup in E5 |- *. destruct (_ <? 0); [done|].
  rewrite list_lookup_fmap, E5. cbn [fmap option_fmap option_map].
  rewrite group_entry_name by (by apply (Forall_lookup_1 _ _ _ _ Hnames E5)).
  assert (GetPartitionName q = name_ p) as ->.
  { unfold GetPartitionName. rewrite E1. by apply name_roundtrip. }
  rewrite fmap_app, fmap_cons, NoDup_app in Hnd. destruct Hnd as (N1 & N2 & N3).
  unfold AddPartition at 1. destruct (Z.eqb_spec (zlen (name_ p)) 0) as [Hz|Hz].
  { destruct (name_ p); [done|]. rewrite zlen_cons in Hz. pose proof (zlen_nonneg l). lia. }
  rewrite FindPartition_fresh by (intros Hx; by apply (N2 _ Hx), list_elem_of_here).
  rewrite bool_decide_false by (by intros [? ?]). rewrite E6.
  rewrite bool_decide_true.
  2: { destruct (FindGroup_elem b (group_name_ p)) as (? & ? & -> & _); [by rewrite Hbg|done]. }
  cbn [negb mbind outcome_bind partitions_ set_partitions].
  rewrite lookup_app_r, Nat.sub_diag by lia. cbn [lookup list_lookup].
  unfold ImportExtents. rewrite E3, E4, Hme. change ((p :: ps) ≫= extents_) with (extents_ p ++ (ps ≫= extents_)).
  rewrite fmap_app. unfold zlen at 1. rewrite Nat2Z.id, import_extents_entries. cbn [mbind outcome_bind].
  rewrite E2. set (p' := foldl _ _ (extents_ p)).
  assert (same_partition p p') as Hp' by (by apply reimport_extents).
  rewrite insert_app_r_alt, Nat.sub_diag by lia. cbn [insert list_insert].
  destruct (IH Hps Hsz Hne qs (set_partitions (partitions_ b ++ [p']) b) (pre ++ (extent_entry <$> extents_ p)))
    as (ps' & E & HF).
  - rewrite zlen_app. unfold zlen at 2. by rewrite length_fmap.
  - by rewrite Hme, <- app_assoc, <- fmap_app.
  - done.
  - cbn [partitions_ set_partitions]. rewrite <- app_assoc, fmap_app. cbn [app]. rewrite fmap_cons.
    destruct Hp' as [[-> _] _]. apply NoDup_app. by split_and!.
  - exists (p' :: ps'). cbn [partitions_ set_partitions] in E. rewrite <- app_assoc in E. split; [exact E|].
    by constructor.
Qed.

End partitions.

(** * The round trip *)

Record exportable (b : MetadataBuilder) : Prop := {
  ex_auto : auto_slot_suffixing_ b = false;
  ex_limits : ValidatePartitionGroups b = true;
  ex_groups : Forall (λ g, name_ok (g_name g)) (groups_ b);
  ex_partitions : Forall partition_exportable (partitions_ b);
  ex_extents : zlen (all_extents b) < 2 ^ 32;
  ex_count : zlen (groups_ b) < 2 ^ 32
}.

(** The tables of [m] describe [b]. *)
Record describes (b : MetadataBuilder) (m : LpMetadata) : Prop := {
  de_geometry : m_geometry m = geometry_ b;
  de_partitions : exported (groups_ b) 0 (partitions_ b) (m_partitions m);
  de_extents : m_extents m = extent_entry <$> all_extents b;
  de_groups : m_groups m = group_entry <$> groups_ b;
  de_devices : m_block_devices m = block_devices_ b
}.

Lemma parts_ok b : lp_ok b → exportable b →
  Forall (part_ok (logical_block_size (geometry_ b)) (block_devices_ b) (groups_ b)) (partitions_ b).
Proof.
  intros Hb He. rewrite Forall_lookup. intros i p Hi.
  destruct (partition_extents_ok b i p Hb Hi) as (H1 & _).
  split; [apply (Forall_lookup_1 _ _ _ _ (ex_partitions b He) Hi)|]. split; [done|].
  apply (Forall_lookup_1 _ _ _ _ (lo_members b Hb) Hi).
Qed.

Lemma Export_spec b : lp_ok b → exportable b → ∃ m, Export b = Some m ∧ describes b m.
Proof.
  intros Hb He. pose proof (parts_ok b Hb He) as Hp. destruct He as [H1 H2 H3 H4 H5 H6].
  unfold Export. rewrite H2, H1. cbn [negb]. rewrite list_fmap_id.
  rewrite export_groups by done. cbn [mbind option_bind].
  destruct (export_partitions_spec _ _ _ H6 _ (h_minor_version (header_ b)) [] Hp H5) as (minor & qs & -> & Hq).
  cbn [mbind option_bind]. eexists. split; [reflexivity|]. by split.
Qed.

Lemma NewFromMetadata_spec b m : lp_ok b → exportable b → describes b m →
  ∃ b', NewFromMetadata m = Ret (Some b') ∧ geometry_ b' = geometry_ b ∧
    block_devices_ b' = block_devices_ b ∧ groups_ b' = groups_ b ∧
    Forall2 same_partition (partitions_ b) (partitions_ b').
Proof.
  intros Hb He [D1 D2 D3 D4 D5]. pose proof (parts_ok b Hb He) as Hp.
  unfold NewFromMetadata, InitFromMetadata.
  set (b0 := if LP_METADATA_VERSION_FOR_EXPANDED_HEADER <=? _ then _ else _).
  assert (groups_ b0 = [] ∧ partitions_ b0 = [] ∧ geometry_ b0 = geometry_ b ∧
    block_devices_ b0 = block_devices_ b) as (B1 & B2 & B3 & B4).
  { subst b0. rewrite D1, D5. by destruct (_ <=? _). }
  unfold mbind, M_bind, outcome_bind. rewrite D4, init_groups_entries.
  2: { apply He. }
  2: { rewrite B1. apply Hb. }
  rewrite B1. cbn [app].
  destruct (init_partitions_spec _ _ _ (lo_lbs b Hb) (lo_devices b Hb) (ex_groups b He) m _ D4 Hp
    (lo_sizes b Hb) (proj2 (lo_names b Hb)) (m_partitions m) (set_groups (groups_ b) b0) []) as (ps' & -> & HF).
  - done.
  - done.
  - done.
  - cbn [partitions_ set_groups]. rewrite B2. apply Hb.
  - eexists. split; [reflexivity|]. cbn [geometry_ block_devices_ groups_ partitions_ set_partitions set_groups].
    rewrite B2. by split_and!.
Qed.

(** A table exported by the builder and imported again is the same table:
    the same devices, groups and limits, and the same partitions in the same order,
    each with its attributes, its size and the same sectors in the same order. *)
Theorem export_import_roundtrip b :
  lp_ok b → exportable b →
  ∃ m b', Export b = Some m ∧ NewFromMetadata m = Ret (Some b') ∧ geometry_ b' = geometry_ b ∧
    block_devices_ b' = block_devices_ b ∧ groups_ b' = groups_ b ∧
    Forall2 same_partition (partitions_ b) (partitions_ b').
Proof.
  intros Hb He. destruct (Export_spec b Hb He) as (m & E & Hd).
  destruct (NewFromMetadata_spec b m Hb He Hd) as (b' & ?). by exists m, b'.
Qed.

Lemma ex_table_exportable : exportable ex_table.
Proof.
  split; [vm_compute; reflexivity|vm_compute; reflexivity| | |vm_compute; reflexivity|vm_compute; reflexivity].
  - apply Forall_lookup. intros i g Hg. unfold ex_table in Hg. cbn [groups_] in Hg.
    destruct i as [|[|]]; cbn in Hg; simplify_eq; apply name_okb_ok; vm_compute; reflexivity.
  - apply Forall_lookup. intros i p Hp. unfold ex_table in Hp. cbn [partitions_] in Hp.
    destruct i as [|[|]]; cbn in Hp; simplify_eq;
      (split; [apply name_okb_ok; vm_compute; reflexivity|vm_compute; reflexivity]).
Qed.

Lemma export_import_roundtrip_witness :
  ∃ m b', Export ex_table = Some m ∧ NewFromMetadata m = Ret (Some b') ∧
    Forall2 same_partition (partitions_ ex_table) (partitions_ b').
Proof.
  destruct (export_import_roundtrip ex_table) as (m & b' & H1 & H2 & _ & _ & _ & H3);
    [apply ex_table_well_formed|apply ex_table_exportable|]. by exists m, b'.
Defined.
