(* ===== verification/LpReader.v ===== *)
(** Reading logical partition metadata (system/core/fs_mgr/liblp/reader.cpp).

    A descriptor or a memory buffer is the bytes from its current position on.
    Every [memcpy] out of the table buffer is checked against the size of the
    buffer: an access outside it is the outcome [AssertFail].  [SHA256] of the
    cryptographic library is a parameter. *)

From Stdlib Require Import Strings.String.
From S2P Require Import Prelude LibBase SparseFormat LpFormat.
Open Scope Z_scope.

(** [Reader::ReadFully] of [FileReader] and [MemoryReader]: [None] is the return
    value false. *)
Definition ReadFully (n : Z) (rest : list byte) : option (list byte * list byte) :=
  if zlen rest <? n then None else Some (ztake n rest, zdrop n rest).

Section reader.
Context (SHA256 : list byte → list byte).

(** * Geometry *)

Definition set_g_checksum (c : list byte) (g : LpMetadataGeometry) : LpMetadataGeometry :=
  mk_geometry (g_magic g) (g_struct_size g) c (metadata_max_size g) (metadata_slot_count g)
    (logical_block_size g).

Definition ParseGeometry (buffer : list byte) : option LpMetadataGeometry :=
  let g := geometry_of buffer in
  if negb (g_magic g =? LP_METADATA_GEOMETRY_MAGIC) then None
  else if sizeof_geometry <? g_struct_size g then None
  else
    let temp := set_g_checksum (zeros 32) g in
    if negb (bool_decide (SHA256 (ztake (g_struct_size g) (geometry_bytes temp)) = g_checksum g)) then None
    else if negb (g_struct_size g =? sizeof_geometry) then None
    else if metadata_slot_count g =? 0 then None
    else if negb (metadata_max_size g mod LP_SECTOR_SIZE =? 0) then None
    else Some g.

(** [ReadPrimaryGeometry] and [ReadBackupGeometry] on the bytes of the device. *)
Definition read_geometry_at (offset : Z) (disk : list byte) : option LpMetadataGeometry :=
  '(buffer, _) ← ReadFully LP_METADATA_GEOMETRY_SIZE (zdrop offset disk);
  ParseGeometry buffer.

Definition ReadPrimaryGeometry : list byte → option LpMetadataGeometry :=
  read_geometry_at GetPrimaryGeometryOffset.
Definition ReadBackupGeometry : list byte → option LpMetadataGeometry :=
  read_geometry_at GetBackupGeometryOffset.

Definition ReadLogicalPartitionGeometry (disk : list byte) : option LpMetadataGeometry :=
  match ReadPrimaryGeometry disk with
  | Some g => Some g
  | None => ReadBackupGeometry disk
  end.

(** * Header *)

Definition ValidateTableBounds (h : LpMetadataHeader) (t : LpMetadataTableDescriptor) : bool :=
  (t_offset t <=? tables_size h)
  && (u64 (num_entries t * entry_size t) <=? u32 (tables_size h - t_offset t)).

Definition set_h_checksum (c : list byte) (h : LpMetadataHeader) : LpMetadataHeader :=
  mk_header (h_magic h) (h_major_version h) (h_minor_version h) (header_size h) c
    (tables_size h) (tables_checksum h) (h_partitions h) (h_extents h) (h_groups h) (h_block_devices h)
    (h_flags h) (h_reserved h).

Definition expected_header_size (h : LpMetadataHeader) : Z :=
  if h_minor_version h <? LP_METADATA_VERSION_FOR_EXPANDED_HEADER then sizeof_headerV1_0 else sizeof_header.

Definition header_checks (h : LpMetadataHeader) : bool :=
  bool_decide (SHA256 (ztake (header_size h) (header_bytes (set_h_checksum (zeros 32) h))) = header_checksum h)
  && (ValidateTableBounds h (h_partitions h) && ValidateTableBounds h (h_extents h)
      && ValidateTableBounds h (h_groups h) && ValidateTableBounds h (h_block_devices h))
  && (entry_size (h_partitions h) =? sizeof_partition)
  && (entry_size (h_extents h) =? sizeof_extent)
  && (entry_size (h_groups h) =? sizeof_group).

(** [ReadMetadataHeader]: the struct starts as zeros, the bytes of the first
    version are read, and the rest when the version says that there is more. *)
Definition ReadMetadataHeader (rest : list byte) : option (LpMetadataHeader * list byte) :=
  '(v0, rest) ← ReadFully sizeof_headerV1_0 rest;
  let h := header_of (v0 ++ zeros (sizeof_header - sizeof_headerV1_0)) in
  if negb (h_magic h =? LP_METADATA_HEADER_MAGIC) then None
  else if negb (h_major_version h =? LP_METADATA_MAJOR_VERSION)
          || (LP_METADATA_MINOR_VERSION_MAX <? h_minor_version h) then None
  else if negb (header_size h =? expected_header_size h) then None
  else
    '(h, rest) ←
      (if header_size h =? sizeof_headerV1_0 then Some (h, rest)
       else '(more, rest) ← ReadFully (header_size h - sizeof_headerV1_0) rest;
            Some (header_of (v0 ++ more), rest));
    if header_checks h then Some (h, rest) else None.

(** * Tables *)

(** A loop over the entries of a table: each is copied out of the buffer and
    checked; [None] is a return of the null pointer. *)
Fixpoint read_table {A} (decode : list byte → A) (size : Z) (check : A → bool) (n : nat)
    (cursor step : Z) (buffer : list byte) : outcome (option (list A)) :=
  match n with
  | O => Ret (Some [])
  | S n =>
      c_assert (cursor + size <=? zlen buffer);;
      let x := decode (ztake size (zdrop cursor buffer)) in
      if negb (check x) then Ret None
      else
        r ← read_table decode size check n (cursor + step) step buffer;
        Ret (option_map (cons x) r)
  end.

Definition read_entries {A} (decode : list byte → A) (size : Z) (check : A → bool)
    (t : LpMetadataTableDescriptor) (buffer : list byte) : outcome (option (list A)) :=
  read_table decode size check (Z.to_nat (num_entries t)) (t_offset t) (entry_size t) buffer.

Definition valid_attributes (h : LpMetadataHeader) : Z :=
  if LP_METADATA_VERSION_FOR_UPDATED_ATTR <=? h_minor_version h
  then Z.lor LP_PARTITION_ATTRIBUTE_MASK_V0 LP_PARTITION_ATTRIBUTE_MASK_V1
  else LP_PARTITION_ATTRIBUTE_MASK_V0.

Definition check_partition (h : LpMetadataHeader) (p : LpMetadataPartition) : bool :=
  (Z.land (p_attributes p) (Z.lxor (2 ^ 32 - 1) (valid_attributes h)) =? 0)
  && negb (u32 (first_extent_index p + num_extents p) <? first_extent_index p)
  && negb (num_entries (h_extents h) <? u32 (first_extent_index p + num_extents p))
  && negb (num_entries (h_groups h) <=? group_index p).

Definition check_extent (h : LpMetadataHeader) (e : LpMetadataExtent) : bool :=
  negb ((target_type e =? LP_TARGET_TYPE_LINEAR) && (num_entries (h_block_devices h) <=? target_source e)).

(** [ParseMetadata] *)
Definition ParseMetadata (g : LpMetadataGeometry) (rest : list byte) : outcome (option LpMetadata) :=
  match ReadMetadataHeader rest with
  | None => Ret None
  | Some (h, rest) =>
      if metadata_max_size g <? tables_size h then Ret None
      else match ReadFully (tables_size h) rest with
      | None => Ret None
      | Some (buffer, _) =>
          if negb (bool_decide (SHA256 buffer = tables_checksum h)) then Ret None
          else
            ps ← read_entries lp_partition_of sizeof_partition (check_partition h) (h_partitions h) buffer;
            match ps with None => Ret None | Some ps =>
            es ← read_entries lp_extent_of sizeof_extent (check_extent h) (h_extents h) buffer;
            match es with None => Ret None | Some es =>
            gs ← read_entries lp_group_of sizeof_group (fun _ => true) (h_groups h) buffer;
            match gs with None => Ret None | Some gs =>
            ds ← read_entries block_device_of sizeof_block_device (fun _ => true) (h_block_devices h) buffer;
            match ds with None => Ret None | Some ds =>
            let m := mk_metadata g h ps es gs ds in
            match GetMetadataSuperBlockDevice m with
            | None => Ret None
            | Some super =>
                if u64 (first_logical_sector super * LP_SECTOR_SIZE)
                   <? GetTotalMetadataSize (metadata_max_size g) (metadata_slot_count g)
                then Ret None else Ret (Some m)
            end end end end end
      end
  end.

(** [ReadPrimaryMetadata] and [ReadBackupMetadata] on the bytes of the device. *)
Definition ReadPrimaryMetadata (disk : list byte) (g : LpMetadataGeometry) (slot_number : Z)
    : outcome (option LpMetadata) :=
  offset ← GetPrimaryMetadataOffset g slot_number;
  ParseMetadata g (zdrop offset disk).

Definition ReadBackupMetadata (disk : list byte) (g : LpMetadataGeometry) (slot_number : Z)
    : outcome (option LpMetadata) :=
  offset ← GetBackupMetadataOffset g slot_number;
  ParseMetadata g (zdrop offset disk).

(** * Slot suffixes *)

Definition clear_bits (flags mask : Z) : Z := Z.land flags (Z.lxor (2 ^ 32 - 1) mask).

(** The bodies of the three loops of [AdjustMetadataForSlot]. *)
Definition adjust_partition (slot_suffix : list byte) (p : LpMetadataPartition) : option LpMetadataPartition :=
  if Z.land (p_attributes p) LP_PARTITION_ATTR_SLOT_SUFFIXED =? 0 then Some p
  else
    p ← UpdatePartitionName p (GetPartitionName p ++ slot_suffix);
    Some (mk_lp_partition (p_name p) (clear_bits (p_attributes p) LP_PARTITION_ATTR_SLOT_SUFFIXED)
            (first_extent_index p) (num_extents p) (group_index p)).

Definition adjust_device (slot_suffix : list byte) (d : LpMetadataBlockDevice) : option LpMetadataBlockDevice :=
  if Z.land (bd_flags d) LP_BLOCK_DEVICE_SLOT_SUFFIXED =? 0 then Some d
  else
    d ← UpdateBlockDevicePartitionName d (GetBlockDevicePartitionName d ++ slot_suffix);
    Some (mk_block_device (first_logical_sector d) (alignment d) (alignment_offset d) (bd_size d)
            (bd_partition_name d) (clear_bits (bd_flags d) LP_BLOCK_DEVICE_SLOT_SUFFIXED)).

Definition adjust_group (slot_suffix : list byte) (g : LpMetadataPartitionGroup)
    : option LpMetadataPartitionGroup :=
  if Z.land (gr_flags g) LP_GROUP_SLOT_SUFFIXED =? 0 then Some g
  else
    g ← UpdatePartitionGroupName g (GetPartitionGroupName g ++ slot_suffix);
    Some (mk_lp_group (gr_name g) (clear_bits (gr_flags g) LP_GROUP_SLOT_SUFFIXED) (gr_maximum_size g)).

Definition AdjustMetadataForSlot (m : LpMetadata) (slot_number : Z) : outcome (option LpMetadata) :=
  slot_suffix ← SlotSuffixForSlotNumber slot_number;
  Ret (ps ← mapM (adjust_partition slot_suffix) (m_partitions m);
       ds ← mapM (adjust_device slot_suffix) (m_block_devices m);
       gs ← mapM (adjust_group slot_suffix) (m_groups m);
       Some (mk_metadata (m_geometry m) (m_header m) ps (m_extents m) gs ds)).

(** [ReadMetadata] on the bytes of an open device. *)
Definition ReadMetadata (disk : list byte) (slot_number : Z) : outcome (option LpMetadata) :=
  match ReadLogicalPartitionGeometry disk with
  | None => Ret None
  | Some g =>
      if metadata_slot_count g <=? slot_number then Ret None
      else
        primary ← GetPrimaryMetadataOffset g slot_number;
        backup ← GetBackupMetadataOffset g slot_number;
        r ← ParseMetadata g (zdrop primary disk);
        r ← (match r with Some m => Ret (Some m) | None => ParseMetadata g (zdrop backup disk) end);
        match r with
        | None => Ret None
        | Some m => AdjustMetadataForSlot m slot_number
        end
  end.

End reader.
