(* ===== verification/LpWriter.v ===== *)
(** Writing logical partition metadata (system/core/fs_mgr/liblp/writer.cpp), as
    built for the host.

    The device is the list of its bytes.  The [writer] callback that stores a blob
    at the current position is a parameter: it gives its return value and the new
    contents of the device, so that writers that fail half-way are covered. *)

From Stdlib Require Import Strings.String.
From S2P Require Import Prelude LibBase SparseFormat LpFormat LpReader.
Open Scope Z_scope.

Definition disk : Type := list byte.

(** The device with [blob] stored at [pos]. *)
Definition store (pos : Z) (blob : list byte) (d : disk) : disk :=
  ztake pos d ++ blob ++ zdrop (pos + zlen blob) d.

(** [std::function<bool(int, const std::string&)>]: at a position, a blob. *)
Definition Writer : Type := Z → list byte → disk → bool * disk.

(** [DefaultWriter], that is [WriteFully]: a device takes what fits. *)
Definition DefaultWriter : Writer := fun pos blob d =>
  if pos + zlen blob <=? zlen d then (true, store pos blob d)
  else (false, store pos (ztake (zlen d - pos) blob) d).

Section writer.
Context (SHA256 : list byte → list byte).

(** * Serialization *)

Definition SerializeGeometry (input : LpMetadataGeometry) : list byte :=
  let g := set_g_checksum (zeros 32) input in
  let g := set_g_checksum (SHA256 (geometry_bytes g)) g in
  geometry_bytes g ++ zeros (LP_METADATA_GEOMETRY_SIZE - sizeof_geometry).

Definition CompareGeometry (g1 g2 : LpMetadataGeometry) : bool :=
  (metadata_max_size g1 =? metadata_max_size g2) && (metadata_slot_count g1 =? metadata_slot_count g2)
  && (logical_block_size g1 =? logical_block_size g2).

Definition table_at (offset : Z) (t : LpMetadataTableDescriptor) : LpMetadataTableDescriptor :=
  mk_table offset (num_entries t) (entry_size t).

(** The bytes of the four tables. *)
Definition partitions_blob (m : LpMetadata) : list byte := m_partitions m ≫= lp_partition_bytes.
Definition extents_blob (m : LpMetadata) : list byte := m_extents m ≫= lp_extent_bytes.
Definition groups_blob (m : LpMetadata) : list byte := m_groups m ≫= lp_group_bytes.
Definition block_devices_blob (m : LpMetadata) : list byte := m_block_devices m ≫= block_device_bytes.
Definition tables_blob (m : LpMetadata) : list byte :=
  partitions_blob m ++ extents_blob m ++ groups_blob m ++ block_devices_blob m.

(** The header with the positions of the tables and both checksums. *)
Definition finish_header (m : LpMetadata) : LpMetadataHeader :=
  let h := m_header m in
  let extents_offset := u32 (zlen (partitions_blob m)) in
  let groups_offset := u32 (extents_offset + zlen (extents_blob m)) in
  let devices_offset := u32 (groups_offset + zlen (groups_blob m)) in
  let tables_size := u32 (devices_offset + zlen (block_devices_blob m)) in
  let h := mk_header (h_magic h) (h_major_version h) (h_minor_version h) (header_size h) (zeros 32)
             tables_size (SHA256 (tables_blob m))
             (table_at 0 (h_partitions h)) (table_at extents_offset (h_extents h))
             (table_at groups_offset (h_groups h)) (table_at devices_offset (h_block_devices h))
             (h_flags h) (h_reserved h) in
  set_h_checksum (SHA256 (ztake (header_size h) (header_bytes h))) h.

Definition SerializeMetadata (m : LpMetadata) : list byte :=
  let h := finish_header m in
  ztake (header_size h) (header_bytes h) ++ tables_blob m.

(** * Validation *)

Definition device_valid (slot_suffix : list byte) (d : LpMetadataBlockDevice) : bool :=
  negb (negb (Z.land (bd_flags d) LP_BLOCK_DEVICE_SLOT_SUFFIXED =? 0) && bool_decide (slot_suffix = []))
  && negb (bd_size d <? u64 (u64 (first_logical_sector d + 1) * LP_SECTOR_SIZE)).

Definition extent_valid (super : LpMetadataBlockDevice) (e : LpMetadataExtent) : bool :=
  negb ((target_type e =? LP_TARGET_TYPE_LINEAR)
        && ((target_data e <? first_logical_sector super)
            || (bd_size super / LP_SECTOR_SIZE <? u64 (target_data e + e_num_sectors e)))).

(** [ValidateAndSerializeMetadata]: [None] is the return value false. *)
Definition ValidateAndSerializeMetadata (m : LpMetadata) (slot_suffix : list byte) : option (list byte) :=
  let g := m_geometry m in
  let blob := SerializeMetadata m in
  if metadata_max_size g <? zlen blob then None
  else
    let reserved_size := u64 (LP_METADATA_GEOMETRY_SIZE + u64 (metadata_max_size g * metadata_slot_count g)) in
    let total_reserved := u64 (LP_PARTITION_RESERVED_BYTES + u64 (reserved_size * 2)) in
    match GetMetadataSuperBlockDevice m with
    | None => None
    | Some super =>
        if u64 (first_logical_sector super * LP_SECTOR_SIZE) <? total_reserved then None
        else if negb (forallb (device_valid slot_suffix) (m_block_devices m)) then None
        else if negb (forallb (fun p => u32 (first_extent_index p + num_extents p) <=? zlen (m_extents m))
                        (m_partitions m)) then None
        else if negb (forallb (extent_valid super) (m_extents m)) then None
        else Some blob
    end.

Definition ValidateMetadataRegion (m : LpMetadata) (start size : Z) : bool :=
  match GetMetadataSuperBlockDevice m with
  | None => false
  | Some super => u64 (start + size) <? u64 (first_logical_sector super * LP_SECTOR_SIZE)
  end.

(** * Writing *)

Section with_writer.
Context (writer : Writer).

Definition write_at (offset : Z) (m : LpMetadata) (blob : list byte) : M disk bool := fun d =>
  if negb (ValidateMetadataRegion m offset (zlen blob)) then Ret (false, d)
  else Ret (writer offset blob d).

Definition WritePrimaryMetadata (m : LpMetadata) (slot_number : Z) (blob : list byte) : M disk bool := fun d =>
  offset ← GetPrimaryMetadataOffset (m_geometry m) slot_number;
  write_at offset m blob d.

Definition WriteBackupMetadata (m : LpMetadata) (slot_number : Z) (blob : list byte) : M disk bool := fun d =>
  offset ← GetBackupMetadataOffset (m_geometry m) slot_number;
  write_at offset m blob d.

Definition WriteMetadata (m : LpMetadata) (slot_number : Z) (blob : list byte) : M disk bool :=
  if metadata_slot_count (m_geometry m) <=? slot_number then mret false
  else
    ok ← WritePrimaryMetadata m slot_number blob;
    if ok : bool then WriteBackupMetadata m slot_number blob else mret false.

(** [CompareMetadata] *)
Definition CompareMetadata (a b : LpMetadata) : bool :=
  bool_decide (header_checksum (m_header a) = header_checksum (m_header b)).

(** Bringing the two copies in line before an update. *)
Definition synchronize (m : LpMetadata) (slot_number : Z) (slot_suffix : list byte)
    (primary backup : option LpMetadata) : M disk bool :=
  match primary, backup with
  | Some p, b =>
      if match b with None => true | Some b => negb (CompareMetadata p b) end then
        match ValidateAndSerializeMetadata p slot_suffix with
        | None => mret false
        | Some old_blob => WriteBackupMetadata m slot_number old_blob
        end
      else mret true
  | None, Some b =>
      match ValidateAndSerializeMetadata b slot_suffix with
      | None => mret false
      | Some old_blob => WritePrimaryMetadata m slot_number old_blob
      end
  | None, None => mret true
  end.

(** [UpdatePartitionTable] on an open device. *)
Definition UpdatePartitionTable (m : LpMetadata) (slot_number : Z) : M disk bool := fun d =>
  slot_suffix ← SlotSuffixForSlotNumber slot_number;
  match ValidateAndSerializeMetadata m slot_suffix with
  | None => Ret (false, d)
  | Some blob =>
      let g := m_geometry m in
      match ReadLogicalPartitionGeometry SHA256 d with
      | None => Ret (false, d)
      | Some old_geometry =>
          if negb (CompareGeometry g old_geometry) then Ret (false, d)
          else if metadata_slot_count g <=? slot_number then Ret (false, d)
          else
            primary ← ReadPrimaryMetadata SHA256 d g slot_number;
            backup ← ReadBackupMetadata SHA256 d g slot_number;
            '(ok, d) ← synchronize m slot_number slot_suffix primary backup d;
            if negb ok then Ret (false, d) else WriteMetadata m slot_number blob d
      end
  end.

End with_writer.

(** The loop over the slots: every slot is written, whatever happens to the
    others. *)
Fixpoint flash_slots (m : LpMetadata) (blob : list byte) (n : nat) (slot : Z) (ok : bool) : M disk bool :=
  match n with
  | O => mret ok
  | S n => ok' ← WriteMetadata DefaultWriter m slot blob; flash_slots m blob n (slot + 1) (ok && ok')
  end.

(** [FlashPartitionTable] on an open device; clearing its read-only flag has no
    effect on the result. *)
Definition FlashPartitionTable (super_partition : list byte) (m : LpMetadata) : M disk bool := fun d =>
  match ValidateAndSerializeMetadata m (GetPartitionSlotSuffix super_partition) with
  | None => Ret (false, d)
  | Some metadata_blob =>
      let '(ok, d) := DefaultWriter 0 (zeros LP_PARTITION_RESERVED_BYTES) d in
      if negb ok then Ret (false, d)
      else
        let blob := SerializeGeometry (m_geometry m) in
        let '(ok, d) := DefaultWriter GetPrimaryGeometryOffset blob d in
        if negb ok then Ret (false, d)
        else
          let '(ok, d) := DefaultWriter GetBackupGeometryOffset blob d in
          if negb ok then Ret (false, d)
          else flash_slots m metadata_blob (Z.to_nat (metadata_slot_count (m_geometry m))) 0 true d
  end.

End writer.
