(* ===== verification/LpMetadata.v ===== *)
(** Correctness of reading and writing logical partition metadata: the round
    trips, what a parsed table guarantees to the builder, and that an update that
    stops at any point leaves a readable copy (system/core/fs_mgr/liblp/reader.cpp
    and writer.cpp). *)

From Stdlib Require Import Strings.String.
From S2P Require Import Prelude LibBase SparseFormat LpFormat LpBuilder LpReader LpWriter.
Open Scope Z_scope.

(** * Tables in a buffer *)

Definition table_valid (n size : Z) (t : LpMetadataTableDescriptor) : Prop :=
  num_entries t = n ∧ entry_size t = size.

Lemma read_table_spec {A} (decode : list byte → A) (bytes : A → list byte) size check (l : list A) :
  Forall (λ x, decode (bytes x) = x ∧ zlen (bytes x) = size ∧ check x = true) l →
  ∀ pre post, read_table decode size check (length l) (zlen pre) size (pre ++ (l ≫= bytes) ++ post) =
    Ret (Some l).
Proof.
  induction 1 as [|x l (Hx1 & Hx2 & Hx3) Hl IH]; intros pre post; [done|].
  change ((x :: l) ≫= bytes) with (bytes x ++ (l ≫= bytes)). rewrite <- app_assoc.
  cbn [length read_table]. rewrite !zlen_app, Hx2.
  pose proof (zlen_nonneg (l ≫= bytes)). pose proof (zlen_nonneg post).
  rewrite (proj2 (Z.leb_le _ _)) by lia. cbn [c_assert mbind outcome_bind].
  rewrite zdrop_app_exact, ztake_app_exact, Hx1, Hx3 by done. cbn [negb].
  specialize (IH (pre ++ bytes x) post). rewrite zlen_app, Hx2, <- app_assoc in IH. by rewrite IH.
Qed.

Lemma read_entries_spec {A} (decode : list byte → A) (bytes : A → list byte) size check (l : list A) t
    pre post buffer :
  buffer = pre ++ (l ≫= bytes) ++ post →
  Forall (λ x, decode (bytes x) = x ∧ zlen (bytes x) = size ∧ check x = true) l →
  table_valid (zlen l) size t → t_offset t = zlen pre →
  read_entries decode size check t buffer = Ret (Some l).
Proof.
  intros -> Hl [Hn He] Ho. unfold read_entries. rewrite Hn, He, Ho. unfold zlen at 1. rewrite Nat2Z.id.
  by apply read_table_spec.
Qed.

Lemma zlen_bind {A} (bytes : A → list byte) size (l : list A) :
  Forall (λ x, zlen (bytes x) = size) l → zlen (l ≫= bytes) = size * zlen l.
Proof.
  induction 1 as [|x l Hx Hl IH]; [unfold zlen; cbn; lia|]. change ((x :: l) ≫= bytes) with (bytes x ++ (l ≫= bytes)).
  rewrite zlen_app, zlen_cons, IH, Hx. lia.
Qed.

(** * Headers of both versions *)

(** The bytes of a header of version 1.0. *)
Definition header_v0_bytes (h : LpMetadataHeader) : list byte :=
  le_bytes 4 (h_magic h) ++ le_bytes 2 (h_major_version h) ++ le_bytes 2 (h_minor_version h) ++
  le_bytes 4 (header_size h) ++ header_checksum h ++ le_bytes 4 (tables_size h) ++ tables_checksum h ++
  table_bytes (h_partitions h) ++ table_bytes (h_extents h) ++ table_bytes (h_groups h) ++
  table_bytes (h_block_devices h).

Definition strip (h : LpMetadataHeader) : LpMetadataHeader :=
  mk_header (h_magic h) (h_major_version h) (h_minor_version h) (header_size h) (header_checksum h)
    (tables_size h) (tables_checksum h) (h_partitions h) (h_extents h) (h_groups h) (h_block_devices h)
    0 (zeros 124).

Lemma header_bytes_v0 h : header_bytes h = header_v0_bytes h ++ le_bytes 4 (h_flags h) ++ h_reserved h.
Proof. unfold header_bytes, header_v0_bytes. by rewrite <- !app_assoc. Qed.

Lemma zlen_header_v0_bytes h : header_ok h → zlen (header_v0_bytes h) = sizeof_headerV1_0.
Proof. intros []. unfold header_v0_bytes, table_bytes. solve_length. Qed.

Lemma header_bytes_strip h : header_bytes (strip h) = header_v0_bytes h ++ zeros 128.
Proof. rewrite header_bytes_v0. done. Qed.

Lemma header_ok_strip h : header_ok h → header_ok (strip h).
Proof. intros []. split; cbn; try done. Qed.

(** Fields in the range of their types, and nothing behind the declared size. *)
Record header_valid (h : LpMetadataHeader) : Prop := {
  hv_ok : header_ok h;
  hv_magic : h_magic h = LP_METADATA_HEADER_MAGIC;
  hv_major : h_major_version h = LP_METADATA_MAJOR_VERSION;
  hv_minor : h_minor_version h ≤ LP_METADATA_MINOR_VERSION_MAX;
  hv_size : header_size h = expected_header_size h;
  hv_old : header_size h = sizeof_headerV1_0 → h = strip h
}.

Lemma ReadFully_app n l rest : zlen l = n → ReadFully n (l ++ rest) = Some (l, rest).
Proof.
  intros <-. unfold ReadFully. rewrite zlen_app. pose proof (zlen_nonneg rest).
  rewrite (proj2 (Z.ltb_ge _ _)) by lia. by rewrite ztake_app_exact, zdrop_app_exact.
Qed.

Lemma header_sizes h : header_valid h → header_size h = 128 ∨ header_size h = 256.
Proof. intros [_ _ _ _ H _]. rewrite H. unfold expected_header_size. destruct (_ <? _); auto. Qed.

Lemma read_header_spec SHA256 h rest : header_valid h → header_checks SHA256 h = true →
  ReadMetadataHeader SHA256 (ztake (header_size h) (header_bytes h) ++ rest) = Some (h, rest).
Proof.
  intros Hv Hc. pose proof (header_sizes h Hv) as Hsz. destruct Hv as [Hok Hm Hj Hn Hs Ho].
  pose proof (zlen_header_v0_bytes h Hok) as L0.
  assert (∃ more, ztake (header_size h) (header_bytes h) = header_v0_bytes h ++ more ∧
    ((header_size h = 128 ∧ more = []) ∨ (header_size h = 256 ∧ zlen more = 128 ∧
      header_of (header_v0_bytes h ++ more) = h))) as (more & -> & Hmore).
  { destruct Hsz as [E|E]; rewrite E.
    - exists []. split; [|by left]. rewrite header_bytes_v0, app_nil_r. by apply ztake_app_exact.
    - exists (le_bytes 4 (h_flags h) ++ h_reserved h). rewrite <- header_bytes_v0.
      rewrite ztake_all by (rewrite zlen_header_bytes by done; done). split; [done|]. right.
      split; [done|]. split.
      + rewrite zlen_app, zlen_le_bytes. destruct Hok. unfold zlen. rewrite ho_reserved. done.
      + rewrite <- (app_nil_r (header_bytes h)). by apply header_roundtrip. }
  unfold ReadMetadataHeader. rewrite <- app_assoc, ReadFully_app by done. cbn [mbind option_bind].
  change (zeros (sizeof_header - sizeof_headerV1_0)) with (zeros 128).
  rewrite <- header_bytes_strip. rewrite <- (app_nil_r (header_bytes (strip h))).
  rewrite header_roundtrip by (by apply header_ok_strip).
  change (h_magic (strip h)) with (h_magic h). change (h_major_version (strip h)) with (h_major_version h).
  change (h_minor_version (strip h)) with (h_minor_version h). change (header_size (strip h)) with (header_size h).
  rewrite Hm, Hj, !Z.eqb_refl. cbn [negb orb]. rewrite (proj2 (Z.ltb_ge _ _)) by done.
  change (expected_header_size (strip h)) with (expected_header_size h). rewrite <- Hs, Z.eqb_refl. cbn [negb].
  destruct Hmore as [[E ->]|(E & Hl & Hh)]; rewrite E.
  - change (128 =? sizeof_headerV1_0) with true.
    cbn [mbind option_bind app]. rewrite <- (Ho E), Hc. done.
  - change (256 =? sizeof_headerV1_0) with false. change (256 - sizeof_headerV1_0) with 128.
    rewrite ReadFully_app by done. cbn [mbind option_bind]. by rewrite Hh, Hc.
Qed.

(** * The round trip of a table *)

(** A table that can be stored: the header counts the entries, and the indices
    and attributes are valid. *)
Record metadata_valid (m : LpMetadata) : Prop := {
  mv_header : header_valid (m_header m);
  mv_tp : table_valid (zlen (m_partitions m)) sizeof_partition (h_partitions (m_header m));
  mv_te : table_valid (zlen (m_extents m)) sizeof_extent (h_extents (m_header m));
  mv_tg : table_valid (zlen (m_groups m)) sizeof_group (h_groups (m_header m));
  mv_td : table_valid (zlen (m_block_devices m)) sizeof_block_device (h_block_devices (m_header m));
  mv_p : Forall (λ p, lp_partition_ok p ∧ check_partition (m_header m) p = true) (m_partitions m);
  mv_e : Forall (λ e, lp_extent_ok e ∧ check_extent (m_header m) e = true) (m_extents m);
  mv_g : Forall lp_group_ok (m_groups m);
  mv_d : Forall block_device_ok (m_block_devices m)
}.

(** The super device of the table keeps the metadata area of geometry [g] free. *)
Definition super_fits (g : LpMetadataGeometry) (m : LpMetadata) : Prop :=
  ∃ d, GetMetadataSuperBlockDevice m = Some d ∧
    GetTotalMetadataSize (metadata_max_size g) (metadata_slot_count g) ≤
    u64 (first_logical_sector d * LP_SECTOR_SIZE).

Lemma blob_sizes m : metadata_valid m →
  zlen (partitions_blob m) = sizeof_partition * zlen (m_partitions m) ∧
  zlen (extents_blob m) = sizeof_extent * zlen (m_extents m) ∧
  zlen (groups_blob m) = sizeof_group * zlen (m_groups m) ∧
  zlen (block_devices_blob m) = sizeof_block_device * zlen (m_block_devices m).
Proof.
  intros [_ _ _ _ _ Hp He Hg Hd]. split_and!; apply zlen_bind.
  - eapply Forall_impl; [exact Hp|]. intros p [? _]. by apply zlen_lp_partition_bytes.
  - eapply Forall_impl; [exact He|]. intros e [? _]. apply zlen_lp_extent_bytes.
  - eapply Forall_impl; [exact Hg|]. intros g ?. by apply zlen_lp_group_bytes.
  - eapply Forall_impl; [exact Hd|]. intros d ?. by apply zlen_block_device_bytes.
Qed.

Lemma zlen_tables_blob m : zlen (tables_blob m) =
  zlen (partitions_blob m) + zlen (extents_blob m) + zlen (groups_blob m) + zlen (block_devices_blob m).
Proof. unfold tables_blob. rewrite !zlen_app. lia. Qed.

Section metadata.
Context (SHA256 : list byte → list byte) (SHA256_length : ∀ l, length (SHA256 l) = 32%nat).

(** What is on the device after storing [m], as the reader of geometry [g] sees
    it: the same tables with a finished header. *)
Definition stored (g : LpMetadataGeometry) (m : LpMetadata) : LpMetadata :=
  mk_metadata g (finish_header SHA256 m) (m_partitions m) (m_extents m) (m_groups m) (m_block_devices m).

Lemma finish_header_fields m : zlen (tables_blob m) < 2 ^ 32 →
  tables_size (finish_header SHA256 m) = zlen (tables_blob m) ∧
  t_offset (h_partitions (finish_header SHA256 m)) = 0 ∧
  t_offset (h_extents (finish_header SHA256 m)) = zlen (partitions_blob m) ∧
  t_offset (h_groups (finish_header SHA256 m)) = zlen (partitions_blob m) + zlen (extents_blob m) ∧
  t_offset (h_block_devices (finish_header SHA256 m)) =
    zlen (partitions_blob m) + zlen (extents_blob m) + zlen (groups_blob m).
Proof.
  rewrite zlen_tables_blob. intros H. pose proof (zlen_nonneg (partitions_blob m)).
  pose proof (zlen_nonneg (extents_blob m)). pose proof (zlen_nonneg (groups_blob m)).
  pose proof (zlen_nonneg (block_devices_blob m)). unfold finish_header.
  cbn [set_h_checksum tables_size h_partitions h_extents h_groups h_block_devices t_offset table_at].
  rewrite !(u32_small (zlen (partitions_blob m))) by lia.
  rewrite !(u32_small (zlen (partitions_blob m) + zlen (extents_blob m))) by lia.
  rewrite !(u32_small (zlen (partitions_blob m) + zlen (extents_blob m) + zlen (groups_blob m))) by lia.
  rewrite u32_small by lia. split_and!; lia.
Qed.

Lemma length_zeros n : 0 ≤ n → length (zeros n) = Z.to_nat n.
Proof. intros. unfold zeros. by rewrite length_replicate. Qed.

Lemma finish_header_valid m : header_valid (m_header m) → header_valid (finish_header SHA256 m).
Proof.
  intros [[H1 H2 H3 H4 H5 H6 H7 (P1 & P2 & P3) (E1 & E2 & E3) (G1 & G2 & G3) (D1 & D2 & D3) H12 H13]
          M1 M2 M3 M4 M5].
  split; [|done..|].
  - split; unfold finish_header;
      cbn [set_h_checksum tables_size h_partitions h_extents h_groups h_block_devices t_offset table_at
           h_magic h_major_version h_minor_version header_size header_checksum tables_checksum h_flags
           h_reserved]; try done; try apply u32_range; try apply SHA256_length.
    all: split_and!; cbn [t_offset num_entries entry_size table_at]; try done; try apply u32_range.
  - intros Hz. pose proof (M5 Hz) as E. unfold strip, finish_header.
    cbn [set_h_checksum tables_size h_partitions h_extents h_groups h_block_devices t_offset table_at
         h_magic h_major_version h_minor_version header_size header_checksum tables_checksum h_flags h_reserved].
    assert (h_flags (m_header m) = 0) as -> by (by rewrite E).
    assert (h_reserved (m_header m) = zeros 124) as -> by (by rewrite E). done.
Qed.

Lemma finish_header_checks m : metadata_valid m → zlen (tables_blob m) < 2 ^ 32 →
  header_checks SHA256 (finish_header SHA256 m) = true.
Proof.
  intros Hm Hlen. pose proof (blob_sizes m Hm) as (S1 & S2 & S3 & S4).
  destruct (finish_header_fields m Hlen) as (F0 & F1 & F2 & F3 & F4).
  rewrite zlen_tables_blob in *. pose proof (zlen_nonneg (partitions_blob m)).
  pose proof (zlen_nonneg (extents_blob m)). pose proof (zlen_nonneg (groups_blob m)).
  pose proof (zlen_nonneg (block_devices_blob m)).
  destruct Hm as [_ [Np Zp] [Ne Ze] [Ng Zg] [Nd Zd] _ _ _ _].
  assert (∀ t n size, num_entries t = n → entry_size t = size → 0 ≤ size * n →
    t_offset t + size * n ≤ tables_size (finish_header SHA256 m) → 0 ≤ t_offset t →
    ValidateTableBounds (finish_header SHA256 m) t = true) as HV.
  { intros t n size En Es Hn Hsum Ho. unfold ValidateTableBounds. rewrite En, Es.
    rewrite (proj2 (Z.leb_le _ _)) by lia. cbn [andb].
    rewrite u64_small, u32_small by lia. apply Z.leb_le. lia. }
  unfold header_checks. rewrite bool_decide_true by done.
  rewrite (HV _ (zlen (m_partitions m)) sizeof_partition), (HV _ (zlen (m_extents m)) sizeof_extent),
    (HV _ (zlen (m_groups m)) sizeof_group), (HV _ (zlen (m_block_devices m)) sizeof_block_device);
    try done; try lia.
  unfold finish_header; cbn [set_h_checksum h_partitions h_extents h_groups entry_size table_at].
  by rewrite Zp, Ze, Zg.
Qed.

Lemma read_stored_tables m : metadata_valid m → zlen (tables_blob m) < 2 ^ 32 →
  let h := finish_header SHA256 m in let buffer := tables_blob m in
  read_entries lp_partition_of sizeof_partition (check_partition h) (h_partitions h) buffer =
    Ret (Some (m_partitions m)) ∧
  read_entries lp_extent_of sizeof_extent (check_extent h) (h_extents h) buffer = Ret (Some (m_extents m)) ∧
  read_entries lp_group_of sizeof_group (λ _, true) (h_groups h) buffer = Ret (Some (m_groups m)) ∧
  read_entries block_device_of sizeof_block_device (λ _, true) (h_block_devices h) buffer =
    Ret (Some (m_block_devices m)).
Proof.
  intros [_ Tp Te Tg Td Vp Ve Vg Vd] Hlen. destruct (finish_header_fields m Hlen) as (_ & F1 & F2 & F3 & F4).
  split_and!.
  - apply (read_entries_spec _ lp_partition_bytes _ _ _ _ [] _ _ eq_refl); [|done|done].
    eapply Forall_impl; [exact Vp|]. intros p [Hp Hc]. split_and!; [|by apply zlen_lp_partition_bytes|done].
    rewrite <- (app_nil_r (lp_partition_bytes p)). by apply lp_partition_roundtrip.
  - apply (read_entries_spec _ lp_extent_bytes _ _ _ _ (partitions_blob m) _ _ eq_refl); [|done|done].
    eapply Forall_impl; [exact Ve|]. intros e [He Hc]. split_and!; [|by apply zlen_lp_extent_bytes|done].
    rewrite <- (app_nil_r (lp_extent_bytes e)). by apply lp_extent_roundtrip.
  - apply (read_entries_spec _ lp_group_bytes _ _ _ _ (partitions_blob m ++ extents_blob m) (block_devices_blob m));
      [unfold tables_blob; by rewrite <- app_assoc| |done|by rewrite zlen_app].
    eapply Forall_impl; [exact Vg|]. intros g Hg. split_and!; [|by apply zlen_lp_group_bytes|done].
    rewrite <- (app_nil_r (lp_group_bytes g)). by apply lp_group_roundtrip.
  - apply (read_entries_spec _ block_device_bytes _ _ _ _
             (partitions_blob m ++ extents_blob m ++ groups_blob m) []);
      [unfold tables_blob; by rewrite <- !app_assoc, app_nil_r| |done|by rewrite !zlen_app, Z.add_assoc].
    eapply Forall_impl; [exact Vd|]. intros d Hd. split_and!; [|by apply zlen_block_device_bytes|done].
    rewrite <- (app_nil_r (block_device_bytes d)). by apply block_device_roundtrip.
Qed.

Lemma parse_stored g m rest : metadata_valid m → zlen (tables_blob m) ≤ metadata_max_size g < 2 ^ 32 →
  super_fits g m → ParseMetadata SHA256 g (SerializeMetadata SHA256 m ++ rest) = Ret (Some (stored g m)).
Proof.
  intros Hm Hlen (d & Hd & Hfit). unfold ParseMetadata, SerializeMetadata.
  destruct (finish_header_fields m) as (F0 & _); [lia|].
  destruct (read_stored_tables m Hm) as (R1 & R2 & R3 & R4); [lia|].
  rewrite <- app_assoc, read_header_spec.
  2: { apply finish_header_valid, Hm. }
  2: { apply finish_header_checks; [done|lia]. }
  rewrite F0, (proj2 (Z.ltb_ge _ _)) by lia. rewrite ReadFully_app by done.
  change (tables_checksum (finish_header SHA256 m)) with (SHA256 (tables_blob m)).
  rewrite bool_decide_true by done. cbn [negb].
  rewrite R1. cbn [mbind outcome_bind]. rewrite R2. cbn [mbind outcome_bind].
  rewrite R3. cbn [mbind outcome_bind]. rewrite R4. cbn [mbind outcome_bind].
  change (GetMetadataSuperBlockDevice (mk_metadata _ _ _ _ _ _)) with (GetMetadataSuperBlockDevice m).
  rewrite Hd, (proj2 (Z.ltb_ge _ _)) by done. done.
Qed.

End metadata.

(** * The oldest version *)

Lemma land_range a mask : 0 ≤ a → 0 ≤ mask → 0 ≤ Z.land a mask ≤ a.
Proof.
  intros Ha Hm. split; [by apply Z.land_nonneg; left|].
  apply Z.ldiff_le; [lia|]. apply Z.bits_inj'. intros n Hn.
  rewrite Z.ldiff_spec, Z.land_spec, Z.bits_0. destruct (Z.testbit a n), (Z.testbit mask n); done.
Qed.

(** A table that can be stored can be stored as a table of the oldest version. *)
Lemma SetMetadataHeaderV0_valid m : metadata_valid m → metadata_valid (SetMetadataHeaderV0 m).
Proof.
  intros Hm. unfold SetMetadataHeaderV0. destruct (Z.leb_spec (h_minor_version (m_header m)) LP_METADATA_MINOR_VERSION_MIN); [done|].
  destruct Hm as [[[H1 H2 H3 H4 H5 H6 H7 P E G D H12 H13] M1 M2 M3 M4 M5] Tp Te Tg Td Vp Ve Vg Vd].
  split; cbn [m_header m_partitions m_extents m_groups m_block_devices h_partitions h_extents h_groups h_block_devices];
    try done.
  - unfold table_valid, zlen in *. by rewrite length_fmap.
  - apply Forall_fmap. eapply Forall_impl; [exact Vp|]. intros p ((L1 & L2 & L3 & L4 & L5) & Hc). cbn.
    unfold check_partition in *. cbn [p_attributes first_extent_index num_extents group_index h_extents h_groups] in *.
    apply andb_true_iff in Hc as [Hc C4]. apply andb_true_iff in Hc as [Hc C3]. apply andb_true_iff in Hc as [C1 C2].
    split.
    + split_and!; cbn; try done. pose proof (land_range (p_attributes p) LP_PARTITION_ATTRIBUTE_MASK_V0).
      unfold is_u32, LP_PARTITION_ATTRIBUTE_MASK_V0 in *. lia.
    + rewrite C2, C3, C4. rewrite <- Z.land_assoc.
      change (Z.land LP_PARTITION_ATTRIBUTE_MASK_V0 _) with 0. by rewrite Z.land_0_r.
Qed.
