(* ===== verification/LpRead.v ===== *)
(** What every table that the reader accepts guarantees, whatever the bytes on
    the device are, and that the builder can rely on it
    (system/core/fs_mgr/liblp/reader.cpp and builder.cpp). *)

From Stdlib Require Import Strings.String.
From S2P Require Import Prelude LibBase SparseFormat LpFormat LpBuilder LpReader.
Open Scope Z_scope.

(** * Builders from a device *)

Section from_device.
Context (SHA256 : list byte → list byte).
Context (GetBoolProperty : list byte → bool → bool).
(** [IPartitionOpener::GetInfo] *)
Context (GetInfo : list byte → option BlockDeviceInfo).

(** [MetadataBuilder::New(opener, super_partition, slot_number)] on the bytes of
    the opened partition. *)
Definition NewFromDevice (disk : list byte) (slot_number : Z) : outcome (option MetadataBuilder) :=
  r ← ReadMetadata SHA256 disk slot_number;
  match r with
  | None => Ret None
  | Some m => NewWithOpener GetInfo m
  end.

(** The changes [NewForUpdate] makes to the table it has read. *)
Definition prepare_update (m : LpMetadata) (source_slot target_slot : Z) (always_keep_source_slot : bool)
    : outcome (option LpMetadata) :=
  match GetMetadataSuperBlockDevice m with
  | None => AssertFail
  | Some super =>
      r ← (if negb (bool_decide (GetBlockDevicePartitionName super = bs "super"))
              && IsRetrofitDynamicPartitionsDevice GetBoolProperty
           then UpdateMetadataForOtherSuper m source_slot target_slot else Ret (Some m));
      match r with
      | None => Ret None
      | Some m =>
          if GetBoolProperty (bs "ro.virtual_ab.enabled") false then
            if always_keep_source_slot then Ret (Some (SetMetadataHeaderV0 m))
            else UpdateMetadataForInPlaceSnapshot m source_slot target_slot
          else Ret (Some m)
      end
  end.

(** [MetadataBuilder::NewForUpdate] *)
Definition NewForUpdate (disk : list byte) (source_slot target_slot : Z) (always_keep_source_slot : bool)
    : outcome (option MetadataBuilder) :=
  r ← ReadMetadata SHA256 disk source_slot;
  match r with
  | None => Ret None
  | Some m =>
      r ← prepare_update m source_slot target_slot always_keep_source_slot;
      match r with
      | None => Ret None
      | Some m => NewWithOpener GetInfo m
      end
  end.

End from_device.

(** * Indices *)

(** The indices of a partition entry lead into the tables. *)
Definition indices_ok (groups extents : Z) (p : LpMetadataPartition) : Prop :=
  0 ≤ group_index p < groups ∧ 0 ≤ first_extent_index p ∧ 0 ≤ num_extents p ∧
  first_extent_index p + num_extents p ≤ extents.

Definition indices_valid (m : LpMetadata) : Prop :=
  Forall (indices_ok (zlen (m_groups m)) (zlen (m_extents m))) (m_partitions m).

(** The device of every linear extent is in the table of devices. *)
Definition target_ok (devices : Z) (e : LpMetadataExtent) : Prop :=
  target_type e = LP_TARGET_TYPE_LINEAR → 0 ≤ target_source e < devices.

Definition targets_valid (m : LpMetadata) : Prop :=
  Forall (target_ok (zlen (m_block_devices m))) (m_extents m).

Lemma le_field_bound o n l : 0 ≤ le_field o n l < 256 ^ Z.of_nat n.
Proof.
  unfold le_field. pose proof (le_val_range (take n (drop o l))) as H. split; [apply H|].
  eapply Z.lt_le_trans; [apply H|]. apply Z.pow_le_mono_r; [lia|].
  unfold zlen. rewrite length_take. lia.
Qed.

Lemma le_field_u32 o l : is_u32 (le_field o 4 l).
Proof. apply (le_field_bound o 4 l). Qed.

Lemma check_partition_indices h b : is_u32 (num_entries (h_groups h)) → is_u32 (num_entries (h_extents h)) →
  check_partition h (lp_partition_of b) = true →
  indices_ok (num_entries (h_groups h)) (num_entries (h_extents h)) (lp_partition_of b).
Proof.
  unfold check_partition, indices_ok, lp_partition_of.
  cbn [group_index first_extent_index num_extents p_attributes]. intros Hg He Hc.
  pose proof (le_field_u32 40 b) as H1. pose proof (le_field_u32 44 b) as H2. pose proof (le_field_u32 48 b) as H3.
  unfold is_u32 in *. zbool.
  assert (le_field 40 4 b + le_field 44 4 b < 2 ^ 32) as Hs.
  { destruct (Z.lt_ge_cases (le_field 40 4 b + le_field 44 4 b) (2 ^ 32)) as [|Hge]; [done|].
    exfalso. assert (u32 (le_field 40 4 b + le_field 44 4 b) = le_field 40 4 b + le_field 44 4 b - 2 ^ 32) as E.
    { unfold u32. symmetry. apply Z.mod_unique with 1; lia. }
    lia. }
  rewrite u32_small in * by lia. lia.
Qed.

(** * Parsing *)

Lemma read_table_inv {A} (decode : list byte → A) size check n : ∀ cursor step buffer l,
  read_table decode size check n cursor step buffer = Ret (Some l) →
  length l = n ∧ Forall (λ x, check x = true ∧ ∃ b, x = decode b) l.
Proof.
  induction n as [|n IH]; intros cursor step buffer l; cbn [read_table].
  { intros [= <-]. split; [done|]. by apply Forall_nil. }
  unfold c_assert. destruct (_ <=? _); cbn [mbind outcome_bind]; [|done].
  destruct (check _) eqn:Ec; cbn [negb]; [|done].
  destruct (read_table _ _ _ n _ _ _) as [[l'|]| |] eqn:E; cbn [mbind outcome_bind option_map]; try done.
  intros [= <-]. apply IH in E as [El Hl]. split; [cbn; lia|]. apply Forall_cons. split; [|done].
  split; [done|]. by eexists.
Qed.

Lemma read_entries_inv {A} (decode : list byte → A) size check t buffer l : is_u32 (num_entries t) →
  read_entries decode size check t buffer = Ret (Some l) →
  zlen l = num_entries t ∧ Forall (λ x, check x = true ∧ ∃ b, x = decode b) l.
Proof.
  intros Hn [El Hl]%read_table_inv. split; [|done]. unfold zlen, is_u32 in *. lia.
Qed.

Section parsing.
Context (SHA256 : list byte → list byte).

Lemma ReadMetadataHeader_inv rest h rest' : ReadMetadataHeader SHA256 rest = Some (h, rest') →
  (∃ l, h = header_of l) ∧ header_checks SHA256 h = true.
Proof.
  unfold ReadMetadataHeader. destruct (ReadFully sizeof_headerV1_0 rest) as [[v0 r]|]; cbn [mbind option_bind]; [|done].
  destruct (negb _); [done|]. destruct (_ || _); [done|]. destruct (negb _); [done|].
  destruct (_ =? sizeof_headerV1_0); cbn [mbind option_bind].
  - destruct (header_checks _ _) eqn:E; [|done]. intros [= <- <-]. split; [by eexists|done].
  - destruct (ReadFully _ r) as [[more r']|]; cbn [mbind option_bind]; [|done].
    destruct (header_checks _ _) eqn:E; [|done]. intros [= <- <-]. split; [by eexists|done].
Qed.

Lemma ParseMetadata_inv g rest m : ParseMetadata SHA256 g rest = Ret (Some m) →
  m_block_devices m ≠ [] ∧ indices_valid m.
Proof.
  unfold ParseMetadata. destruct (ReadMetadataHeader SHA256 rest) as [[h r]|] eqn:EH; [|done].
  apply ReadMetadataHeader_inv in EH as [[hl EH] _].
  destruct (_ <? tables_size h); [done|]. destruct (ReadFully _ r) as [[buffer r']|]; [|done].
  destruct (negb _); [done|].
  destruct (read_entries lp_partition_of _ _ _ _) as [[ps|]| |] eqn:EP; cbn [mbind outcome_bind]; try done.
  destruct (read_entries lp_extent_of _ _ _ _) as [[es|]| |] eqn:EE; cbn [mbind outcome_bind]; try done.
  destruct (read_entries lp_group_of _ _ _ _) as [[gs|]| |] eqn:EG; cbn [mbind outcome_bind]; try done.
  destruct (read_entries block_device_of _ _ _ _) as [[ds|]| |] eqn:ED; cbn [mbind outcome_bind]; try done.
  destruct ds as [|d ds]; [done|]. cbn [GetMetadataSuperBlockDevice m_block_devices head].
  destruct (_ <? _); [done|]. intros [= <-]. split; [done|].
  assert (is_u32 (num_entries (h_partitions h)) ∧ is_u32 (num_entries (h_extents h)) ∧
    is_u32 (num_entries (h_groups h))) as (N1 & N2 & N3).
  { rewrite EH. split_and!; apply le_field_u32. }
  apply read_entries_inv in EP as [LP HP]; [|done]. apply read_entries_inv in EE as [LE _]; [|done].
  apply read_entries_inv in EG as [LG _]; [|done].
  unfold indices_valid. cbn [m_groups m_extents m_partitions]. rewrite LE, LG.
  eapply Forall_impl; [exact HP|]. intros p [Hc [b ->]]. by apply check_partition_indices.
Qed.

Lemma ParseMetadata_targets g rest m : ParseMetadata SHA256 g rest = Ret (Some m) → targets_valid m.
Proof.
  unfold ParseMetadata. destruct (ReadMetadataHeader SHA256 rest) as [[h r]|] eqn:EH; [|done].
  apply ReadMetadataHeader_inv in EH as [[hl EH] _].
  destruct (_ <? tables_size h); [done|]. destruct (ReadFully _ r) as [[buffer r']|]; [|done].
  destruct (negb _); [done|].
  destruct (read_entries lp_partition_of _ _ _ _) as [[ps|]| |]; cbn [mbind outcome_bind]; try done.
  destruct (read_entries lp_extent_of _ _ _ _) as [[es|]| |] eqn:EE; cbn [mbind outcome_bind]; try done.
  destruct (read_entries lp_group_of _ _ _ _) as [[gs|]| |]; cbn [mbind outcome_bind]; try done.
  destruct (read_entries block_device_of _ _ _ _) as [[ds|]| |] eqn:ED; cbn [mbind outcome_bind]; try done.
  destruct (GetMetadataSuperBlockDevice _); [|done].
  destruct (_ <? _); [done|]. intros [= <-]. unfold targets_valid. cbn [m_block_devices m_extents].
  apply read_entries_inv in EE as [_ HE]; [|rewrite EH; apply le_field_u32].
  apply read_entries_inv in ED as [LD _]; [|rewrite EH; apply le_field_u32]. rewrite LD.
  eapply Forall_impl; [exact HE|]. intros e [Hc [bytes ->]] Ht. unfold check_extent in Hc. rewrite Ht in Hc.
  cbn [Z.eqb] in Hc. zbool. split; [apply le_field_bound|lia].
Qed.

(** * Adjusting for a slot *)

Lemma AdjustMetadataForSlot_indices m slot m' : m_block_devices m ≠ [] → indices_valid m →
  AdjustMetadataForSlot m slot = Ret (Some m') → m_block_devices m' ≠ [] ∧ indices_valid m'.
Proof.
  intros Hd Hm. unfold AdjustMetadataForSlot.
  destruct (SlotSuffixForSlotNumber slot) as [s| |]; cbn [mbind outcome_bind]; try done.
  intros [= E]. apply bind_Some in E as (ps & Eps & E). apply bind_Some in E as (ds & Eds & E).
  apply bind_Some in E as (gs & Egs & E). injection E as <-.
  apply mapM_Some in Eps. apply mapM_Some in Egs. apply mapM_Some in Eds. split.
  { cbn [m_block_devices]. intros ->. by inversion Eds. }
  unfold indices_valid in *. cbn [m_groups m_extents m_partitions].
  assert (zlen gs = zlen (m_groups m)) as -> by (unfold zlen; f_equal; symmetry; by eapply Forall2_length).
  clear Hd. revert Hm. induction Eps as [|p p' l l' Hp Hl IH]; intros Hm; [by apply Forall_nil|].
  apply Forall_cons in Hm as [Hm1 Hm2]. apply Forall_cons. split; [|by apply IH].
  unfold adjust_partition in Hp. destruct (_ =? 0); [by injection Hp as <-|].
  apply bind_Some in Hp as (q & Hq & [= <-]). unfold UpdatePartitionName in Hq.
  destruct (_ <? _); [done|]. injection Hq as <-. exact Hm1.
Qed.

Lemma AdjustMetadataForSlot_targets m slot m' : targets_valid m →
  AdjustMetadataForSlot m slot = Ret (Some m') → targets_valid m'.
Proof.
  intros Hm. unfold AdjustMetadataForSlot.
  destruct (SlotSuffixForSlotNumber slot) as [s| |]; cbn [mbind outcome_bind]; try done.
  intros [= E]. apply bind_Some in E as (ps & _ & E). apply bind_Some in E as (ds & Eds & E).
  apply bind_Some in E as (gs & _ & E). injection E as <-. apply mapM_Some, Forall2_length in Eds.
  unfold targets_valid, zlen in *. cbn [m_block_devices m_extents]. by rewrite <- Eds.
Qed.

Lemma ReadMetadata_targets disk slot m : ReadMetadata SHA256 disk slot = Ret (Some m) → targets_valid m.
Proof.
  unfold ReadMetadata. destruct (ReadLogicalPartitionGeometry SHA256 disk) as [g|]; [|done].
  destruct (_ <=? _); [done|]. destruct (GetPrimaryMetadataOffset g slot) as [p| |]; cbn [mbind outcome_bind]; try done.
  destruct (GetBackupMetadataOffset g slot) as [b| |]; cbn [mbind outcome_bind]; try done.
  destruct (ParseMetadata SHA256 g (zdrop p disk)) as [[m1|]| |] eqn:E1; cbn [mbind outcome_bind]; try done.
  - apply ParseMetadata_targets in E1. by apply AdjustMetadataForSlot_targets.
  - destruct (ParseMetadata SHA256 g (zdrop b disk)) as [[m2|]| |] eqn:E2; cbn [mbind outcome_bind]; try done.
    apply ParseMetadata_targets in E2. by apply AdjustMetadataForSlot_targets.
Qed.

Lemma ReadMetadata_indices disk slot m : ReadMetadata SHA256 disk slot = Ret (Some m) →
  m_block_devices m ≠ [] ∧ indices_valid m.
Proof.
  unfold ReadMetadata. destruct (ReadLogicalPartitionGeometry SHA256 disk) as [g|]; [|done].
  destruct (_ <=? _); [done|]. destruct (GetPrimaryMetadataOffset g slot) as [p| |]; cbn [mbind outcome_bind]; try done.
  destruct (GetBackupMetadataOffset g slot) as [b| |]; cbn [mbind outcome_bind]; try done.
  destruct (ParseMetadata SHA256 g (zdrop p disk)) as [[m1|]| |] eqn:E1; cbn [mbind outcome_bind]; try done.
  - apply ParseMetadata_inv in E1 as [D1 H1]. by apply AdjustMetadataForSlot_indices.
  - destruct (ParseMetadata SHA256 g (zdrop b disk)) as [[m2|]| |] eqn:E2; cbn [mbind outcome_bind]; try done.
    apply ParseMetadata_inv in E2 as [D2 H2]. by apply AdjustMetadataForSlot_indices.
Qed.

End parsing.

(** * Building *)

Lemma import_extents_total n : ∀ i es p, 0 ≤ i → i + Z.of_nat n ≤ zlen es →
  ∃ p', import_extents n i es p = Ret p' ∧ name_ p' = name_ p.
Proof.
  induction n as [|n IH]; intros i es p Hi Hn; cbn [import_extents]; [by eexists|].
  destruct (zlookup_is_Some es i) as [e ->]; [lia|].
  destruct (IH (i + 1) es (match import_extent e with Some x => AddExtent x p | None => p end))
    as (p' & E & Hp'); [lia|lia|].
  exists p'. split; [done|]. rewrite Hp'. by destruct (import_extent e).
Qed.

Lemma init_groups_total gs : ∀ b, ∃ ok b', init_groups gs b = Ret (ok, b') ∧ partitions_ b' = partitions_ b ∧
  (ok = true → g_name <$> groups_ b' = (g_name <$> groups_ b) ++ (GetPartitionGroupName <$> gs)).
Proof.
  induction gs as [|g gs IH]; intros b; cbn [init_groups].
  { exists true, b. split; [done|]. split; [done|]. intros _. symmetry. apply app_nil_r. }
  unfold mbind, M_bind, AddGroup. destruct (FindGroup _ b).
  { exists false, b. done. }
  match goal with |- context [init_groups gs ?x] => destruct (IH x) as (ok & b' & E & Ep & En) end.
  exists ok, b'. split; [exact E|]. split; [done|]. intros Hok. rewrite En by done. cbn [groups_ set_groups].
  rewrite fmap_app, fmap_cons, <- app_assoc. done.
Qed.

Lemma init_partitions_total m ps : Forall (indices_ok (zlen (m_groups m)) (zlen (m_extents m))) ps →
  ∀ b, ∃ ok b', init_partitions m ps b = Ret (ok, b') ∧ groups_ b' = groups_ b ∧
    (ok = true → name_ <$> partitions_ b' = (name_ <$> partitions_ b) ++ (GetPartitionName <$> ps)).
Proof.
  induction 1 as [|p ps (Hg & Hf & Hn & Hs) Hps IH]; intros b; cbn [init_partitions].
  { exists true, b. split; [done|]. split; [done|]. intros _. symmetry. apply app_nil_r. }
  destruct (zlookup_is_Some (m_groups m) (group_index p)) as [g ->]; [lia|].
  unfold AddPartition. destruct (_ =? 0); [by exists false, b|].
  destruct (bool_decide _); [by exists false, b|]. destruct (bool_decide _); cbn [negb]; [|by exists false, b].
  cbn [mbind outcome_bind partitions_ set_partitions]. rewrite lookup_app_r, Nat.sub_diag by lia.
  cbn [lookup list_lookup]. unfold ImportExtents.
  destruct (import_extents_total (Z.to_nat (num_extents p)) (first_extent_index p) (m_extents m)
    (Partition_new (GetPartitionName p) (GetPartitionGroupName g) (p_attributes p))) as (q & -> & Hq); [lia|lia|].
  cbn [mbind outcome_bind]. rewrite insert_app_r_alt, Nat.sub_diag by lia. cbn [insert list_insert].
  match goal with |- context [init_partitions m ps ?x] => destruct (IH x) as (ok & b' & E & Eg & En) end.
  exists ok, b'. split; [exact E|]. split; [done|]. intros Hok. rewrite En by done.
  cbn [partitions_ set_partitions]. rewrite fmap_app, fmap_cons, <- app_assoc. cbn [fmap list_fmap app].
  by rewrite Hq.
Qed.

Lemma NewFromMetadata_total m : indices_valid m →
  ∃ r, NewFromMetadata m = Ret r ∧
    ∀ b, r = Some b → name_ <$> partitions_ b = GetPartitionName <$> m_partitions m ∧
      g_name <$> groups_ b = GetPartitionGroupName <$> m_groups m.
Proof.
  intros Hm. unfold NewFromMetadata, InitFromMetadata.
  set (b0 := if LP_METADATA_VERSION_FOR_EXPANDED_HEADER <=? _ then _ else _).
  assert (groups_ b0 = [] ∧ partitions_ b0 = []) as (B1 & B2).
  { subst b0. by destruct (_ <=? _). }
  unfold mbind, M_bind, outcome_bind. destruct (init_groups_total (m_groups m) b0) as (ok & b1 & -> & E1 & G1).
  destruct ok; [|exists None; by split].
  destruct (init_partitions_total m (m_partitions m) Hm b1) as (ok & b2 & -> & E2 & P2).
  eexists. split; [reflexivity|]. destruct ok; [|done]. intros b [= <-].
  rewrite P2, E1, B2, E2, G1, B1 by done. done.
Qed.

(** * Changing the slot *)

Lemma snapshot_groups_indices source target gs : ∀ i kept, snapshot_groups source target i gs = Some kept →
  Forall (λ x, i ≤ x.1 < i + zlen gs) kept.
Proof.
  induction gs as [|g gs IH]; intros i kept; cbn [snapshot_groups].
  { intros [= <-]. by apply Forall_nil. }
  rewrite zlen_cons. case_bool_decide.
  - intros E%IH. eapply Forall_impl; [exact E|]. cbn. lia.
  - intros (g' & _ & E)%bind_Some. apply bind_Some in E as (rest & E & [= <-]). apply IH in E.
    pose proof (zlen_nonneg gs). apply Forall_cons. split; [cbn; lia|].
    eapply Forall_impl; [exact E|]. cbn. lia.
Qed.

Lemma snapshot_partitions_indices source target ng ne kept ps : Forall (indices_ok ng ne) ps →
  ∃ r, snapshot_partitions source target ng kept ps = Ret r ∧
    ∀ ps', r = Some ps' → Forall (indices_ok (zlen kept) ne) ps'.
Proof.
  induction 1 as [|p ps (Hg & Hf & Hn & Hs) Hps IH]; cbn [snapshot_partitions].
  { eexists. split; [done|]. intros ps' [= <-]. by apply Forall_nil. }
  destruct IH as (r & E & Hr). case_bool_decide; [by exists r|].
  assert (∀ q, (if bool_decide (GetPartitionSlotSuffix (GetPartitionName p) = source)
      then UpdatePartitionName p (replace_suffix (GetPartitionName p) (GetPartitionSlotSuffix (GetPartitionName p)) target)
      else Some p) = Some q →
    group_index q = group_index p ∧ first_extent_index q = first_extent_index p ∧ num_extents q = num_extents p) as Hq.
  { intros q. case_bool_decide; [|by intros [= <-]]. unfold UpdatePartitionName. destruct (_ <? _); [done|].
    by intros [= <-]. }
  destruct (if bool_decide _ then _ else _) as [q|]; [|by exists None].
  destruct (Hq q eq_refl) as (Q1 & Q2 & Q3). rewrite (proj2 (Z.ltb_lt _ _)) by lia.
  cbn [c_assert mbind outcome_bind].
  destruct (list_find _ kept) as [[k x]|] eqn:EF; [|by exists r].
  rewrite E. cbn [mbind outcome_bind]. eexists. split; [reflexivity|].
  intros ps'. destruct r as [l|]; cbn [option_map]; [|done]. intros [= <-].
  apply list_find_Some in EF as (EF & _). apply lookup_lt_Some in EF.
  apply Forall_cons. split; [|by apply Hr]. unfold indices_ok. cbn [group_index first_extent_index num_extents].
  rewrite Q2, Q3. unfold zlen at 1. lia.
Qed.

(** Moving a table to the other slot keeps its indices valid. *)
Lemma snapshot_indices m source target : indices_valid m →
  (source = 0 ∨ source = 1) → (target = 0 ∨ target = 1) →
  ∃ r, UpdateMetadataForInPlaceSnapshot m source target = Ret r ∧ ∀ m', r = Some m' → indices_valid m'.
Proof.
  intros Hm Hs Ht. unfold UpdateMetadataForInPlaceSnapshot.
  assert (∃ s, SlotSuffixForSlotNumber source = Ret s) as [s ->] by (destruct Hs as [-> | ->]; by eexists).
  assert (∃ t, SlotSuffixForSlotNumber target = Ret t) as [t ->] by (destruct Ht as [-> | ->]; by eexists).
  cbn [mbind outcome_bind]. destruct (snapshot_groups s t 0 (m_groups m)) as [kept|]; [|by exists None].
  destruct (snapshot_partitions_indices s t _ _ kept _ Hm) as (r & -> & Hr). cbn [mbind outcome_bind].
  eexists. split; [reflexivity|]. intros m'. destruct r as [ps|]; cbn [option_map]; [|done]. intros [= <-].
  unfold indices_valid. cbn [m_groups m_extents m_partitions].
  assert (zlen (snd <$> kept) = zlen kept) as -> by (unfold zlen; by rewrite length_fmap). by apply Hr.
Qed.

Lemma v0_indices m : indices_valid m → indices_valid (SetMetadataHeaderV0 m).
Proof.
  intros Hm. unfold SetMetadataHeaderV0. destruct (_ <=? _); [done|]. unfold indices_valid in *.
  cbn [m_groups m_extents m_partitions]. apply Forall_fmap. exact Hm.
Qed.

(** * Opening a table for an update *)

Section opening.
Context (GetBoolProperty : list byte → bool → bool).
Context (GetInfo : list byte → option BlockDeviceInfo).
(** A block device has a block size. *)
Context (HInfo : ∀ n i, GetInfo n = Some i → i_logical_block_size i ≠ 0).

Lemma update_devices_total n : ∀ i b, (i + n = length (block_devices_ b))%nat →
  ∃ b', update_devices GetInfo n i b = Ret b' ∧ partitions_ b' = partitions_ b ∧ groups_ b' = groups_ b.
Proof.
  induction n as [|n IH]; intros i b Hn; cbn [update_devices]; [by eexists|].
  destruct (GetInfo _) as [info|] eqn:EI; [|apply IH; lia].
  unfold UpdateBlockDeviceInfoAt. destruct (lookup_lt_is_Some_2 (block_devices_ b) i) as [d ->]; [lia|].
  destruct (negb _); [cbn [mbind outcome_bind]; apply IH; lia|].
  rewrite (proj2 (Z.eqb_neq _ _)) by (by eapply HInfo).
  destruct (negb _); [cbn [mbind outcome_bind]; apply IH; lia|]. cbn [mbind outcome_bind].
  match goal with |- context [update_devices GetInfo n (S i) ?x] => destruct (IH (S i) x) as (b' & E & E1 & E2) end.
  { cbn [block_devices_ set_block_devices]. rewrite length_insert. lia. }
  by exists b'.
Qed.

Lemma NewWithOpener_total m : indices_valid m →
  ∃ r, NewWithOpener GetInfo m = Ret r ∧
    ∀ b, r = Some b → name_ <$> partitions_ b = GetPartitionName <$> m_partitions m ∧
      g_name <$> groups_ b = GetPartitionGroupName <$> m_groups m.
Proof.
  intros Hm. unfold NewWithOpener. destruct (NewFromMetadata_total m Hm) as (r & -> & Hr). cbn [mbind outcome_bind].
  destruct r as [b|]; [|by exists None].
  destruct (update_devices_total (length (block_devices_ b)) 0 b) as (b' & -> & E1 & E2); [done|].
  cbn [mbind outcome_bind]. eexists. split; [done|]. intros b0 [= <-]. rewrite E1, E2. by apply Hr.
Qed.

Lemma prepare_update_total m source target keep : m_block_devices m ≠ [] → indices_valid m →
  (source = 0 ∨ source = 1) → (target = 0 ∨ target = 1) →
  ∃ r, prepare_update GetBoolProperty m source target keep = Ret r ∧ ∀ m', r = Some m' → indices_valid m'.
Proof.
  intros Hd Hm Hs Ht. unfold prepare_update, GetMetadataSuperBlockDevice.
  destruct (m_block_devices m) as [|d ds] eqn:Ed; [done|]. cbn [head].
  assert (∃ r, (if negb (bool_decide (GetBlockDevicePartitionName d = bs "super")) &&
      IsRetrofitDynamicPartitionsDevice GetBoolProperty
    then UpdateMetadataForOtherSuper m source target else Ret (Some m)) = Ret r ∧
    ∀ m', r = Some m' → indices_valid m') as (r & -> & Hr).
  { destruct (_ && _); [|eexists; split; [done|]; by intros m' [= <-]]. unfold UpdateMetadataForOtherSuper.
    assert (∃ s, SlotSuffixForSlotNumber source = Ret s) as [s ->] by (destruct Hs as [-> | ->]; by eexists).
    assert (∃ t, SlotSuffixForSlotNumber target = Ret t) as [t ->] by (destruct Ht as [-> | ->]; by eexists).
    cbn [mbind outcome_bind]. eexists. split; [done|]. intros m' (ds' & _ & [= <-])%bind_Some. by apply Forall_nil. }
  cbn [mbind outcome_bind]. destruct r as [m'|]; [|by exists None]. specialize (Hr m' eq_refl).
  destruct (GetBoolProperty _ _); [|eexists; split; [done|]; by intros ? [= <-]].
  destruct keep; [eexists; split; [done|]; intros ? [= <-]; by apply v0_indices|]. by apply snapshot_indices.
Qed.

Lemma NewForUpdate_total SHA256 disk source target keep r :
  ReadMetadata SHA256 disk source = Ret r → (source = 0 ∨ source = 1) → (target = 0 ∨ target = 1) →
  ∃ o, NewForUpdate SHA256 GetBoolProperty GetInfo disk source target keep = Ret o.
Proof.
  intros E Hs Ht. unfold NewForUpdate. rewrite E. cbn [mbind outcome_bind]. destruct r as [m|]; [|by eexists].
  apply ReadMetadata_indices in E as [Hd Hm].
  destruct (prepare_update_total m source target keep Hd Hm Hs Ht) as (r & -> & Hr). cbn [mbind outcome_bind].
  destruct r as [m'|]; [|by eexists]. destruct (NewWithOpener_total m' (Hr m' eq_refl)) as (o & -> & _). by eexists.
Qed.

End opening.
