(* ===== verification/LpUpdate.v ===== *)
(** Flashing and updating partition tables: what is on the device afterwards, and
    that an update that stops at any point leaves a readable copy
    (system/core/fs_mgr/liblp/writer.cpp). *)

From Stdlib Require Import Strings.String.
From S2P Require Import Prelude LibBase SparseFormat LpFormat LpBuilder LpReader LpWriter LpMetadata.
Open Scope Z_scope.

(** * Regions of the device *)

(** The bytes [blob] are stored at [pos]. *)
Definition holds (d : disk) (pos : Z) (blob : list byte) : Prop := ztake (zlen blob) (zdrop pos d) = blob.

(** [d'] differs from [d] at most in the [n] bytes at [pos]. *)
Definition same_outside (pos n : Z) (d d' : disk) : Prop :=
  zlen d' = zlen d ∧ ztake pos d' = ztake pos d ∧ zdrop (pos + n) d' = zdrop (pos + n) d.

Lemma ztake_of_ztake {A} (n k : Z) (l : list A) : n ≤ k → ztake n (ztake k l) = ztake n l.
Proof. intros. unfold ztake. rewrite take_take. f_equal. lia. Qed.

Lemma holds_suffix d pos blob : holds d pos blob → ∃ rest, zdrop pos d = blob ++ rest.
Proof. intros H. exists (zdrop (zlen blob) (zdrop pos d)). rewrite <- H at 1. symmetry. apply ztake_zdrop. Qed.

Lemma ztake_zdrop_comm {A} (n k : Z) (l : list A) : 0 ≤ n → 0 ≤ k → ztake n (zdrop k l) = zdrop k (ztake (k + n) l).
Proof.
  intros. unfold ztake, zdrop. rewrite skipn_firstn_comm. f_equal. lia.
Qed.

Lemma same_outside_holds pos n d d' off blob : same_outside pos n d d' → 0 ≤ pos → 0 ≤ n → 0 ≤ off →
  off + zlen blob ≤ pos ∨ pos + n ≤ off → holds d off blob → holds d' off blob.
Proof.
  intros (_ & H1 & H2) Hp Hn Ho Hd. unfold holds. pose proof (zlen_nonneg blob).
  intros Hh. rewrite <- Hh at 2. destruct Hd.
  - rewrite !ztake_zdrop_comm by lia. f_equal.
    rewrite <- (ztake_of_ztake _ pos d'), <- (ztake_of_ztake _ pos d) by lia. by rewrite H1.
  - f_equal. assert (∀ x : disk, zdrop off x = zdrop (off - (pos + n)) (zdrop (pos + n) x)) as E.
    { intros x. rewrite zdrop_zdrop by lia. f_equal. lia. }
    rewrite (E d'), (E d). by rewrite H2.
Qed.

Lemma store_spec pos blob d : 0 ≤ pos → pos + zlen blob ≤ zlen d →
  same_outside pos (zlen blob) d (store pos blob d) ∧ holds (store pos blob d) pos blob.
Proof.
  intros Hp Hl. pose proof (zlen_nonneg blob). unfold store.
  assert (zlen (ztake pos d) = pos) as L by (apply zlen_ztake; lia).
  split; [split_and!|].
  - rewrite !zlen_app, L, zlen_zdrop by lia. lia.
  - by apply ztake_app_exact.
  - rewrite app_assoc. apply zdrop_app_exact. rewrite zlen_app. lia.
  - unfold holds. rewrite zdrop_app_exact by done. by apply ztake_app_exact.
Qed.

(** What a [writer] promises: it stores the blob, or fails and leaves anything in
    the place of the blob; nothing else changes. *)
Definition writer_ok (w : Writer) : Prop :=
  ∀ pos blob d, 0 ≤ pos → pos + zlen blob ≤ zlen d →
    same_outside pos (zlen blob) d (w pos blob d).2 ∧
    ((w pos blob d).1 = true → holds (w pos blob d).2 pos blob).

Lemma DefaultWriter_ok : writer_ok DefaultWriter.
Proof.
  intros pos blob d Hp Hl. unfold DefaultWriter. rewrite (proj2 (Z.leb_le _ _)) by lia. cbn [fst snd].
  destruct (store_spec pos blob d Hp Hl). done.
Qed.

(** A writer that loses power after [n] bytes. *)
Definition TornWriter (n : Z) : Writer := fun pos blob d =>
  if zlen blob <=? n then (true, store pos blob d) else (false, store pos (ztake n blob) d).

Lemma same_outside_weaken pos n n' d d' : 0 ≤ pos → 0 ≤ n ≤ n' → same_outside pos n d d' → same_outside pos n' d d'.
Proof.
  intros Hp Hn (H1 & H2 & H3). split_and!; [done|done|].
  replace (pos + n') with (pos + n + (n' - n)) by lia.
  rewrite <- !(zdrop_zdrop (n' - n) (pos + n)) by lia. by rewrite H3.
Qed.

Lemma TornWriter_ok n : 0 ≤ n → writer_ok (TornWriter n).
Proof.
  intros Hn pos blob d Hp Hl. unfold TornWriter. destruct (Z.leb_spec (zlen blob) n); cbn [fst snd].
  - destruct (store_spec pos blob d Hp Hl). done.
  - assert (zlen (ztake n blob) = n) as L by (apply zlen_ztake; lia).
    destruct (store_spec pos (ztake n blob) d) as [Hs _]; [done|lia|]. split; [|done].
    eapply same_outside_weaken; [done| |exact Hs]. lia.
Qed.

(** * The metadata area *)

(** The bytes reserved for geometry and metadata, computed without wrapping. *)
Definition area_size (g : LpMetadataGeometry) : Z :=
  12288 + 2 * (metadata_max_size g * metadata_slot_count g).

Definition primary_at (g : LpMetadataGeometry) (slot : Z) : Z := 12288 + metadata_max_size g * slot.
Definition backup_at (g : LpMetadataGeometry) (slot : Z) : Z :=
  12288 + metadata_max_size g * metadata_slot_count g + metadata_max_size g * slot.

(** Slot [slot] of a device with this geometry; the area is below 4 GiB. *)
Record area_ok (g : LpMetadataGeometry) (slot : Z) (d : disk) : Prop := {
  ao_max : 0 ≤ metadata_max_size g;
  ao_slot : 0 ≤ slot < metadata_slot_count g;
  ao_wrap : area_size g < 2 ^ 32;
  ao_fits : area_size g ≤ zlen d
}.

(** A change confined to the metadata slots. *)
Definition only_slots (g : LpMetadataGeometry) (d d' : disk) : Prop :=
  same_outside 12288 (2 * (metadata_max_size g * metadata_slot_count g)) d d'.

Lemma same_outside_refl pos n d : same_outside pos n d d.
Proof. done. Qed.

Lemma same_outside_trans pos n d1 d2 d3 :
  same_outside pos n d1 d2 → same_outside pos n d2 d3 → same_outside pos n d1 d3.
Proof. intros (A1 & A2 & A3) (B1 & B2 & B3). split_and!; congruence. Qed.

Lemma same_outside_widen pos n pos' n' d d' : 0 ≤ pos' ≤ pos → 0 ≤ n → pos + n ≤ pos' + n' →
  same_outside pos n d d' → same_outside pos' n' d d'.
Proof.
  intros Hp Hn He (H1 & H2 & H3). split_and!; [done| |].
  - rewrite <- (ztake_of_ztake pos' pos d'), <- (ztake_of_ztake pos' pos d) by lia. by rewrite H2.
  - replace (pos' + n') with (pos + n + (pos' + n' - (pos + n))) by lia.
    rewrite <- !(zdrop_zdrop (pos' + n' - (pos + n)) (pos + n)) by lia. by rewrite H3.
Qed.

Section area.
Context (g : LpMetadataGeometry) (slot : Z).

Lemma offsets d : area_ok g slot d →
  GetPrimaryMetadataOffset g slot = Ret (primary_at g slot) ∧
  GetBackupMetadataOffset g slot = Ret (backup_at g slot) ∧
  12288 ≤ primary_at g slot ∧ primary_at g slot + metadata_max_size g ≤ backup_at g slot ∧
  backup_at g slot + metadata_max_size g ≤ area_size g.
Proof.
  intros [Hm Hs Hw _]. unfold GetPrimaryMetadataOffset, GetBackupMetadataOffset, primary_at, backup_at, area_size in *.
  rewrite (proj2 (Z.ltb_lt _ _)) by lia. cbn [c_assert mbind outcome_bind].
  unfold LP_PARTITION_RESERVED_BYTES, LP_METADATA_GEOMETRY_SIZE.
  assert (metadata_max_size g * slot + metadata_max_size g ≤ metadata_max_size g * metadata_slot_count g) by nia.
  assert (0 ≤ metadata_max_size g * slot) by nia.
  revert H H0 Hw. generalize (metadata_max_size g * slot) as x, (metadata_max_size g * metadata_slot_count g) as y.
  intros x y H H0 Hw. rewrite !(u32_small x) by lia. rewrite u32_small by lia.
  split_and!; try (f_equal; lia); lia.
Qed.

Lemma total_size d : area_ok g slot d →
  GetTotalMetadataSize (metadata_max_size g) (metadata_slot_count g) = area_size g.
Proof.
  intros [Hm Hs Hw _]. unfold GetTotalMetadataSize, area_size, LP_PARTITION_RESERVED_BYTES,
    LP_METADATA_GEOMETRY_SIZE in *.
  assert (0 ≤ metadata_max_size g * metadata_slot_count g) by nia. revert H Hw.
  generalize (metadata_max_size g * metadata_slot_count g) as y. intros y H Hw.
  rewrite (u32_small y), (u32_small (4096 + y)), (u32_small ((4096 + y) * 2)), u32_small by lia. lia.
Qed.
End area.

Section update.
Context (SHA256 : list byte → list byte) (SHA256_length : ∀ l, length (SHA256 l) = 32%nat).
Context (w : Writer) (Hw : writer_ok w).

Lemma serialize_stored g m : SerializeMetadata SHA256 (stored SHA256 g m) = SerializeMetadata SHA256 m.
Proof. done. Qed.

Lemma validate_spec m suffix blob : ValidateAndSerializeMetadata SHA256 m suffix = Some blob →
  blob = SerializeMetadata SHA256 m ∧ zlen blob ≤ metadata_max_size (m_geometry m).
Proof.
  unfold ValidateAndSerializeMetadata. destruct (Z.ltb_spec (metadata_max_size (m_geometry m))
    (zlen (SerializeMetadata SHA256 m))); [done|].
  destruct (GetMetadataSuperBlockDevice m) as [s|]; [|done]. do 4 (destruct (_ : bool); [done|]).
  intros [= <-]. done.
Qed.

Lemma write_at_spec off m blob d : 0 ≤ off → off + zlen blob ≤ zlen d →
  ∃ ok d', write_at w off m blob d = Ret (ok, d') ∧ same_outside off (zlen blob) d d' ∧
    (ok = true → holds d' off blob).
Proof.
  intros Ho Hl. unfold write_at. destruct (negb _); [by exists false, d|].
  destruct (Hw off blob d Ho Hl) as [H1 H2]. destruct (w off blob d) as [ok d']. by exists ok, d'.
Qed.

(** * One slot during an update *)

Section slot.
Context (m : LpMetadata) (slot : Z).
#[local] Abbreviation g := (m_geometry m).
#[local] Abbreviation P := (primary_at g slot).
#[local] Abbreviation B := (backup_at g slot).
#[local] Abbreviation ser := (SerializeMetadata SHA256).

(** Writing one copy of the slot: the other one is not touched. *)
Lemma write_primary_spec c d : area_ok g slot d → zlen (ser c) ≤ metadata_max_size g →
  ∃ ok d', WritePrimaryMetadata w m slot (ser c) d = Ret (ok, d') ∧ only_slots g d d' ∧ area_ok g slot d' ∧
    (ok = true → holds d' P (ser c)) ∧
    ∀ c', zlen (ser c') ≤ metadata_max_size g → holds d B (ser c') → holds d' B (ser c').
Proof.
  intros Ha Hc. destruct (offsets g slot d Ha) as (E1 & _ & O1 & O2 & O3). pose proof (ao_fits _ _ _ Ha).
  unfold WritePrimaryMetadata. rewrite E1. cbn [mbind outcome_bind]. pose proof (zlen_nonneg (ser c)).
  destruct (write_at_spec P m (ser c) d) as (ok & d' & E & Hs & Hok); [lia|lia|].
  exists ok, d'. split; [done|]. split_and!.
  - eapply same_outside_widen; [| | |exact Hs]; [lia|lia|]. unfold area_size in *. lia.
  - destruct Ha. split; [done..|]. destruct Hs as [-> _]. done.
  - done.
  - intros c' Hc' Hh. eapply same_outside_holds; [exact Hs|lia|lia|lia| |done]. right. lia.
Qed.

Lemma write_backup_spec c d : area_ok g slot d → zlen (ser c) ≤ metadata_max_size g →
  ∃ ok d', WriteBackupMetadata w m slot (ser c) d = Ret (ok, d') ∧ only_slots g d d' ∧ area_ok g slot d' ∧
    (ok = true → holds d' B (ser c)) ∧
    ∀ c', zlen (ser c') ≤ metadata_max_size g → holds d P (ser c') → holds d' P (ser c').
Proof.
  intros Ha Hc. destruct (offsets g slot d Ha) as (_ & E1 & O1 & O2 & O3). pose proof (ao_fits _ _ _ Ha).
  unfold WriteBackupMetadata. rewrite E1. cbn [mbind outcome_bind]. pose proof (zlen_nonneg (ser c)).
  pose proof (ao_max _ _ _ Ha).
  destruct (write_at_spec B m (ser c) d) as (ok & d' & E & Hs & Hok); [lia|lia|].
  exists ok, d'. split; [done|]. split_and!.
  - eapply same_outside_widen; [| | |exact Hs]; [lia|lia|]. unfold area_size in *. lia.
  - destruct Ha. split; [done..|]. destruct Hs as [-> _]. done.
  - done.
  - intros c' Hc' Hh. eapply same_outside_holds; [exact Hs|lia|lia|lia| |done]. left. lia.
Qed.

(** A table that fits into a slot of the geometry. *)
Definition usable (c : LpMetadata) : Prop :=
  metadata_valid c ∧ super_fits g c ∧ zlen (ser c) ≤ metadata_max_size g.

(** A copy of the slot: unreadable, or a table stored by this code. *)
Inductive copy_state (d : disk) (off : Z) : option LpMetadata → Prop :=
| copy_bad : ParseMetadata SHA256 g (zdrop off d) = Ret None → copy_state d off None
| copy_good c : usable c → holds d off (ser c) → copy_state d off (Some c).

Lemma tables_below c : zlen (tables_blob c) ≤ zlen (ser c).
Proof. unfold SerializeMetadata. rewrite zlen_app. pose proof (zlen_nonneg (ztake (header_size (finish_header SHA256 c))
  (header_bytes (finish_header SHA256 c)))). lia. Qed.

Lemma usable_parses c d off : metadata_max_size g < 2 ^ 32 → usable c → holds d off (ser c) →
  ParseMetadata SHA256 g (zdrop off d) = Ret (Some (stored SHA256 g c)).
Proof.
  intros Hm (Hv & Hf & Hl) Hh. apply holds_suffix in Hh as [rest ->]. pose proof (tables_below c).
  apply parse_stored; [done|done|lia|done].
Qed.

Lemma copy_parses d off o : metadata_max_size g < 2 ^ 32 → copy_state d off o →
  ParseMetadata SHA256 g (zdrop off d) = Ret (option_map (stored SHA256 g) o).
Proof. intros Hm [E|c Hu Hh]; [done|]. by apply usable_parses. Qed.

(** The same table as [c0], as far as the reader can tell. *)
Definition agrees (c0 c : LpMetadata) : Prop :=
  header_checksum (finish_header SHA256 c) = header_checksum (finish_header SHA256 c0).

Lemma agrees_refl c : agrees c c.
Proof. done. Qed.
#[local] Hint Resolve agrees_refl : core.

Definition current (p b : option LpMetadata) : option LpMetadata := match p with Some p => Some p | None => b end.

(** One of the copies is intact. *)
Definition survives (Q : LpMetadata → Prop) (d : disk) : Prop :=
  ∃ c, Q c ∧ usable c ∧ (holds d P (ser c) ∨ holds d B (ser c)).

Lemma synchronize_spec suffix p b c0 d : area_ok g slot d →
  copy_state d P p → copy_state d B b → current p b = Some c0 →
  ∃ ok d', synchronize SHA256 w m slot suffix (option_map (stored SHA256 g) p) (option_map (stored SHA256 g) b) d
      = Ret (ok, d') ∧ only_slots g d d' ∧ area_ok g slot d' ∧
    (ok = true → ∃ c, agrees c0 c ∧ usable c ∧ holds d' B (ser c)) ∧ survives (agrees c0) d'.
Proof.
  intros Ha Hp Hb Hc.
  assert (survives (agrees c0) d) as Hsurv.
  { destruct Hp as [_|c Hu Hh]; cbn in Hc; [|injection Hc as ->; exists c0; auto].
    destruct Hb as [_|c Hu Hh]; [done|]. injection Hc as ->. exists c0. auto. }
  destruct Hp as [Ep|cp Hup Hhp]; cbn [option_map synchronize current] in *.
  - destruct Hb as [Eb|cb Hub Hhb]; [done|]. injection Hc as ->. cbn [option_map].
    destruct (ValidateAndSerializeMetadata _ _ _) as [blob|] eqn:E; [|by exists false, d].
    apply validate_spec in E as [-> Hlen]. rewrite serialize_stored in *.
    destruct (write_primary_spec c0 d Ha) as (ok & d' & E & H1 & H2 & H3 & H4); [apply Hub|].
    exists ok, d'. split_and!; [done|done|done| |].
    + intros _. exists c0. split_and!; [done|done|]. apply H4; [apply Hub|done].
    + exists c0. split_and!; [done|done|]. right. apply H4; [apply Hub|done].
  - injection Hc as ->. destruct (match option_map _ b with None => true | Some b => _ end) eqn:Ecmp.
    + destruct (ValidateAndSerializeMetadata _ _ _) as [blob|] eqn:E; [|by exists false, d].
      apply validate_spec in E as [-> Hlen]. rewrite serialize_stored in *.
      destruct (write_backup_spec c0 d Ha) as (ok & d' & E & H1 & H2 & H3 & H4); [apply Hup|].
      exists ok, d'. split_and!; [done|done|done| |].
      * intros Hok. exists c0. auto.
      * exists c0. split_and!; [done|done|]. left. apply H4; [apply Hup|done].
    + exists true, d. split_and!; [done|done|done| |done]. intros _. destruct Hb as [Eb|cb Hub Hhb]; [done|].
      cbn [option_map] in Ecmp. apply negb_false_iff in Ecmp. unfold CompareMetadata in Ecmp.
      apply bool_decide_eq_true in Ecmp. exists cb. split_and!; [|done|done]. symmetry. exact Ecmp.
Qed.

Lemma write_metadata_spec c0 c d : area_ok g slot d → usable m → agrees c0 c → usable c → holds d B (ser c) →
  ∃ ok d', WriteMetadata w m slot (ser m) d = Ret (ok, d') ∧ only_slots g d d' ∧
    (ok = true → holds d' P (ser m) ∧ holds d' B (ser m)) ∧ survives (λ c, c = m ∨ agrees c0 c) d'.
Proof.
  intros Ha Hm Hag Hu Hh. unfold WriteMetadata. destruct (Z.leb_spec (metadata_slot_count g) slot).
  { exists false, d. split_and!; [done|done|done|]. exists c. auto. }
  unfold mbind, M_bind. destruct (write_primary_spec m d Ha) as (ok & d1 & -> & H1 & H2 & H3 & H4); [apply Hm|].
  destruct ok.
  - destruct (write_backup_spec m d1 H2) as (ok & d2 & -> & I1 & I2 & I3 & I4); [apply Hm|].
    exists ok, d2. specialize (H3 eq_refl). specialize (I4 m (proj2 (proj2 Hm)) H3).
    split_and!; [done|by eapply same_outside_trans|auto|]. exists m. auto.
  - exists false, d1. split_and!; [done|done|done|]. exists c. split_and!; [by right|done|].
    right. apply H4; [apply Hu|done].
Qed.

Lemma validate_usable suffix blob d : area_ok g slot d → metadata_valid m →
  ValidateAndSerializeMetadata SHA256 m suffix = Some blob → blob = ser m ∧ usable m.
Proof.
  intros Ha Hv E. pose proof (validate_spec m suffix blob E) as [-> Hl]. split; [done|].
  split_and!; [done| |done]. revert E. unfold ValidateAndSerializeMetadata, super_fits.
  rewrite (total_size g slot d Ha), (proj2 (Z.ltb_ge _ _)) by done.
  destruct (GetMetadataSuperBlockDevice m) as [s|]; [|done]. destruct Ha as [A1 A2 A3 _].
  unfold area_size, LP_PARTITION_RESERVED_BYTES, LP_METADATA_GEOMETRY_SIZE in *.
  assert (0 ≤ metadata_max_size g * metadata_slot_count g) as A4 by nia. revert A3 A4.
  generalize (metadata_max_size g * metadata_slot_count g) as y. intros y A3 A4.
  rewrite (u64_small y), (u64_small (4096 + y)), (u64_small ((4096 + y) * 2)), (u64_small (4096 + _)) by lia.
  destruct (Z.ltb_spec (u64 (first_logical_sector s * LP_SECTOR_SIZE)) (4096 + (4096 + y) * 2)); [done|].
  intros _. exists s. split; [done|lia].
Qed.

Lemma update_spec p b c0 d : slot = 0 ∨ slot = 1 → metadata_valid m → area_ok g slot d →
  metadata_max_size g < 2 ^ 32 → copy_state d P p → copy_state d B b → current p b = Some c0 →
  ∃ ok d', UpdatePartitionTable SHA256 w m slot d = Ret (ok, d') ∧ only_slots g d d' ∧
    (ok = true → usable m ∧ holds d' P (ser m) ∧ holds d' B (ser m)) ∧
    survives (λ c, c = m ∨ agrees c0 c) d'.
Proof.
  intros Hslot Hm Ha Hmax Hp Hb Hc.
  assert (survives (λ c, c = m ∨ agrees c0 c) d) as Hsurv.
  { destruct Hp as [_|c Hu Hh]; cbn in Hc; [|injection Hc as ->; exists c0; auto].
    destruct Hb as [_|c Hu Hh]; [done|]. injection Hc as ->. exists c0. auto. }
  unfold UpdatePartitionTable.
  assert (∃ s, SlotSuffixForSlotNumber slot = Ret s) as [suffix ->] by (destruct Hslot as [-> | ->]; by eexists).
  cbn [mbind outcome_bind].
  destruct (ValidateAndSerializeMetadata SHA256 m suffix) as [blob|] eqn:E; [|by exists false, d].
  apply (validate_usable _ _ d) in E as [-> Hu]; [|done|done].
  destruct (ReadLogicalPartitionGeometry SHA256 d) as [g0|]; [|by exists false, d].
  destruct (negb (CompareGeometry g g0)); [by exists false, d|].
  destruct (metadata_slot_count g <=? slot); [by exists false, d|].
  destruct (offsets g slot d Ha) as (E1 & E2 & _). unfold ReadPrimaryMetadata, ReadBackupMetadata.
  rewrite E1, E2. cbn [mbind outcome_bind].
  rewrite (copy_parses d P p Hmax Hp). cbn [mbind outcome_bind].
  rewrite (copy_parses d B b Hmax Hb). cbn [mbind outcome_bind].
  destruct (synchronize_spec suffix p b c0 d Ha Hp Hb Hc) as (ok & d1 & -> & S1 & S2 & S3 & S4).
  cbn [mbind outcome_bind]. destruct ok; cbn [negb].
  - destruct (S3 eq_refl) as (c & C1 & C2 & C3).
    destruct (write_metadata_spec c0 c d1 S2 Hu C1 C2 C3) as (ok & d2 & E & W1 & W2 & W3).
    exists ok, d2. split_and!; [done|by eapply same_outside_trans| |done].
    intros Hok. destruct (W2 Hok). done.
  - exists false, d1. split_and!; [done|done|done|]. destruct S4 as (c & C1 & C2). exists c. auto.
Qed.

End slot.
End update.

(** * Flashing *)

Section flash.
Context (SHA256 : list byte → list byte) (SHA256_length : ∀ l, length (SHA256 l) = 32%nat).

(** A geometry that can be stored. *)
Record geometry_valid (g : LpMetadataGeometry) : Prop := {
  gv_ok : geometry_ok g;
  gv_magic : g_magic g = LP_METADATA_GEOMETRY_MAGIC;
  gv_struct : g_struct_size g = sizeof_geometry;
  gv_slots : metadata_slot_count g ≠ 0;
  gv_sector : metadata_max_size g mod LP_SECTOR_SIZE = 0
}.

Definition stored_geometry (g : LpMetadataGeometry) : LpMetadataGeometry :=
  set_g_checksum (SHA256 (geometry_bytes (set_g_checksum (zeros 32) g))) g.

Lemma geometry_ok_checksum g c : geometry_ok g → length c = 32%nat → geometry_ok (set_g_checksum c g).
Proof. intros [] Hc. by split. Qed.

Lemma zlen_SerializeGeometry g : geometry_ok g → zlen (SerializeGeometry SHA256 g) = LP_METADATA_GEOMETRY_SIZE.
Proof.
  intros Hg. unfold SerializeGeometry. rewrite zlen_app, zlen_geometry_bytes; [done|].
  apply geometry_ok_checksum; [|apply SHA256_length]. by apply geometry_ok_checksum.
Qed.

Lemma parse_geometry g : geometry_valid g →
  ParseGeometry SHA256 (SerializeGeometry SHA256 g) = Some (stored_geometry g).
Proof.
  intros [Hok Hm Hs Hn Hx]. unfold ParseGeometry, SerializeGeometry.
  change (set_g_checksum (SHA256 (geometry_bytes (set_g_checksum (zeros 32) g))) (set_g_checksum (zeros 32) g))
    with (stored_geometry g).
  rewrite geometry_roundtrip by (apply geometry_ok_checksum; [done|apply SHA256_length]).
  change (g_magic (stored_geometry g)) with (g_magic g).
  change (g_struct_size (stored_geometry g)) with (g_struct_size g).
  change (metadata_slot_count (stored_geometry g)) with (metadata_slot_count g).
  change (metadata_max_size (stored_geometry g)) with (metadata_max_size g).
  change (set_g_checksum (zeros 32) (stored_geometry g)) with (set_g_checksum (zeros 32) g).
  rewrite Hm, Hs, Hx. change (LP_METADATA_GEOMETRY_MAGIC =? LP_METADATA_GEOMETRY_MAGIC) with true.
  change (sizeof_geometry <? sizeof_geometry) with false. change (sizeof_geometry =? sizeof_geometry) with true.
  cbn [negb Z.eqb]. rewrite ztake_all by (rewrite zlen_geometry_bytes; [done|by apply geometry_ok_checksum]).
  rewrite bool_decide_true by done. cbn [negb]. by rewrite (proj2 (Z.eqb_neq _ _)).
Qed.

Lemma read_geometry_holds d off g : geometry_valid g → holds d off (SerializeGeometry SHA256 g) →
  read_geometry_at SHA256 off d = Some (stored_geometry g).
Proof.
  intros Hg [rest Hr]%holds_suffix. unfold read_geometry_at. rewrite Hr, ReadFully_app.
  - cbn [mbind option_bind]. by apply parse_geometry.
  - by apply zlen_SerializeGeometry, Hg.
Qed.

Section slots.
Context (m : LpMetadata) (blob : list byte).
#[local] Abbreviation g := (m_geometry m).
Context (Hmax : 0 ≤ metadata_max_size g) (Hwrap : area_size g < 2 ^ 32) (Hblob : zlen blob ≤ metadata_max_size g).

(** Both copies of slot [s] are on the device. *)
Definition both (d : disk) (s : Z) : Prop := holds d (primary_at g s) blob ∧ holds d (backup_at g s) blob.

(** Writing a slot keeps the copies of the others. *)
Lemma write_slot s d : 0 ≤ s < metadata_slot_count g → area_size g ≤ zlen d →
  ∃ ok d', WriteMetadata DefaultWriter m s blob d = Ret (ok, d') ∧ only_slots g d d' ∧
    (ok = true → both d' s) ∧ ∀ s', 0 ≤ s' < metadata_slot_count g → s' ≠ s → both d s' → both d' s'.
Proof.
  intros Hs Hd. assert (area_ok g s d) as Ha by (by split).
  destruct (offsets g s d Ha) as (E1 & E2 & O1 & O2 & O3). pose proof (zlen_nonneg blob) as Hb0.
  assert (∀ s', 0 ≤ s' < metadata_slot_count g → s' ≠ s →
    (primary_at g s' + zlen blob ≤ primary_at g s ∨ primary_at g s + zlen blob ≤ primary_at g s') ∧
    (backup_at g s' + zlen blob ≤ backup_at g s ∨ backup_at g s + zlen blob ≤ backup_at g s') ∧
    12288 ≤ primary_at g s' ∧ primary_at g s' + zlen blob ≤ backup_at g s ∧
    primary_at g s + zlen blob ≤ backup_at g s') as Hsep.
  { intros s' Hs' Hne. unfold primary_at, backup_at in *.
    assert (metadata_max_size g * s' + metadata_max_size g ≤ metadata_max_size g * metadata_slot_count g) by nia.
    assert (metadata_max_size g * s + metadata_max_size g ≤ metadata_max_size g * metadata_slot_count g) by nia.
    assert (0 ≤ metadata_max_size g * s') by nia. assert (0 ≤ metadata_max_size g * s) by nia.
    assert (metadata_max_size g * s' + metadata_max_size g ≤ metadata_max_size g * s ∨
            metadata_max_size g * s + metadata_max_size g ≤ metadata_max_size g * s') by (destruct (Z.lt_total s s') as [?|[?|?]]; [right; nia|lia|left; nia]).
    lia. }
  unfold WriteMetadata, WritePrimaryMetadata, WriteBackupMetadata. rewrite (proj2 (Z.leb_gt _ _)) by lia.
  unfold mbind, M_bind, outcome_bind. rewrite E1, E2.
  destruct (write_at_spec DefaultWriter DefaultWriter_ok (primary_at g s) m blob d) as (ok & d1 & -> & S1 & K1);
    [lia|lia|].
  assert (only_slots g d d1) as Z1.
  { eapply same_outside_widen; [| | |exact S1]; [lia|lia|unfold area_size in *; lia]. }
  assert (zlen d1 = zlen d) as L1 by apply S1. destruct ok.
  - destruct (write_at_spec DefaultWriter DefaultWriter_ok (backup_at g s) m blob d1) as (ok & d2 & -> & S2 & K2);
      [lia|lia|].
    exists ok, d2. split_and!; [done| | |].
    + eapply same_outside_trans; [exact Z1|].
      eapply same_outside_widen; [| | |exact S2]; [lia|lia|unfold area_size in *; lia].
    + intros Hok. split; [|auto]. eapply same_outside_holds; [exact S2|lia|lia|lia| |by apply K1]. lia.
    + intros s' Hs' Hne [HP HB]. destruct (Hsep s' Hs' Hne) as (X1 & X2 & X3 & X4 & X5).
      split; (eapply same_outside_holds; [exact S2|lia|lia|lia|lia|]);
        (eapply same_outside_holds; [exact S1|lia|lia|lia|lia|done]).
  - exists false, d1. split_and!; [done|done|done|]. intros s' Hs' Hne [HP HB].
    destruct (Hsep s' Hs' Hne) as (X1 & X2 & X3 & X4 & X5).
    split; (eapply same_outside_holds; [exact S1|lia|lia|lia|lia|done]).
Qed.

Lemma flash_slots_spec n : ∀ s ok d, 0 ≤ s → s + Z.of_nat n = metadata_slot_count g → area_size g ≤ zlen d →
  (ok = true → ∀ s', 0 ≤ s' < s → both d s') →
  ∃ ok' d', flash_slots m blob n s ok d = Ret (ok', d') ∧ only_slots g d d' ∧
    (ok' = true → ∀ s', 0 ≤ s' < metadata_slot_count g → both d' s').
Proof.
  induction n as [|n IH]; intros s ok d Hs Hn Hd Hok; cbn [flash_slots].
  { exists ok, d. split_and!; [done|done|]. intros H s' Hs'. apply Hok; [done|lia]. }
  destruct (write_slot s d) as (ok1 & d1 & E & Z1 & K1 & K2); [lia|done|].
  unfold mbind, M_bind. rewrite E.
  destruct (IH (s + 1) (ok && ok1) d1) as (ok' & d' & -> & Z2 & K3); [lia|lia| | |].
  - by destruct Z1 as [-> _].
  - intros [H1 H2]%andb_true_iff s' Hs'. destruct (Z.eq_dec s' s) as [->|Hne]; [by apply K1|].
    apply K2; [lia|done|]. apply Hok; [done|lia].
  - exists ok', d'. split_and!; [done|by eapply same_outside_trans|done].
Qed.

End slots.

Lemma default_write pos blob d : 0 ≤ pos → pos + zlen blob ≤ zlen d →
  ∃ d', DefaultWriter pos blob d = (true, d') ∧ same_outside pos (zlen blob) d d' ∧ holds d' pos blob.
Proof.
  intros Hp Hl. unfold DefaultWriter. rewrite (proj2 (Z.leb_le _ _)) by lia.
  destruct (store_spec pos blob d Hp Hl). by eexists.
Qed.

Lemma flash_spec name m d : geometry_valid (m_geometry m) → metadata_valid m →
  area_size (m_geometry m) < 2 ^ 32 → area_size (m_geometry m) ≤ zlen d →
  ∃ ok d', FlashPartitionTable SHA256 name m d = Ret (ok, d') ∧
    same_outside 0 (area_size (m_geometry m)) d d' ∧
    (ok = true → ∀ slot, 0 ≤ slot < metadata_slot_count (m_geometry m) →
      ReadMetadata SHA256 d' slot =
      AdjustMetadataForSlot (stored SHA256 (stored_geometry (m_geometry m)) m) slot).
Proof.
  intros Hg Hm Hw Hd. set (g := m_geometry m) in *. unfold FlashPartitionTable. cbv zeta.
  assert (0 ≤ metadata_max_size g < 2 ^ 32 ∧ 0 < metadata_slot_count g) as [Hmax Hslots].
  { destruct Hg as [[_ _ _ ? [? ?] _] _ _ ? _]. unfold is_u32 in *. lia. }
  assert (0 ≤ metadata_max_size g * metadata_slot_count g) as Hp by nia.
  destruct (ValidateAndSerializeMetadata SHA256 m _) as [blob|] eqn:E.
  2: { exists false, d. split_and!; [done|done|done]. }
  apply (validate_usable SHA256 m 0 _ _ d) in E as [-> Hu]; [|split; [apply Hmax|fold g; lia|done|done]|done].
  pose proof (zlen_SerializeGeometry g (gv_ok g Hg)) as LG.
  unfold GetBackupGeometryOffset, GetPrimaryGeometryOffset, LP_METADATA_GEOMETRY_SIZE,
    LP_PARTITION_RESERVED_BYTES in *. fold g.
  assert (zlen (zeros 4096) = 4096) as LZ by (apply zlen_zeros; lia).
  unfold area_size in Hw, Hd.
  destruct (default_write 0 (zeros 4096) d) as (d1 & -> & S1 & _); [lia|lia|]. cbn [negb].
  assert (zlen d1 = zlen d) as L1 by apply S1.
  destruct (default_write 4096 (SerializeGeometry SHA256 g) d1) as (d2 & -> & S2 & K2); [lia|lia|]. cbn [negb].
  assert (zlen d2 = zlen d1) as L2 by apply S2.
  destruct (default_write (4096 + 4096) (SerializeGeometry SHA256 g) d2) as (d3 & -> & S3 & K3); [lia|lia|]. cbn [negb].
  assert (zlen d3 = zlen d2) as L3 by apply S3.
  destruct (flash_slots_spec m (SerializeMetadata SHA256 m) (proj1 Hmax) Hw (proj2 (proj2 Hu))
    (Z.to_nat (metadata_slot_count g)) 0 true d3) as (ok & d4 & -> & S4 & K4); [lia|fold g; lia|unfold area_size; fold g; lia|lia|].
  exists ok, d4. split; [done|]. rewrite LZ in S1. rewrite LG in S2, S3. split.
  { unfold area_size. eapply same_outside_trans; [|eapply same_outside_trans; [|eapply same_outside_trans]].
    - eapply same_outside_widen; [| | |exact S1]; lia.
    - eapply same_outside_widen; [| | |exact S2]; lia.
    - eapply same_outside_widen; [| | |exact S3]; lia.
    - eapply same_outside_widen; [| | |exact S4]; fold g; lia. }
  intros Hok slot Hslot. destruct (K4 Hok slot Hslot) as [KP KB].
  assert (holds d4 4096 (SerializeGeometry SHA256 g)) as K5.
  { eapply same_outside_holds; [exact S4|lia|fold g; lia|lia|lia|].
    eapply same_outside_holds; [exact S3|lia|lia|lia|lia|done]. }
  unfold ReadMetadata, ReadLogicalPartitionGeometry, ReadPrimaryGeometry, GetPrimaryGeometryOffset.
  change LP_PARTITION_RESERVED_BYTES with 4096. rewrite (read_geometry_holds d4 4096 g Hg K5).
  change (metadata_slot_count (stored_geometry g)) with (metadata_slot_count g).
  rewrite (proj2 (Z.leb_gt _ _)) by lia.
  assert (area_ok g slot d4) as Ha.
  { split; [lia|done|done|]. destruct S4 as [-> _]. unfold area_size. lia. }
  destruct (offsets g slot d4 Ha) as (E1 & E2 & _).
  change (GetPrimaryMetadataOffset (stored_geometry g) slot) with (GetPrimaryMetadataOffset g slot).
  change (GetBackupMetadataOffset (stored_geometry g) slot) with (GetBackupMetadataOffset g slot).
  rewrite E1, E2. cbn [mbind outcome_bind]. apply holds_suffix in KP as [rest KP]. fold g in KP. rewrite KP.
  pose proof (tables_below SHA256 m). destruct Hu as (U1 & U2 & U3).
  rewrite parse_stored; [done|done|done| |exact U2].
  change (metadata_max_size (stored_geometry g)) with (metadata_max_size g). fold g in U3. lia.
Qed.

End flash.
