(* ===== verification/LpDevice.v ===== *)
(** Partition tables on the device, end to end: from the builder through
    [Export], [FlashPartitionTable] and [ReadMetadata] back into a builder, and the
    safety of reading and updating (system/core/fs_mgr/liblp). *)

From Stdlib Require Import Strings.String.
From S2P Require Import Prelude LibBase SparseFormat LpFormat LpBuilder LpBuilderFacts LpTable LpExport.
From S2P Require Import LpReader LpWriter LpMetadata LpRead LpUpdate.
Open Scope Z_scope.

(** * What the builder exports can be stored *)

Lemma small_attributes a : is_u32 a → attributes_ok a → 0 ≤ a < 16.
Proof.
  unfold is_u32, attributes_ok. intros Ha H.
  assert (a = Z.land a 15) as E.
  { rewrite <- (Z.lor_0_l (Z.land a 15)), <- H, <- Z.land_lor_distr_r.
    change (Z.lor (Z.lxor (2 ^ 32 - 1) LP_PARTITION_ATTRIBUTE_MASK) 15) with (Z.ones 32).
    rewrite Z.land_ones, Z.mod_small by lia. done. }
  rewrite E. change 15 with (Z.ones 4). rewrite Z.land_ones by lia. apply Z.mod_pos_bound. lia.
Qed.

(** The attributes of a partition are known to the version of the header. *)
Definition version_knows (h : LpMetadataHeader) (a : Z) : Prop :=
  Z.land a LP_PARTITION_ATTRIBUTE_MASK_V1 ≠ 0 → LP_METADATA_VERSION_FOR_UPDATED_ATTR ≤ h_minor_version h.

Lemma attributes_checked h a : is_u32 a → attributes_ok a → version_knows h a →
  Z.land a (Z.lxor (2 ^ 32 - 1) (valid_attributes h)) = 0.
Proof.
  intros Ha Ho Hk. pose proof (small_attributes a Ha Ho) as Hs. unfold version_knows, valid_attributes in *.
  destruct (Z.leb_spec LP_METADATA_VERSION_FOR_UPDATED_ATTR (h_minor_version h)).
  - exact Ho.
  - assert (Z.land a LP_PARTITION_ATTRIBUTE_MASK_V1 = 0) as E.
    { destruct (Z.eq_dec (Z.land a LP_PARTITION_ATTRIBUTE_MASK_V1) 0) as [|Hne]; [done|]. specialize (Hk Hne). lia. }
    change (Z.lxor (2 ^ 32 - 1) LP_PARTITION_ATTRIBUTE_MASK_V0)
      with (Z.lor (Z.lxor (2 ^ 32 - 1) LP_PARTITION_ATTRIBUTE_MASK) LP_PARTITION_ATTRIBUTE_MASK_V1).
    rewrite Z.land_lor_distr_r, E. unfold attributes_ok in Ho. by rewrite Ho.
Qed.

Lemma export_minor n gs ps : ∀ minor es minor' qs es',
  export_partitions false n gs ps minor es = Some (minor', qs, es') →
  minor ≤ minor' ≤ Z.max minor 1 ∧ length qs = length ps ∧
  Forall (λ p, Z.land (attributes_ p) LP_PARTITION_ATTRIBUTE_MASK_V1 ≠ 0 → 1 ≤ minor') ps.
Proof.
  induction ps as [|p ps IH]; intros minor es minor' qs es'; cbn [export_partitions].
  { intros [= <- <- <-]. split; [lia|]. split; [done|]. by apply Forall_nil. }
  destruct (_ <? _); [done|]. destruct (negb _); [done|].
  set (m1 := if negb (_ =? 0) then _ else minor).
  intros ((k & g) & _ & E)%bind_Some. apply bind_Some in E as (xs & _ & E).
  apply bind_Some in E as ([[mi qs'] es''] & E & [= <- <- <-]).
  apply IH in E as (H1 & H2 & H3).
  assert (minor ≤ m1 ≤ Z.max minor 1 ∧ (Z.land (attributes_ p) LP_PARTITION_ATTRIBUTE_MASK_V1 ≠ 0 → 1 ≤ m1)) as [Hm1 Hm2].
  { subst m1. unfold LP_METADATA_VERSION_FOR_UPDATED_ATTR. destruct (Z.eqb_spec (Z.land (attributes_ p) LP_PARTITION_ATTRIBUTE_MASK_V1) 0); cbn [negb]; lia. }
  split; [lia|]. split; [cbn; lia|]. apply Forall_cons. split; [|done]. intros Hne. specialize (Hm2 Hne). lia.
Qed.

Lemma exported_valid h groups ps : zlen groups < 2 ^ 32 → num_entries (h_groups h) = zlen groups →
  num_entries (h_extents h) < 2 ^ 32 →
  Forall (λ p, is_u32 (attributes_ p) ∧ attributes_ok (attributes_ p) ∧ version_knows h (attributes_ p)) ps →
  ∀ off qs, 0 ≤ off → off + zlen (ps ≫= extents_) ≤ num_entries (h_extents h) → exported groups off ps qs →
  Forall (λ q, lp_partition_ok q ∧ check_partition h q = true) qs.
Proof.
  intros Hg Hng Hne. induction 1 as [|p ps (Ha & Ho & Hk) Hps IH]; intros off [|q qs] Hoff Hlen Hex; try done.
  destruct Hex as (E1 & E2 & E3 & E4 & (g & E5 & _) & Hex).
  change ((p :: ps) ≫= extents_) with (extents_ p ++ (ps ≫= extents_)) in Hlen. rewrite zlen_app in Hlen.
  pose proof (zlen_nonneg (extents_ p)). pose proof (zlen_nonneg (ps ≫= extents_)).
  apply zlookup_Some_inv in E5 as [E5 _].
  apply Forall_cons. split; [|apply (IH (off + zlen (extents_ p))); [lia|lia|done]].
  unfold lp_partition_ok, check_partition, is_u32 in *. rewrite E1, E2, E3, E4, Hng.
  rewrite attributes_checked by done. rewrite u32_small by lia.
  split; [|rewrite !(proj2 (Z.ltb_ge _ _)), (proj2 (Z.leb_gt _ _)) by lia; done].
  split; [|lia]. pose proof (length_strncpy (name_ p) sizeof_name) as L. unfold zlen, sizeof_name in *. lia.
Qed.

(** What the fields of a builder must be for its table to fit the format. *)
Record storable (b : MetadataBuilder) : Prop := {
  so_exportable : exportable b;
  so_header : header_valid (header_ b);
  so_sizes : entry_size (h_partitions (header_ b)) = sizeof_partition ∧
             entry_size (h_extents (header_ b)) = sizeof_extent ∧
             entry_size (h_groups (header_ b)) = sizeof_group ∧
             entry_size (h_block_devices (header_ b)) = sizeof_block_device;
  so_geometry : geometry_valid (geometry_ b);
  so_attributes : Forall (λ p, is_u32 (attributes_ p) ∧
                            Z.land (attributes_ p) LP_PARTITION_ATTR_SLOT_SUFFIXED = 0) (partitions_ b);
  so_devices : Forall (λ d, block_device_ok d ∧ Z.land (bd_flags d) LP_BLOCK_DEVICE_SLOT_SUFFIXED = 0)
                 (block_devices_ b);
  so_counts : zlen (partitions_ b) < 2 ^ 32 ∧ zlen (block_devices_ b) < 2 ^ 32
}.

Lemma header_valid_export h minor np ne ng nd : header_valid h → h_minor_version h ≤ minor ≤ Z.max (h_minor_version h) 1 →
  is_u32 np → is_u32 ne → is_u32 ng → is_u32 nd →
  header_valid (mk_header (h_magic h) (h_major_version h) minor (header_size h) (header_checksum h)
    (tables_size h) (tables_checksum h) (set_table_entries np (h_partitions h)) (set_table_entries ne (h_extents h))
    (set_table_entries ng (h_groups h)) (set_table_entries nd (h_block_devices h)) (h_flags h) (h_reserved h)).
Proof.
  intros [[H1 H2 H3 H4 H5 H6 H7 (P1 & _ & P3) (E1 & _ & E3) (G1 & _ & G3) (D1 & _ & D3) H12 H13] M1 M2 M3 M4 M5]
    Hm Np Ne Ng Nd.
  unfold LP_METADATA_MINOR_VERSION_MAX, is_u16 in *.
  split; cbn [h_magic h_major_version h_minor_version header_size]; [|done|done|unfold LP_METADATA_MINOR_VERSION_MAX; lia| |].
  - split; cbn [h_magic h_major_version h_minor_version header_size header_checksum tables_size tables_checksum
      h_partitions h_extents h_groups h_block_devices h_flags h_reserved]; try done; [unfold is_u16; lia|..].
    all: split_and!; cbn [t_offset num_entries entry_size set_table_entries]; try done; apply u32_range.
  - rewrite M4. unfold expected_header_size, LP_METADATA_VERSION_FOR_EXPANDED_HEADER. cbn [h_minor_version].
    destruct (Z.ltb_spec (h_minor_version h) 2), (Z.ltb_spec minor 2); done || lia.
  - intros Hz. pose proof (M5 Hz) as E. unfold strip. cbn.
    assert (h_flags h = 0) as -> by (by rewrite E).
    assert (h_reserved h = zeros 124) as -> by (by rewrite E). done.
Qed.

Lemma zlen_sectors_elem es e : e ∈ es → Forall (λ e, 0 ≤ num_sectors e) es → num_sectors e ≤ zlen (sectors es).
Proof.
  intros He Hes. induction Hes as [|x es Hx Hes IH]; [by apply not_elem_of_nil in He|].
  unfold sectors. cbn [mbind list_bind]. rewrite zlen_app. fold (sectors es).
  pose proof (zlen_nonneg (sectors es)). rewrite zlen_extent_sectors by done.
  apply elem_of_cons in He as [->|He]; [lia|]. specialize (IH He). unfold sectors in *. lia.
Qed.

(** The extents of a well-formed table fit the fields of their entries. *)
Lemma extent_entries_ok b h : lp_ok b → zlen (block_devices_ b) < 2 ^ 32 →
  num_entries (h_block_devices h) = zlen (block_devices_ b) →
  Forall (λ e, lp_extent_ok e ∧ check_extent h e = true) (extent_entry <$> all_extents b).
Proof.
  intros Hb Hd Hn. apply Forall_forall. intros x (e & -> & He)%list_elem_of_fmap.
  pose proof (proj1 (Forall_forall _ _) (lo_extents b Hb) e He) as Hok.
  unfold lp_extent_ok, check_extent, is_u32, is_u64. rewrite Hn.
  destruct e as [n i p|n]; cbn [extent_entry e_num_sectors target_type target_data target_source].
  - pose proof (linear_bounds _ (lo_lbs b Hb) _ (lo_devices b Hb) n i p Hok) as Hl.
    destruct Hok as (_ & _ & d & Hd' & _). apply zlookup_Some_inv in Hd' as [Hd' _].
    rewrite (proj2 (Z.leb_gt _ _)) by lia. unfold LP_TARGET_TYPE_LINEAR. split; [lia|done].
  - split; [|done]. unfold LP_TARGET_TYPE_ZERO. cbn in Hok. destruct Hok as (Hpos & _).
    unfold all_extents in He. apply list_elem_of_bind in He as (p & He & Hp).
    apply list_elem_of_lookup in Hp as [i Hi].
    destruct (partition_extents_ok b i p Hb Hi) as (Hes & _ & [Hs Hm] & _).
    assert (num_sectors (ZeroExtent n) ≤ zlen (sectors (extents_ p))) as Hle.
    { apply zlen_sectors_elem; [done|]. eapply Forall_impl; [exact Hes|]. intros x (Hx & _). lia. }
    cbn in Hle, Hpos. unfold LP_SECTOR_SIZE in Hs. lia.
Qed.

Lemma export_valid b m : lp_ok b → sizes_ok b → storable b → Export b = Some m → describes b m ∧ metadata_valid m.
Proof.
  intros Hb Hsz Hst HE. pose proof (so_exportable b Hst) as Hx. destruct (Export_spec b Hb Hx) as (m0 & E & Hd).
  rewrite HE in E. injection E as <-. split; [done|].
  destruct Hst as [_ Hh (Z1 & Z2 & Z3 & Z4) _ Ha Hdv [Hc1 Hc2]].
  revert HE. unfold Export. rewrite (ex_limits b Hx), (ex_auto b Hx). cbn [negb]. rewrite list_fmap_id.
  rewrite export_groups by apply Hx. cbn [mbind option_bind].
  intros ([[minor qs] es] & HE & [= <-])%bind_Some.
  destruct Hd as [_ D2 D3 _ _]. cbn [m_partitions m_extents] in D2, D3. subst es.
  pose proof (export_minor _ _ _ _ _ _ _ _ HE) as (Hm & Hlen & Hkn). cbn [m_header].
  set (np := zlen qs). set (ne := zlen (extent_entry <$> all_extents b)).
  set (ng := zlen (group_entry <$> groups_ b)). set (nd := zlen (block_devices_ b)).
  assert (np = zlen (partitions_ b)) as Enp by (unfold np, zlen; by rewrite Hlen).
  assert (ne = zlen (all_extents b)) as Ene by (unfold ne, zlen; by rewrite length_fmap).
  assert (ng = zlen (groups_ b)) as Eng by (unfold ng, zlen; by rewrite length_fmap).
  pose proof (zlen_nonneg (partitions_ b)). pose proof (zlen_nonneg (all_extents b)).
  pose proof (zlen_nonneg (groups_ b)). pose proof (zlen_nonneg (block_devices_ b)).
  pose proof (ex_extents b Hx). pose proof (ex_count b Hx).
  assert (is_u32 np ∧ is_u32 ne ∧ is_u32 ng ∧ is_u32 nd) as (N1 & N2 & N3 & N4) by (unfold is_u32, nd; lia).
  pose proof (header_valid_export (header_ b) minor np ne ng nd Hh Hm N1 N2 N3 N4) as Hv.
  unfold is_u32 in N1, N2, N3, N4.
  split; cbn [m_header m_partitions m_extents m_groups m_block_devices]; [exact Hv|..].
  1-4: split; [cbn; apply u32_small; lia|done].
  - apply (exported_valid _ (groups_ b) (partitions_ b)) with (off := 0); [lia| | | |lia| |exact D2].
    + cbn. rewrite u32_small by lia. lia.
    + cbn. rewrite u32_small by lia. lia.
    + apply Forall_lookup. intros i p Hi. pose proof (Forall_lookup_1 _ _ _ _ Ha Hi) as [Ha1 _].
      pose proof (Forall_lookup_1 _ _ _ _ (ex_partitions b Hx) Hi) as [_ Ha2].
      split_and!; [done|done|]. exact (Forall_lookup_1 _ _ _ _ Hkn Hi).
    + cbn. rewrite u32_small by lia. fold (all_extents b). lia.
  - apply extent_entries_ok; [done|done|]. cbn. apply u32_small. fold nd. lia.
  - apply Forall_forall. intros x (gr & -> & Hg)%list_elem_of_fmap.
    pose proof (proj1 (Forall_forall _ _) Hsz gr Hg) as Hmx. cbn in Hmx.
    unfold lp_group_ok, is_u32, is_u64. cbn [gr_name gr_flags gr_maximum_size group_entry].
    split; [|lia]. pose proof (length_strncpy (g_name gr) sizeof_name). unfold zlen, sizeof_name in *. lia.
  - eapply Forall_impl; [exact Hdv|]. by intros d [? _].
Qed.

(** * Through the device and back *)

Lemma mapM_same {A} (f : A → option A) l : Forall (λ x, f x = Some x) l → mapM f l = Some l.
Proof. intros H. apply mapM_Some. induction H; by constructor. Qed.

Lemma adjust_nothing m slot : slot = 0 ∨ slot = 1 →
  Forall (λ p, Z.land (p_attributes p) LP_PARTITION_ATTR_SLOT_SUFFIXED = 0) (m_partitions m) →
  Forall (λ d, Z.land (bd_flags d) LP_BLOCK_DEVICE_SLOT_SUFFIXED = 0) (m_block_devices m) →
  Forall (λ g, gr_flags g = 0) (m_groups m) →
  AdjustMetadataForSlot m slot = Ret (Some m).
Proof.
  intros Hs Hp Hd Hg. unfold AdjustMetadataForSlot.
  assert (∃ s, SlotSuffixForSlotNumber slot = Ret s) as [s ->] by (destruct Hs as [-> | ->]; by eexists).
  cbn [mbind outcome_bind]. rewrite !mapM_same.
  - cbn [mbind option_bind]. by destruct m.
  - eapply Forall_impl; [exact Hp|]. intros p E. cbn in E. unfold adjust_partition. by rewrite E.
  - eapply Forall_impl; [exact Hd|]. intros d E. cbn in E. unfold adjust_device. by rewrite E.
  - eapply Forall_impl; [exact Hg|]. intros g E. cbn in E. unfold adjust_group. by rewrite E.
Qed.

Lemma exported_attributes groups ps : Forall (λ p, Z.land (attributes_ p) LP_PARTITION_ATTR_SLOT_SUFFIXED = 0) ps →
  ∀ off qs, exported groups off ps qs →
  Forall (λ q, Z.land (p_attributes q) LP_PARTITION_ATTR_SLOT_SUFFIXED = 0) qs.
Proof.
  induction 1 as [|p ps Hp Hps IH]; intros off [|q qs] Hex; try done.
  destruct Hex as (_ & E & _ & _ & _ & Hex). apply Forall_cons. split; [by rewrite E|by eapply IH].
Qed.

Lemma lp_ok_geometry b g : logical_block_size g = logical_block_size (geometry_ b) → lp_ok b → lp_ok (set_geometry g b).
Proof. intros E [H1 H2 H3 H4 H5 H6 H7 H8]. split; cbn; rewrite ?E; done. Qed.

Lemma exportable_geometry b g : exportable b → exportable (set_geometry g b).
Proof. intros [H1 H2 H3 H4 H5 H6]. by split. Qed.

(** The same table, up to the cut of sectors into extents. *)
Definition same_builder (b b' : MetadataBuilder) : Prop :=
  block_devices_ b' = block_devices_ b ∧ groups_ b' = groups_ b ∧
  Forall2 same_partition (partitions_ b) (partitions_ b').

Section device.
Context (SHA256 : list byte → list byte) (SHA256_length : ∀ l, length (SHA256 l) = 32%nat).

(** A stored table of the builder is imported again as the same table. *)
Lemma stored_imports b m slot : slot = 0 ∨ slot = 1 → lp_ok b → storable b → describes b m →
  ∃ m' b', AdjustMetadataForSlot (stored SHA256 (stored_geometry SHA256 (m_geometry m)) m) slot = Ret (Some m') ∧
    NewFromMetadata m' = Ret (Some b') ∧ same_builder b b'.
Proof.
  intros Hs Hb Hst Hd. set (m' := stored SHA256 (stored_geometry SHA256 (m_geometry m)) m).
  pose proof Hd as [D1 D2 D3 D4 D5]. destruct Hst as [Hx _ _ _ Ha Hdv _].
  set (b1 := set_geometry (stored_geometry SHA256 (m_geometry m)) b).
  destruct (NewFromMetadata_spec b1 m') as (b' & E & _ & N2 & N3 & N4).
  - apply lp_ok_geometry; [|done]. by rewrite D1.
  - by apply exportable_geometry.
  - by split.
  - exists m', b'. split; [|by split_and!]. apply adjust_nothing; [done|..].
    + eapply exported_attributes; [|exact D2]. eapply Forall_impl; [exact Ha|]. by intros p [_ ?].
    + cbn [m_block_devices m' stored]. rewrite D5. eapply Forall_impl; [exact Hdv|]. by intros d [_ ?].
    + cbn [m_groups m' stored]. rewrite D4. apply Forall_fmap. by apply Forall_true.
Qed.

End device.


(** * A concrete device *)

(** A stand-in for the hash function. *)
Definition toy_hash (l : list byte) : list byte :=
  le_bytes 32 (foldl (λ a b, (2 * a + b2z b) mod 65536) 1 l).

Lemma toy_hash_length l : length (toy_hash l) = 32%nat.
Proof. apply length_le_bytes. Qed.

Lemma header_new_valid : header_valid (header_ ex_table).
Proof.
  unfold ex_table. cbn [header_].
  split; [|vm_compute; reflexivity|vm_compute; reflexivity|vm_compute; discriminate|vm_compute; reflexivity|].
  - split; try (vm_compute; reflexivity); try (vm_compute; split; [discriminate|reflexivity]);
      repeat split; vm_compute; (reflexivity || discriminate).
  - intros _. vm_compute. reflexivity.
Qed.

Lemma ex_geometry_valid : geometry_valid (geometry_ ex_table).
Proof.
  unfold ex_table. cbn [geometry_].
  split; [|vm_compute; reflexivity|vm_compute; reflexivity|vm_compute; discriminate|vm_compute; reflexivity].
  split; try (vm_compute; reflexivity); vm_compute; split; (reflexivity || discriminate).
Qed.

Lemma ex_devices_ok : Forall (λ d, block_device_ok d ∧ Z.land (bd_flags d) LP_BLOCK_DEVICE_SLOT_SUFFIXED = 0)
  (block_devices_ ex_table).
Proof.
  unfold ex_table. cbn [block_devices_]. apply Forall_cons. split; [|by apply Forall_nil].
  split; [|vm_compute; reflexivity]. unfold block_device_ok, is_u32, is_u64.
  cbn [first_logical_sector alignment alignment_offset bd_size bd_partition_name bd_flags].
  split_and!; try lia. reflexivity.
Qed.

Lemma ex_table_storable : storable ex_table.
Proof.
  split; [apply ex_table_exportable|apply header_new_valid|by vm_compute|apply ex_geometry_valid| |
    apply ex_devices_ok|split; vm_compute; reflexivity].
  unfold ex_table. cbn [partitions_].
  repeat (apply Forall_cons; split; [split; [vm_compute; split; [discriminate|reflexivity]|vm_compute; reflexivity]|]).
  by apply Forall_nil.
Qed.

Definition ex_disk : disk := zeros 20480.


(** * Reading what anybody wrote *)

(** C16: whatever is on the device, the tables that the reader returns can be
    trusted by the builder: the group and extent indices of every partition and the
    device index of every linear extent lead into the tables, so
    building from the device, also for an update of the other slot, never accesses a
    table outside its bounds, and the builder has exactly the partitions and groups
    of the table, in order. *)
Theorem table_opens_safely SHA256 GetBoolProperty GetInfo d slot target keep r :
  (∀ n i, GetInfo n = Some i → i_logical_block_size i ≠ 0) →
  ReadMetadata SHA256 d slot = Ret r → (slot = 0 ∨ slot = 1) → (target = 0 ∨ target = 1) →
  (∀ m, r = Some m → indices_valid m ∧ targets_valid m) ∧
  (∃ o, NewFromDevice SHA256 GetInfo d slot = Ret o ∧
     ∀ b m, o = Some b → r = Some m → name_ <$> partitions_ b = GetPartitionName <$> m_partitions m ∧
       g_name <$> groups_ b = GetPartitionGroupName <$> m_groups m) ∧
  ∃ o, NewForUpdate SHA256 GetBoolProperty GetInfo d slot target keep = Ret o.
Proof.
  intros HI E Hs Ht. split; [|split; [|by eapply NewForUpdate_total]].
  - intros m ->. split; [by apply ReadMetadata_indices in E as [_ ?]|by eapply ReadMetadata_targets].
  - unfold NewFromDevice. rewrite E. cbn [mbind outcome_bind].
    destruct r as [m|]; [|exists None; by split]. apply ReadMetadata_indices in E as [_ Hm].
    destruct (NewWithOpener_total GetInfo HI m Hm) as (o & -> & Ho). exists o. split; [done|].
    intros b m' Hb [= <-]. by apply Ho.
Qed.

Definition ex_flashed : disk :=
  match Export ex_table with
  | Some m => match FlashPartitionTable toy_hash (bs "super") m ex_disk with Ret (_, d) => d | _ => [] end
  | None => []
  end.

Lemma table_opens_safely_witness :
  ∃ m, ReadMetadata toy_hash ex_flashed 0 = Ret (Some m) ∧ (indices_valid m ∧ targets_valid m) ∧
    ∃ o, NewForUpdate toy_hash no_bool_property (λ _, Some ex_info) ex_flashed 0 1 true = Ret o.
Proof.
  assert (match ReadMetadata toy_hash ex_flashed 0 with Ret (Some _) => true | _ => false end = true) as H
    by (vm_compute; reflexivity).
  destruct (ReadMetadata toy_hash ex_flashed 0) as [[m|]| |] eqn:E; [|discriminate H..].
  destruct (table_opens_safely toy_hash no_bool_property (λ _, Some ex_info) ex_flashed 0 1 true (Some m))
    as (H1 & _ & H2); [by intros n i [= <-]|exact E|by left|by right|].
  exists m. split; [reflexivity|]. split; [by apply H1|exact H2].
Defined.

(** A header that announces a block device in a table whose entries have no
    bytes. *)
Definition oob_header : LpMetadataHeader :=
  mk_header LP_METADATA_HEADER_MAGIC LP_METADATA_MAJOR_VERSION LP_METADATA_MINOR_VERSION_MIN sizeof_headerV1_0
    (zeros 32) 0 (zeros 32) (mk_table 0 0 sizeof_partition) (mk_table 0 0 sizeof_extent)
    (mk_table 0 0 sizeof_group) (mk_table 0 1 0) 0 (zeros 124).

Definition oob_metadata : LpMetadata := mk_metadata (geometry_ ex_table) oob_header [] [] [] [].

Lemma oob_header_valid : header_valid oob_header.
Proof.
  split; [|reflexivity|reflexivity|vm_compute; discriminate|reflexivity|reflexivity].
  split; try (vm_compute; reflexivity); try (vm_compute; split; [discriminate|reflexivity]);
    repeat split; vm_compute; (reflexivity || discriminate).
Qed.

(** C36: the entry size of the block device table is the only one that the reader
    does not check: with an entry size of 0 the table passes every check, checksums
    included, and [ParseMetadata] copies block devices from behind the buffer. *)
Theorem block_device_entry_size_unchecked SHA256 :
  (∀ l, length (SHA256 l) = 32%nat) →
  ParseMetadata SHA256 (geometry_ ex_table) (SerializeMetadata SHA256 oob_metadata) = AssertFail.
Proof.
  intros HS. unfold ParseMetadata, SerializeMetadata. rewrite read_header_spec.
  - change (tables_size (finish_header SHA256 oob_metadata)) with 0.
    change (metadata_max_size (geometry_ ex_table) <? 0) with false. cbv beta iota.
    change (tables_blob oob_metadata) with (@nil byte). change (ReadFully 0 []) with (Some (@nil byte, @nil byte)).
    cbv beta iota. change (tables_checksum (finish_header SHA256 oob_metadata)) with (SHA256 []).
    rewrite bool_decide_true by done. reflexivity.
  - apply finish_header_valid; [done|apply oob_header_valid].
  - unfold header_checks. rewrite bool_decide_true by done. reflexivity.
Qed.

Lemma block_device_entry_size_unchecked_witness :
  ParseMetadata toy_hash (geometry_ ex_table) (SerializeMetadata toy_hash oob_metadata) = AssertFail.
Proof. exact (block_device_entry_size_unchecked toy_hash toy_hash_length). Defined.

(** * Updates that stop half-way *)

(** C7: [UpdatePartitionTable] never leaves a slot without a readable table.  The
    slot holds a table in at least one copy (the other may be unreadable); the
    writer may fail at any of the writes and leave anything in the place it was
    writing.  Afterwards one of the two copies is the new table or the old one (the
    copy the reader prefers, or one with the same checksum), when the update
    reports success both are the new table, and nothing outside the metadata slots
    has changed. *)
Theorem update_keeps_a_copy SHA256 w m slot d p b c0 :
  (∀ l, length (SHA256 l) = 32%nat) → writer_ok w → slot = 0 ∨ slot = 1 → metadata_valid m →
  area_ok (m_geometry m) slot d →
  copy_state SHA256 m d (primary_at (m_geometry m) slot) p →
  copy_state SHA256 m d (backup_at (m_geometry m) slot) b → current p b = Some c0 →
  ∃ ok d', UpdatePartitionTable SHA256 w m slot d = Ret (ok, d') ∧ only_slots (m_geometry m) d d' ∧
    (ok = true →
      ReadPrimaryMetadata SHA256 d' (m_geometry m) slot = Ret (Some (stored SHA256 (m_geometry m) m)) ∧
      ReadBackupMetadata SHA256 d' (m_geometry m) slot = Ret (Some (stored SHA256 (m_geometry m) m))) ∧
    ∃ c, (c = m ∨ agrees SHA256 c0 c) ∧
      (ReadPrimaryMetadata SHA256 d' (m_geometry m) slot = Ret (Some (stored SHA256 (m_geometry m) c)) ∨
       ReadBackupMetadata SHA256 d' (m_geometry m) slot = Ret (Some (stored SHA256 (m_geometry m) c))).
Proof.
  intros HS Hw Hslot Hm Ha Hp Hb Hc. set (g := m_geometry m) in *.
  assert (metadata_max_size g < 2 ^ 32) as Hmax by (destruct Ha; unfold area_size in *; nia).
  destruct (update_spec SHA256 HS w Hw m slot p b c0 d Hslot Hm Ha Hmax Hp Hb Hc)
    as (ok & d' & E & Ho & Hok & (c & C1 & C2 & C3)).
  exists ok, d'. split_and!; [done|done| |].
  - unfold ReadPrimaryMetadata, ReadBackupMetadata. destruct (offsets g slot d Ha) as (-> & -> & _).
    cbn [mbind outcome_bind]. intros (Hu & H1 & H2)%Hok. split; by apply usable_parses.
  - exists c. split; [done|]. unfold ReadPrimaryMetadata, ReadBackupMetadata.
    destruct (offsets g slot d Ha) as (-> & -> & _). cbn [mbind outcome_bind].
    destruct C3; [left|right]; by apply usable_parses.
Qed.

Lemma ex_base_storable : storable ex_base.
Proof.
  assert (partitions_ ex_base = [] ∧ groups_ ex_base = [mk_group kDefaultGroup 0]) as [E1 E2]
    by (split; vm_compute; reflexivity).
  split; [|apply header_new_valid|by vm_compute|apply ex_geometry_valid| |apply ex_devices_ok|split; vm_compute; reflexivity].
  - split; [reflexivity|vm_compute; reflexivity| | |vm_compute; reflexivity|vm_compute; reflexivity].
    + rewrite E2. apply Forall_cons. split; [apply name_okb_ok; vm_compute; reflexivity|by apply Forall_nil].
    + rewrite E1. by apply Forall_nil.
  - rewrite E1. by apply Forall_nil.
Qed.

(** The exported tables of the two builders. *)
Definition ex_old : LpMetadata :=
  Eval vm_compute in match Export ex_table with Some m => m | None => oob_metadata end.
Definition ex_new_table : LpMetadata :=
  Eval vm_compute in match Export ex_base with Some m => m | None => oob_metadata end.

Lemma ex_old_valid : metadata_valid ex_old.
Proof.
  apply (export_valid ex_table); [apply ex_table_well_formed..|apply ex_table_storable|vm_compute; reflexivity].
Qed.

Lemma ex_new_table_valid : metadata_valid ex_new_table.
Proof.
  apply (export_valid ex_base); [apply ex_base_well_formed..|apply ex_base_storable|vm_compute; reflexivity].
Qed.

Lemma ex_old_usable : usable toy_hash ex_new_table ex_old.
Proof.
  split; [apply ex_old_valid|]. split; [|vm_compute; discriminate].
  eexists. split; [reflexivity|]. vm_compute. discriminate.
Qed.

Lemma holds_decide d pos blob : bool_decide (ztake (zlen blob) (zdrop pos d) = blob) = true → holds d pos blob.
Proof. apply bool_decide_eq_true. Qed.

(** A writer that loses power after 100 bytes, on a device whose slots hold the
    old table. *)
Lemma update_keeps_a_copy_witness :
  ∃ ok d' c, UpdatePartitionTable toy_hash (TornWriter 100) ex_new_table 1 ex_flashed = Ret (ok, d') ∧
    (c = ex_new_table ∨ agrees toy_hash ex_old c) ∧
    (ReadPrimaryMetadata toy_hash d' (m_geometry ex_new_table) 1 =
       Ret (Some (stored toy_hash (m_geometry ex_new_table) c)) ∨
     ReadBackupMetadata toy_hash d' (m_geometry ex_new_table) 1 =
       Ret (Some (stored toy_hash (m_geometry ex_new_table) c))).
Proof.
  destruct (update_keeps_a_copy toy_hash (TornWriter 100) ex_new_table 1 ex_flashed (Some ex_old) (Some ex_old) ex_old)
    as (ok & d' & E & _ & _ & c & C1 & C2).
  - apply toy_hash_length.
  - apply TornWriter_ok. lia.
  - by right.
  - apply ex_new_table_valid.
  - split; vm_compute; split || discriminate || reflexivity; discriminate || reflexivity.
  - apply copy_good; [apply ex_old_usable|]. apply holds_decide. vm_compute. reflexivity.
  - apply copy_good; [apply ex_old_usable|]. apply holds_decide. vm_compute. reflexivity.
  - reflexivity.
  - exists ok, d', c. split_and!; assumption.
Defined.

(** * Tables over several devices *)

Definition two_infos : list BlockDeviceInfo :=
  [mk_device_info 1048576 0 0 4096 (bs "super"); mk_device_info 1048576 0 0 4096 (bs "vendor")].

Definition two_ops : list lp_op :=
  [OpAddPartition (bs "system") (bs "default") 0; OpResizePartition (bs "system") 1100000 []].

Lemma two_infos_ok : Forall info_ok two_infos.
Proof.
  unfold two_infos. repeat (apply Forall_cons; split; [split; cbn; try lia; by exists 0|]). by apply Forall_nil.
Qed.

Lemma flash_refuses_extent hash super_partition m super e d :
  GetMetadataSuperBlockDevice m = Some super → e ∈ m_extents m → extent_valid super e = false →
  FlashPartitionTable hash super_partition m d = Ret (false, d).
Proof.
  intros Hs He Hv.
  assert (forallb (extent_valid super) (m_extents m) = false) as Ha.
  { apply not_true_iff_false. intros Ha. rewrite forallb_forall in Ha.
    apply list_elem_of_In in He. rewrite (Ha e He) in Hv. done. }
  unfold FlashPartitionTable, ValidateAndSerializeMetadata. rewrite Hs, Ha. cbn [negb].
  destruct (_ <? _); [done|]. destruct (_ <? _); [done|].
  destruct (negb _); [done|]. by destruct (negb _).
Qed.

(** C37: the writer compares every linear extent with the bounds of the first
    device, whichever device the extent is on.  A well-formed table, in which
    every extent lies inside its own device, is therefore not flashed when a
    linear extent starts before the first usable sector of the first device or
    ends behind its last sector; such an extent is on another device, and the
    device is left as it is.  (An extent on another device inside the bounds of
    the first one passes.) *)
Theorem second_device_rejected hash super_partition b m super rest n i s d :
  well_formed b → exportable b → Export b = Some m → block_devices_ b = super :: rest →
  LinearExtent n i s ∈ all_extents b →
  s < first_logical_sector super ∨ last_sector super < s + n →
  0 < i ∧ FlashPartitionTable hash super_partition m d = Ret (false, d).
Proof.
  intros [Hb _] Hex Hm Hds Hin Hout.
  pose proof (proj1 (Forall_forall _ _) (lo_extents b Hb) _ Hin) as (Hn & _ & dev & Hdev & Hf & Hl & _).
  pose proof (zlookup_Some_inv _ _ _ Hdev) as [Hi Hel].
  cbn [num_sectors] in Hn. split.
  { destruct (Z.eq_dec i 0) as [->|]; [|lia]. rewrite Hds in Hdev. injection Hdev as <-. lia. }
  destruct (Export_spec b Hb Hex) as (m' & Hm' & [D1 D2 D3 D4 D5]). rewrite Hm in Hm'. injection Hm' as <-.
  apply (flash_refuses_extent hash super_partition m super (extent_entry (LinearExtent n i s))).
  - unfold GetMetadataSuperBlockDevice. by rewrite D5, Hds.
  - rewrite D3. by apply list_elem_of_fmap_2.
  - unfold extent_valid, extent_entry. cbn [target_type target_data e_num_sectors]. rewrite Z.eqb_refl.
    pose proof (proj1 (Forall_forall _ _) (lo_devices b Hb) _ Hel) as Hdo.
    destruct (device_size _ dev (lo_lbs b Hb) Hdo) as (Hsz & _ & _).
    pose proof (do_size _ _ Hdo). pose proof (do_first _ _ Hdo).
    rewrite u64_small by lia. fold (last_sector super). cbn [andb]. apply negb_false_iff, orb_true_iff.
    destruct Hout; [left|right]; by apply Z.ltb_lt.
Qed.

Definition two_base : MetadataBuilder :=
  Eval vm_compute in match New two_infos (bs "super") 1024 2 with Some b => b | None => MetadataBuilder_new end.
Definition two_table : MetadataBuilder :=
  Eval vm_compute in match run_ops no_property no_bool_property two_ops two_base with
                     | Ret (_, b) => b | _ => MetadataBuilder_new end.

Lemma two_table_well_formed : well_formed two_table.
Proof.
  assert (well_formed two_base) as Hb.
  { apply (New_spec two_infos (bs "super") 1024 2 two_base two_infos_ok). vm_compute. reflexivity. }
  destruct (run_ops_ok no_property no_bool_property two_ops two_base Hb) as (b' & E & Hb' & _).
  - apply static_ops_ok; [done|]. unfold two_ops.
    repeat (apply Forall_cons; split; [cbn [op_static]; try done|]); [|by apply Forall_nil].
    split; [lia|apply no_hints_ok].
  - vm_compute in E. injection E as <-. exact Hb'.
Qed.

Lemma two_table_exportable : exportable two_table.
Proof.
  split; [vm_compute; reflexivity|vm_compute; reflexivity| | |vm_compute; reflexivity|vm_compute; reflexivity].
  - apply Forall_lookup. intros i g Hg. unfold two_table in Hg. cbn [groups_] in Hg.
    destruct i as [|[|]]; cbn in Hg; simplify_eq; apply name_okb_ok; vm_compute; reflexivity.
  - apply Forall_lookup. intros i p Hp. unfold two_table in Hp. cbn [partitions_] in Hp.
    destruct i as [|[|]]; cbn in Hp; simplify_eq;
      (split; [apply name_okb_ok; vm_compute; reflexivity|vm_compute; reflexivity]).
Qed.

Lemma second_device_rejected_witness :
  ∃ m, Export two_table = Some m ∧ LinearExtent 136 1 8 ∈ all_extents two_table ∧
    FlashPartitionTable (λ _, zeros 32) (bs "super") m (zeros 4096) = Ret (false, zeros 4096).
Proof.
  assert (LinearExtent 136 1 8 ∈ all_extents two_table) as Hin.
  { vm_compute. right. left. }
  eexists. split; [vm_compute; reflexivity|]. split; [exact Hin|].
  eapply (second_device_rejected (λ _, zeros 32) (bs "super") two_table);
    [apply two_table_well_formed|apply two_table_exportable|vm_compute; reflexivity|
     vm_compute; reflexivity|exact Hin|left; vm_compute; reflexivity].
Defined.
